(** * Verification of the review-distribution mailer (Google Apps Script)

    Shallow embedding of [Code.ts] (version 1.1.0) and of the parts of
    [src/Code.ts] (version 1.2.1) that differ from it, together with the
    properties of the distribution pipeline stated in the specification.

    Conventions of the embedding:
    - a JavaScript string is a [string]; the regular-expression engine and
      the string primitives work on its list of code units ([list ascii]).
      The model is exact for text over the ASCII repertoire;
    - a row object ([EmailRow], an open bag of string fields) is a
      [gmap string string] of its own properties; reading a missing field
      by one of the names of [EmailRow] gives [undefined], which every
      use in the program treats like the empty string;
    - the header maps and the index of template labels are plain objects
      read and written under computed keys: the model ([Js]) keeps their
      own properties in the order of creation and answers the properties
      inherited from [Object.prototype], [__proto__] included;
    - a cell of a sheet has type [any]: the functions that map header rows
      and rows are written over every type of cell with the conversions
      to boolean and to string ([Js.Any]); the sheets of the [World] hold
      texts, which is what the pipeline declares by its cast to
      [EmailRow];
    - the spreadsheet, Drive, the outbox of the mail service, the execution
      log and the UI alerts form an explicit [World], threaded through a
      state-and-exception monad;
    - what the Apps Script runtime provides and the repository does not
      define ([JSON.parse], [JSON.stringify], [HtmlService], [GmailApp],
      whether a write to a sheet succeeds) is an interface, [Runtime]. *)

From Stdlib Require Import Ascii String List ZArith Lia Bool.
From stdpp Require Import base gmap strings list pretty.

Set Default Proof Using "Type".
Local Open Scope list_scope.

(* ================================================================== *)
(** * Characters and string primitives *)
(* ================================================================== *)

Module Chars.
Local Open Scope char_scope.

Definition in_range (lo hi c : ascii) : bool :=
  (N_of_ascii lo <=? N_of_ascii c)%N && (N_of_ascii c <=? N_of_ascii hi)%N.

Definition chr (x c : ascii) : bool := Ascii.eqb x c.

Definition one_of (s : string) (c : ascii) : bool :=
  existsb (Ascii.eqb c) (list_ascii_of_string s).

Definition is_upper (c : ascii) : bool := in_range "A" "Z" c.
Definition is_lower (c : ascii) : bool := in_range "a" "z" c.
Definition is_digit (c : ascii) : bool := in_range "0" "9" c.

(** [\w] *)
Definition is_word (c : ascii) : bool :=
  is_lower c || is_upper c || is_digit c || chr "_" c.

(** [\s] and the characters removed by [trim]. *)
Definition is_space (c : ascii) : bool :=
  match c with
  | "009" | "010" | "011" | "012" | "013" | " " => true
  | _ => false
  end.

(** Line terminators: where [.] stops and where [^] (flag m) restarts. *)
Definition is_newline (c : ascii) : bool :=
  match c with
  | "010" | "013" => true
  | _ => false
  end.

Definition to_lower (c : ascii) : ascii :=
  if is_upper c then ascii_of_N (N_of_ascii c + 32) else c.

Definition to_upper (c : ascii) : ascii :=
  if is_lower c then ascii_of_N (N_of_ascii c - 32) else c.

(** A class under flag i: a character matches when its other-case form
    does. *)
Definition icase (p : ascii -> bool) (c : ascii) : bool :=
  p (to_lower c) || p (to_upper c).

End Chars.

(* ================================================================== *)
(** * Regular expressions with backtracking priority *)
(* ================================================================== *)

Module Regex.

Inductive re : Type :=
| Eps
| Cls (p : ascii -> bool)
| Seq (r1 r2 : re)
| Alt (r1 r2 : re)
| Star (r : re)
| Group (n : nat) (r : re)
| Bol
| WordB.

Definition Plus (r : re) : re := Seq r (Star r).
Definition Opt (r : re) : re := Alt r Eps.

Fixpoint Times (n : nat) (r : re) : re :=
  match n with
  | O => Eps
  | S n' => Seq r (Times n' r)
  end.

Fixpoint Lit (l : list ascii) : re :=
  match l with
  | [] => Eps
  | c :: l' => Seq (Cls (Chars.chr c)) (Lit l')
  end.

(** A position in the subject: the code units already passed (latest
    first), those still ahead, and the captures recorded so far. *)
Record cursor : Type := Cursor {
  before : list ascii;
  rest : list ascii;
  caps : list (nat * list ascii)
}.

Definition at_start (bef l : list ascii) : cursor := Cursor bef l [].

Definition span (s e : cursor) : list ascii :=
  rev (firstn (length (before e) - length (before s)) (before e)).

Definition close_group (n : nat) (s e : cursor) : cursor :=
  Cursor (before e) (rest e) ((n, span s e) :: caps e).

Definition at_line_start (s : cursor) : bool :=
  match before s with
  | [] => true
  | c :: _ => Chars.is_newline c
  end.

Definition at_word_boundary (s : cursor) : bool :=
  let a := match before s with [] => false | c :: _ => Chars.is_word c end in
  let b := match rest s with [] => false | c :: _ => Chars.is_word c end in
  xorb a b.

(** [e] lies [u] further than [s] in the same subject. *)
Definition extends_by (u : list ascii) (s e : cursor) : Prop :=
  rest s = u ++ rest e /\ before e = rev u ++ before s.

Definition extends (s e : cursor) : Prop := exists u, extends_by u s e.

Definition shorter (s' s : cursor) : bool :=
  Nat.ltb (length (rest s')) (length (rest s)).

(** Greedy iteration: one more round of the body first, stopping second.
    A round that consumes nothing is rejected, as in ECMAScript. *)
Fixpoint star (body : cursor -> list cursor) (fuel : nat) (s : cursor)
  : list cursor :=
  match fuel with
  | O => [s]
  | S f =>
      flat_map (fun s' => if shorter s' s then star body f s' else [])
               (body s) ++ [s]
  end.

(** [m r s]: every way [r] matches at [s], in the order in which a
    backtracking matcher tries them. *)
Fixpoint m (r : re) (s : cursor) : list cursor :=
  match r with
  | Eps => [s]
  | Cls p =>
      match rest s with
      | c :: t => if p c then [Cursor (c :: before s) t (caps s)] else []
      | [] => []
      end
  | Seq r1 r2 => flat_map (m r2) (m r1 s)
  | Alt r1 r2 => m r1 s ++ m r2 s
  | Star r1 => star (m r1) (S (length (rest s))) s
  | Group n r1 => map (close_group n s) (m r1 s)
  | Bol => if at_line_start s then [s] else []
  | WordB => if at_word_boundary s then [s] else []
  end.

(** [e] is the first way in which [r] matches at [s]. *)
Definition first_match (r : re) (s e : cursor) : Prop :=
  exists tl, m r s = e :: tl.

(** Started before [u ++ v], the first match of [r] ends after [u] and
    turns the captures [cs] into [g cs]. *)
Definition reaches (r : re) (bef u v : list ascii)
  (g : list (nat * list ascii) -> list (nat * list ascii)) : Prop :=
  forall cs,
    first_match r (Cursor bef (u ++ v) cs) (Cursor (rev u ++ bef) v (g cs)).

(** [r] has no match before [v]. *)
Definition fails (r : re) (bef v : list ascii) : Prop :=
  forall cs, m r (Cursor bef v cs) = [].

(** [v] is empty or starts with a code unit outside [p]. *)
Definition stops (p : ascii -> bool) (v : list ascii) : Prop :=
  match v with
  | [] => True
  | c :: _ => p c = false
  end.

(** The match chosen at a given position. *)
Definition match_at (r : re) (bef l : list ascii) : option cursor :=
  head (m r (at_start bef l)).

(** Leftmost match at or after the current position: where it starts and
    where it ends. *)
Fixpoint search (r : re) (bef l : list ascii) : option (cursor * cursor) :=
  match match_at r bef l with
  | Some e => Some (at_start bef l, e)
  | None =>
      match l with
      | [] => None
      | c :: t => search r (c :: bef) t
      end
  end.

Definition capture (n : nat) (e : cursor) : list ascii :=
  match List.find (fun p => Nat.eqb (fst p) n) (caps e) with
  | Some p => snd p
  | None => []
  end.

(** [regex.exec] in a [while] loop with flag g: all matches, left to right.
    The scan tries each position in turn. After an empty match [lastIndex]
    would not move and the source loop would not end; the pattern used
    with it always consumes input (lemma [emailRegex_consumes]). *)
Fixpoint exec_loop (r : re) (fuel : nat) (bef l : list ascii)
  : list (list ascii) :=
  match fuel with
  | O => []
  | S f =>
      match match_at r bef l with
      | Some e =>
          span (at_start bef l) e ::
          (if shorter e (at_start bef l)
           then exec_loop r f (before e) (rest e)
           else [])
      | None =>
          match l with
          | [] => []
          | c :: t => exec_loop r f (c :: bef) t
          end
      end
  end.

Definition exec_all (r : re) (l : list ascii) : list (list ascii) :=
  exec_loop r (S (length l)) [] l.

(** [String.prototype.replace] with a flag-g pattern and a replacer
    function of the match and its captures. Code units at which no match
    starts are copied; after an empty match the scan resumes one code unit
    further. *)
Fixpoint replace_loop (r : re) (f : list ascii -> cursor -> list ascii)
  (fuel : nat) (bef l : list ascii) : list ascii :=
  match fuel with
  | O => l
  | S fu =>
      let copy :=
        match l with
        | [] => []
        | c :: t => c :: replace_loop r f fu (c :: bef) t
        end in
      match match_at r bef l with
      | Some e =>
          f (span (at_start bef l) e) e ++
          (if shorter e (at_start bef l)
           then replace_loop r f fu (before e) (rest e)
           else copy)
      | None => copy
      end
  end.

Definition replace_all (r : re) (f : list ascii -> cursor -> list ascii)
  (l : list ascii) : list ascii :=
  replace_loop r f (S (length l)) [] l.

(** [String.prototype.match] with a pattern without flag g: the array of
    the first match followed by its [ngroups] captures, or [null]. *)
Definition match_first (r : re) (ngroups : nat) (l : list ascii)
  : option (list (list ascii)) :=
  match search r [] l with
  | None => None
  | Some (s, e) =>
      Some (span s e :: map (fun n => capture n e) (seq 1 ngroups))
  end.

(** [String.prototype.split] with a pattern as separator. [piece] is the
    current piece, latest code unit first; a separator is accepted unless
    it is empty and the piece is empty too. *)
Fixpoint split_loop (r : re) (fuel : nat) (piece bef l : list ascii)
  : list (list ascii) :=
  match fuel with
  | O => [rev piece ++ l]
  | S f =>
      match l with
      | [] => [rev piece]
      | c :: t =>
          match match_at r bef l with
          | Some e =>
              if shorter e (at_start bef l) || negb (Nat.eqb (length piece) 0)
              then rev piece :: split_loop r f [] (before e) (rest e)
              else split_loop r f (c :: piece) (c :: bef) t
          | None => split_loop r f (c :: piece) (c :: bef) t
          end
      end
  end.

Definition split (r : re) (l : list ascii) : list (list ascii) :=
  split_loop r (S (2 * length l)) [] [] l.

End Regex.

Module Text.
Local Open Scope char_scope.

Definition chars (s : string) : list ascii := list_ascii_of_string s.
Definition str (l : list ascii) : string := string_of_list_ascii l.

Definition truthy (s : string) : bool :=
  match s with
  | EmptyString => false
  | String _ _ => true
  end.

Definition toLowerCase (l : list ascii) : list ascii := map Chars.to_lower l.

Fixpoint trimStart (l : list ascii) : list ascii :=
  match l with
  | c :: t => if Chars.is_space c then trimStart t else l
  | [] => []
  end.

Definition trim (l : list ascii) : list ascii :=
  rev (trimStart (rev (trimStart l))).

(** [startsWith] and [endsWith] with a literal argument. *)
Fixpoint startsWith (prefix l : list ascii) : bool :=
  match prefix, l with
  | [], _ => true
  | p :: prefix', x :: l' => Ascii.eqb p x && startsWith prefix' l'
  | _ :: _, [] => false
  end.

Definition endsWith (suffix l : list ascii) : bool :=
  startsWith (rev suffix) (rev l).

Fixpoint join (sep : string) (l : list string) : string :=
  match l with
  | [] => EmptyString
  | [x] => x
  | x :: t => String.append x (String.append sep (join sep t))
  end.

Definition no_ampersand (s : string) : Prop :=
  Forall (fun c => c <> "&") (chars s).

(** [new Set(l)] keeps its elements in insertion order; adding an element
    already present changes nothing. *)
Definition Set_add (acc : list string) (x : string) : list string :=
  if existsb (String.eqb x) acc then acc else acc ++ [x].

Definition Set_of (l : list string) : list string := fold_left Set_add l [].

End Text.

(* ================================================================== *)
(** * Plain objects and values of type any *)
(* ================================================================== *)

(** The script keeps its header maps, its index of labels and its row
    objects in plain objects. Such an object inherits the properties of
    [Object.prototype]. An assignment [o[key] = v] creates or updates an
    own property, except under the key [__proto__], whose inherited setter
    creates none. [for-in] and [Object.keys] list the own keys: the array
    indices first, in ascending order, then the other keys in the order in
    which they were created. *)
Module Js.
Import Chars Text.

(** The properties of [Object.prototype]: functions all, but [__proto__],
    which answers [Object.prototype] itself. Read through a plain object
    that has no own property of the name, each of them is truthy. *)
Definition objectPrototype : list string :=
  ["constructor"; "__defineGetter__"; "__defineSetter__"; "hasOwnProperty";
   "__lookupGetter__"; "__lookupSetter__"; "isPrototypeOf";
   "propertyIsEnumerable"; "toString"; "valueOf"; "__proto__";
   "toLocaleString"]%string.

Definition inherited (key : string) : bool :=
  existsb (String.eqb key) objectPrototype.

(** ** Values of type any *)

(** What the script does with a cell of a sheet, whose type is [any] (a
    string, a number, a boolean or a date): it tests it ([ToBoolean]) and
    it uses it as a text ([ToString], for a property key and in
    [String(...)]). A string is such a value. *)
Class Any (V : Type) : Type := {
  ofString : string -> V;
  ToBoolean : V -> bool;
  ToString : V -> string;
  ToBoolean_ofString : forall s, ToBoolean (ofString s) = truthy s;
  ToString_ofString : forall s, ToString (ofString s) = s
}.

#[global] Instance Any_string : Any string := {|
  ofString := fun s => s;
  ToBoolean := truthy;
  ToString := fun s => s;
  ToBoolean_ofString := fun _ => eq_refl;
  ToString_ofString := fun _ => eq_refl
|}.

(** ** Objects whose key order is not observed *)

(** [o[key] = v] *)
Definition assign {V : Type} (key : string) (v : V) (o : gmap string V)
  : gmap string V :=
  if String.eqb key "__proto__" then o else <[key := v]> o.

(** [!!o[key]] for an object that holds strings. *)
Definition truthyAt (o : gmap string string) (key : string) : bool :=
  match o !! key with
  | Some v => truthy v
  | None => inherited key
  end.

(** ** Objects whose key order is observed *)

(** The own properties in the order of their creation. *)
Definition obj (V : Type) : Type := list (string * V).

Fixpoint own {V : Type} (o : obj V) (key : string) : option V :=
  match o with
  | [] => None
  | (k, v) :: t => if String.eqb k key then Some v else own t key
  end.

Fixpoint put {V : Type} (key : string) (v : V) (o : obj V) : obj V :=
  match o with
  | [] => [(key, v)]
  | (k, v') :: t =>
      if String.eqb k key then (k, v) :: t else (k, v') :: put key v t
  end.

(** [o[key] = v] *)
Definition store {V : Type} (key : string) (v : V) (o : obj V) : obj V :=
  if String.eqb key "__proto__" then o else put key v o.

(** [o[key]] *)
Inductive got (V : Type) : Type :=
| Own (v : V)
| Inherited
| Undefined.
Arguments Own {V} v.
Arguments Inherited {V}.
Arguments Undefined {V}.

Definition get {V : Type} (o : obj V) (key : string) : got V :=
  match own o key with
  | Some v => Own v
  | None => if inherited key then Inherited else Undefined
  end.

Fixpoint decimal (acc : N) (l : list ascii) : option N :=
  match l with
  | [] => Some acc
  | c :: t =>
      if is_digit c then decimal (10 * acc + (N_of_ascii c - 48)) t
      else None
  end.

(** The array index that [key] is the canonical writing of: a whole number
    up to 2^32 - 2, in decimal, without leading zero. *)
Definition arrayIndex (key : string) : option N :=
  match chars key with
  | [] => None
  | l =>
      match decimal 0 l with
      | Some n =>
          if (n <=? 4294967294)%N && String.eqb (pretty n) key
          then Some n else None
      | None => None
      end
  end.

Fixpoint insertIndex (n : N) (key : string) (l : list (N * string))
  : list (N * string) :=
  match l with
  | [] => [(n, key)]
  | (m, k) :: t =>
      if (n <? m)%N then (n, key) :: l else (m, k) :: insertIndex n key t
  end.

(** [Object.keys(o)], which is also the order of [for-in]. *)
Definition keys {V : Type} (o : obj V) : list string :=
  let names := map fst o in
  map snd
    (fold_left
       (fun acc key =>
          match arrayIndex key with
          | Some n => insertIndex n key acc
          | None => acc
          end)
       names []) ++
  List.filter
    (fun key => match arrayIndex key with Some _ => false | None => true end)
    names.

End Js.

(* ================================================================== *)
(** * The world outside the script *)
(* ================================================================== *)

Module Env.

Inductive LogLevel : Type := DEBUG | INFO | ERROR.

(** What the script throws, or what the services it calls throw.
    [TypeError property]: [property] was read of [undefined]. *)
Inductive Exn : Type :=
| InvalidDriveUrl (url : string)
| DriveFileUnavailable (fileId : string)
| AttachmentTooLarge (fileId : string)
| TemplateNotFound (label : string) (available : list string)
| TemplateServiceError
| JsonSyntaxError
| TypeError (property : string)
| SheetServiceError.

Record DriveFile : Type := {
  fileSize : Z;
  fileContent : string;
  trashed : bool
}.

Record Mail : Type := {
  recipients : string;
  subject : string;
  htmlBody : string;
  attachments : list string;
  fromEmail : string
}.

(** [outbox] lists every message handed to [GmailApp.sendEmail], accepted
    or not; [rendered] every text handed to [HtmlService.createTemplate];
    the three grids are the sheets, header row first. *)
Record World : Type := {
  drive : gmap string DriveFile;
  outbox : list Mail;
  rendered : list string;
  toSend : list (list string);
  history : list (list string);
  templates : list (list string);
  logs : list (LogLevel * string);
  alerts : list string;
  clock : string
}.

Definition set_drive (d : gmap string DriveFile) (w : World) : World :=
  {| drive := d; outbox := outbox w; rendered := rendered w;
     toSend := toSend w; history := history w; templates := templates w;
     logs := logs w; alerts := alerts w; clock := clock w |}.

Definition set_outbox (o : list Mail) (w : World) : World :=
  {| drive := drive w; outbox := o; rendered := rendered w;
     toSend := toSend w; history := history w; templates := templates w;
     logs := logs w; alerts := alerts w; clock := clock w |}.

Definition set_rendered (r : list string) (w : World) : World :=
  {| drive := drive w; outbox := outbox w; rendered := r;
     toSend := toSend w; history := history w; templates := templates w;
     logs := logs w; alerts := alerts w; clock := clock w |}.

Definition set_toSend (g : list (list string)) (w : World) : World :=
  {| drive := drive w; outbox := outbox w; rendered := rendered w;
     toSend := g; history := history w; templates := templates w;
     logs := logs w; alerts := alerts w; clock := clock w |}.

Definition set_history (g : list (list string)) (w : World) : World :=
  {| drive := drive w; outbox := outbox w; rendered := rendered w;
     toSend := toSend w; history := g; templates := templates w;
     logs := logs w; alerts := alerts w; clock := clock w |}.

Definition set_logs (l : list (LogLevel * string)) (w : World) : World :=
  {| drive := drive w; outbox := outbox w; rendered := rendered w;
     toSend := toSend w; history := history w; templates := templates w;
     logs := l; alerts := alerts w; clock := clock w |}.

Definition set_alerts (a : list string) (w : World) : World :=
  {| drive := drive w; outbox := outbox w; rendered := rendered w;
     toSend := toSend w; history := history w; templates := templates w;
     logs := logs w; alerts := a; clock := clock w |}.

(** ** State and exceptions *)

Inductive Outcome (A : Type) : Type :=
| Returned (a : A)
| Thrown (e : Exn).
Arguments Returned {A} a.
Arguments Thrown {A} e.

Definition M (A : Type) : Type := World -> Outcome A * World.

Definition ret {A : Type} (a : A) : M A := fun w => (Returned a, w).

Definition bind {A B : Type} (c : M A) (k : A -> M B) : M B :=
  fun w =>
    match c w with
    | (Returned a, w') => k a w'
    | (Thrown e, w') => (Thrown e, w')
    end.

Definition throw {A : Type} (e : Exn) : M A := fun w => (Thrown e, w).

Definition try_catch {A : Type} (c : M A) (handler : Exn -> M A) : M A :=
  fun w =>
    match c w with
    | (Returned a, w') => (Returned a, w')
    | (Thrown e, w') => handler e w'
    end.

(** [for (const x of l) body(x)] *)
Fixpoint for_each {A : Type} (l : list A) (body : A -> M unit) : M unit :=
  match l with
  | [] => ret tt
  | x :: t => bind (body x) (fun _ => for_each t body)
  end.

Definition Logger_log (lvl : LogLevel) (msg : string) : M unit :=
  fun w => (Returned tt, set_logs (logs w ++ [(lvl, msg)]) w).

Definition Ui_alert (msg : string) : M unit :=
  fun w => (Returned tt, set_alerts (alerts w ++ [msg]) w).

Definition DriveApp_getFileById (fileId : string) : M DriveFile :=
  fun w =>
    match drive w !! fileId with
    | Some f => (Returned f, w)
    | None => (Thrown (DriveFileUnavailable fileId), w)
    end.

Definition DriveFile_setTrashed (fileId : string) (f : DriveFile) : M unit :=
  fun w =>
    (Returned tt,
     set_drive (<[fileId := {| fileSize := fileSize f;
                               fileContent := fileContent f;
                               trashed := true |}]> (drive w)) w).

(** A step is quiet when it leaves Drive, the outbox, the sheets and the
    alerts as they were: it may only log and render. *)
Definition quiet (w w' : World) : Prop :=
  drive w' = drive w /\ outbox w' = outbox w /\ toSend w' = toSend w /\
  history w' = history w /\ templates w' = templates w /\
  alerts w' = alerts w /\ clock w' = clock w.

Definition Quiet {A : Type} (c : M A) : Prop :=
  forall w r w', c w = (r, w') -> quiet w w'.

(** A step that hands nothing to [HtmlService.createTemplate]. *)
Definition Unrendered {A : Type} (c : M A) : Prop :=
  forall w r w', c w = (r, w') -> rendered w' = rendered w.

(** The entries logged between two worlds. *)
Definition logged (w w' : World) (entries : list (LogLevel * string)) : Prop :=
  logs w' = logs w ++ entries.

(** ** What the Apps Script runtime provides *)

(** The object built by [getTemplateValues]: the parsed [template_values]
    (or the literal [{}]) with the session identifier assigned on top. *)
Inductive JsObject (J : Type) : Type :=
| EmptyObject
| Parsed (j : J).
Arguments EmptyObject {J}.
Arguments Parsed {J} j.

Record TemplateValues (J : Type) : Type := {
  parsed : JsObject J;
  sessionId : option string
}.
Arguments parsed {J} t.
Arguments sessionId {J} t.

(** [None] stands for a thrown error, [false] for a refused message and
    for a call of the sheet service that throws. [Error_message] is the
    [message] of an error that the engine or a service throws. *)
Class Runtime : Type := {
  json : Type;
  JSON_parse : string -> option json;
  JSON_stringify : json -> string;
  template : Type;
  HtmlService_createTemplate : string -> option template;
  HtmlTemplate_evaluate : template -> TemplateValues json -> option string;
  GmailApp_sendEmail : Mail -> bool;
  Sheet_appendRow : World -> list string -> bool;
  Sheet_deleteRow : World -> nat -> bool;
  Error_message : Exn -> string
}.

(** What the script relies on: the text that [JSON.stringify] makes of a
    parsed value can be parsed, and so can the text of the empty object. *)
Definition JsonContract (R : Runtime) : Prop :=
  (forall s v, JSON_parse s = Some v ->
               is_Some (JSON_parse (JSON_stringify v))) /\
  is_Some (JSON_parse "{}").

Definition createTemplate `{Runtime} (text : string) : M template :=
  fun w =>
    let w' := set_rendered (rendered w ++ [text]) w in
    match HtmlService_createTemplate text with
    | Some t => (Returned t, w')
    | None => (Thrown TemplateServiceError, w')
    end.

Definition evaluate `{Runtime} (t : template) (v : TemplateValues json)
  : M string :=
  match HtmlTemplate_evaluate t v with
  | Some s => ret s
  | None => throw TemplateServiceError
  end.

(** [historySheet.appendRow(row)]: the row is added below the last one,
    or the call throws and the sheet is as before. *)
Definition historySheet_appendRow `{Runtime} (row : list string) : M unit :=
  fun w =>
    if Sheet_appendRow w row
    then (Returned tt, set_history (history w ++ [row]) w)
    else (Thrown SheetServiceError, w).

(** [sourceSheet.deleteRow(rowIndex)], rows counted from 1: the row is
    removed, or the call throws and the sheet is as before. A row that the
    sheet does not have cannot be removed. *)
Definition sourceSheet_deleteRow `{Runtime} (rowIndex : nat) : M unit :=
  fun w =>
    if Nat.leb 1 rowIndex && Nat.leb rowIndex (length (toSend w)) &&
       Sheet_deleteRow w rowIndex
    then (Returned tt, set_toSend (delete (rowIndex - 1) (toSend w)) w)
    else (Thrown SheetServiceError, w).

(** A row object and the reading of one of its fields. *)
Abbreviation EmailRow := (gmap string string).

Definition field (row : gmap string string) (key : string) : string :=
  default EmptyString (row !! key).

End Env.

Declare Scope m_scope.
Delimit Scope m_scope with M.
Notation "x <- c1 ;; c2" := (Env.bind c1 (fun x => c2))
  (at level 100, c1 at next level, right associativity) : m_scope.
Notation "c1 ;; c2" := (Env.bind c1 (fun _ => c2))
  (at level 100, right associativity) : m_scope.

(* ================================================================== *)
(** * Code.ts (version 1.1.0) *)
(* ================================================================== *)

Module Code.
Import Env Regex Chars Text.
Local Open Scope char_scope.
Local Open Scope m_scope.
Local Infix ">>" := Seq (at level 60, right associativity).

Module CONFIG.
Definition FROM_EMAIL : string := "constdoc@ucsc.edu".
Definition DEFAULT_SUBJECT : string := "Your Subject Here".
Definition DEBUG_MODE : bool := true.
End CONFIG.

Module SheetNames.
Definition TO_SEND : string := "distributions_to_send".
Definition SENT_HISTORY : string := "sent_history".
Definition TEMPLATES : string := "distribution_templates".
End SheetNames.

Definition MAX_ATTACHMENT_SIZE : Z := 21 * 1024 * 1024.

(** One entry per call of [CustomLogger]; the level replaces the textual
    prefix and the dump of the error object is left out. *)
Module CustomLogger.
Definition debug (message : string) : M unit :=
  if CONFIG.DEBUG_MODE then Logger_log DEBUG message else ret tt.
Definition error (message : string) : M unit := Logger_log ERROR message.
Definition info (message : string) : M unit := Logger_log INFO message.
End CustomLogger.

(** The rows are of type [any[]]: the functions are stated for every type
    of cell; the send pipeline uses them on rows of strings, which is what
    the cast of their result to [EmailRow] declares. *)
Module SpreadsheetUtils.
Section WithCells.
Context {V : Type} `{Js.Any V}.

Definition mapHeadersToIndices (headerRow : list V) : Js.obj nat :=
  fold_left (fun acc p => Js.store (Js.ToString (snd p)) (fst p) acc)
    (imap pair headerRow) [].

(** [row[i] || ''] *)
Definition cell (row : list V) (i : nat) : V :=
  match row !! i with
  | Some v => if Js.ToBoolean v then v else Js.ofString EmptyString
  | None => Js.ofString EmptyString
  end.

(** [row[headers[key]] || '']: under an inherited key [headers[key]] is an
    object, and the row has no element of that name. *)
Definition cellUnder (row : list V) (headers : Js.obj nat) (key : string) : V :=
  match Js.get headers key with
  | Js.Own i => cell row i
  | Js.Inherited => Js.ofString EmptyString
  | Js.Undefined => Js.ofString EmptyString
  end.

Definition mapRowToObject (row : list V) (headers : Js.obj nat)
  (requiredFields : list string) : gmap string V :=
  let result :=
    fold_left
      (fun res f =>
         Js.assign f
           (match Js.get headers f with
            | Js.Undefined => Js.ofString EmptyString
            | _ => cellUnder row headers f
            end) res)
      requiredFields (∅ : gmap string V) in
  fold_left
    (fun res header =>
       match res !! header with
       | Some _ => res
       | None => Js.assign header (cellUnder row headers header) res
       end)
    (Js.keys headers) result.

End WithCells.
End SpreadsheetUtils.

Module FileUtils.

Definition fileIdChar (c : ascii) : bool := chr "-" c || is_word c.

(** [/[-\w]{25,}/] *)
Definition fileIdRegex : re :=
  Times 25 (Cls fileIdChar) >> Star (Cls fileIdChar).

(** [url.match(/[-\w]{25,}/)?.[0]], when it is there and not empty. *)
Definition matchedFileId (url : string) : option string :=
  match match_first fileIdRegex 0 (chars url) with
  | Some (m0 :: _) => if truthy (str m0) then Some (str m0) else None
  | _ => None
  end.

Definition extractFileId (url : string) : M string :=
  match matchedFileId url with
  | Some fileId => ret fileId
  | None => throw (InvalidDriveUrl url)
  end.

Definition getFileContentFromUrl (url : string) : M string :=
  fileId <- extractFileId url ;;
  CustomLogger.debug ("Retrieving content for fileId: " +:+ fileId) ;;
  file <- DriveApp_getFileById fileId ;;
  let content := fileContent file in
  CustomLogger.debug
    ("Content retrieved (first 100 chars): " +:+ String.substring 0 100 content) ;;
  ret content.

Definition isFileTooLarge (fileId : string) (maxSize : Z) : M bool :=
  file <- DriveApp_getFileById fileId ;;
  ret (maxSize <? fileSize file)%Z.

(** A blob is identified by the file it is read from. *)
Definition getFileBlob (fileId : string) : M string :=
  _ <- DriveApp_getFileById fileId ;;
  ret fileId.

Definition trashFile (fileId : string) : M bool :=
  try_catch
    (file <- DriveApp_getFileById fileId ;;
     DriveFile_setTrashed fileId file ;;
     ret true)
    (fun _ =>
       CustomLogger.error ("Error trashing file: " +:+ fileId) ;;
       ret false).

End FileUtils.

Module EmailUtils.

(** [/^\/\/.*/gm] *)
Definition commentRegex : re :=
  Bol >> Lit ["/"; "/"] >> Star (Cls (fun c => negb (is_newline c))).

Definition atomChar (c : ascii) : bool :=
  is_lower c || is_digit c || one_of "!#$%&'*+/=?^_`{|}~-" c.
Definition alnum (c : ascii) : bool := is_lower c || is_digit c.
Definition alnumHyphen (c : ascii) : bool := alnum c || chr "-" c.

(** Pieces of the address pattern, all under flag i. *)
Definition I (p : ascii -> bool) : re := Cls (icase p).
Definition ILit (s : string) : re :=
  fold_right (fun c r => I (chr c) >> r) Eps (chars s).
Definition ws : re := Cls is_space.

(** [[a-z0-9](?:[a-z0-9-]*[a-z0-9])?] *)
Definition label : re := I alnum >> Opt (Star (I alnumHyphen) >> I alnum).

(** The local part [[a-z0-9!#$%&'*+\/=?^_`{|}~-]+(?:\.[...]+)*] *)
Definition localPart : re :=
  Plus (I atomChar) >> Star (I (chr ".") >> Plus (I atomChar)).

Definition emailRegex : re :=
  Group 1
    (localPart >>
     Group 2 (Alt (I (chr "@")) (Plus ws >> ILit "at" >> Plus ws)) >>
     Plus (label >>
           Group 3 (Alt (I (chr ".")) (Plus ws >> ILit "dot" >> Plus ws))) >>
     label).

(** [/\s+(at|dot)\s+/g] and its replacer [(m, p1) => p1 === 'at' ? '@' : '.'] *)
Definition obfuscationRegex : re :=
  Plus ws >> Group 1 (Alt (Lit (chars "at")) (Lit (chars "dot"))) >> Plus ws.

Definition deobfuscate (m0 : list ascii) (e : cursor) : list ascii :=
  if String.eqb (str (capture 1 e)) "at" then ["@"] else ["."].

Definition parseEmailAddresses (input : string) : list string :=
  if negb (truthy input) then []
  else
    let cleanInput :=
      toLowerCase (replace_all commentRegex (fun _ _ => []) (chars input)) in
    flat_map
      (fun m0 =>
         if negb (startsWith ["/"; "/"] m0)
         then [str (replace_all obfuscationRegex deobfuscate m0)]
         else [])
      (exec_all emailRegex cleanInput).

(** [/\b\d{3}-\d{3}-\d{3}\b/] *)
Definition sessionIdRegex : re :=
  WordB >> Times 3 (Cls is_digit) >> Cls (chr "-") >>
  Times 3 (Cls is_digit) >> Cls (chr "-") >>
  Times 3 (Cls is_digit) >> WordB.

Definition parseSessionId (text : string) : M (option string) :=
  if negb (truthy text) then ret None
  else
    match match_first sessionIdRegex 0 (chars text) with
    | None =>
        CustomLogger.debug
          ("No Bluebeam Session ID found in the text: " +:+ text) ;;
        ret None
    | Some matches =>
        let ids := List.filter truthy (map str matches) in
        CustomLogger.debug ("Found session IDs: " +:+ join ", " ids) ;;
        (if Nat.ltb 1 (length ids)
         then CustomLogger.debug
                ("Multiple different session IDs found in the text: " +:+
                 text +:+ String "010" " Using first match.")
         else ret tt) ;;
        ret (match ids with
             | id :: _ => if truthy id then Some id else None
             | [] => None
             end)
    end.

Definition combineEmailAddresses (sources : list string) : option string :=
  let allEmails :=
    flat_map
      (fun source => if truthy source then parseEmailAddresses source else [])
      sources in
  let uniqueEmails := Set_of (List.filter truthy allEmails) in
  if Nat.ltb 0 (length uniqueEmails) then Some (join "," uniqueEmails)
  else None.

Definition sendEmail `{Runtime} (recipients subject htmlBody : string)
  (attachments : list string) : M bool :=
  CustomLogger.debug
    ("Sending email to: " +:+ recipients +:+ ", Subject: " +:+ subject +:+
     ", Attachments: " +:+ pretty (length attachments)) ;;
  let mail := {| Env.recipients := recipients; Env.subject := subject;
                 Env.htmlBody := htmlBody; Env.attachments := attachments;
                 fromEmail := CONFIG.FROM_EMAIL |} in
  accepted <- (fun w => (Returned (GmailApp_sendEmail mail),
                         set_outbox (outbox w ++ [mail]) w)) ;;
  if accepted : bool
  then CustomLogger.debug "Email sent successfully" ;; ret true
  else CustomLogger.error "Error sending email" ;; ret false.

End EmailUtils.

Module TextUtils.

Definition replaceLiteral (pattern replacement : list ascii)
  (l : list ascii) : list ascii :=
  replace_all (Lit pattern) (fun _ _ => replacement) l.

Definition decodeHtmlEntities (text : string) : string :=
  if negb (truthy text) then text
  else
    str (replaceLiteral (chars "&#39;") ["'"]
          (replaceLiteral (chars "&quot;") ["034"]
            (replaceLiteral (chars "&gt;") [">"]
              (replaceLiteral (chars "&lt;") ["<"]
                (replaceLiteral (chars "&amp;") ["&"] (chars text)))))).

(** The cleaning done before the text is parsed:
    [.replace(/\\"/g, '"').replace(/\\\\/g, '\\').replace(/\r?\n/g, ' ').trim()]
    and the wrapping in braces. *)
Definition cleanJsonText (text : list ascii) : list ascii :=
  let cleaned :=
    trim
      (replace_all (Opt (Cls (chr "013")) >> Cls (chr "010")) (fun _ _ => [" "])
        (replaceLiteral ["\"; "\"] ["\"]
          (replaceLiteral ["\"; "034"] ["034"] text))) in
  let cleaned := if negb (startsWith ["{"] cleaned) then "{" :: cleaned
                 else cleaned in
  if negb (endsWith ["}"] cleaned) then cleaned ++ ["}"] else cleaned.

Definition sanitizeJsonText `{Runtime} (text : string) : M string :=
  if negb (truthy text) then ret text
  else
    try_catch
      (match JSON_parse (str (cleanJsonText (chars text))) with
       | Some parsed => ret (JSON_stringify parsed)
       | None => throw JsonSyntaxError
       end)
      (fun _ =>
         CustomLogger.error "Error sanitizing JSON text" ;;
         ret "{}"%string).

End TextUtils.

Module EmailBuilder.
Section WithRuntime.
Context `{Runtime}.

Definition getTemplateValues (row : EmailRow) : M (TemplateValues json) :=
  sanitized <- TextUtils.sanitizeJsonText (field row "template_values") ;;
  values <- (if truthy sanitized
             then match JSON_parse sanitized with
                  | Some j => ret (Parsed j)
                  | None => throw JsonSyntaxError
                  end
             else ret EmptyObject) ;;
  sessionId <- EmailUtils.parseSessionId (field row "revu_session_invite") ;;
  ret {| parsed := values; sessionId := sessionId |}.

Definition buildEmailBody (row : EmailRow) : M (option string) :=
  try_catch
    (templateContent <-
       FileUtils.getFileContentFromUrl (field row "email_body_template") ;;
     values <- getTemplateValues row ;;
     htmlTemplate <- createTemplate templateContent ;;
     content <- evaluate htmlTemplate values ;;
     ret (Some content))
    (fun _ =>
       CustomLogger.error "Error building email body" ;;
       ret None).

(** The [try] block of [getFinalSubject]. *)
Definition evaluateSubject (row : EmailRow) : M string :=
  subjectTemplate <- createTemplate (field row "email_subject_template") ;;
  values <- getTemplateValues row ;;
  content <- evaluate subjectTemplate values ;;
  let processedSubject :=
    TextUtils.decodeHtmlEntities (str (trim (chars content))) in
  ret (if truthy processedSubject then processedSubject
       else CONFIG.DEFAULT_SUBJECT).

Definition getFinalSubject (row : EmailRow) : M string :=
  if truthy (field row "email_subject_template")
  then
    try_catch (evaluateSubject row)
      (fun _ =>
         CustomLogger.error "Error building subject from template" ;;
         ret CONFIG.DEFAULT_SUBJECT)
  else ret CONFIG.DEFAULT_SUBJECT.

(** [this.row.attachments_urls.split(/[,;]+/).map(url => url.trim())] *)
Definition fileUrls (row : EmailRow) : list string :=
  map (fun url => str (trim url))
      (split (Plus (Cls (one_of ",;"))) (chars (field row "attachments_urls"))).

(** One round of the loop of [getAttachments]. *)
Definition attach (url : string) : M string :=
  try_catch
    (fileId <- FileUtils.extractFileId url ;;
     CustomLogger.debug ("Retrieving attachment for fileId: " +:+ fileId) ;;
     tooLarge <- FileUtils.isFileTooLarge fileId MAX_ATTACHMENT_SIZE ;;
     (if tooLarge : bool
      then CustomLogger.error "Attachment too large" ;;
           throw (AttachmentTooLarge fileId)
      else ret tt) ;;
     FileUtils.getFileBlob fileId)
    (fun error =>
       CustomLogger.error ("Error attaching file from URL " +:+ url) ;;
       throw error).

Fixpoint attachAll (urls : list string) : M (list string) :=
  match urls with
  | [] => ret []
  | url :: urls' =>
      blob <- attach url ;;
      blobs <- attachAll urls' ;;
      ret (blob :: blobs)
  end.

Definition getAttachments (row : EmailRow) : M (list string) :=
  if negb (truthy (field row "attachments_urls"))
  then CustomLogger.debug "No attachments provided." ;; ret []
  else
    let urls := fileUrls row in
    CustomLogger.debug
      ("Processing " +:+ pretty (length urls) +:+ " attachment(s).") ;;
    attachments <- attachAll urls ;;
    CustomLogger.debug
      ("Total attachments retrieved: " +:+ pretty (length attachments)) ;;
    ret attachments.

Definition trashAttachments (row : EmailRow) : M unit :=
  if negb (truthy (field row "attachments_urls")) then ret tt
  else
    for_each (fileUrls row)
      (fun url =>
         try_catch
           (fileId <- FileUtils.extractFileId url ;;
            CustomLogger.debug ("Trashing file with fileId: " +:+ fileId) ;;
            _ <- FileUtils.trashFile fileId ;;
            ret tt)
           (fun _ =>
              CustomLogger.error ("Error trashing file from URL " +:+ url))).

Definition sendEmail (row : EmailRow) : M bool :=
  let recipients :=
    EmailUtils.combineEmailAddresses
      [field row "distribution_emails"; field row "additional_emails"] in
  match recipients with
  | Some to =>
      if truthy to
      then
        emailBody <- buildEmailBody row ;;
        match emailBody with
        | Some body =>
            if truthy body
            then
              attachments <- getAttachments row ;;
              subject <- getFinalSubject row ;;
              sent <- EmailUtils.sendEmail to subject body attachments ;;
              (if sent : bool then trashAttachments row else ret tt) ;;
              ret sent
            else
              CustomLogger.debug "Email body could not be generated." ;;
              ret false
        | None =>
            CustomLogger.debug "Email body could not be generated." ;;
            ret false
        end
      else CustomLogger.debug "No valid email addresses found." ;; ret false
  | None => CustomLogger.debug "No valid email addresses found." ;; ret false
  end.

End WithRuntime.
End EmailBuilder.

Module TemplateManager.

Record t : Type := {
  templateData : list (list string);
  headerMap : Js.obj nat;
  templateLabelIndex : Js.obj nat
}.

(** The loop that indexes the rows 1, 2, ... of the sheet by label:
    [const label = data[i][labelColumn]; if (label) index[label] = i]. *)
Definition indexLabels (data : list (list string)) (labelColumn : nat)
  : Js.obj nat :=
  fold_left
    (fun index i =>
       match default [] (data !! i) !! labelColumn with
       | Some label => if truthy label then Js.store label i index else index
       | None => index
       end)
    (seq 1 (length data - 1)) [].

Definition loadTemplateData (data : list (list string)) : t :=
  if Nat.leb (length data) 1
  then {| templateData := data; headerMap := []; templateLabelIndex := [] |}
  else
    let headers : list string := default [] (data !! 0) in
    let hm := SpreadsheetUtils.mapHeadersToIndices headers in
    match Js.own hm "template_label" with
    | None => {| templateData := data; headerMap := hm;
                 templateLabelIndex := [] |}
    | Some labelColumn =>
        {| templateData := data; headerMap := hm;
           templateLabelIndex := indexLabels data labelColumn |}
    end.

Definition requiredFields : list string :=
  ["template_label"; "distribution_emails"; "additional_emails";
   "revu_session_invite"; "template_values"; "email_body_template";
   "attachments_urls"; "email_subject_template";
   "subject_template_value"]%string.

(** [this.templateData[rowIndex]]: the index answers a row number, or,
    under an inherited name, an object, for which the array has no
    element. *)
Definition templateRow (tm : t) (rowIndex : Js.got nat)
  : option (list string) :=
  match rowIndex with
  | Js.Own i => templateData tm !! i
  | Js.Inherited => None
  | Js.Undefined => None
  end.

(** The column whose cell [mapRowToObject] reads first: the one of the
    first required field that is a header, or else the one of the first
    header. None of the required fields has an inherited name. *)
Definition firstColumnRead (headers : Js.obj nat) : option nat :=
  head (omap (Js.own headers) (requiredFields ++ Js.keys headers)).

(** [mapRowToObject(undefined, headers, requiredFields)]: the first cell
    that is read throws; when the header map is empty no cell is read and
    every required field is the empty string. *)
Definition mapUndefinedToObject (headers : Js.obj nat) : Outcome EmailRow :=
  match firstColumnRead headers with
  | Some column => Thrown (TypeError (pretty column))
  | None =>
      Returned
        (fold_left (fun res f => Js.assign f EmptyString res)
           requiredFields (∅ : EmailRow))
  end.

Definition getTemplateByLabel (tm : t) (label : string)
  : Outcome (option EmailRow) :=
  if negb (truthy label) then Returned None
  else
    let rowIndex := Js.get (templateLabelIndex tm) label in
    match rowIndex with
    | Js.Undefined => Returned None
    | Js.Own O => Returned None
    | _ =>
        let emailRow :=
          match templateRow tm rowIndex with
          | Some row =>
              Returned
                (SpreadsheetUtils.mapRowToObject row (headerMap tm)
                   requiredFields)
          | None => mapUndefinedToObject (headerMap tm)
          end in
        match emailRow with
        | Returned emailRow =>
            Returned (Some (<["template_label"%string := label]> emailRow))
        | Thrown e => Thrown e
        end
    end.

Definition getAvailableTemplates (tm : t) : list string :=
  Js.keys (templateLabelIndex tm).

End TemplateManager.

Module EmailProcessor.
Section WithRuntime.
Context `{Runtime}.

(** The loop [for (const key in template)] of [applyTemplateIfNeeded]:
    [if (!row[key] && template[key]) row[key] = template[key]]. *)
Definition applyTemplate (template row : EmailRow) : EmailRow :=
  map_fold
    (fun key value row =>
       if negb (Js.truthyAt row key) && truthy value
       then Js.assign key value row
       else row)
    row template.

Definition applyTemplateIfNeeded (tm : TemplateManager.t) (row : EmailRow)
  : M EmailRow :=
  if negb (truthy (field row "template_label")) then ret row
  else
    match TemplateManager.getTemplateByLabel tm (field row "template_label") with
    | Thrown e => throw e
    | Returned None =>
        throw (TemplateNotFound (field row "template_label")
                 (TemplateManager.getAvailableTemplates tm))
    | Returned (Some template) => ret (applyTemplate template row)
    end.

(** The [message] of an error: the text given to [new Error] where the
    script throws, the text of the engine or of the service otherwise. *)
Definition message (e : Exn) : string :=
  match e with
  | InvalidDriveUrl url => "Invalid Google Drive URL: " +:+ url
  | AttachmentTooLarge fileId => "Attachment file too large: " +:+ fileId
  | TemplateNotFound label available =>
      "Template " +:+ String "034" (label +:+ String "034"
        (" not found in the " +:+ SheetNames.TEMPLATES +:+
         " sheet. Available templates: " +:+
         (let names := join ", " available in
          if truthy names then names else "None")))
  | _ => Error_message e
  end.

Definition validateRow (row : EmailRow) : M bool :=
  if negb (truthy (field row "distribution_emails")) &&
     negb (truthy (field row "additional_emails"))
  then CustomLogger.debug "No recipient email addresses provided." ;; ret false
  else if negb (truthy (field row "email_body_template"))
  then CustomLogger.debug "No email template URL provided." ;; ret false
  else ret true.

Definition processRow (row : EmailRow) : M bool :=
  valid <- validateRow row ;;
  if valid : bool then EmailBuilder.sendEmail row else ret false.

(** [rowIndex] counts from 1, as the sheet does. *)
Definition moveRowToHistory (rowIndex : nat) (rowData : list string) : M unit :=
  rowWithTimestamp <- (fun w => (Returned (rowData ++ [clock w]), w)) ;;
  historySheet_appendRow rowWithTimestamp ;;
  sourceSheet_deleteRow rowIndex.

(** The body of the loop of [sendEmails] for the row at index [i]. *)
Definition sendRow (tm : TemplateManager.t) (headers : Js.obj nat)
  (i : nat) (row : list string) : M unit :=
  try_catch
    (if forallb (fun cell => negb (truthy cell)) row
     then CustomLogger.debug ("Skipping empty row " +:+ pretty (i + 1))
     else
       let rawEmailRow := SpreadsheetUtils.mapRowToObject row headers [] in
       resolved <-
         try_catch
           (emailRow <- applyTemplateIfNeeded tm rawEmailRow ;;
            ret (Some emailRow))
           (fun templateError =>
              CustomLogger.error ("Template error in row " +:+ pretty (i + 1)) ;;
              Ui_alert ("Error with template in row " +:+ pretty (i + 1) +:+
                        ": " +:+ message templateError) ;;
              ret None) ;;
       match resolved with
       | None => ret tt
       | Some emailRow =>
           processed <- processRow emailRow ;;
           if processed : bool
           then
             CustomLogger.debug
               ("Row " +:+ pretty (i + 1) +:+
                " processed successfully. Moving to history.") ;;
             moveRowToHistory (i + 1) row
           else
             CustomLogger.debug
               ("Row " +:+ pretty (i + 1) +:+
                " skipped due to validation or processing failure.")
       end)
    (fun _ => CustomLogger.error ("Error processing row " +:+ pretty (i + 1))).

(** [for (let i = data.length - 1; i >= 1; i--)] over the rows read at the
    start of the run. *)
Definition sendEmails : M unit :=
  fun w =>
    let data := toSend w in
    let headers :=
      SpreadsheetUtils.mapHeadersToIndices (default [] (data !! 0)) in
    let tm := TemplateManager.loadTemplateData (templates w) in
    for_each (rev (seq 1 (length data - 1)))
      (fun i => sendRow tm headers i (default [] (data !! i))) w.

End WithRuntime.
End EmailProcessor.

End Code.

(* ================================================================== *)
(** * Obfuscated addresses: the inputs "a at b dot c" *)
(* ================================================================== *)

Module Obfuscated.
Import Chars Text Code.EmailUtils.
Local Open Scope char_scope.

(** A run of characters of the local part, without dot. *)
Definition atom (l : list ascii) : bool :=
  negb (Nat.eqb (length l) 0) && forallb (icase atomChar) l.

(** Atoms separated by dots. *)
Definition local_part (first : list ascii) (more : list (list ascii))
  : list ascii :=
  first ++ flat_map (fun x => "." :: x) more.

(** A domain label: letters, digits and inner hyphens. *)
Definition is_label (l : list ascii) : bool :=
  match l with
  | [] => false
  | x :: t =>
      icase alnum x &&
      match rev t with
      | [] => true
      | y :: mid => icase alnum y && forallb (icase alnumHyphen) mid
      end
  end.

Definition spaces (l : list ascii) : bool :=
  negb (Nat.eqb (length l) 0) && forallb is_space l.

(** [l] is [word] up to the case of its letters. *)
Definition spells (word : string) (l : list ascii) : bool :=
  String.eqb (str (toLowerCase l)) word.

Definition text (a w1 AT w2 b w3 DOT w4 c : list ascii) : list ascii :=
  a ++ w1 ++ AT ++ w2 ++ b ++ w3 ++ DOT ++ w4 ++ c.

End Obfuscated.

(* ================================================================== *)
(** * src/Code.ts (version 1.2.1): what differs and is used below *)
(* ================================================================== *)

Module SrcCode.
Import Env Regex Chars Text.
Local Open Scope char_scope.
Local Open Scope m_scope.
Local Infix ">>" := Seq (at level 60, right associativity).

Module CONFIG.
Definition DEFAULT_SUBJECT : string := "Your Subject Here".
End CONFIG.

Module AppScriptLogger.
Definition info (message : string) : M unit := Logger_log INFO message.
Definition error (message : string) : M unit := Logger_log ERROR message.
End AppScriptLogger.

Module EmailUtils.

Definition parseSessionId (text : string) : option string :=
  if negb (truthy text) then None
  else
    match match_first Code.EmailUtils.sessionIdRegex 0 (chars text) with
    | Some (m0 :: _) => Some (str m0)
    | _ => None
    end.

End EmailUtils.

Module TextUtils.

Definition decodeHtmlEntities (text : string) : string :=
  str (Code.TextUtils.replaceLiteral (chars "&#39;") ["'"]
        (Code.TextUtils.replaceLiteral (chars "&quot;") ["034"]
          (Code.TextUtils.replaceLiteral (chars "&gt;") [">"]
            (Code.TextUtils.replaceLiteral (chars "&lt;") ["<"]
              (Code.TextUtils.replaceLiteral (chars "&amp;") ["&"]
                (chars text)))))).

(** [text.replace(/&/g, 'and')] *)
Definition sanitizeInput (text : string) : string :=
  if negb (truthy text) then EmptyString
  else str (replace_all (Cls (chr "&")) (fun _ _ => chars "and") (chars text)).

(** The cleaning chain is the one of version 1.1.0, letter for letter;
    only the answer to an empty text differs. *)
Definition sanitizeJsonText `{Runtime} (text : string) : M string :=
  if negb (truthy text) then ret "{}"%string
  else
    try_catch
      (match JSON_parse (str (Code.TextUtils.cleanJsonText (chars text))) with
       | Some obj => ret (JSON_stringify obj)
       | None => throw JsonSyntaxError
       end)
      (fun _ =>
         AppScriptLogger.error "Error sanitizing JSON" ;;
         ret "{}"%string).

End TextUtils.

Module EmailBuilder.
Section WithRuntime.
Context `{Runtime}.

(** The constructor: the row it keeps. *)
Definition new (row : EmailRow) : EmailRow :=
  let row :=
    if truthy (field row "subject_template_value")
    then <["subject_template_value"%string :=
             TextUtils.sanitizeInput (field row "subject_template_value")]> row
    else row in
  if truthy (field row "email_subject_template")
  then <["email_subject_template"%string :=
           TextUtils.sanitizeInput (field row "email_subject_template")]> row
  else row.

Definition getTemplateValues (row : EmailRow) : M (TemplateValues json) :=
  text <- TextUtils.sanitizeJsonText (field row "email_template_values") ;;
  vals <- match JSON_parse text with
          | Some j => ret (Parsed j)
          | None => throw JsonSyntaxError
          end ;;
  ret {| parsed := vals;
         sessionId := EmailUtils.parseSessionId (field row "revu_session_invite") |}.

Definition getFinalSubject (row : EmailRow) : M string :=
  if negb (truthy (field row "email_subject_template"))
  then ret CONFIG.DEFAULT_SUBJECT
  else
    try_catch
      (tpl <- createTemplate (field row "email_subject_template") ;;
       vals <- getTemplateValues row ;;
       content <- evaluate tpl vals ;;
       let s := TextUtils.decodeHtmlEntities (str (trim (chars content))) in
       ret (if truthy s then s else CONFIG.DEFAULT_SUBJECT))
      (fun _ =>
         AppScriptLogger.error "Error building subject" ;;
         ret CONFIG.DEFAULT_SUBJECT).

End WithRuntime.
End EmailBuilder.

End SrcCode.

(* ================================================================== *)
(** * The cleaning passes as the specification words them *)
(* ================================================================== *)

Module Passes.
Import Chars Text.
Local Open Scope char_scope.

(** Every pair [a b] becomes [rep], reading from the left. *)
Fixpoint replace_pair (a b : ascii) (rep l : list ascii) : list ascii :=
  match l with
  | [] => []
  | x :: t =>
      match t with
      | y :: t' =>
          if Ascii.eqb a x && Ascii.eqb b y then rep ++ replace_pair a b rep t'
          else x :: replace_pair a b rep t
      | [] => [x]
      end
  end.

(** "collapse doubled backslashes" *)
Definition collapse_doubled_backslashes : list ascii -> list ascii :=
  replace_pair "\" "\" ["\"].

(** "un-escape escaped quote characters" *)
Definition unescape_quotes : list ascii -> list ascii :=
  replace_pair "\" "034" ["034"].

(** "replace line breaks with spaces": a line feed, alone or after a
    carriage return. *)
Fixpoint line_breaks_to_spaces (l : list ascii) : list ascii :=
  match l with
  | [] => []
  | x :: t =>
      if Ascii.eqb "010" x then " " :: line_breaks_to_spaces t
      else
        match t with
        | y :: t' =>
            if Ascii.eqb "013" x && Ascii.eqb "010" y
            then " " :: line_breaks_to_spaces t'
            else x :: line_breaks_to_spaces t
        | [] => [x]
        end
  end.

(** "if the text does not start with [{], prepend it; if it does not end
    with [}], append it" *)
Definition wrap_in_braces (l : list ascii) : list ascii :=
  let opened :=
    match l with
    | x :: _ => if Ascii.eqb "{" x then l else "{" :: l
    | [] => ["{"]
    end in
  match rev opened with
  | x :: _ => if Ascii.eqb "}" x then opened else opened ++ ["}"]
  | [] => opened ++ ["}"]
  end.

(** The passes in the order of the specification: (a) backslashes,
    (b) quotes, (c) line breaks, (d) trim, (e) braces. *)
Definition in_stated_order (l : list ascii) : list ascii :=
  wrap_in_braces
    (trim (line_breaks_to_spaces
             (unescape_quotes (collapse_doubled_backslashes l)))).

(** The same passes with (b) before (a). *)
Definition quotes_first (l : list ascii) : list ascii :=
  wrap_in_braces
    (trim (line_breaks_to_spaces
             (collapse_doubled_backslashes (unescape_quotes l)))).

(** "any literal [&] characters ... are normalized to the word and" *)
Fixpoint ampersands_to_and (s : string) : string :=
  match s with
  | EmptyString => EmptyString
  | String c t =>
      if Ascii.eqb c "&"
      then String "a" (String "n" (String "d" (ampersands_to_and t)))
      else String c (ampersands_to_and t)
  end.

End Passes.

(* ================================================================== *)
(** * A small runtime, to run the model on examples *)
(* ================================================================== *)

(** Flat JSON objects whose keys and values are strings without escapes:
    what a [template_values] cell is meant to hold. *)
Module FlatJson.
Import Chars Text.
Local Open Scope char_scope.

Definition value : Type := list (list ascii * list ascii).

Definition plain (c : ascii) : bool :=
  negb (Ascii.eqb "034" c) && negb (Ascii.eqb "\" c) && (32 <=? N_of_ascii c)%N.

Definition blank (c : ascii) : bool :=
  Ascii.eqb " " c || Ascii.eqb "009" c || Ascii.eqb "010" c || Ascii.eqb "013" c.

Fixpoint skip_blank (l : list ascii) : list ascii :=
  match l with
  | c :: t => if blank c then skip_blank t else l
  | [] => []
  end.

Definition expect (c : ascii) (l : list ascii) : option (list ascii) :=
  match l with
  | x :: t => if Ascii.eqb c x then Some t else None
  | [] => None
  end.

Fixpoint string_body (l : list ascii) : option (list ascii * list ascii) :=
  match l with
  | [] => None
  | c :: t =>
      if Ascii.eqb "034" c then Some ([], t)
      else if plain c
      then match string_body t with
           | Some (s, r) => Some (c :: s, r)
           | None => None
           end
      else None
  end.

Definition parse_string (l : list ascii) : option (list ascii * list ascii) :=
  match expect "034" l with
  | Some t => string_body t
  | None => None
  end.

Definition parse_member (l : list ascii)
  : option ((list ascii * list ascii) * list ascii) :=
  match parse_string l with
  | Some (k, r1) =>
      match expect ":" (skip_blank r1) with
      | Some r2 =>
          match parse_string (skip_blank r2) with
          | Some (v, r3) => Some ((k, v), r3)
          | None => None
          end
      | None => None
      end
  | None => None
  end.

Fixpoint parse_members (fuel : nat) (l : list ascii)
  : option (value * list ascii) :=
  match fuel with
  | O => None
  | S f =>
      match parse_member l with
      | Some (kv, r) =>
          match expect "," (skip_blank r) with
          | Some r' =>
              match parse_members f (skip_blank r') with
              | Some (kvs, r'') => Some (kv :: kvs, r'')
              | None => None
              end
          | None => Some ([kv], skip_blank r)
          end
      | None => None
      end
  end.

(** A closing brace followed by blanks only. *)
Definition closing (l : list ascii) : bool :=
  match expect "}" l with
  | Some r => match skip_blank r with
              | [] => true
              | _ :: _ => false
              end
  | None => false
  end.

Definition parse (s : string) : option value :=
  match expect "{" (skip_blank (chars s)) with
  | Some r =>
      let r1 := skip_blank r in
      if closing r1 then Some []
      else match parse_members (length r1) r1 with
           | Some (kvs, r2) => if closing r2 then Some kvs else None
           | None => None
           end
  | None => None
  end.

Definition print_member (kv : list ascii * list ascii) : list ascii :=
  "034" :: fst kv ++ "034" :: ":" :: "034" :: snd kv ++ ["034"].

Fixpoint print_members (v : value) : list ascii :=
  match v with
  | [] => []
  | kv :: v' =>
      match v' with
      | [] => print_member kv
      | _ :: _ => print_member kv ++ "," :: print_members v'
      end
  end.

Definition stringify (v : value) : string :=
  str ("{" :: print_members v ++ ["}"]).

Definition plain_member (kv : list ascii * list ascii) : Prop :=
  Forall (fun c => plain c = true) (fst kv) /\
  Forall (fun c => plain c = true) (snd kv).

End FlatJson.

Module Demo.
Import Env Text.

(** A template without scriptlet evaluates to itself; the demo evaluator
    handles no other. *)
Fixpoint has_scriptlet (l : list ascii) : bool :=
  match l with
  | c :: t => startsWith ["<"; "?"]%char l || has_scriptlet t
  | [] => false
  end.

#[export] Instance runtime : Runtime := {|
  json := FlatJson.value;
  JSON_parse := FlatJson.parse;
  JSON_stringify := FlatJson.stringify;
  template := string;
  HtmlService_createTemplate := fun text => Some text;
  HtmlTemplate_evaluate := fun t _ =>
    if has_scriptlet (chars t) then None else Some t;
  GmailApp_sendEmail := fun _ => true;
  Sheet_appendRow := fun _ _ => true;
  Sheet_deleteRow := fun _ _ => true;
  Error_message := fun _ => "Service error"
|}.

Definition world (files : gmap string DriveFile) : World :=
  {| drive := files; outbox := []; rendered := []; toSend := [];
     history := []; templates := []; logs := []; alerts := [];
     clock := "2025-01-01T00:00:00Z" |}.

Definition bodyFileId : string := "1AbCdEfGhIjKlMnOpQrStUvWxYz012345".
Definition bigFileId : string := "9ZyXwVuTsRqPoNmLkJiHgFeDcBa987654".

Definition files : gmap string DriveFile :=
  <[bodyFileId := {| fileSize := 120; fileContent := "<p>Hello</p>";
                     trashed := false |}]>
  (<[bigFileId := {| fileSize := 30000000; fileContent := "";
                     trashed := false |}]> ∅).

(** A templates sheet with one template, and a record that refers to it. *)
Definition templateSheet : list (list string) :=
  [["template_label"; "a"; "b"]; ["T"; "y"; "z"]]%string.

Definition record : EmailRow :=
  <["template_label" := "T"]> (<["a" := "x"]> (<["b" := ""]> ∅)).

(** A pending sheet: its header row and some rows. *)
Definition headerRow : list string :=
  ["template_label"; "distribution_emails"; "additional_emails";
   "revu_session_invite"; "template_values"; "email_body_template";
   "attachments_urls"; "email_subject_template";
   "subject_template_value"]%string.

Definition headers : Js.obj nat :=
  Code.SpreadsheetUtils.mapHeadersToIndices headerRow.

Definition bodyUrl : string := "https://drive.google.com/file/d/" +:+ bodyFileId.

(** No recipient, and an attachment above the ceiling. *)
Definition rowWithoutRecipients : list string :=
  [""; ""; ""; ""; ""; bodyUrl; bigFileId; "Hi"; ""]%string.

(** A recipient, and an attachment above the ceiling. *)
Definition rowWithBigAttachment : list string :=
  [""; "u@x.com"; ""; ""; ""; bodyUrl; bigFileId; "Hi"; ""]%string.

(** A recipient, and a subject template that the evaluator rejects. *)
Definition rowWithBrokenSubject : list string :=
  [""; "u@x.com"; ""; "join 123-456-789"; ""; bodyUrl; ""; "Hi <?= n"; ""]%string.

Definition recordWithAmpersands : EmailRow :=
  <["email_subject_template" := "Plans & specs"]>
    (<["subject_template_value" := "A&B"]> ∅).

(** Cells of a sheet that holds texts, whole numbers that a double holds
    exactly and booleans, with the conversions of JavaScript. *)
Inductive Cell : Type :=
| Text (s : string)
| Number (n : N) (safe : (n <? 9007199254740992)%N = true)
| Boolean (b : bool).

#[global] Instance Any_Cell : Js.Any Cell := {|
  Js.ofString := Text;
  Js.ToBoolean := fun c =>
    match c with
    | Text s => truthy s
    | Number n _ => negb (n =? 0)%N
    | Boolean b => b
    end;
  Js.ToString := fun c =>
    match c with
    | Text s => s
    | Number n _ => pretty n
    | Boolean true => "true"
    | Boolean false => "false"
    end;
  Js.ToBoolean_ofString := fun _ => eq_refl;
  Js.ToString_ofString := fun _ => eq_refl
|}.

Definition noTemplates : Code.TemplateManager.t :=
  Code.TemplateManager.loadTemplateData [].

Definition asRow (cells : list string) : EmailRow :=
  Code.SpreadsheetUtils.mapRowToObject cells headers [].

(** A templates sheet whose template T gives the recipient, the body and
    the subject; a row that leaves them to the template; the world whose
    pending sheet holds this row. *)
Definition sendingTemplates : list (list string) :=
  [headerRow; ["T"; "u@x.com"; ""; ""; ""; bodyUrl; ""; "Hi"; ""]%string].

Definition rowLeftToTemplate : list string :=
  ["T"; ""; ""; ""; ""; ""; ""; ""; ""]%string.

Definition pendingWorld : World :=
  {| drive := files; outbox := []; rendered := [];
     toSend := [headerRow; rowLeftToTemplate];
     history := []; templates := sendingTemplates; logs := []; alerts := [];
     clock := "2025-01-01T00:00:00Z" |}.

(** An object of one field, a with the value b, whose four quotes are
    each written backslash, backslash, quote. *)
Definition doubleEscaped : string :=
  str ["{"; "\"; "\"; "034"; "a"; "\"; "\"; "034"; ":";
       "\"; "\"; "034"; "b"; "\"; "\"; "034"; "}"]%char.

(** The runtime of the examples, with a sheet service that refuses to
    delete rows. *)
Definition deleteFails : Runtime := {|
  json := FlatJson.value;
  JSON_parse := FlatJson.parse;
  JSON_stringify := FlatJson.stringify;
  template := string;
  HtmlService_createTemplate := fun text => Some text;
  HtmlTemplate_evaluate := fun t _ =>
    if has_scriptlet (chars t) then None else Some t;
  GmailApp_sendEmail := fun _ => true;
  Sheet_appendRow := fun _ _ => true;
  Sheet_deleteRow := fun _ _ => false;
  Error_message := fun _ => "Service error"
|}.

End Demo.

(* ================================================================== *)
(** * Code.ts (version 1.1.0): functions beside the send pipeline *)
(* ================================================================== *)

Module Rest.
Import Env Text.

Module TextUtils.

(** [headerMap[headerName] === undefined || row[...] === undefined] gives
    the empty string; under an inherited name [headerMap[headerName]] is
    an object, and the row has no element of that name. Otherwise the
    answer is [String(row[...] || '')]. *)
Definition getStringValue {V : Type} `{Js.Any V} (row : list V)
  (headerMap : Js.obj nat) (headerName : string) : string :=
  match Js.get headerMap headerName with
  | Js.Undefined => EmptyString
  | Js.Inherited => EmptyString
  | Js.Own i =>
      match row !! i with
      | None => EmptyString
      | Some v =>
          Js.ToString (if Js.ToBoolean v then v else Js.ofString EmptyString)
      end
  end.

End TextUtils.

End Rest.

(* ================================================================== *)
(** * Lists of addresses: the inputs "a@b.c, d@e.f" *)
(* ================================================================== *)

Module Plain.
Import Chars Text Code.EmailUtils Obfuscated.
Local Open Scope char_scope.

(** An address in its usual writing: atoms separated by dots, the at sign,
    labels each followed by a dot, a last label. *)
Record address : Type := Address {
  local_first : list ascii;
  local_more : list (list ascii);
  domain_init : list (list ascii);
  domain_last : list ascii
}.

Definition written (x : address) : list ascii :=
  local_part (local_first x) (local_more x) ++
  "@" :: flat_map (fun l => l ++ ["."]) (domain_init x) ++ domain_last x.

(** The parts are atoms and labels, the domain has two labels at least,
    and the address does not begin with the comment marker. *)
Definition well_formed (x : address) : bool :=
  atom (local_first x) && forallb atom (local_more x) &&
  negb (Nat.eqb (length (domain_init x)) 0) &&
  forallb is_label (domain_init x) && is_label (domain_last x) &&
  negb (startsWith ["/"; "/"] (local_first x)).

Definition lower (x : address) : address :=
  {| local_first := toLowerCase (local_first x);
     local_more := map toLowerCase (local_more x);
     domain_init := map toLowerCase (domain_init x);
     domain_last := toLowerCase (domain_last x) |}.

(** What stands between two addresses: a character that no address holds
    and that is neither white space nor a dot (a comma, a semicolon, a
    bracket), followed by characters that start no address. *)
Definition is_separator (s : list ascii) : bool :=
  match s with
  | [] => false
  | c :: t =>
      negb (icase atomChar c) && negb (is_space c) &&
      negb (icase (chr ".") c) &&
      forallb (fun x => negb (icase atomChar x)) t
  end.

Definition well_formed_item (item : address * list ascii) : bool :=
  well_formed (fst item) && is_separator (snd item).

Definition lower_item (item : address * list ascii)
  : address * list ascii :=
  (lower (fst item), toLowerCase (snd item)).

Definition listing (items : list (address * list ascii)) : list ascii :=
  flat_map (fun item => written (fst item) ++ snd item) items.

(** No comment line is found in [T], wherever the scan stands. *)
Definition comment_free (T : list ascii) : Prop :=
  forall fuel bef,
    Regex.replace_loop commentRegex (fun _ _ => []) fuel bef T = T.

End Plain.

(* ================================================================== *)
(** * Drive URLs: where a file identifier stands in a text *)
(* ================================================================== *)

Module DriveUrl.
Import Chars Text Code.FileUtils.

(** No run of 25 identifier characters starts inside [l]: from each of its
    positions, one of the next 25 characters of [l] is not one of them (in
    particular the last character of [l] is not). *)
Fixpoint clear_of_ids (l : list ascii) : bool :=
  match l with
  | [] => true
  | _ :: t => negb (forallb fileIdChar (firstn 25 l)) && clear_of_ids t
  end.

(** A run of at least 25 identifier characters. *)
Definition is_id (l : list ascii) : bool :=
  Nat.leb 25 (length l) && forallb fileIdChar l.

End DriveUrl.

(* ================================================================== *)
(** * What a step leaves as it was *)
(* ================================================================== *)

Module Frames.
Import Env.

(** The three sheets, the alerts and the clock are as before. *)
Definition sheets_kept (w w' : World) : Prop :=
  toSend w' = toSend w /\ history w' = history w /\
  templates w' = templates w /\ alerts w' = alerts w /\ clock w' = clock w.

(** The same file, possibly moved to the trash. *)
Definition trashed_version (f f' : DriveFile) : Prop :=
  fileSize f' = fileSize f /\ fileContent f' = fileContent f /\
  (trashed f = true -> trashed f' = true).

(** Drive holds the same files, some of them moved to the trash. *)
Definition files_kept (d d' : gmap string DriveFile) : Prop :=
  forall id,
    match d !! id with
    | Some f => exists f', d' !! id = Some f' /\ trashed_version f f'
    | None => d' !! id = None
    end.

(** No call of the sheet service throws. *)
Definition no_faults `{Runtime} : Prop :=
  (forall w row, Sheet_appendRow w row = true) /\
  (forall w rowIndex, Sheet_deleteRow w rowIndex = true).

End Frames.

(* ================================================================== *)
(** * Properties *)
(* ================================================================== *)

Import Env Text.

(** ** The matching engine *)

Section Engine.
Import Regex.

Lemma extends_refl (s : cursor) : extends s s.
Proof. exists []. split; reflexivity. Qed.

Lemma extends_trans (s1 s2 s3 : cursor) :
  extends s1 s2 -> extends s2 s3 -> extends s1 s3.
Proof.
  intros (u & Hr & Hb) (v & Hr' & Hb'). exists (u ++ v). split.
  - rewrite Hr, Hr'. by rewrite <- List.app_assoc.
  - rewrite Hb', Hb, rev_app_distr. by rewrite <- List.app_assoc.
Qed.

Lemma star_extends (body : cursor -> list cursor) :
  (forall s e, In e (body s) -> extends s e) ->
  forall fuel s e, In e (star body fuel s) -> extends s e.
Proof.
  intros Hbody fuel. induction fuel as [|f IH]; intros s e He; simpl in He.
  - destruct He as [<-|[]]. apply extends_refl.
  - apply in_app_or in He as [He|[<-|[]]]; [|apply extends_refl].
    apply in_flat_map in He as (s' & Hs' & He).
    destruct (shorter s' s); [|destruct He].
    eapply extends_trans; eauto.
Qed.

(** A match ends further in the same subject. *)
Lemma m_extends (r : re) : forall s e, In e (m r s) -> extends s e.
Proof.
  induction r as [|p|r1 IH1 r2 IH2|r1 IH1 r2 IH2|r IH|n r IH| |];
    intros s e He.
  - simpl in He. destruct He as [<-|[]]. apply extends_refl.
  - simpl in He. destruct (rest s) as [|c t] eqn:Hr; [destruct He|].
    destruct (p c); [|destruct He]. destruct He as [<-|[]].
    exists [c]. split; simpl; [exact Hr|reflexivity].
  - simpl in He. apply in_flat_map in He as (s1 & H1 & H2).
    eapply extends_trans; eauto.
  - simpl in He. apply in_app_or in He as [He|He]; eauto.
  - eapply star_extends; [exact IH|exact He].
  - simpl in He. apply in_map_iff in He as (e' & <- & He').
    destruct (IH _ _ He') as (u & Hu). exists u. exact Hu.
  - simpl in He. destruct (at_line_start s); [|destruct He].
    destruct He as [<-|[]]. apply extends_refl.
  - simpl in He. destruct (at_word_boundary s); [|destruct He].
    destruct He as [<-|[]]. apply extends_refl.
Qed.

Lemma m_Seq (r1 r2 : re) (s : cursor) :
  m (Seq r1 r2) s = flat_map (m r2) (m r1 s).
Proof. reflexivity. Qed.

Lemma m_Alt (r1 r2 : re) (s : cursor) : m (Alt r1 r2) s = m r1 s ++ m r2 s.
Proof. reflexivity. Qed.

Lemma m_Group (n : nat) (r : re) (s : cursor) :
  m (Group n r) s = map (close_group n s) (m r s).
Proof. reflexivity. Qed.

Lemma m_Cls (p : ascii -> bool) (s : cursor) :
  m (Cls p) s =
  match rest s with
  | c :: t => if p c then [Cursor (c :: before s) t (caps s)] else []
  | [] => []
  end.
Proof. reflexivity. Qed.

Lemma span_extends_by (u : list ascii) (s e : cursor) :
  extends_by u s e -> span s e = u.
Proof.
  intros [_ Hb]. unfold span. rewrite Hb, length_app, length_rev.
  replace (length u + length (before s) - length (before s)) with (length u)
    by lia.
  rewrite <- (length_rev u) at 1. rewrite firstn_app, Nat.sub_diag, firstn_all.
  simpl. rewrite app_nil_r. apply rev_involutive.
Qed.

Lemma match_at_extends (r : re) (bef l : list ascii) (e : cursor) :
  match_at r bef l = Some e ->
  exists u, l = u ++ rest e /\ before e = rev u ++ bef /\
            span (at_start bef l) e = u.
Proof.
  unfold match_at. intros He.
  destruct (m r (at_start bef l)) as [|e0 tl] eqn:Hm; simpl in He; [done|].
  injection He as ->.
  destruct (m_extends r (at_start bef l) e) as (u & Hu).
  { rewrite Hm. by left. }
  exists u. pose proof (span_extends_by _ _ _ Hu) as Hs.
  destruct Hu as [Hr Hb]. simpl in *. done.
Qed.

Lemma shorter_iff_nonempty (bef l : list ascii) (e : cursor) (u : list ascii) :
  l = u ++ rest e ->
  shorter e (at_start bef l) = negb (Nat.eqb (length u) 0).
Proof.
  intros ->. unfold shorter. simpl. rewrite length_app.
  destruct u as [|c u]; simpl.
  - apply Nat.ltb_irrefl.
  - apply Nat.ltb_lt. lia.
Qed.

(** Whatever holds of all code units of the subject holds of all code
    units of each match found by the loop of [exec]. *)
Lemma exec_loop_Forall (P : ascii -> Prop) (r : re) :
  forall fuel bef l, Forall P l ->
    Forall (Forall P) (exec_loop r fuel bef l).
Proof.
  induction fuel as [|f IH]; intros bef l Hl; simpl; [constructor|].
  destruct (match_at r bef l) as [e|] eqn:He.
  - destruct (match_at_extends _ _ _ _ He) as (u & -> & Hb & ->).
    apply Forall_app in Hl as [Hu Hrest].
    constructor; [exact Hu|].
    destruct (shorter e _); [apply IH; exact Hrest|constructor].
  - destruct l as [|c t]; [constructor|].
    apply IH. by inversion Hl.
Qed.

(** The result of [replace] is made of code units of the subject and of
    code units produced by the replacer. *)
Lemma replace_loop_Forall (P : ascii -> Prop) (r : re)
  (f : list ascii -> cursor -> list ascii) :
  (forall m0 e, Forall P (f m0 e)) ->
  forall fuel bef l, Forall P l -> Forall P (replace_loop r f fuel bef l).
Proof.
  intros Hf. induction fuel as [|fu IH]; intros bef l Hl; simpl; [exact Hl|].
  assert (Hcopy : Forall P match l with
                           | [] => []
                           | c :: t => c :: replace_loop r f fu (c :: bef) t
                           end).
  { destruct l as [|c t]; [constructor|].
    inversion Hl; subst. constructor; [done|]. by apply IH. }
  destruct (match_at r bef l) as [e|] eqn:He; [|exact Hcopy].
  destruct (match_at_extends _ _ _ _ He) as (u & Hu & Hb & Hs).
  apply Forall_app. split; [apply Hf|].
  destruct (shorter e _); [|exact Hcopy].
  apply IH. rewrite Hu in Hl. by apply Forall_app in Hl as [_ ?].
Qed.

End Engine.

(** ** Template resolution *)

Section TemplateMerge.
Import Code Code.EmailProcessor.

Lemma truthy_field_truthyAt (row : EmailRow) (key : string) :
  truthy (field row key) = true -> Js.truthyAt row key = true.
Proof.
  unfold field, Js.truthyAt. destruct (row !! key) as [v|]; [done|].
  discriminate.
Qed.

Lemma truthyAt_false_field (row : EmailRow) (key : string) :
  Js.truthyAt row key = false -> truthy (field row key) = false.
Proof.
  unfold field, Js.truthyAt. by destruct (row !! key) as [v|].
Qed.

Lemma applyTemplate_lookup (template row : EmailRow) (key : string) :
  applyTemplate template row !! key =
  if Js.truthyAt row key then row !! key
  else match template !! key with
       | Some value =>
           if truthy value && negb (String.eqb key "__proto__")
           then Some value else row !! key
       | None => row !! key
       end.
Proof.
  unfold applyTemplate. revert key.
  apply (map_fold_weak_ind
           (fun (r : gmap string string) (m : gmap string string) =>
              forall key, r !! key =
                if Js.truthyAt row key then row !! key
                else match m !! key with
                     | Some value =>
                         if truthy value && negb (String.eqb key "__proto__")
                         then Some value else row !! key
                     | None => row !! key
                     end)).
  - intros key. rewrite lookup_empty. by destruct (Js.truthyAt _ _).
  - intros i x m r Hi IH key.
    assert (Hri : Js.truthyAt r i = Js.truthyAt row i).
    { assert (Hsame : r !! i = row !! i).
      { rewrite (IH i), Hi. by destruct (Js.truthyAt row i). }
      unfold Js.truthyAt. by rewrite Hsame. }
    rewrite Hri. unfold Js.assign.
    destruct (decide (i = key)) as [->|Hne].
    + rewrite lookup_insert_eq.
      destruct (Js.truthyAt row key) eqn:Hk; simpl.
      * rewrite (IH key), Hk. done.
      * destruct (truthy x); simpl; [|by rewrite (IH key), Hk, Hi].
        destruct (String.eqb key "__proto__"); simpl.
        -- by rewrite (IH key), Hk, Hi.
        -- by rewrite lookup_insert_eq.
    + rewrite (lookup_insert_ne m) by done.
      destruct (negb (Js.truthyAt row i) && truthy x); [|apply IH].
      destruct (String.eqb i "__proto__"); [apply IH|].
      rewrite lookup_insert_ne by done. apply IH.
Qed.

(** C1. Template merge: with an empty [template_label] the record is
    returned unchanged; with a template found, a field of the record that
    is not empty keeps its value whatever the template holds, a field is
    changed only if the record's own value was empty (and then to the
    template's value), and [template_label] is preserved. *)
Theorem applyTemplateIfNeeded_keeps_record_values
  (tm : TemplateManager.t) (row : EmailRow) (w : World) :
  (truthy (field row "template_label") = false ->
   applyTemplateIfNeeded tm row w = (Returned row, w)) /\
  (forall template : EmailRow,
     truthy (field row "template_label") = true ->
     TemplateManager.getTemplateByLabel tm (field row "template_label")
       = Returned (Some template) ->
     exists row' : EmailRow,
       applyTemplateIfNeeded tm row w = (Returned row', w) /\
       (forall key, truthy (field row key) = true ->
                    row' !! key = row !! key) /\
       (forall key, row' !! key <> row !! key ->
                    truthy (field row key) = false /\
                    row' !! key = template !! key) /\
       field row' "template_label" = field row "template_label").
Proof.
  split.
  - intros Hl. unfold applyTemplateIfNeeded. rewrite Hl. done.
  - intros template Hl Hfound. exists (applyTemplate template row).
    split; [|split; [|split]].
    + unfold applyTemplateIfNeeded. rewrite Hl. simpl. rewrite Hfound. done.
    + intros key Hk. rewrite applyTemplate_lookup.
      by rewrite (truthy_field_truthyAt _ _ Hk).
    + intros key. rewrite applyTemplate_lookup.
      destruct (Js.truthyAt row key) eqn:Hk; [done|].
      apply truthyAt_false_field in Hk.
      destruct (template !! key) as [v|]; [|done].
      destruct (truthy v && negb (String.eqb key "__proto__")); done.
    + unfold field at 1. rewrite applyTemplate_lookup.
      by rewrite (truthy_field_truthyAt _ _ Hl).
Qed.

End TemplateMerge.

Example applyTemplate_record_wins :
  Code.EmailProcessor.applyTemplate {[ "a" := "y" ]} {[ "a" := "x" ]}
  = ({[ "a" := "x" ]} : EmailRow).
Proof. vm_compute. reflexivity. Qed.

Lemma applyTemplateIfNeeded_keeps_record_values_witness :
  exists row' : EmailRow,
    Code.EmailProcessor.applyTemplateIfNeeded
      (Code.TemplateManager.loadTemplateData Demo.templateSheet)
      Demo.record (Demo.world ∅) = (Returned row', Demo.world ∅) /\
    row' !! "a" = Some "x" /\
    field row' "template_label" = "T".
Proof.
  destruct (proj2 (applyTemplateIfNeeded_keeps_record_values
                     (Code.TemplateManager.loadTemplateData Demo.templateSheet)
                     Demo.record (Demo.world ∅)) _ eq_refl eq_refl)
    as (row' & Hrun & Hkeep & _ & Hlabel).
  exists row'. split; [exact Hrun|]. split.
  - rewrite Hkeep; reflexivity.
  - rewrite Hlabel. reflexivity.
Defined.

(** ** Recipients *)

Section Recipients.
Import Regex Code Code.EmailUtils.

Lemma existsb_eqb_elem (x : string) (acc : list string) :
  existsb (String.eqb x) acc = true <-> x ∈ acc.
Proof.
  rewrite existsb_exists. split.
  - intros (y & Hy & Heq). apply String.eqb_eq in Heq as ->.
    by apply list_elem_of_In.
  - intros Hx. exists x. split; [by apply list_elem_of_In|apply String.eqb_refl].
Qed.

Lemma Set_add_spec (acc : list string) (x : string) :
  NoDup acc ->
  NoDup (Set_add acc x) /\ forall y, y ∈ Set_add acc x <-> y ∈ acc \/ y = x.
Proof.
  intros Hnd. unfold Set_add.
  destruct (existsb (String.eqb x) acc) eqn:Hx.
  - apply existsb_eqb_elem in Hx. split; [done|].
    intros y. split; [auto|]. intros [?| ->]; done.
  - assert (x ∉ acc) as Hnot.
    { intros Hin. apply existsb_eqb_elem in Hin. congruence. }
    split.
    + apply NoDup_app. split; [done|]. split; [|apply NoDup_singleton].
      intros y Hy ->%list_elem_of_singleton. done.
    + intros y. rewrite elem_of_app, list_elem_of_singleton. done.
Qed.

Lemma Set_fold_spec (l : list string) :
  forall acc, NoDup acc ->
    NoDup (fold_left Set_add l acc) /\
    forall y, y ∈ fold_left Set_add l acc <-> y ∈ acc \/ y ∈ l.
Proof.
  induction l as [|x l IH]; intros acc Hnd; simpl.
  - split; [done|]. intros y. rewrite elem_of_nil. tauto.
  - destruct (Set_add_spec acc x Hnd) as [Hnd' Hin'].
    destruct (IH _ Hnd') as [Hnd'' Hin'']. split; [done|].
    intros y. rewrite Hin'', Hin', elem_of_cons. tauto.
Qed.

Lemma Set_fold_absorb (l : list string) :
  forall acc, (forall x, x ∈ l -> x ∈ acc) -> fold_left Set_add l acc = acc.
Proof.
  induction l as [|x l IH]; intros acc Hsub; simpl; [done|].
  assert (Set_add acc x = acc) as ->.
  { unfold Set_add.
    assert (existsb (String.eqb x) acc = true) as ->; [|done].
    apply existsb_eqb_elem, Hsub. by left. }
  apply IH. intros y Hy. apply Hsub. by right.
Qed.

(** Adding every element a second time changes nothing. *)
Lemma Set_of_twice (l : list string) : Set_of (l ++ l) = Set_of l.
Proof.
  unfold Set_of. rewrite fold_left_app. apply Set_fold_absorb.
  intros x Hx. apply (Set_fold_spec l [] (NoDup_nil_2)). by right.
Qed.

Lemma Set_of_nil_inv (l : list string) : Set_of l = [] -> l = [].
Proof.
  destruct l as [|x l]; [done|]. intros Hnil.
  assert (x ∈ Set_of (x :: l)) as Hx.
  { apply (Set_fold_spec (x :: l) [] NoDup_nil_2). right. by left. }
  rewrite Hnil in Hx. by apply elem_of_nil in Hx.
Qed.

Lemma m_seq_cls (p : ascii -> bool) (r : re) (s e : cursor) :
  In e (m (Seq (Cls p) r) s) ->
  exists c t, rest s = c :: t /\ p c = true /\
              In e (m r (Cursor (c :: before s) t (caps s))).
Proof.
  simpl. intros He. apply in_flat_map in He as (s1 & Hs1 & He).
  destruct (rest s) as [|c t]; [destruct Hs1|].
  destruct (p c) eqn:Hp; [|destruct Hs1]. destruct Hs1 as [<-|[]].
  by exists c, t.
Qed.

(** A match of the address pattern starts with a code unit of the local
    part; in particular it is not empty. *)
Lemma emailRegex_match_shape (s e : cursor) :
  In e (m emailRegex s) ->
  exists c t u, rest s = c :: t /\ Chars.icase atomChar c = true /\
                extends_by (c :: u) s e.
Proof.
  unfold emailRegex. rewrite m_Group. intros He.
  apply in_map_iff in He as (e' & <- & He').
  rewrite m_Seq in He'. apply in_flat_map in He' as (s3 & Hs3 & He').
  unfold localPart in Hs3. rewrite m_Seq in Hs3.
  apply in_flat_map in Hs3 as (s2 & Hs2 & Hs3).
  unfold Plus, I in Hs2.
  apply m_seq_cls in Hs2 as (c & t & Hr & Hc & Hs2).
  apply m_extends in Hs2, Hs3, He'.
  pose proof (extends_trans _ _ _ Hs2 (extends_trans _ _ _ Hs3 He'))
    as (u & Hu1 & Hu2).
  exists c, t, u. split; [done|]. split; [done|]. split; simpl in *.
  - rewrite Hr, Hu1. done.
  - rewrite Hu2, <- List.app_assoc. done.
Qed.

Lemma emailRegex_consumes (s e : cursor) :
  In e (m emailRegex s) -> shorter e s = true.
Proof.
  intros He. apply emailRegex_match_shape in He as (c & t & u & _ & _ & Hr & _).
  unfold shorter. rewrite Hr. simpl. rewrite length_app.
  apply Nat.ltb_lt. lia.
Qed.

Lemma exec_loop_In (r : re) (x : list ascii) :
  forall fuel bef l, In x (exec_loop r fuel bef l) ->
    exists bef' l' e, match_at r bef' l' = Some e /\
                      x = span (at_start bef' l') e.
Proof.
  induction fuel as [|f IH]; intros bef l Hx; simpl in Hx; [destruct Hx|].
  destruct (match_at r bef l) as [e|] eqn:He.
  - destruct Hx as [<-|Hx]; [eauto|].
    destruct (shorter e _); [eauto|destruct Hx].
  - destruct l as [|c t]; [destruct Hx|eauto].
Qed.

Lemma match_at_In (r : re) (bef l : list ascii) (e : cursor) :
  match_at r bef l = Some e -> In e (m r (at_start bef l)).
Proof.
  unfold match_at. destruct (m r (at_start bef l)); simpl; [done|].
  intros [= ->]. by left.
Qed.

Lemma atomChar_not_space (c : ascii) :
  Chars.icase atomChar c = true -> Chars.is_space c = false.
Proof. destruct c as [[] [] [] [] [] [] [] []]; vm_compute; congruence. Qed.

Lemma obfuscationRegex_needs_space (bef : list ascii) (c : ascii)
  (t : list ascii) :
  Chars.is_space c = false -> match_at obfuscationRegex bef (c :: t) = None.
Proof.
  intros Hc. unfold match_at, obfuscationRegex, Plus, ws. simpl m.
  rewrite Hc. reflexivity.
Qed.

Lemma str_truthy (l : list ascii) : truthy (str l) = negb (Nat.eqb (length l) 0).
Proof. destruct l; reflexivity. Qed.

(** Every address produced by [parseEmailAddresses] is a non-empty string. *)
Lemma parseEmailAddresses_truthy (input a : string) :
  a ∈ parseEmailAddresses input -> truthy a = true.
Proof.
  unfold parseEmailAddresses. destruct (negb (truthy input)).
  { intros Ha. by apply elem_of_nil in Ha. }
  intros Ha. apply list_elem_of_In, in_flat_map in Ha as (m0 & Hm0 & Ha).
  destruct (negb (startsWith _ m0)); [|destruct Ha]. destruct Ha as [<-|[]].
  apply exec_loop_In in Hm0 as (bef & l & e & He & ->).
  pose proof (match_at_In _ _ _ _ He) as Hin.
  apply emailRegex_match_shape in Hin as (c & t & u & Hr & Hc & Hext).
  rewrite (span_extends_by _ _ _ Hext).
  unfold replace_all. simpl replace_loop.
  rewrite obfuscationRegex_needs_space by (by apply atomChar_not_space).
  reflexivity.
Qed.

Lemma filter_truthy_parsed (sources : list string) :
  let allEmails :=
    flat_map (fun source => if truthy source then parseEmailAddresses source
                            else []) sources in
  List.filter truthy allEmails = allEmails.
Proof.
  simpl. apply forallb_filter_id, forallb_forall. intros a Ha.
  apply in_flat_map in Ha as (source & _ & Ha).
  destruct (truthy source); [|destruct Ha].
  eapply parseEmailAddresses_truthy, list_elem_of_In, Ha.
Qed.

Lemma parse_guard (source : string) :
  (if truthy source then parseEmailAddresses source else [])
  = parseEmailAddresses source.
Proof. destruct source; reflexivity. Qed.

(** C6. Combining a source with itself gives what the source alone gives;
    the combined addresses are pairwise distinct and are exactly those
    parsed from some source; the result is [null] exactly when no source
    yields an address. The function is total: no error is raised. *)
Theorem combineEmailAddresses_idempotent (X : string) (sources : list string) :
  combineEmailAddresses [X; X] = combineEmailAddresses [X] /\
  (exists uniqueEmails : list string,
     NoDup uniqueEmails /\
     (forall a, a ∈ uniqueEmails <->
                exists source, source ∈ sources /\
                               a ∈ parseEmailAddresses source) /\
     combineEmailAddresses sources =
       match uniqueEmails with
       | [] => None
       | _ :: _ => Some (join "," uniqueEmails)
       end) /\
  (combineEmailAddresses sources = None <->
   forall source, source ∈ sources -> parseEmailAddresses source = []).
Proof.
  assert (Hall : forall srcs a,
            a ∈ flat_map (fun source => if truthy source
                                        then parseEmailAddresses source
                                        else []) srcs <->
            exists source, source ∈ srcs /\ a ∈ parseEmailAddresses source).
  { intros srcs a. rewrite list_elem_of_In, in_flat_map. split.
    - intros (source & Hs & Ha). rewrite parse_guard in Ha.
      exists source. by rewrite !list_elem_of_In.
    - intros (source & Hs & Ha). exists source. rewrite parse_guard.
      by rewrite <- !list_elem_of_In. }
  split; [|split].
  - unfold combineEmailAddresses. simpl flat_map. rewrite !app_nil_r.
    rewrite List.filter_app, Set_of_twice. reflexivity.
  - unfold combineEmailAddresses. rewrite filter_truthy_parsed.
    set (allEmails := flat_map _ sources) in *.
    exists (Set_of allEmails).
    destruct (Set_fold_spec allEmails [] NoDup_nil_2) as [Hnd Hin].
    split; [exact Hnd|]. split.
    + intros a. unfold Set_of. rewrite Hin, elem_of_nil, <- Hall.
      subst allEmails. tauto.
    + by destruct (Set_of allEmails).
  - unfold combineEmailAddresses. rewrite filter_truthy_parsed.
    set (allEmails := flat_map _ sources) in *. split.
    + intros Hnone source Hs.
      assert (allEmails = []) as Hnil.
      { apply Set_of_nil_inv. by destruct (Set_of allEmails). }
      destruct (parseEmailAddresses source) as [|a l] eqn:Hp; [done|].
      assert (a ∈ allEmails) as Ha.
      { apply Hall. exists source. split; [done|]. rewrite Hp. by left. }
      rewrite Hnil in Ha. by apply elem_of_nil in Ha.
    + intros Hnone.
      assert (allEmails = []) as ->; [|reflexivity].
      destruct allEmails as [|a l] eqn:Heq; [done|].
      assert (a ∈ allEmails) as Ha by (rewrite Heq; by left).
      apply Hall in Ha as (source & Hs & Ha).
      rewrite (Hnone _ Hs) in Ha. by apply elem_of_nil in Ha.
Qed.

End Recipients.

(** ** The send pipeline *)

Create HintDb quiet.

Section Pipeline.
Context `{Runtime}.
Import Code.

Lemma quiet_refl (w : World) : quiet w w.
Proof. repeat split. Qed.

Lemma quiet_trans (w1 w2 w3 : World) : quiet w1 w2 -> quiet w2 w3 -> quiet w1 w3.
Proof.
  unfold quiet. intros (?&?&?&?&?&?&?) (?&?&?&?&?&?&?).
  repeat split; congruence.
Qed.

Lemma Quiet_ret {A : Type} (a : A) : Quiet (ret a).
Proof. intros w r w' [= <- <-]. apply quiet_refl. Qed.

Lemma Quiet_throw {A : Type} (e : Exn) : Quiet (throw e : M A).
Proof. intros w r w' [= <- <-]. apply quiet_refl. Qed.

Lemma Quiet_bind {A B : Type} (c : M A) (k : A -> M B) :
  Quiet c -> (forall a, Quiet (k a)) -> Quiet (bind c k).
Proof.
  intros Hc Hk w r w'. unfold bind.
  destruct (c w) as [[a|e] w1] eqn:Hcw.
  - intros Hr. eapply quiet_trans; [eapply Hc, Hcw|eapply Hk, Hr].
  - intros [= <- <-]. eapply Hc, Hcw.
Qed.

Lemma Quiet_try_catch {A : Type} (c : M A) (h : Exn -> M A) :
  Quiet c -> (forall e, Quiet (h e)) -> Quiet (try_catch c h).
Proof.
  intros Hc Hh w r w'. unfold try_catch.
  destruct (c w) as [[a|e] w1] eqn:Hcw.
  - intros [= <- <-]. eapply Hc, Hcw.
  - intros Hr. eapply quiet_trans; [eapply Hc, Hcw|eapply Hh, Hr].
Qed.

Lemma Quiet_log (lvl : LogLevel) (msg : string) : Quiet (Logger_log lvl msg).
Proof. intros w r w' [= <- <-]. repeat split. Qed.

Lemma Quiet_getFileById (fileId : string) : Quiet (DriveApp_getFileById fileId).
Proof.
  intros w r w'. unfold DriveApp_getFileById.
  destruct (drive w !! fileId); intros [= <- <-]; apply quiet_refl.
Qed.

Lemma Quiet_createTemplate (text : string) : Quiet (createTemplate text).
Proof.
  intros w r w'. unfold createTemplate.
  destruct (HtmlService_createTemplate text); intros [= <- <-]; repeat split.
Qed.

Lemma Quiet_evaluate (t : template) (v : TemplateValues json) :
  Quiet (evaluate t v).
Proof.
  unfold evaluate. destruct (HtmlTemplate_evaluate t v);
    [apply Quiet_ret|apply Quiet_throw].
Qed.

#[local] Hint Resolve Quiet_ret Quiet_throw Quiet_log Quiet_getFileById
  Quiet_createTemplate Quiet_evaluate : quiet.

(** Closes a [Quiet] goal by following the structure of the computation. *)
Ltac quiet_step :=
  first
    [ solve [auto with quiet nocore]
    | apply Quiet_bind; [|intros ?]
    | apply Quiet_try_catch; [|intros ?]
    | match goal with
      | |- Quiet (if ?b then _ else _) => destruct b
      | |- Quiet (match ?x with _ => _ end) => destruct x
      end ].

Ltac quiet := repeat quiet_step.

Lemma Quiet_debug (msg : string) : Quiet (CustomLogger.debug msg).
Proof. unfold CustomLogger.debug. quiet. Qed.

Lemma Quiet_error (msg : string) : Quiet (CustomLogger.error msg).
Proof. unfold CustomLogger.error. quiet. Qed.

#[local] Hint Resolve Quiet_debug Quiet_error : quiet.

Lemma Quiet_extractFileId (url : string) : Quiet (FileUtils.extractFileId url).
Proof. unfold FileUtils.extractFileId. quiet. Qed.

#[local] Hint Resolve Quiet_extractFileId : quiet.

Lemma Quiet_getFileContentFromUrl (url : string) :
  Quiet (FileUtils.getFileContentFromUrl url).
Proof. unfold FileUtils.getFileContentFromUrl. quiet. Qed.

Lemma Quiet_sanitizeJsonText (text : string) :
  Quiet (TextUtils.sanitizeJsonText text).
Proof. unfold TextUtils.sanitizeJsonText. quiet. Qed.

Lemma Quiet_parseSessionId (text : string) :
  Quiet (EmailUtils.parseSessionId text).
Proof. unfold EmailUtils.parseSessionId. quiet. Qed.

#[local] Hint Resolve Quiet_getFileContentFromUrl Quiet_sanitizeJsonText
  Quiet_parseSessionId : quiet.

Lemma Quiet_getTemplateValues (row : EmailRow) :
  Quiet (EmailBuilder.getTemplateValues row).
Proof. unfold EmailBuilder.getTemplateValues. quiet. Qed.

#[local] Hint Resolve Quiet_getTemplateValues : quiet.

Lemma Quiet_buildEmailBody (row : EmailRow) :
  Quiet (EmailBuilder.buildEmailBody row).
Proof. unfold EmailBuilder.buildEmailBody. quiet. Qed.

Lemma Quiet_getFinalSubject (row : EmailRow) :
  Quiet (EmailBuilder.getFinalSubject row).
Proof.
  unfold EmailBuilder.getFinalSubject, EmailBuilder.evaluateSubject. quiet.
Qed.

Lemma Quiet_attach (url : string) : Quiet (EmailBuilder.attach url).
Proof.
  unfold EmailBuilder.attach, FileUtils.isFileTooLarge, FileUtils.getFileBlob.
  quiet.
Qed.

#[local] Hint Resolve Quiet_attach : quiet.

Lemma Quiet_attachAll (urls : list string) : Quiet (EmailBuilder.attachAll urls).
Proof. induction urls as [|url urls IH]; simpl; quiet. Qed.

#[local] Hint Resolve Quiet_attachAll : quiet.

Lemma Quiet_getAttachments (row : EmailRow) :
  Quiet (EmailBuilder.getAttachments row).
Proof. unfold EmailBuilder.getAttachments. quiet. Qed.

Lemma Quiet_validateRow (row : EmailRow) : Quiet (EmailProcessor.validateRow row).
Proof. unfold EmailProcessor.validateRow. quiet. Qed.

#[local] Hint Resolve Quiet_buildEmailBody Quiet_getFinalSubject
  Quiet_getAttachments Quiet_validateRow : quiet.

Lemma bind_Returned {A B : Type} (c : M A) (k : A -> M B) (w w' : World) (a : A) :
  c w = (Returned a, w') -> bind c k w = k a w'.
Proof. unfold bind. by intros ->. Qed.

Lemma bind_Thrown {A B : Type} (c : M A) (k : A -> M B) (w w' : World) (e : Exn) :
  c w = (Thrown e, w') -> bind c k w = (Thrown e, w').
Proof. unfold bind. by intros ->. Qed.

Lemma try_catch_Returned {A : Type} (c : M A) (h : Exn -> M A) (w w' : World)
  (a : A) :
  c w = (Returned a, w') -> try_catch c h w = (Returned a, w').
Proof. unfold try_catch. by intros ->. Qed.


Lemma quiet_set_logs (l : list (LogLevel * string)) (w : World) :
  quiet w (set_logs l w).
Proof. repeat split. Qed.

(** A row that fails validation: one debug entry, the answer [false]. *)
Lemma processRow_invalid (row : EmailRow) (w : World) :
  truthy (field row "distribution_emails") = false /\
  truthy (field row "additional_emails") = false \/
  truthy (field row "email_body_template") = false ->
  exists msg,
    EmailProcessor.processRow row w =
    (Returned false, set_logs (logs w ++ [(DEBUG, msg)]) w).
Proof.
  intros Hinvalid. unfold EmailProcessor.processRow, EmailProcessor.validateRow.
  destruct (negb (truthy (field row "distribution_emails")) &&
            negb (truthy (field row "additional_emails"))) eqn:Hrcpt.
  - eexists. reflexivity.
  - destruct Hinvalid as [[H1 H2]|H3].
    + rewrite H1, H2 in Hrcpt. discriminate.
    + rewrite H3. eexists. reflexivity.
Qed.

(** C4 (as amended). A record that, once its template is resolved, has neither
    [distribution_emails] nor [additional_emails], or has no
    [email_body_template], is skipped in silence: the round of the loop
    returns normally, nothing is handed to the mail service, History and
    the pending sheet are as before, no alert is shown, and everything
    logged is at debug level. *)
Theorem sendRow_validation_failure_is_silent
  (tm : TemplateManager.t) (headers : Js.obj nat) (i : nat)
  (cells : list string) (emailRow : EmailRow) (w : World) :
  EmailProcessor.applyTemplateIfNeeded tm
    (SpreadsheetUtils.mapRowToObject cells headers []) w
    = (Returned emailRow, w) ->
  truthy (field emailRow "distribution_emails") = false /\
  truthy (field emailRow "additional_emails") = false \/
  truthy (field emailRow "email_body_template") = false ->
  exists (w' : World) (entries : list (LogLevel * string)),
    EmailProcessor.sendRow tm headers i cells w = (Returned tt, w') /\
    outbox w' = outbox w /\
    history w' = history w /\
    toSend w' = toSend w /\
    alerts w' = alerts w /\
    drive w' = drive w /\
    logged w w' entries /\
    Forall (fun entry => fst entry = DEBUG) entries.
Proof.
  intros Hresolved Hinvalid. unfold EmailProcessor.sendRow.
  destruct (forallb (fun cell => negb (truthy cell)) cells).
  - eexists _, [_]. split; [reflexivity|].
    repeat split; repeat constructor.
  - destruct (processRow_invalid emailRow w Hinvalid) as [msg Hp].
    unfold try_catch, bind. rewrite Hresolved. simpl. rewrite Hp.
    eexists _, [_; _]. split; [reflexivity|].
    repeat split; simpl; [by rewrite <- List.app_assoc|repeat constructor].
Qed.

(** *** Attachments *)

Lemma attach_oversize (url fileId : string) (f : DriveFile) (w : World) :
  FileUtils.matchedFileId url = Some fileId ->
  drive w !! fileId = Some f ->
  (MAX_ATTACHMENT_SIZE < fileSize f)%Z ->
  exists w', EmailBuilder.attach url w = (Thrown (AttachmentTooLarge fileId), w').
Proof.
  intros Hid Hf Hbig.
  unfold EmailBuilder.attach, FileUtils.extractFileId, FileUtils.isFileTooLarge,
    DriveApp_getFileById, try_catch, bind.
  rewrite Hid. simpl. rewrite Hf.
  apply Z.ltb_lt in Hbig. rewrite Hbig. simpl. eexists. reflexivity.
Qed.

Lemma attach_within_limit (url fileId : string) (f : DriveFile) (w : World) :
  FileUtils.matchedFileId url = Some fileId ->
  drive w !! fileId = Some f ->
  (fileSize f <= MAX_ATTACHMENT_SIZE)%Z ->
  exists w', EmailBuilder.attach url w = (Returned fileId, w').
Proof.
  intros Hid Hf Hok.
  unfold EmailBuilder.attach, FileUtils.extractFileId, FileUtils.isFileTooLarge,
    FileUtils.getFileBlob, DriveApp_getFileById, try_catch, bind.
  rewrite Hid. simpl. rewrite Hf.
  assert ((MAX_ATTACHMENT_SIZE <? fileSize f)%Z = false) as ->
    by (apply Z.ltb_ge; exact Hok).
  simpl. rewrite Hf. eexists. reflexivity.
Qed.

(** A list of references that holds one above the ceiling is never
    attached as a whole: the loop throws at that reference at the latest. *)
Lemma attachAll_oversize (url fileId : string) (f : DriveFile)
  (urls : list string) :
  FileUtils.matchedFileId url = Some fileId ->
  (MAX_ATTACHMENT_SIZE < fileSize f)%Z ->
  url ∈ urls ->
  forall w, drive w !! fileId = Some f ->
    exists e w', EmailBuilder.attachAll urls w = (Thrown e, w').
Proof.
  intros Hid Hbig. induction urls as [|u urls IH]; intros Hin w Hf.
  { by apply elem_of_nil in Hin. }
  simpl. unfold bind at 1.
  destruct (EmailBuilder.attach u w) as [[blob|e] w1] eqn:Hu; [|eauto].
  apply elem_of_cons in Hin as [<-|Hin].
  - destruct (attach_oversize url fileId f w Hid Hf Hbig) as [w' Hthrow].
    congruence.
  - destruct (Quiet_attach _ _ _ _ Hu) as (Hd & _).
    destruct (IH Hin w1) as (e & w' & Hrest); [by rewrite Hd|].
    unfold bind. rewrite Hrest. eauto.
Qed.

(** When the references before it are attached, the loop throws
    [AttachmentTooLarge] for the reference above the ceiling. *)
Lemma attachAll_first_failure (url fileId : string) (f : DriveFile)
  (post : list string) :
  FileUtils.matchedFileId url = Some fileId ->
  (MAX_ATTACHMENT_SIZE < fileSize f)%Z ->
  forall (pre : list string) (w : World),
    drive w !! fileId = Some f ->
    Forall (fun u => exists id g, FileUtils.matchedFileId u = Some id /\
                                  drive w !! id = Some g /\
                                  (fileSize g <= MAX_ATTACHMENT_SIZE)%Z) pre ->
    exists w', EmailBuilder.attachAll (pre ++ url :: post) w
               = (Thrown (AttachmentTooLarge fileId), w').
Proof.
  intros Hid Hbig. induction pre as [|u pre IH]; intros w Hf Hpre; simpl.
  - destruct (attach_oversize url fileId f w Hid Hf Hbig) as [w' Hthrow].
    unfold bind. rewrite Hthrow. eauto.
  - inversion Hpre as [|? ? (id & g & Hu & Hg & Hok) Hpre']; subst.
    destruct (attach_within_limit u id g w Hu Hg Hok) as [w1 Hattach].
    destruct (Quiet_attach _ _ _ _ Hattach) as (Hd & _).
    destruct (IH w1) as [w' Hrest].
    + by rewrite Hd.
    + eapply Forall_impl; [exact Hpre'|]. intros x (id' & g' & ? & ? & ?).
      exists id', g'. by rewrite Hd.
    + unfold bind at 1. rewrite Hattach. unfold bind. rewrite Hrest. eauto.
Qed.

Lemma fileUrls_of_empty (row : EmailRow) :
  field row "attachments_urls" = EmptyString ->
  EmailBuilder.fileUrls row = [EmptyString].
Proof. unfold EmailBuilder.fileUrls. intros ->. reflexivity. Qed.

Lemma oversize_reference_truthy (row : EmailRow) (url fileId : string) :
  url ∈ EmailBuilder.fileUrls row ->
  FileUtils.matchedFileId url = Some fileId ->
  truthy (field row "attachments_urls") = true.
Proof.
  intros Hin Hid. destruct (field row "attachments_urls") eqn:Hfield; [|done].
  rewrite (fileUrls_of_empty row Hfield) in Hin.
  apply list_elem_of_singleton in Hin as ->. discriminate Hid.
Qed.

Lemma getAttachments_oversize (row : EmailRow) (url fileId : string)
  (f : DriveFile) (w : World) :
  url ∈ EmailBuilder.fileUrls row ->
  FileUtils.matchedFileId url = Some fileId ->
  drive w !! fileId = Some f ->
  (MAX_ATTACHMENT_SIZE < fileSize f)%Z ->
  exists e w', EmailBuilder.getAttachments row w = (Thrown e, w').
Proof.
  intros Hin Hid Hf Hbig. unfold EmailBuilder.getAttachments.
  rewrite (oversize_reference_truthy row url fileId Hin Hid). simpl.
  unfold bind at 1. simpl.
  edestruct (attachAll_oversize url fileId f (EmailBuilder.fileUrls row)
               Hid Hbig Hin) as (e & w' & Hthrow); [|].
  2: { unfold bind. rewrite Hthrow. eauto. }
  exact Hf.
Qed.

(** With a reference above the ceiling, [sendEmail] never answers [true]
    and hands nothing to the mail service. *)
Lemma sendEmail_oversize (row : EmailRow) (url fileId : string)
  (f : DriveFile) (w : World) :
  url ∈ EmailBuilder.fileUrls row ->
  FileUtils.matchedFileId url = Some fileId ->
  drive w !! fileId = Some f ->
  (MAX_ATTACHMENT_SIZE < fileSize f)%Z ->
  exists r w', EmailBuilder.sendEmail row w = (r, w') /\
               r <> Returned true /\ quiet w w'.
Proof.
  intros Hin Hid Hf Hbig. unfold EmailBuilder.sendEmail.
  assert (Hskip : forall msg w0, quiet w w0 ->
            exists r w', (CustomLogger.debug msg ;; ret false)%M w0 = (r, w') /\
                         r <> Returned true /\ quiet w w').
  { intros msg w0 Hq. eexists _, _. split; [reflexivity|]. split; [done|].
    eapply quiet_trans; [exact Hq|apply quiet_set_logs]. }
  destruct (EmailUtils.combineEmailAddresses _) as [to|];
    [|apply Hskip, quiet_refl].
  destruct (truthy to); [|apply Hskip, quiet_refl].
  unfold bind at 1.
  destruct (EmailBuilder.buildEmailBody row w) as [[body|e] w1] eqn:Hbody.
  2: { eexists _, _. split; [reflexivity|]. split; [done|].
       eapply Quiet_buildEmailBody, Hbody. }
  pose proof (Quiet_buildEmailBody _ _ _ _ Hbody) as Hq1.
  destruct body as [body|]; [|apply Hskip, Hq1].
  destruct (truthy body); [|apply Hskip, Hq1].
  destruct (getAttachments_oversize row url fileId f w1 Hin Hid) as
    (e & w2 & Hthrow); [by destruct Hq1 as [-> _]|exact Hbig|].
  unfold bind. rewrite Hthrow. eexists _, _. split; [reflexivity|].
  split; [done|].
  eapply quiet_trans; [exact Hq1|eapply Quiet_getAttachments, Hthrow].
Qed.

Lemma processRow_oversize (row : EmailRow) (url fileId : string)
  (f : DriveFile) (w : World) :
  url ∈ EmailBuilder.fileUrls row ->
  FileUtils.matchedFileId url = Some fileId ->
  drive w !! fileId = Some f ->
  (MAX_ATTACHMENT_SIZE < fileSize f)%Z ->
  exists r w', EmailProcessor.processRow row w = (r, w') /\
               r <> Returned true /\ quiet w w'.
Proof.
  intros Hin Hid Hf Hbig. unfold EmailProcessor.processRow, bind.
  destruct (EmailProcessor.validateRow row w) as [[valid|e] w0] eqn:Hvalid.
  - pose proof (Quiet_validateRow _ _ _ _ Hvalid) as Hq.
    destruct valid.
    + destruct (sendEmail_oversize row url fileId f w0 Hin Hid) as
        (r & w' & Hsend & Hr & Hq'); [by destruct Hq as [-> _]|exact Hbig|].
      exists r, w'. split; [exact Hsend|]. split; [exact Hr|].
      eapply quiet_trans; eauto.
    + eexists _, _. split; [reflexivity|]. split; [done|exact Hq].
  - eexists _, _. split; [reflexivity|]. split; [done|].
    eapply Quiet_validateRow, Hvalid.
Qed.

Lemma join_truthy (sep x : string) (l : list string) :
  truthy x = true -> truthy (join sep (x :: l)) = true.
Proof. destruct x; [discriminate|]. intros _. destruct l; reflexivity. Qed.

Lemma combineEmailAddresses_truthy (sources : list string) (to : string) :
  EmailUtils.combineEmailAddresses sources = Some to -> truthy to = true.
Proof.
  unfold EmailUtils.combineEmailAddresses.
  rewrite filter_truthy_parsed. set (allEmails := flat_map _ sources).
  destruct (Set_of allEmails) as [|a l] eqn:Hset; [discriminate|].
  intros [= <-]. apply join_truthy.
  assert (a ∈ allEmails) as Ha.
  { pose proof (proj2 (Set_fold_spec allEmails [] NoDup_nil_2) a) as Hspec.
    fold (Set_of allEmails) in Hspec. rewrite Hset in Hspec.
    destruct (proj1 Hspec) as [Hnil|Hall]; [by left| |done].
    by apply elem_of_nil in Hnil. }
  apply list_elem_of_In, in_flat_map in Ha as (source & _ & Ha).
  destruct (truthy source); [|destruct Ha].
  eapply parseEmailAddresses_truthy, list_elem_of_In, Ha.
Qed.

(** C3 (as amended). A record with an attachment reference whose file is
    above the 21 MiB ceiling is never handed to the mail service, with all
    or with part of its attachments: the round of the loop returns
    normally with the outbox, History, the pending sheet and Drive as they
    were. When the record reaches the attachment step (it passes
    validation, a recipient is parsed, the body renders) and the
    references before the oversize one are attached, its processing fails
    with [AttachmentTooLarge] for that reference. *)
Theorem oversize_attachment_is_never_sent
  (tm : TemplateManager.t) (headers : Js.obj nat) (i : nat)
  (cells : list string) (row : EmailRow) (w : World)
  (url fileId : string) (f : DriveFile) :
  EmailProcessor.applyTemplateIfNeeded tm
    (SpreadsheetUtils.mapRowToObject cells headers []) w = (Returned row, w) ->
  url ∈ EmailBuilder.fileUrls row ->
  FileUtils.matchedFileId url = Some fileId ->
  drive w !! fileId = Some f ->
  (MAX_ATTACHMENT_SIZE < fileSize f)%Z ->
  (exists w' : World,
     EmailProcessor.sendRow tm headers i cells w = (Returned tt, w') /\
     outbox w' = outbox w /\ history w' = history w /\
     toSend w' = toSend w /\ drive w' = drive w) /\
  (forall (to body : string) (w1 : World) (pre post : list string),
     truthy (field row "distribution_emails") = true \/
     truthy (field row "additional_emails") = true ->
     truthy (field row "email_body_template") = true ->
     EmailUtils.combineEmailAddresses
       [field row "distribution_emails"; field row "additional_emails"]
       = Some to ->
     EmailBuilder.buildEmailBody row w = (Returned (Some body), w1) ->
     truthy body = true ->
     EmailBuilder.fileUrls row = pre ++ url :: post ->
     Forall (fun u => exists id g, FileUtils.matchedFileId u = Some id /\
                                   drive w !! id = Some g /\
                                   (fileSize g <= MAX_ATTACHMENT_SIZE)%Z) pre ->
     exists w2 : World,
       EmailProcessor.processRow row w
       = (Thrown (AttachmentTooLarge fileId), w2) /\
       outbox w2 = outbox w).
Proof.
  intros Hresolved Hin Hid Hf Hbig. split.
  - unfold EmailProcessor.sendRow.
    destruct (forallb (fun cell => negb (truthy cell)) cells).
    { eexists. split; [reflexivity|]. repeat split. }
    destruct (processRow_oversize row url fileId f w Hin Hid Hf Hbig)
      as (r & w' & Hrun & Hr & Hq).
    unfold try_catch, bind. rewrite Hresolved. simpl. rewrite Hrun.
    destruct Hq as (Hd & Ho & Ht & Hh & _).
    destruct r as [[|]|e]; [done| |];
      (eexists; split; [reflexivity|]; simpl; by rewrite Hd, Ho, Ht, Hh).
  - intros to body w1 pre post Hrcpt Htpl Hto Hbody Hbt Hurls Hpre.
    pose proof (Quiet_buildEmailBody _ _ _ _ Hbody) as (Hd1 & Ho1 & _).
    destruct (attachAll_first_failure url fileId f post Hid Hbig pre
                (set_logs (logs w1 ++
                   [(DEBUG, "Processing " +:+
                            pretty (length (EmailBuilder.fileUrls row)) +:+
                            " attachment(s).")]) w1))
      as [w2 Hthrow].
    { simpl. by rewrite Hd1. }
    { eapply Forall_impl; [exact Hpre|]. intros x (id & g & ? & ? & ?).
      exists id, g. simpl. by rewrite Hd1. }
    exists w2. split.
    + unfold EmailProcessor.processRow, EmailProcessor.validateRow.
      assert (negb (truthy (field row "distribution_emails")) &&
              negb (truthy (field row "additional_emails")) = false) as ->.
      { destruct Hrcpt as [-> | ->]; [done|]. apply andb_false_r. }
      rewrite Htpl. simpl. unfold bind at 1. simpl.
      unfold EmailBuilder.sendEmail. rewrite Hto.
      rewrite (combineEmailAddresses_truthy _ _ Hto).
      unfold bind at 1. rewrite Hbody, Hbt.
      unfold bind at 1. unfold EmailBuilder.getAttachments.
      rewrite (oversize_reference_truthy row url fileId Hin Hid). simpl.
      unfold bind at 1. simpl. rewrite Hurls in *.
      unfold bind at 1. rewrite Hthrow. reflexivity.
    + pose proof (Quiet_attachAll _ _ _ _ Hthrow) as (_ & Ho2 & _).
      rewrite Ho2. simpl. exact Ho1.
Qed.

(** *** Subject *)

Lemma for_each_keeps_outbox {A : Type} (body : A -> M unit) :
  (forall x w, exists w', body x w = (Returned tt, w') /\
                          outbox w' = outbox w) ->
  forall l w, exists w', for_each l body w = (Returned tt, w') /\
                         outbox w' = outbox w.
Proof.
  intros Hbody. induction l as [|x l IH]; intros w; [by eexists|].
  change (for_each (x :: l) body w)
    with (bind (body x) (fun _ => for_each l body) w).
  destruct (Hbody x w) as (w1 & H1 & Ho1).
  rewrite (bind_Returned _ _ _ _ _ H1).
  destruct (IH w1) as (w' & Hrest & Ho'). exists w'. split; [exact Hrest|].
  congruence.
Qed.

Lemma trashAttachments_returns (row : EmailRow) (w : World) :
  exists w', EmailBuilder.trashAttachments row w = (Returned tt, w') /\
             outbox w' = outbox w.
Proof.
  unfold EmailBuilder.trashAttachments.
  destruct (negb (truthy (field row "attachments_urls"))); [by eexists|].
  apply for_each_keeps_outbox. clear w. intros url w.
  unfold FileUtils.extractFileId, FileUtils.trashFile, DriveApp_getFileById,
    try_catch, bind.
  destruct (FileUtils.matchedFileId url) as [fileId|]; simpl; [|by eexists].
  destruct (drive w !! fileId); simpl; by eexists.
Qed.

Lemma EmailUtils_sendEmail_hands_over (to subj body : string)
  (blobs : list string) (w : World) :
  let mail := {| recipients := to; subject := subj; htmlBody := body;
                 attachments := blobs; fromEmail := CONFIG.FROM_EMAIL |} in
  exists w', EmailUtils.sendEmail to subj body blobs w
             = (Returned (GmailApp_sendEmail mail), w') /\
             outbox w' = outbox w ++ [mail].
Proof.
  intros mail. unfold EmailUtils.sendEmail, CustomLogger.debug,
    CustomLogger.error, Logger_log, bind, ret. simpl. fold mail.
  destruct (GmailApp_sendEmail mail); eexists; split; reflexivity.
Qed.

(** C10. A record that passes validation, has a parsed recipient, a
    rendered body and resolved attachments is handed to the mail service
    even when evaluating its subject template throws: the subject is then
    the default subject, and the answer of [processRow] is the answer of
    the mail service. *)
Theorem subject_failure_falls_back_to_default
  (row : EmailRow) (w w1 w2 w3 : World) (to body : string)
  (blobs : list string) (e : Exn) :
  truthy (field row "distribution_emails") = true \/
  truthy (field row "additional_emails") = true ->
  truthy (field row "email_body_template") = true ->
  EmailUtils.combineEmailAddresses
    [field row "distribution_emails"; field row "additional_emails"]
    = Some to ->
  EmailBuilder.buildEmailBody row w = (Returned (Some body), w1) ->
  truthy body = true ->
  EmailBuilder.getAttachments row w1 = (Returned blobs, w2) ->
  truthy (field row "email_subject_template") = true ->
  EmailBuilder.evaluateSubject row w2 = (Thrown e, w3) ->
  let mail := {| recipients := to; subject := CONFIG.DEFAULT_SUBJECT;
                 htmlBody := body; attachments := blobs;
                 fromEmail := CONFIG.FROM_EMAIL |} in
  exists w' : World,
    EmailProcessor.processRow row w
    = (Returned (GmailApp_sendEmail mail), w') /\
    outbox w' = outbox w ++ [mail].
Proof.
  intros Hrcpt Htpl Hto Hbody Hbt Hatt Hsubj Hthrow mail.
  pose proof (Quiet_buildEmailBody _ _ _ _ Hbody) as (_ & Ho1 & _).
  pose proof (Quiet_getAttachments _ _ _ _ Hatt) as (_ & Ho2 & _).
  assert (Ho3 : outbox w3 = outbox w2).
  { assert (Quiet (EmailBuilder.evaluateSubject row)) as Hq
      by (unfold EmailBuilder.evaluateSubject; quiet).
    by destruct (Hq _ _ _ Hthrow) as (_ & ? & _). }
  unfold EmailProcessor.processRow, EmailProcessor.validateRow.
  assert (negb (truthy (field row "distribution_emails")) &&
          negb (truthy (field row "additional_emails")) = false) as ->.
  { destruct Hrcpt as [-> | ->]; [done|]. apply andb_false_r. }
  rewrite Htpl. simpl. unfold bind at 1. simpl.
  unfold EmailBuilder.sendEmail. rewrite Hto.
  rewrite (combineEmailAddresses_truthy _ _ Hto).
  rewrite (bind_Returned _ _ _ _ _ Hbody), Hbt.
  rewrite (bind_Returned _ _ _ _ _ Hatt).
  assert (Hsubject : EmailBuilder.getFinalSubject row w2 =
            (Returned CONFIG.DEFAULT_SUBJECT,
             set_logs (logs w3 ++
                       [(ERROR, "Error building subject from template")]) w3)).
  { unfold EmailBuilder.getFinalSubject. rewrite Hsubj.
    unfold try_catch. rewrite Hthrow. reflexivity. }
  rewrite (bind_Returned _ _ _ _ _ Hsubject).
  destruct (EmailUtils_sendEmail_hands_over to CONFIG.DEFAULT_SUBJECT body blobs
              (set_logs (logs w3 ++
                 [(ERROR, "Error building subject from template")]) w3))
    as (w4 & Hsend & Ho4).
  rewrite (bind_Returned _ _ _ _ _ Hsend). fold mail in Ho4 |- *.
  destruct (GmailApp_sendEmail mail).
  - destruct (trashAttachments_returns row w4) as (w5 & Htrash & Ho5).
    rewrite (bind_Returned _ _ _ _ _ Htrash). exists w5.
    split; [reflexivity|]. rewrite Ho5, Ho4. simpl. congruence.
  - exists w4. split; [reflexivity|]. rewrite Ho4. simpl. congruence.
Qed.

(** By contrast, a body that cannot be built makes [sendEmail] answer
    [false] with nothing handed to the mail service. *)
Lemma body_failure_skips_record (row : EmailRow) (w w1 : World) :
  EmailBuilder.buildEmailBody row w = (Returned None, w1) ->
  exists w', EmailBuilder.sendEmail row w = (Returned false, w') /\
             outbox w' = outbox w.
Proof.
  intros Hbody. pose proof (Quiet_buildEmailBody _ _ _ _ Hbody) as (_ & Ho & _).
  unfold EmailBuilder.sendEmail.
  destruct (EmailUtils.combineEmailAddresses _) as [to|]; [|by eexists].
  destruct (truthy to); [|by eexists].
  unfold bind at 1. rewrite Hbody. eexists. split; [reflexivity|exact Ho].
Qed.

End Pipeline.
Lemma sendRow_validation_failure_is_silent_witness :
  exists w' : World,
    Code.EmailProcessor.sendRow (H := Demo.runtime) Demo.noTemplates
      Demo.headers 1 Demo.rowWithoutRecipients (Demo.world Demo.files)
    = (Returned tt, w') /\
    outbox w' = [] /\ history w' = [] /\ alerts w' = [].
Proof.
  destruct (sendRow_validation_failure_is_silent (H := Demo.runtime)
              Demo.noTemplates Demo.headers 1 Demo.rowWithoutRecipients
              (Demo.asRow Demo.rowWithoutRecipients)
              (Demo.world Demo.files) eq_refl
              (or_introl (conj eq_refl eq_refl)))
    as (w' & entries & Hrun & Hout & Hhist & _ & Halerts & _).
  exists w'. split; [exact Hrun|]. split; [exact Hout|].
  split; [exact Hhist|exact Halerts].
Defined.

(** The claim as first stated, about every stored record with these
    fields empty, does not hold: validation comes after the template is
    resolved. A stored row without recipients and without body that names
    the template T, which supplies both, is sent, appended to History and
    deleted from the pending sheet. *)
Lemma stored_record_completed_by_template_counterexample :
  ~ (forall (tm : Code.TemplateManager.t) (headers : Js.obj nat) (i : nat)
            (cells : list string) (w : World),
       let record := Code.SpreadsheetUtils.mapRowToObject cells headers [] in
       truthy (field record "distribution_emails") = false /\
       truthy (field record "additional_emails") = false \/
       truthy (field record "email_body_template") = false ->
       exists (w' : World) (entries : list (LogLevel * string)),
         Code.EmailProcessor.sendRow (H := Demo.runtime) tm headers i cells w
           = (Returned tt, w') /\
         outbox w' = outbox w /\
         history w' = history w /\
         toSend w' = toSend w /\
         alerts w' = alerts w /\
         drive w' = drive w /\
         logged w w' entries /\
         Forall (fun entry => fst entry = DEBUG) entries).
Proof.
  intros Hclaim.
  destruct (Hclaim (Code.TemplateManager.loadTemplateData Demo.sendingTemplates)
              Demo.headers 1 Demo.rowLeftToTemplate Demo.pendingWorld)
    as (w' & entries & Hrun & Hout & _).
  - left. split; reflexivity.
  - vm_compute in Hrun. injection Hrun as <-. discriminate Hout.
Qed.

Example sendRow_completed_by_template :
  exists w' : World,
    Code.EmailProcessor.sendRow (H := Demo.runtime)
      (Code.TemplateManager.loadTemplateData Demo.sendingTemplates)
      Demo.headers 1 Demo.rowLeftToTemplate Demo.pendingWorld
    = (Returned tt, w') /\
    map recipients (outbox w') = ["u@x.com"%string] /\
    history w' =
      [Demo.rowLeftToTemplate ++ ["2025-01-01T00:00:00Z"%string]] /\
    toSend w' = [Demo.headerRow].
Proof. eexists. split; [vm_compute; reflexivity|]. by vm_compute. Qed.


Lemma oversize_attachment_is_never_sent_witness :
  exists w' : World,
    Code.EmailProcessor.sendRow (H := Demo.runtime) Demo.noTemplates
      Demo.headers 1 Demo.rowWithBigAttachment (Demo.world Demo.files)
    = (Returned tt, w') /\
    outbox w' = [] /\ history w' = [].
Proof.
  destruct (oversize_attachment_is_never_sent (H := Demo.runtime)
              Demo.noTemplates Demo.headers 1 Demo.rowWithBigAttachment
              (Demo.asRow Demo.rowWithBigAttachment) (Demo.world Demo.files)
              Demo.bigFileId Demo.bigFileId
              {| fileSize := 30000000; fileContent := EmptyString;
                 trashed := false |})
    as [(w' & Hrun & Hout & Hhist & _) _].
  - reflexivity.
  - apply list_elem_of_In. vm_compute. left. reflexivity.
  - vm_compute. reflexivity.
  - vm_compute. reflexivity.
  - vm_compute. reflexivity.
  - exists w'. split; [exact Hrun|]. split; [exact Hout|exact Hhist].
Defined.

(** The claim as first stated (every record with an oversize attachment
    fails as [AttachmentTooLarge]) does not hold: a record without
    recipients is stopped by validation before its attachments are looked
    at, and [processRow] answers [false]. *)
Lemma oversize_record_without_recipients_counterexample :
  ~ (forall (row : EmailRow) (w : World) (url fileId : string) (f : DriveFile),
       url ∈ Code.EmailBuilder.fileUrls row ->
       Code.FileUtils.matchedFileId url = Some fileId ->
       drive w !! fileId = Some f ->
       (Code.MAX_ATTACHMENT_SIZE < fileSize f)%Z ->
       exists w', Code.EmailProcessor.processRow (H := Demo.runtime) row w
                  = (Thrown (AttachmentTooLarge fileId), w')).
Proof.
  intros Hclaim.
  destruct (Hclaim (Demo.asRow Demo.rowWithoutRecipients)
              (Demo.world Demo.files) Demo.bigFileId Demo.bigFileId
              {| fileSize := 30000000; fileContent := EmptyString;
                 trashed := false |}) as [w' Hrun].
  - apply list_elem_of_In. vm_compute. left. reflexivity.
  - vm_compute. reflexivity.
  - vm_compute. reflexivity.
  - vm_compute. reflexivity.
  - vm_compute in Hrun. discriminate Hrun.
Qed.

Example processRow_without_recipients :
  fst (Code.EmailProcessor.processRow (H := Demo.runtime)
         (Demo.asRow Demo.rowWithoutRecipients) (Demo.world Demo.files))
  = Returned false.
Proof. vm_compute. reflexivity. Qed.

Lemma subject_failure_falls_back_to_default_witness :
  exists w' : World,
    Code.EmailProcessor.processRow (H := Demo.runtime)
      (Demo.asRow Demo.rowWithBrokenSubject) (Demo.world Demo.files)
    = (Returned true, w') /\
    map subject (outbox w') = [Code.CONFIG.DEFAULT_SUBJECT].
Proof.
  edestruct (subject_failure_falls_back_to_default (H := Demo.runtime)
               (Demo.asRow Demo.rowWithBrokenSubject) (Demo.world Demo.files))
    as (w' & Hrun & Hout).
  - left. vm_compute. reflexivity.
  - vm_compute. reflexivity.
  - vm_compute. reflexivity.
  - vm_compute. reflexivity.
  - vm_compute. reflexivity.
  - vm_compute. reflexivity.
  - vm_compute. reflexivity.
  - vm_compute. reflexivity.
  - exists w'. split; [exact Hrun|]. rewrite Hout. reflexivity.
Defined.

(** ** Session identifiers *)

Section SessionId.
Import Regex Code.

(** [String.prototype.match] without flag g and without groups answers an
    array of one element. *)
Lemma match_first_single (r : re) (l : list ascii) (matches : list (list ascii)) :
  match_first r 0 l = Some matches -> length matches = 1.
Proof.
  unfold match_first. destruct (search r [] l) as [[s e]|]; [|done].
  by intros [= <-].
Qed.

(** Whatever the text, [parseSessionId] returns normally and logs at most
    one debug entry, which is never the warning about several identifiers:
    the branch [ids.length > 1] cannot be taken. *)
Lemma parseSessionId_single_entry (text : string) (w : World) :
  exists (r : option string) (entries : list (LogLevel * string)),
    EmailUtils.parseSessionId text w
    = (Returned r, set_logs (logs w ++ entries) w) /\
    (entries = [] \/
     entries = [(DEBUG, "No Bluebeam Session ID found in the text: " +:+ text)] \/
     exists ids, length ids <= 1 /\
       entries = [(DEBUG, "Found session IDs: " +:+ join ", " ids)]).
Proof.
  unfold EmailUtils.parseSessionId.
  destruct (negb (truthy text)).
  { exists None, []. split; [|by left].
    unfold ret. by rewrite app_nil_r; destruct w. }
  destruct (match_first EmailUtils.sessionIdRegex 0 (chars text))
    as [matches|] eqn:Hm.
  - apply match_first_single in Hm.
    destruct matches as [|m0 [|? ?]]; try discriminate Hm.
    simpl map. simpl List.filter.
    destruct (truthy (str m0)) eqn:Ht.
    + eexists _, _. split; [reflexivity|].
      right; right. exists [str m0]. split; [simpl; lia|reflexivity].
    + eexists _, _. split; [reflexivity|].
      right; right. exists []. split; [simpl; lia|reflexivity].
  - eexists _, _. split; [reflexivity|]. right; left. reflexivity.
Qed.

End SessionId.

(** C7. On a text with two different identifiers the function returns the
    first one, and the only thing it logs is the identifier found: the
    warning about several identifiers is not emitted. *)
Theorem parseSessionId_conflict_is_not_logged :
  Code.EmailUtils.parseSessionId "join 111-222-333 or 444-555-666"
    (Demo.world ∅)
  = (Returned (Some "111-222-333"),
     set_logs [(DEBUG, "Found session IDs: 111-222-333")] (Demo.world ∅)).
Proof. vm_compute. reflexivity. Qed.

Example parseSessionId_none :
  fst (Code.EmailUtils.parseSessionId "no identifier 1234-567-890 here"
         (Demo.world ∅))
  = Returned None.
Proof. vm_compute. reflexivity. Qed.

(** ** Ampersands in the subject fields (version 1.2.1) *)

Section Ampersand.
Context `{Runtime}.
Import Regex.

Lemma match_at_Cls (p : ascii -> bool) (bef l : list ascii) :
  match_at (Cls p) bef l =
  match l with
  | c :: t => if p c then Some (Cursor (c :: bef) t []) else None
  | [] => None
  end.
Proof.
  unfold match_at. simpl. destruct l as [|c t]; [done|]. by destruct (p c).
Qed.

Lemma shorter_tail (bef bef' t : list ascii) (c : ascii)
  (cs : list (nat * list ascii)) :
  shorter (Cursor bef' t cs) (at_start bef (c :: t)) = true.
Proof. unfold shorter. simpl. apply Nat.ltb_lt. lia. Qed.

(** Replacing a single code unit everywhere. *)
Lemma replace_loop_char (c0 : ascii) (rep : list ascii) :
  forall fuel bef l, length l < fuel ->
    replace_loop (Cls (Chars.chr c0)) (fun _ _ => rep) fuel bef l
    = flat_map (fun c => if Chars.chr c0 c then rep else [c]) l.
Proof.
  induction fuel as [|fu IH]; intros bef l Hlen; [lia|].
  simpl replace_loop. rewrite match_at_Cls.
  destruct l as [|c t]; [done|]. simpl in Hlen. simpl flat_map.
  destruct (Chars.chr c0 c).
  - rewrite shorter_tail. simpl. rewrite IH by lia. done.
  - simpl. rewrite IH by lia. done.
Qed.

Lemma chars_str (l : list ascii) : chars (str l) = l.
Proof. apply list_ascii_of_string_of_list_ascii. Qed.

Lemma str_chars (s : string) : str (chars s) = s.
Proof. apply string_of_list_ascii_of_string. Qed.

Lemma sanitizeInput_no_ampersand (text : string) :
  no_ampersand (SrcCode.TextUtils.sanitizeInput text).
Proof.
  unfold SrcCode.TextUtils.sanitizeInput, no_ampersand.
  destruct (negb (truthy text)); [constructor|].
  rewrite chars_str. unfold replace_all. rewrite replace_loop_char by lia.
  apply Forall_forall. intros c Hc.
  apply list_elem_of_In, in_flat_map in Hc as (x & _ & Hc).
  destruct (Chars.chr "&" x) eqn:Hx.
  - simpl in Hc. destruct Hc as [<-|[<-|[<-|[]]]]; discriminate.
  - destruct Hc as [<-|[]]. intros ->. discriminate Hx.
Qed.

Lemma falsy_no_ampersand (s : string) : truthy s = false -> no_ampersand s.
Proof. destruct s; [constructor|discriminate]. Qed.

Lemma field_insert_eq (row : EmailRow) (key value : string) :
  field (<[key := value]> row) key = value.
Proof. unfold field. by rewrite lookup_insert_eq. Qed.

Lemma field_insert_ne (row : EmailRow) (key key' value : string) :
  key <> key' -> field (<[key := value]> row) key' = field row key'.
Proof. intros Hne. unfold field. by rewrite lookup_insert_ne. Qed.

Lemma new_subject_fields (row : EmailRow) :
  no_ampersand (field (SrcCode.EmailBuilder.new row) "email_subject_template") /\
  no_ampersand (field (SrcCode.EmailBuilder.new row) "subject_template_value").
Proof.
  unfold SrcCode.EmailBuilder.new.
  assert (H1 : forall row1 : EmailRow,
            row1 = (if truthy (field row "subject_template_value")
                    then <["subject_template_value"%string :=
                             SrcCode.TextUtils.sanitizeInput
                               (field row "subject_template_value")]> row
                    else row) ->
            no_ampersand (field row1 "subject_template_value")).
  { intros row1 ->.
    destruct (truthy (field row "subject_template_value")) eqn:Hv.
    - rewrite field_insert_eq. apply sanitizeInput_no_ampersand.
    - by apply falsy_no_ampersand. }
  specialize (H1 _ eq_refl). revert H1.
  generalize (if truthy (field row "subject_template_value")
              then <["subject_template_value"%string :=
                       SrcCode.TextUtils.sanitizeInput
                         (field row "subject_template_value")]> row
              else row).
  intros row1 H1.
  destruct (truthy (field row1 "email_subject_template")) eqn:Hs.
  - split.
    + rewrite field_insert_eq. apply sanitizeInput_no_ampersand.
    + rewrite field_insert_ne by done. exact H1.
  - split; [by apply falsy_no_ampersand|exact H1].
Qed.

Lemma Unrendered_ret {A : Type} (a : A) : Unrendered (ret a).
Proof. by intros w r w' [= <- <-]. Qed.

Lemma Unrendered_throw {A : Type} (e : Exn) : Unrendered (throw e : M A).
Proof. by intros w r w' [= <- <-]. Qed.

Lemma Unrendered_log (lvl : LogLevel) (msg : string) :
  Unrendered (Logger_log lvl msg).
Proof. by intros w r w' [= <- <-]. Qed.

Lemma Unrendered_bind {A B : Type} (c : M A) (k : A -> M B) :
  Unrendered c -> (forall a, Unrendered (k a)) -> Unrendered (bind c k).
Proof.
  intros Hc Hk w r w'. unfold bind.
  destruct (c w) as [[a|e] w1] eqn:Hcw.
  - intros Hr. rewrite (Hk _ _ _ _ Hr). eapply Hc, Hcw.
  - intros [= <- <-]. eapply Hc, Hcw.
Qed.

Lemma Unrendered_try_catch {A : Type} (c : M A) (h : Exn -> M A) :
  Unrendered c -> (forall e, Unrendered (h e)) -> Unrendered (try_catch c h).
Proof.
  intros Hc Hh w r w'. unfold try_catch.
  destruct (c w) as [[a|e] w1] eqn:Hcw.
  - intros [= <- <-]. eapply Hc, Hcw.
  - intros Hr. rewrite (Hh _ _ _ _ Hr). eapply Hc, Hcw.
Qed.

Lemma Unrendered_evaluate (t : template) (v : TemplateValues json) :
  Unrendered (evaluate t v).
Proof.
  unfold evaluate. destruct (HtmlTemplate_evaluate t v);
    [apply Unrendered_ret|apply Unrendered_throw].
Qed.

Lemma Unrendered_sanitizeJsonText (text : string) :
  Unrendered (SrcCode.TextUtils.sanitizeJsonText text).
Proof.
  unfold SrcCode.TextUtils.sanitizeJsonText, SrcCode.AppScriptLogger.error.
  destruct (negb (truthy text)); [apply Unrendered_ret|].
  apply Unrendered_try_catch.
  - destruct (JSON_parse _); [apply Unrendered_ret|apply Unrendered_throw].
  - intros _. apply Unrendered_bind; [apply Unrendered_log|].
    intros _. apply Unrendered_ret.
Qed.

Lemma Unrendered_getTemplateValues (row : EmailRow) :
  Unrendered (SrcCode.EmailBuilder.getTemplateValues row).
Proof.
  unfold SrcCode.EmailBuilder.getTemplateValues.
  apply Unrendered_bind; [apply Unrendered_sanitizeJsonText|]. intros text.
  apply Unrendered_bind; [|intros ?; apply Unrendered_ret].
  destruct (JSON_parse text); [apply Unrendered_ret|apply Unrendered_throw].
Qed.

(** [sanitizeInput] does what the specification says: each [&] becomes
    the word and, every other character stays. *)
Lemma sanitizeInput_ampersands_to_and (text : string) :
  SrcCode.TextUtils.sanitizeInput text = Passes.ampersands_to_and text.
Proof.
  unfold SrcCode.TextUtils.sanitizeInput.
  destruct (negb (truthy text)) eqn:Hempty.
  { by destruct text. }
  unfold replace_all. rewrite replace_loop_char by lia. clear Hempty.
  induction text as [|c t IH]; [done|].
  change (chars (String c t)) with (c :: chars t). cbn [flat_map].
  unfold Chars.chr at 1. rewrite Ascii.eqb_sym.
  cbn [Passes.ampersands_to_and].
  destruct (Ascii.eqb c "&"); cbn; by rewrite <- IH.
Qed.

Lemma ampersands_to_and_truthy (text : string) :
  truthy (Passes.ampersands_to_and text) = truthy text.
Proof.
  destruct text as [|c t]; [done|]. cbn. by destruct (Ascii.eqb c "&").
Qed.

Lemma falsy_ampersands_to_and (text : string) :
  truthy text = false -> text = Passes.ampersands_to_and text.
Proof. by destruct text. Qed.

(** The fields of the row that the constructor keeps. *)
Lemma new_fields (row : EmailRow) (key : string) :
  field (SrcCode.EmailBuilder.new row) key =
  if decide (key = "email_subject_template"%string \/
             key = "subject_template_value"%string)
  then Passes.ampersands_to_and (field row key)
  else field row key.
Proof.
  unfold SrcCode.EmailBuilder.new.
  set (row1 := if truthy (field row "subject_template_value")
               then <["subject_template_value"%string :=
                        SrcCode.TextUtils.sanitizeInput
                          (field row "subject_template_value")]> row
               else row).
  assert (H1 : forall k, field row1 k =
            if decide (k = "subject_template_value"%string)
            then Passes.ampersands_to_and (field row k) else field row k).
  { intros k. subst row1.
    destruct (truthy (field row "subject_template_value")) eqn:Hv;
      destruct (decide (k = "subject_template_value"%string)) as [->|Hk].
    - by rewrite field_insert_eq, sanitizeInput_ampersands_to_and.
    - by rewrite field_insert_ne.
    - by apply falsy_ampersands_to_and.
    - done. }
  clearbody row1.
  assert (Hs : field row1 "email_subject_template"
               = field row "email_subject_template").
  { rewrite H1. by destruct (decide _). }
  destruct (truthy (field row1 "email_subject_template")) eqn:Ht.
  - destruct (decide (key = "email_subject_template"%string)) as [->|Hk].
    + rewrite field_insert_eq, sanitizeInput_ampersands_to_and, Hs.
      by destruct (decide _) as [|[]]; [|by left].
    + rewrite field_insert_ne by done. rewrite H1.
      destruct (decide (key = "subject_template_value"%string)) as [->|Hk'].
      * by destruct (decide _) as [|[]]; [|by right].
      * destruct (decide _) as [[|]|]; done.
  - rewrite H1.
    destruct (decide (key = "subject_template_value"%string)) as [->|Hk'].
    + by destruct (decide _) as [|[]]; [|by right].
    + destruct (decide _) as [[->|]|]; [|done|done].
      rewrite <- Hs. apply falsy_ampersands_to_and. by rewrite Ht.
Qed.

Lemma Unrendered_debug (msg : string) :
  Unrendered (Code.CustomLogger.debug msg).
Proof.
  unfold Code.CustomLogger.debug.
  destruct Code.CONFIG.DEBUG_MODE; [apply Unrendered_log|apply Unrendered_ret].
Qed.

Lemma Unrendered_getTemplateValues_1_1_0 (row : EmailRow) :
  Unrendered (Code.EmailBuilder.getTemplateValues row).
Proof.
  unfold Code.EmailBuilder.getTemplateValues.
  apply Unrendered_bind.
  { unfold Code.TextUtils.sanitizeJsonText.
    destruct (negb _); [apply Unrendered_ret|].
    apply Unrendered_try_catch.
    - destruct (JSON_parse _); [apply Unrendered_ret|apply Unrendered_throw].
    - intros _. apply Unrendered_bind; [apply Unrendered_log|].
      intros _. apply Unrendered_ret. }
  intros sanitized. apply Unrendered_bind.
  { destruct (truthy sanitized); [|apply Unrendered_ret].
    destruct (JSON_parse _); [apply Unrendered_ret|apply Unrendered_throw]. }
  intros values. apply Unrendered_bind; [|intros ?; apply Unrendered_ret].
  unfold Code.EmailUtils.parseSessionId.
  destruct (negb _); [apply Unrendered_ret|].
  destruct (match_first _ _ _).
  - apply Unrendered_bind; [apply Unrendered_debug|]. intros _.
    apply Unrendered_bind; [|intros ?; apply Unrendered_ret].
    destruct (Nat.ltb _ _); [apply Unrendered_debug|apply Unrendered_ret].
  - apply Unrendered_bind; [apply Unrendered_debug|]. intros _.
    apply Unrendered_ret.
Qed.

(** Version 1.1.0 hands its [email_subject_template] to
    [HtmlService.createTemplate] as it is stored. *)
Lemma getFinalSubject_rendered_1_1_0 (row : EmailRow) (w w' : World)
  (r : Outcome string) :
  Code.EmailBuilder.getFinalSubject row w = (r, w') ->
  rendered w' =
  rendered w ++
  (if truthy (field row "email_subject_template")
   then [field row "email_subject_template"] else []).
Proof.
  unfold Code.EmailBuilder.getFinalSubject.
  destruct (truthy (field row "email_subject_template"));
    [|intros [= <- <-]; by rewrite app_nil_r].
  assert (Hhandler : forall e : Exn,
            Unrendered (bind (Code.CustomLogger.error
                                "Error building subject from template")
                          (fun _ => ret Code.CONFIG.DEFAULT_SUBJECT))).
  { intros _. apply Unrendered_bind; [apply Unrendered_log|].
    intros _. apply Unrendered_ret. }
  unfold try_catch, Code.EmailBuilder.evaluateSubject, bind at 1,
    createTemplate.
  set (w1 := set_rendered (rendered w ++ [field row "email_subject_template"]) w).
  assert (Hrest : forall tpl,
            Unrendered
              (values <- Code.EmailBuilder.getTemplateValues row ;;
               content <- evaluate tpl values ;;
               ret (let processedSubject :=
                      Code.TextUtils.decodeHtmlEntities
                        (str (trim (chars content))) in
                    if truthy processedSubject then processedSubject
                    else Code.CONFIG.DEFAULT_SUBJECT))%M).
  { intros tpl. apply Unrendered_bind;
      [apply Unrendered_getTemplateValues_1_1_0|].
    intros vals. apply Unrendered_bind; [apply Unrendered_evaluate|].
    intros content. apply Unrendered_ret. }
  destruct (HtmlService_createTemplate (field row "email_subject_template"))
    as [tpl|].
  - destruct ((values <- Code.EmailBuilder.getTemplateValues row ;;
               content <- evaluate tpl values ;;
               ret (let processedSubject :=
                      Code.TextUtils.decodeHtmlEntities
                        (str (trim (chars content))) in
                    if truthy processedSubject then processedSubject
                    else Code.CONFIG.DEFAULT_SUBJECT))%M w1)
      as [[a|e] w2] eqn:Hbody.
    + intros [= <- <-]. by rewrite (Hrest _ _ _ _ Hbody).
    + intros Hh. rewrite (Hhandler e _ _ _ Hh).
      by rewrite (Hrest _ _ _ _ Hbody).
  - intros Hh. by rewrite (Hhandler TemplateServiceError _ _ _ Hh).
Qed.

(** What [getFinalSubject] (version 1.2.1) hands to
    [HtmlService.createTemplate]: the field [email_subject_template] of its
    row when it is not empty, and nothing else. *)
Lemma getFinalSubject_rendered_exactly (row : EmailRow) (w w' : World)
  (r : Outcome string) :
  SrcCode.EmailBuilder.getFinalSubject row w = (r, w') ->
  rendered w' =
  rendered w ++
  (if truthy (field row "email_subject_template")
   then [field row "email_subject_template"] else []).
Proof.
  unfold SrcCode.EmailBuilder.getFinalSubject.
  destruct (truthy (field row "email_subject_template")); cbn [negb];
    [|intros [= <- <-]; by rewrite app_nil_r].
  assert (Hhandler : forall e : Exn,
            Unrendered (bind (SrcCode.AppScriptLogger.error
                                "Error building subject")
                          (fun _ => ret SrcCode.CONFIG.DEFAULT_SUBJECT))).
  { intros _. apply Unrendered_bind; [apply Unrendered_log|].
    intros _. apply Unrendered_ret. }
  unfold try_catch, bind at 1, createTemplate.
  set (w1 := set_rendered (rendered w ++ [field row "email_subject_template"]) w).
  assert (Hrest : forall tpl,
            Unrendered
              (vals <- SrcCode.EmailBuilder.getTemplateValues row ;;
               content <- evaluate tpl vals ;;
               ret (let s := SrcCode.TextUtils.decodeHtmlEntities
                               (str (trim (chars content))) in
                    if truthy s then s
                    else SrcCode.CONFIG.DEFAULT_SUBJECT))%M).
  { intros tpl. apply Unrendered_bind; [apply Unrendered_getTemplateValues|].
    intros vals. apply Unrendered_bind; [apply Unrendered_evaluate|].
    intros content. apply Unrendered_ret. }
  destruct (HtmlService_createTemplate (field row "email_subject_template"))
    as [tpl|].
  - destruct ((vals <- SrcCode.EmailBuilder.getTemplateValues row ;;
               content <- evaluate tpl vals ;;
               ret (let s := SrcCode.TextUtils.decodeHtmlEntities
                               (str (trim (chars content))) in
                    if truthy s then s
                    else SrcCode.CONFIG.DEFAULT_SUBJECT))%M w1)
      as [[a|e] w2] eqn:Hbody.
    + intros [= <- <-]. by rewrite (Hrest _ _ _ _ Hbody).
    + intros Hh. rewrite (Hhandler e _ _ _ Hh).
      by rewrite (Hrest _ _ _ _ Hbody).
  - intros Hh. by rewrite (Hhandler TemplateServiceError _ _ _ Hh).
Qed.

(** C9 (as amended). In version 1.2.1 the constructor of [EmailBuilder]
    replaces each [&] of [email_subject_template] and of
    [subject_template_value] by the word and, and leaves every other
    character and every other field as it is; no [&] is left in the two
    fields. The text that [getFinalSubject] then hands to the template
    service is that [email_subject_template], when it is not empty, and
    nothing else. Version 1.1.0 has no such pass: what its
    [getFinalSubject] hands over is [email_subject_template] as stored. *)
Theorem subject_fields_hold_no_ampersand (row : EmailRow) (w w' : World)
  (r : Outcome string) :
  let builderRow := SrcCode.EmailBuilder.new row in
  let subject :=
    Passes.ampersands_to_and (field row "email_subject_template") in
  field builderRow "email_subject_template" = subject /\
  field builderRow "subject_template_value" =
    Passes.ampersands_to_and (field row "subject_template_value") /\
  (forall key,
     key <> "email_subject_template"%string ->
     key <> "subject_template_value"%string ->
     field builderRow key = field row key) /\
  no_ampersand (field builderRow "email_subject_template") /\
  no_ampersand (field builderRow "subject_template_value") /\
  (SrcCode.EmailBuilder.getFinalSubject builderRow w = (r, w') ->
   rendered w' = rendered w ++ (if truthy subject then [subject] else [])) /\
  (Code.EmailBuilder.getFinalSubject row w = (r, w') ->
   rendered w' =
   rendered w ++
   (if truthy (field row "email_subject_template")
    then [field row "email_subject_template"] else [])).
Proof.
  intros builderRow subject.
  assert (Hs : field builderRow "email_subject_template" = subject).
  { unfold builderRow. rewrite new_fields.
    by destruct (decide _) as [|[]]; [|by left]. }
  assert (Hv : field builderRow "subject_template_value" =
               Passes.ampersands_to_and (field row "subject_template_value")).
  { unfold builderRow. rewrite new_fields.
    by destruct (decide _) as [|[]]; [|by right]. }
  destruct (new_subject_fields row) as [Hns Hnv].
  split; [exact Hs|]. split; [exact Hv|].
  split.
  { intros key Hk1 Hk2. unfold builderRow. rewrite new_fields.
    by destruct (decide _) as [[|]|]. }
  split; [exact Hns|]. split; [exact Hnv|].
  split; [|apply getFinalSubject_rendered_1_1_0].
  intros Hrun. apply getFinalSubject_rendered_exactly in Hrun.
  fold builderRow in Hrun. by rewrite Hs in Hrun.
Qed.

End Ampersand.

Example sanitizeInput_example :
  SrcCode.TextUtils.sanitizeInput "R&D & more" = "RandD and more".
Proof. vm_compute. reflexivity. Qed.

Lemma subject_fields_hold_no_ampersand_witness :
  field (SrcCode.EmailBuilder.new Demo.recordWithAmpersands)
    "subject_template_value" = "AandB"%string /\
  rendered (snd (SrcCode.EmailBuilder.getFinalSubject (H := Demo.runtime)
                   (SrcCode.EmailBuilder.new Demo.recordWithAmpersands)
                   (Demo.world ∅)))
  = ["Plans and specs"%string].
Proof.
  pose (run := SrcCode.EmailBuilder.getFinalSubject (H := Demo.runtime)
                 (SrcCode.EmailBuilder.new Demo.recordWithAmpersands)
                 (Demo.world ∅)).
  destruct (subject_fields_hold_no_ampersand
              (H := Demo.runtime) Demo.recordWithAmpersands
              (Demo.world ∅) (snd run) (fst run))
    as (_ & Hvalue & _ & _ & _ & Hrendered & _).
  split; [exact Hvalue|].
  apply Hrendered, surjective_pairing.
Defined.

(** The claim as first stated, read on version 1.1.0, does not hold: its
    constructor keeps the row as it is, and [getFinalSubject] hands a
    subject template with its [&] to the template service. *)
Lemma getFinalSubject_keeps_ampersand_counterexample :
  ~ (forall (row : EmailRow) (w w' : World) (r : Outcome string),
       Code.EmailBuilder.getFinalSubject (H := Demo.runtime) row w = (r, w') ->
       exists texts,
         rendered w' = rendered w ++ texts /\ Forall no_ampersand texts).
Proof.
  intros Hclaim.
  destruct (Hclaim Demo.recordWithAmpersands (Demo.world ∅) _ _
              (surjective_pairing _)) as (texts & Hrendered & Hclean).
  vm_compute in Hrendered. subst texts.
  apply Forall_inv in Hclean. unfold no_ampersand in Hclean.
  vm_compute in Hclean.
  do 6 apply Forall_inv_tail in Hclean. apply Forall_inv in Hclean.
  by apply Hclean.
Qed.

Example getFinalSubject_1_1_0_on_ampersand :
  rendered (snd (Code.EmailBuilder.getFinalSubject (H := Demo.runtime)
                   Demo.recordWithAmpersands (Demo.world ∅)))
  = ["Plans & specs"%string].
Proof. vm_compute. reflexivity. Qed.

(** ** The cleaning passes of the JSON repair *)

Section Cleaning.
Import Regex Code.
#[local] Arguments Ascii.eqb : simpl never.
#[local] Arguments Chars.chr : simpl never.

Lemma replace_loop_S (r : re) (f : list ascii -> cursor -> list ascii)
  (fu : nat) (bef l : list ascii) :
  replace_loop r f (S fu) bef l =
  let copy := match l with
              | [] => []
              | c :: t => c :: replace_loop r f fu (c :: bef) t
              end in
  match match_at r bef l with
  | Some e =>
      f (span (at_start bef l) e) e ++
      (if shorter e (at_start bef l)
       then replace_loop r f fu (before e) (rest e)
       else copy)
  | None => copy
  end.
Proof. reflexivity. Qed.

Lemma match_at_pair (a b : ascii) (bef l : list ascii) :
  match_at (Lit [a; b]) bef l =
  match l with
  | x :: y :: t =>
      if Ascii.eqb a x && Ascii.eqb b y
      then Some (Cursor (y :: x :: bef) t [])
      else None
  | _ => None
  end.
Proof.
  unfold match_at. destruct l as [|x [|y t]]; simpl; unfold Chars.chr.
  - reflexivity.
  - by destruct (Ascii.eqb a x).
  - destruct (Ascii.eqb a x); [|reflexivity]. simpl.
    by destruct (Ascii.eqb b y).
Qed.

Lemma shorter_tail2 (bef bef' t : list ascii) (x y : ascii)
  (cs : list (nat * list ascii)) :
  shorter (Cursor bef' t cs) (at_start bef (x :: y :: t)) = true.
Proof. unfold shorter. simpl. apply Nat.ltb_lt. lia. Qed.

(** Replacing a two-unit literal everywhere is [replace_pair]. *)
Lemma replace_loop_pair (a b : ascii) (rep : list ascii) :
  forall fuel bef l, length l < fuel ->
    replace_loop (Lit [a; b]) (fun _ _ => rep) fuel bef l
    = Passes.replace_pair a b rep l.
Proof.
  induction fuel as [|fu IH]; intros bef l Hlen; [lia|].
  rewrite replace_loop_S, match_at_pair.
  destruct l as [|x [|y t]]; simpl in Hlen.
  - reflexivity.
  - simpl. rewrite IH by (simpl; lia). reflexivity.
  - cbv zeta. simpl Passes.replace_pair.
    destruct (Ascii.eqb a x && Ascii.eqb b y).
    + rewrite shorter_tail2. simpl. rewrite IH by lia. reflexivity.
    + rewrite IH by (simpl; lia). reflexivity.
Qed.

Lemma replaceLiteral_pair (a b : ascii) (rep l : list ascii) :
  TextUtils.replaceLiteral [a; b] rep l = Passes.replace_pair a b rep l.
Proof.
  unfold TextUtils.replaceLiteral, replace_all. apply replace_loop_pair. lia.
Qed.

Lemma match_at_line_break (bef l : list ascii) :
  match_at (Seq (Opt (Cls (Chars.chr "013"))) (Cls (Chars.chr "010"))) bef l =
  match l with
  | [] => None
  | x :: t =>
      if Ascii.eqb "010" x then Some (Cursor (x :: bef) t [])
      else
        match t with
        | y :: t' =>
            if Ascii.eqb "013" x && Ascii.eqb "010" y
            then Some (Cursor (y :: x :: bef) t' [])
            else None
        | [] => None
        end
  end.
Proof.
  unfold match_at, Opt. destruct l as [|x t]; [reflexivity|].
  simpl. unfold Chars.chr.
  destruct (Ascii.eqb "013" x) eqn:Hcr.
  - apply Ascii.eqb_eq in Hcr as <-. simpl.
    destruct t as [|y t']; [reflexivity|]. simpl.
    by destruct (Ascii.eqb "010" y).
  - simpl. destruct (Ascii.eqb "010" x); [reflexivity|].
    by destruct t.
Qed.

Lemma replace_loop_line_breaks :
  forall fuel bef l, length l < fuel ->
    replace_loop (Seq (Opt (Cls (Chars.chr "013"))) (Cls (Chars.chr "010")))
      (fun _ _ => [" "%char]) fuel bef l
    = Passes.line_breaks_to_spaces l.
Proof.
  induction fuel as [|fu IH]; intros bef l Hlen; [lia|].
  rewrite replace_loop_S, match_at_line_break.
  destruct l as [|x t]; [reflexivity|]. simpl in Hlen.
  cbv zeta. simpl Passes.line_breaks_to_spaces.
  destruct (Ascii.eqb "010" x).
  - rewrite shorter_tail. simpl. rewrite IH by lia. reflexivity.
  - destruct t as [|y t'].
    + rewrite IH by (simpl; lia). reflexivity.
    + simpl in Hlen. destruct (Ascii.eqb "013" x && Ascii.eqb "010" y).
      * rewrite shorter_tail2. simpl. rewrite IH by lia. reflexivity.
      * rewrite IH by (simpl; lia). reflexivity.
Qed.

Lemma wrap_in_braces_code (cleaned : list ascii) :
  (let cleaned := if negb (startsWith ["{"%char] cleaned)
                  then "{"%char :: cleaned else cleaned in
   if negb (endsWith ["}"%char] cleaned) then cleaned ++ ["}"%char]
   else cleaned)
  = Passes.wrap_in_braces cleaned.
Proof.
  unfold Passes.wrap_in_braces, endsWith. cbv zeta.
  assert (Hopen : (if negb (startsWith ["{"%char] cleaned)
                   then "{"%char :: cleaned else cleaned)
                  = match cleaned with
                    | x :: _ => if Ascii.eqb "{" x then cleaned
                                else "{"%char :: cleaned
                    | [] => ["{"%char]
                    end).
  { destruct cleaned as [|x t]; [reflexivity|]. simpl.
    rewrite andb_true_r. by destruct (Ascii.eqb "{" x). }
  rewrite Hopen.
  generalize (match cleaned with
              | x :: _ => if Ascii.eqb "{" x then cleaned
                          else "{"%char :: cleaned
              | [] => ["{"%char]
              end).
  intros opened. simpl rev. destruct (rev opened) as [|x t]; [reflexivity|].
  simpl. rewrite andb_true_r. by destruct (Ascii.eqb "}" x).
Qed.

(** What the code does before the text is parsed, in the words of the
    specification: un-escape escaped quotes, collapse doubled backslashes,
    replace line breaks with spaces, trim, wrap in braces. *)
Lemma cleanJsonText_passes_in_order (text : list ascii) :
  TextUtils.cleanJsonText text =
  Passes.wrap_in_braces
    (trim (Passes.line_breaks_to_spaces
             (Passes.collapse_doubled_backslashes
                (Passes.unescape_quotes text)))).
Proof.
  unfold TextUtils.cleanJsonText.
  rewrite !replaceLiteral_pair. unfold replace_all.
  rewrite replace_loop_line_breaks by lia.
  apply wrap_in_braces_code.
Qed.

End Cleaning.

(** C8. The passes are not applied in the stated order, and the order
    matters: quotes that are escaped twice (backslash, backslash, quote),
    which the documentation of [sanitizeJsonText] lists among the defects
    it repairs, are repaired by the passes in the stated order and not by
    the code. The code un-escapes the quotes first and collapses the
    backslashes after: on [Demo.doubleEscaped], an object of one field
    whose four quotes are each written backslash, backslash, quote, a
    backslash is left before each quote, the cleaned text does not parse,
    and the answer is the empty object with an error logged. With the
    backslashes collapsed first the cleaned text is the object with plain
    quotes, which parses. *)
Theorem sanitizeJsonText_double_escaped_quotes :
  Code.TextUtils.cleanJsonText (chars Demo.doubleEscaped)
    = ["{"; "\"; "034"; "a"; "\"; "034"; ":";
       "\"; "034"; "b"; "\"; "034"; "}"]%char /\
  Passes.in_stated_order (chars Demo.doubleEscaped)
    = ["{"; "034"; "a"; "034"; ":"; "034"; "b"; "034"; "}"]%char /\
  FlatJson.parse
    (str (Code.TextUtils.cleanJsonText (chars Demo.doubleEscaped))) = None /\
  FlatJson.parse
    (str (Passes.in_stated_order (chars Demo.doubleEscaped)))
    = Some [(["a"%char], ["b"%char])] /\
  Code.TextUtils.sanitizeJsonText (H := Demo.runtime) Demo.doubleEscaped
    (Demo.world ∅)
  = (Returned "{}"%string,
     set_logs [(ERROR, "Error sanitizing JSON text"%string)] (Demo.world ∅)).
Proof. repeat split; vm_compute; reflexivity. Qed.

(** The stated order, with the backslashes collapsed before the quotes are
    un-escaped, gives another text on backslash, backslash, quote. *)
Lemma cleanJsonText_order_matters :
  Code.TextUtils.cleanJsonText ["\"; "\"; "034"]%char
  <> Passes.in_stated_order ["\"; "\"; "034"]%char.
Proof. vm_compute. discriminate. Qed.

Example cleanJsonText_on_escaped_backslash :
  Code.TextUtils.cleanJsonText ["\"; "\"; "034"]%char
    = ["{"; "\"; "034"; "}"]%char /\
  Passes.in_stated_order ["\"; "\"; "034"]%char = ["{"; "034"; "}"]%char.
Proof. split; vm_compute; reflexivity. Qed.

(** ** The JSON repair *)

Section FlatJsonRuntime.
Import FlatJson.
#[local] Arguments Ascii.eqb : simpl never.
#[local] Arguments plain : simpl never.
#[local] Arguments blank : simpl never.

Lemma plain_not_quote (c : ascii) : plain c = true -> Ascii.eqb "034" c = false.
Proof.
  unfold plain. destruct (Ascii.eqb "034" c); [discriminate|reflexivity].
Qed.

Lemma string_body_plain (l s r : list ascii) :
  string_body l = Some (s, r) -> Forall (fun c => plain c = true) s.
Proof.
  revert s r. induction l as [|c t IH]; intros s r; simpl; [discriminate|].
  destruct (Ascii.eqb "034" c); [intros [= <- <-]; constructor|].
  destruct (plain c) eqn:Hc; [|discriminate].
  destruct (string_body t) as [[s' r']|]; [|discriminate].
  intros [= <- <-]. constructor; [exact Hc|]. eapply IH. reflexivity.
Qed.

Lemma string_body_print (s r : list ascii) :
  Forall (fun c => plain c = true) s ->
  string_body (s ++ "034"%char :: r) = Some (s, r).
Proof.
  induction s as [|c s IH]; intros Hs; simpl; [reflexivity|].
  inversion Hs as [|? ? Hc Hs']; subst.
  rewrite (plain_not_quote c Hc), Hc, (IH Hs'). reflexivity.
Qed.

Lemma parse_string_plain (l s r : list ascii) :
  parse_string l = Some (s, r) -> Forall (fun c => plain c = true) s.
Proof.
  unfold parse_string. destruct (expect "034" l); [|discriminate].
  apply string_body_plain.
Qed.

Lemma parse_member_plain (l r : list ascii) (kv : list ascii * list ascii) :
  parse_member l = Some (kv, r) -> plain_member kv.
Proof.
  unfold parse_member.
  destruct (parse_string l) as [[k r1]|] eqn:Hk; [|discriminate].
  destruct (expect ":" (skip_blank r1)) as [r2|]; [|discriminate].
  destruct (parse_string (skip_blank r2)) as [[v r3]|] eqn:Hv; [|discriminate].
  intros [= <- <-]. split; simpl; eapply parse_string_plain; eauto.
Qed.

Lemma parse_members_plain (fuel : nat) :
  forall (l r : list ascii) (v : value),
    parse_members fuel l = Some (v, r) -> Forall plain_member v.
Proof.
  induction fuel as [|f IH]; intros l r v; simpl; [discriminate|].
  destruct (parse_member l) as [[kv r1]|] eqn:Hkv; [|discriminate].
  apply parse_member_plain in Hkv.
  destruct (expect "," (skip_blank r1)) as [r'|].
  - destruct (parse_members f (skip_blank r')) as [[kvs r'']|] eqn:Hrest;
      [|discriminate].
    intros [= <- <-]. constructor; [exact Hkv|]. eapply IH, Hrest.
  - intros [= <- <-]. constructor; [exact Hkv|constructor].
Qed.

Lemma parse_plain (s : string) (v : value) :
  parse s = Some v -> Forall plain_member v.
Proof.
  unfold parse. destruct (expect "{" (skip_blank (chars s))) as [r|];
    [|discriminate].
  cbv zeta. destruct (closing (skip_blank r)); [intros [= <-]; constructor|].
  destruct (parse_members _ _) as [[kvs r2]|] eqn:Hm; [|discriminate].
  destruct (closing r2); [|discriminate].
  intros [= <-]. eapply parse_members_plain, Hm.
Qed.

Lemma parse_member_print (kv : list ascii * list ascii) (r : list ascii) :
  plain_member kv -> parse_member (print_member kv ++ r) = Some (kv, r).
Proof.
  destruct kv as [k v]. intros [Hk Hv]. simpl in Hk, Hv.
  unfold parse_member, parse_string, print_member. simpl fst. simpl snd.
  change (("034"%char :: k ++ "034"%char :: ":"%char :: "034"%char :: v ++
           ["034"%char]) ++ r)
    with ("034"%char :: (k ++ "034"%char :: ":"%char :: "034"%char :: v ++
           ["034"%char]) ++ r).
  rewrite <- List.app_assoc. simpl app. rewrite <- List.app_assoc. simpl app.
  unfold expect at 1. rewrite Ascii.eqb_refl.
  rewrite (string_body_print k _ Hk).
  change (skip_blank (":"%char :: "034"%char :: v ++ "034"%char :: r))
    with (":"%char :: "034"%char :: v ++ "034"%char :: r).
  unfold expect at 1. rewrite Ascii.eqb_refl.
  change (skip_blank ("034"%char :: v ++ "034"%char :: r))
    with ("034"%char :: v ++ "034"%char :: r).
  unfold expect. rewrite Ascii.eqb_refl.
  rewrite (string_body_print v _ Hv). reflexivity.
Qed.

Lemma print_members_starts (kv : list ascii * list ascii) (v : value) :
  exists t, print_members (kv :: v) = "034"%char :: t.
Proof. destruct v; simpl; eexists; reflexivity. Qed.

Lemma parse_members_S (f : nat) (l : list ascii) :
  parse_members (S f) l =
  match parse_member l with
  | Some (kv, r) =>
      match expect "," (skip_blank r) with
      | Some r' =>
          match parse_members f (skip_blank r') with
          | Some (kvs, r'') => Some (kv :: kvs, r'')
          | None => None
          end
      | None => Some ([kv], skip_blank r)
      end
  | None => None
  end.
Proof. reflexivity. Qed.

Lemma parse_members_print (v : value) :
  forall (kv : list ascii * list ascii) (fuel : nat) (r : list ascii),
    Forall plain_member (kv :: v) -> length (kv :: v) <= fuel ->
    parse_members fuel (print_members (kv :: v) ++ "}"%char :: r)
    = Some (kv :: v, "}"%char :: r).
Proof.
  induction v as [|kv2 v IH]; intros kv fuel r Hplain Hfuel;
    destruct fuel as [|f]; simpl in Hfuel; try lia;
    inversion Hplain as [|? ? Hkv Hrest]; subst.
  - change (print_members [kv]) with (print_member kv).
    rewrite parse_members_S, (parse_member_print kv _ Hkv). reflexivity.
  - change (print_members (kv :: kv2 :: v))
      with (print_member kv ++ ","%char :: print_members (kv2 :: v)).
    rewrite <- List.app_assoc.
    change ((","%char :: print_members (kv2 :: v)) ++ "}"%char :: r)
      with (","%char :: (print_members (kv2 :: v) ++ "}"%char :: r)).
    rewrite parse_members_S, (parse_member_print kv _ Hkv).
    change (skip_blank (","%char :: (print_members (kv2 :: v) ++ "}"%char :: r)))
      with (","%char :: (print_members (kv2 :: v) ++ "}"%char :: r)).
    unfold expect. rewrite Ascii.eqb_refl.
    destruct (print_members_starts kv2 v) as [t Ht].
    assert (skip_blank (print_members (kv2 :: v) ++ "}"%char :: r)
            = print_members (kv2 :: v) ++ "}"%char :: r) as ->.
    { rewrite Ht. reflexivity. }
    rewrite (IH kv2 f r Hrest) by (simpl; lia). reflexivity.
Qed.

Lemma length_print_members (v : value) : length v <= length (print_members v).
Proof.
  induction v as [|kv v IH]; [simpl; lia|].
  destruct v as [|kv2 v].
  - unfold print_members, print_member. simpl. lia.
  - change (print_members (kv :: kv2 :: v))
      with (print_member kv ++ ","%char :: print_members (kv2 :: v)).
    rewrite length_app. simpl in *. lia.
Qed.

Lemma chars_str' (l : list ascii) : chars (str l) = l.
Proof. apply list_ascii_of_string_of_list_ascii. Qed.

Lemma parse_stringify (v : value) :
  Forall plain_member v -> parse (stringify v) = Some v.
Proof.
  intros Hplain. unfold parse, stringify. rewrite chars_str'.
  change (skip_blank ("{"%char :: print_members v ++ ["}"%char]))
    with ("{"%char :: print_members v ++ ["}"%char]).
  unfold expect at 1. rewrite Ascii.eqb_refl. cbv zeta.
  destruct v as [|kv v]; [reflexivity|].
  destruct (print_members_starts kv v) as [t Ht].
  assert (skip_blank (print_members (kv :: v) ++ ["}"%char])
          = print_members (kv :: v) ++ ["}"%char]) as ->.
  { rewrite Ht. reflexivity. }
  assert (closing (print_members (kv :: v) ++ ["}"%char]) = false) as ->.
  { rewrite Ht. reflexivity. }
  rewrite (parse_members_print v kv _ [] Hplain).
  - reflexivity.
  - rewrite length_app. pose proof (length_print_members (kv :: v)). lia.
Qed.

(** The demo runtime honours the contract of [JSON]. *)
Lemma Demo_JsonContract : JsonContract Demo.runtime.
Proof.
  split.
  - intros s v Hparse. simpl in *. exists v.
    apply parse_stringify, (parse_plain s), Hparse.
  - by exists [].
Qed.

End FlatJsonRuntime.

Section JsonRepair.
Context `{Runtime}.
Hypothesis contract : JsonContract H.

Lemma truthy_false (text : string) : truthy text = false -> text = EmptyString.
Proof. by destruct text. Qed.

(** C2 (as amended). The JSON repair never throws. On a text that is not
    empty it returns a text that parses, which is the text of the empty
    object when the cleaned input does not parse. On the empty text,
    version 1.1.0 returns the empty text itself and logs nothing, while
    version 1.2.1 returns the text of the empty object. *)
Theorem sanitizeJsonText_total (text : string) (w : World) :
  (exists (s : string) (w' : World),
     Code.TextUtils.sanitizeJsonText text w = (Returned s, w') /\
     (text = EmptyString -> s = EmptyString /\ w' = w) /\
     (text <> EmptyString ->
      is_Some (JSON_parse s) /\
      (JSON_parse (str (Code.TextUtils.cleanJsonText (chars text))) = None ->
       s = "{}"))) /\
  (exists (s : string) (w' : World),
     SrcCode.TextUtils.sanitizeJsonText text w = (Returned s, w') /\
     is_Some (JSON_parse s) /\
     (text <> EmptyString ->
      JSON_parse (str (Code.TextUtils.cleanJsonText (chars text))) = None ->
      s = "{}")).
Proof using contract.
  destruct contract as [Hstringify Hempty].
  unfold Code.TextUtils.sanitizeJsonText, SrcCode.TextUtils.sanitizeJsonText.
  destruct (truthy text) eqn:Htext; simpl negb; cbv iota.
  - assert (text <> EmptyString) as Hne by (intros ->; discriminate).
    unfold try_catch.
    destruct (JSON_parse (str (Code.TextUtils.cleanJsonText (chars text))))
      as [parsed|] eqn:Hparse.
    + split; eexists _, _; (split; [reflexivity|]).
      * split; [done|]. intros _. split; [eauto|discriminate].
      * split; [eauto|]. intros _. discriminate.
    + split; eexists _, _; (split; [reflexivity|]).
      * split; [done|]. intros _. split; [exact Hempty|reflexivity].
      * split; [exact Hempty|reflexivity].
  - apply truthy_false in Htext as ->.
    split; eexists _, _; (split; [reflexivity|]).
    + split; [done|]. intros Hne. by destruct Hne.
    + split; [exact Hempty|]. intros Hne. by destruct Hne.
Qed.

End JsonRepair.

Lemma sanitizeJsonText_total_witness :
  exists (s : string) (w' : World),
    Code.TextUtils.sanitizeJsonText (H := Demo.runtime) "n: 5"
      (Demo.world ∅) = (Returned s, w') /\
    is_Some (FlatJson.parse s).
Proof.
  destruct (proj1 (sanitizeJsonText_total (H := Demo.runtime)
                     Demo_JsonContract "n: 5" (Demo.world ∅)))
    as (s & w' & Hrun & _ & Hparses).
  exists s, w'. split; [exact Hrun|]. apply Hparses. discriminate.
Defined.

(** The claim as first stated (for every input the result parses) fails at
    the empty text in version 1.1.0: the function returns the empty text,
    which no JSON parser accepts. *)
Lemma sanitizeJsonText_empty_counterexample :
  ~ (forall R : Runtime, JsonContract R ->
     forall (text : string) (w : World),
     exists (s : string) (w' : World),
       Code.TextUtils.sanitizeJsonText (H := R) text w = (Returned s, w') /\
       is_Some (JSON_parse (Runtime := R) s)).
Proof.
  intros Hclaim.
  destruct (Hclaim Demo.runtime Demo_JsonContract EmptyString (Demo.world ∅))
    as (s & w' & Hrun & v & Hparse).
  injection Hrun as <- _. discriminate Hparse.
Qed.

Example sanitizeJsonText_repairs_missing_braces :
  fst (Code.TextUtils.sanitizeJsonText (H := Demo.runtime)
         (String "034" "n" +:+ String "034" ":" +:+ String "034" "5" +:+
          String "034" EmptyString)
         (Demo.world ∅))
  = Returned (String "{" (String "034" "n" +:+ String "034" ":" +:+
              String "034" "5" +:+ String "034" "}")).
Proof. vm_compute. reflexivity. Qed.

(** ** First matches *)

Section FirstMatch.
Import Regex.

Lemma star_S (body : cursor -> list cursor) (f : nat) (s : cursor) :
  star body (S f) s =
  flat_map (fun s' => if shorter s' s then star body f s' else []) (body s)
  ++ [s].
Proof. reflexivity. Qed.

Lemma star_fuel (body : cursor -> list cursor) :
  forall f1 f2 s, length (rest s) < f1 -> length (rest s) < f2 ->
    star body f1 s = star body f2 s.
Proof.
  induction f1 as [|f1 IH]; intros f2 s H1 H2; [lia|].
  destruct f2 as [|f2]; [lia|]. rewrite !star_S. f_equal.
  apply flat_map_ext. intros s'. unfold shorter.
  destruct (Nat.ltb (length (rest s')) (length (rest s))) eqn:Hlt; [|done].
  apply Nat.ltb_lt in Hlt. apply IH; lia.
Qed.

(** One round of a greedy iteration. *)
Lemma m_Star (r : re) (s : cursor) :
  m (Star r) s =
  flat_map (fun s' => if shorter s' s then m (Star r) s' else []) (m r s)
  ++ [s].
Proof.
  change (m (Star r) s) with (star (m r) (S (length (rest s))) s).
  rewrite star_S. f_equal. apply flat_map_ext. intros s'. unfold shorter.
  destruct (Nat.ltb (length (rest s')) (length (rest s))) eqn:Hlt; [|done].
  apply Nat.ltb_lt in Hlt.
  change (m (Star r) s') with (star (m r) (S (length (rest s'))) s').
  apply star_fuel; lia.
Qed.

Lemma reaches_Eps (bef v : list ascii) : reaches Eps bef [] v id.
Proof. intros cs. exists []. reflexivity. Qed.

Lemma reaches_Cls (p : ascii -> bool) (bef v : list ascii) (c : ascii) :
  p c = true -> reaches (Cls p) bef [c] v id.
Proof. intros Hp cs. exists []. simpl. by rewrite Hp. Qed.

Lemma reaches_Seq (r1 r2 : re) (bef u1 u2 v : list ascii)
  (g1 g2 : list (nat * list ascii) -> list (nat * list ascii)) :
  reaches r1 bef u1 (u2 ++ v) g1 ->
  reaches r2 (rev u1 ++ bef) u2 v g2 ->
  reaches (Seq r1 r2) bef (u1 ++ u2) v (fun cs => g2 (g1 cs)).
Proof.
  intros H1 H2 cs. destruct (H1 cs) as (tl1 & Hm1).
  destruct (H2 (g1 cs)) as (tl2 & Hm2).
  unfold first_match. rewrite m_Seq, <- List.app_assoc, Hm1. cbn [flat_map].
  rewrite Hm2, rev_app_distr, <- List.app_assoc. eexists. reflexivity.
Qed.

Lemma reaches_Alt_l (r1 r2 : re) (bef u v : list ascii)
  (g : list (nat * list ascii) -> list (nat * list ascii)) :
  reaches r1 bef u v g -> reaches (Alt r1 r2) bef u v g.
Proof.
  intros H1 cs. destruct (H1 cs) as (tl1 & Hm1).
  unfold first_match. rewrite m_Alt, Hm1. eexists. reflexivity.
Qed.

Lemma reaches_Alt_r (r1 r2 : re) (bef u v : list ascii)
  (g : list (nat * list ascii) -> list (nat * list ascii)) :
  fails r1 bef (u ++ v) -> reaches r2 bef u v g ->
  reaches (Alt r1 r2) bef u v g.
Proof.
  intros H1 H2 cs. destruct (H2 cs) as (tl2 & Hm2).
  unfold first_match. rewrite m_Alt, H1, Hm2. eexists. reflexivity.
Qed.

Lemma reaches_Group (n : nat) (r : re) (bef u v : list ascii)
  (g : list (nat * list ascii) -> list (nat * list ascii)) :
  reaches r bef u v g ->
  reaches (Group n r) bef u v (fun cs => (n, u) :: g cs).
Proof.
  intros H1 cs. destruct (H1 cs) as (tl1 & Hm1).
  unfold first_match. rewrite m_Group, Hm1. cbn [map].
  unfold close_group at 1. cbn [before rest caps].
  rewrite (span_extends_by u); [eexists; reflexivity|].
  split; reflexivity.
Qed.

Lemma reaches_Star_stop (r : re) (bef v : list ascii) :
  fails r bef v -> reaches (Star r) bef [] v id.
Proof.
  intros Hf cs. unfold first_match. rewrite m_Star. cbn [app].
  rewrite Hf. eexists. reflexivity.
Qed.

Lemma reaches_Star_step (r : re) (bef u1 u2 v : list ascii)
  (g1 g2 : list (nat * list ascii) -> list (nat * list ascii)) :
  u1 <> [] ->
  reaches r bef u1 (u2 ++ v) g1 ->
  reaches (Star r) (rev u1 ++ bef) u2 v g2 ->
  reaches (Star r) bef (u1 ++ u2) v (fun cs => g2 (g1 cs)).
Proof.
  intros Hne H1 H2 cs. destruct (H1 cs) as (tl1 & Hm1).
  destruct (H2 (g1 cs)) as (tl2 & Hm2).
  unfold first_match. rewrite m_Star, <- List.app_assoc, Hm1.
  cbn [flat_map].
  assert (shorter (Cursor (rev u1 ++ bef) (u2 ++ v) (g1 cs))
                  (Cursor bef (u1 ++ u2 ++ v) cs) = true) as ->.
  { unfold shorter. simpl. rewrite (length_app u1). apply Nat.ltb_lt.
    destruct u1; [done|]. simpl. lia. }
  rewrite Hm2, rev_app_distr, <- !List.app_assoc. eexists. reflexivity.
Qed.

Lemma fails_Cls (p : ascii -> bool) (bef v : list ascii) :
  stops p v -> fails (Cls p) bef v.
Proof.
  intros Hstop cs. simpl. destruct v as [|c t]; [done|].
  simpl in Hstop. by rewrite Hstop.
Qed.

Lemma fails_Seq (r1 r2 : re) (bef v : list ascii) :
  fails r1 bef v -> fails (Seq r1 r2) bef v.
Proof. intros Hf cs. by rewrite m_Seq, Hf. Qed.

(** A greedy run over a class takes all of it. *)
Lemma reaches_Star_run (p : ascii -> bool) (u : list ascii) :
  forall bef v, forallb p u = true -> stops p v ->
    reaches (Star (Cls p)) bef u v id.
Proof.
  induction u as [|c u IH]; intros bef v Hu Hv.
  - apply reaches_Star_stop, fails_Cls, Hv.
  - simpl in Hu. apply andb_true_iff in Hu as [Hc Hu].
    apply (reaches_Star_step (Cls p) bef [c] u v id id); [done| |].
    + by apply reaches_Cls.
    + apply IH; assumption.
Qed.

Lemma reaches_Plus_run (p : ascii -> bool) (u bef v : list ascii) :
  negb (Nat.eqb (length u) 0) && forallb p u = true -> stops p v ->
  reaches (Plus (Cls p)) bef u v id.
Proof.
  destruct u as [|c u]; [discriminate|]. simpl.
  intros [Hc Hu]%andb_true_iff Hv.
  apply (reaches_Seq (Cls p) (Star (Cls p)) bef [c] u v id id).
  - by apply reaches_Cls.
  - by apply reaches_Star_run.
Qed.

(** What a first match gives to [exec] and to [replace]. *)
Lemma reaches_match_at (r : re) (bef u v : list ascii)
  (g : list (nat * list ascii) -> list (nat * list ascii)) :
  reaches r bef u v g ->
  match_at r bef (u ++ v) = Some (Cursor (rev u ++ bef) v (g [])).
Proof.
  intros Hr. destruct (Hr []) as (tl & Hm).
  unfold match_at, at_start. by rewrite Hm.
Qed.

End FirstMatch.

(** ** Obfuscated addresses *)

Section ObfuscatedAddress.
Import Regex Chars Code.EmailUtils Obfuscated.
#[local] Arguments Ascii.eqb : simpl never.

(** Finite checks on code units. *)
Ltac by_cases c :=
  destruct c as [[] [] [] [] [] [] [] []]; vm_compute; congruence.

Lemma to_lower_idem (c : ascii) : to_lower (to_lower c) = to_lower c.
Proof. by_cases c. Qed.

Lemma to_upper_to_lower (c : ascii) : to_upper (to_lower c) = to_upper c.
Proof. by_cases c. Qed.

Lemma icase_to_lower (p : ascii -> bool) (c : ascii) :
  icase p (to_lower c) = icase p c.
Proof. unfold icase. by rewrite to_lower_idem, to_upper_to_lower. Qed.

Lemma is_space_to_lower (c : ascii) : is_space (to_lower c) = is_space c.
Proof. by_cases c. Qed.

Lemma to_lower_not_upper (c : ascii) : is_upper (to_lower c) = false.
Proof. by_cases c. Qed.

Lemma slash_to_lower (c : ascii) :
  Ascii.eqb "/" (to_lower c) = Ascii.eqb "/" c.
Proof. by_cases c. Qed.

Lemma atomChar_not_dot (c : ascii) :
  icase atomChar c = true -> icase (chr ".") c = false.
Proof. by_cases c. Qed.

Lemma atomChar_not_newline (c : ascii) :
  icase atomChar c = true -> is_newline c = false.
Proof. by_cases c. Qed.

Lemma dot_not_newline (c : ascii) :
  c = "."%char -> is_newline c = false.
Proof. by intros ->. Qed.

Lemma space_not_atomChar (c : ascii) :
  is_space c = true -> icase atomChar c = false.
Proof. by_cases c. Qed.

Lemma space_not_dot (c : ascii) :
  is_space c = true -> icase (chr ".") c = false.
Proof. by_cases c. Qed.

Lemma space_not_at_sign (c : ascii) :
  is_space c = true -> icase (chr "@") c = false.
Proof. by_cases c. Qed.

Lemma space_not_alnumHyphen (c : ascii) :
  is_space c = true -> icase alnumHyphen c = false.
Proof. by_cases c. Qed.

Lemma space_not_slash (c : ascii) : is_space c = true -> Ascii.eqb "/" c = false.
Proof. by_cases c. Qed.

Lemma alnum_alnumHyphen (c : ascii) :
  icase alnum c = true -> icase alnumHyphen c = true.
Proof. by_cases c. Qed.

Lemma alnumHyphen_not_space (c : ascii) :
  icase alnumHyphen c = true -> is_space c = false.
Proof. by_cases c. Qed.

Lemma alnumHyphen_not_dot (c : ascii) :
  icase alnumHyphen c = true -> icase (chr ".") c = false.
Proof. by_cases c. Qed.

Lemma alnumHyphen_not_slash (c : ascii) :
  icase alnumHyphen c = true -> Ascii.eqb "/" c = false.
Proof. by_cases c. Qed.

Lemma stops_weaken (p q : ascii -> bool) (v : list ascii) :
  (forall c, p c = false -> q c = false) -> stops p v -> stops q v.
Proof. intros Hpq. destruct v; simpl; auto. Qed.

(** A text that starts with a space. *)
Lemma spaces_head (w : list ascii) :
  spaces w = true ->
  exists c t, w = c :: t /\ is_space c = true /\ forallb is_space t = true.
Proof.
  destruct w as [|c t]; [discriminate|]. unfold spaces. simpl.
  intros [Hc Ht]%andb_true_iff. by exists c, t.
Qed.

Lemma stops_spaces (p : ascii -> bool) (w v : list ascii) :
  (forall c, is_space c = true -> p c = false) ->
  spaces w = true -> stops p (w ++ v).
Proof.
  intros Hp (c & t & -> & Hc & _)%spaces_head. simpl. by apply Hp.
Qed.

(** *** Labels *)

Lemma m_Star_Cls_stop (p : ascii -> bool) (bef v : list ascii)
  (cs : list (nat * list ascii)) :
  stops p v -> m (Star (Cls p)) (Cursor bef v cs) = [Cursor bef v cs].
Proof.
  intros Hstop. rewrite m_Star, (fails_Cls p bef v Hstop). reflexivity.
Qed.

Lemma m_Star_Cls_cons (p : ascii -> bool) (bef t : list ascii) (c : ascii)
  (cs : list (nat * list ascii)) :
  p c = true ->
  m (Star (Cls p)) (Cursor bef (c :: t) cs) =
  m (Star (Cls p)) (Cursor (c :: bef) t cs) ++ [Cursor bef (c :: t) cs].
Proof.
  intros Hp. rewrite m_Star at 1. rewrite m_Cls. cbn [rest before caps].
  rewrite Hp. cbn [flat_map].
  assert (shorter (Cursor (c :: bef) t cs) (Cursor bef (c :: t) cs) = true)
    as ->.
  { unfold shorter. simpl. apply Nat.ltb_lt. lia. }
  by rewrite app_nil_r.
Qed.

(** A greedy run over [p] gives back its last code unit to a following
    class [q] that the rest of the text does not satisfy. *)
Lemma reaches_run_then_last (p q : ascii -> bool) (y : ascii)
  (v : list ascii) :
  (forall c, q c = true -> p c = true) ->
  q y = true -> stops p v ->
  forall mid bef, forallb p mid = true ->
    reaches (Seq (Star (Cls p)) (Cls q)) bef (mid ++ [y]) v id.
Proof.
  intros Hqp Hy Hv.
  assert (Hqv : stops q v).
  { revert Hv. apply stops_weaken. intros c Hc.
    destruct (q c) eqn:Hq; [|done]. apply Hqp in Hq. congruence. }
  induction mid as [|c mid IH]; intros bef Hmid cs.
  - unfold first_match. rewrite m_Seq. cbn [app].
    rewrite (m_Star_Cls_cons p bef v y cs (Hqp _ Hy)).
    rewrite (m_Star_Cls_stop p (y :: bef) v cs Hv). cbn [app flat_map].
    rewrite (fails_Cls q (y :: bef) v Hqv cs). cbn [app].
    rewrite m_Cls. cbn [rest before caps]. rewrite Hy.
    eexists. reflexivity.
  - simpl in Hmid. apply andb_true_iff in Hmid as [Hc Hmid].
    destruct (IH (c :: bef) Hmid cs) as (tl & Hm).
    unfold first_match. rewrite m_Seq. cbn [app].
    rewrite (m_Star_Cls_cons p bef _ c cs Hc), flat_map_app.
    rewrite <- m_Seq, Hm. cbn [rev]. rewrite <- !List.app_assoc.
    eexists. reflexivity.
Qed.

Lemma is_label_inv (l : list ascii) :
  is_label l = true ->
  exists x, icase alnum x = true /\
    (l = [x] \/
     exists mid y, l = x :: mid ++ [y] /\
                   forallb (icase alnumHyphen) mid = true /\
                   icase alnum y = true).
Proof.
  destruct l as [|x t]; [discriminate|]. simpl.
  intros [Hx Ht]%andb_true_iff. exists x. split; [exact Hx|].
  destruct (rev t) as [|y rmid] eqn:Hrev.
  - left. f_equal. apply (f_equal (@rev ascii)) in Hrev.
    by rewrite rev_involutive in Hrev.
  - right. apply andb_true_iff in Ht as [Hy Hmid].
    exists (rev rmid), y. split; [|split].
    + f_equal. apply (f_equal (@rev ascii)) in Hrev.
      by rewrite rev_involutive in Hrev.
    + rewrite forallb_forall in *. intros c Hc%in_rev. by apply Hmid.
    + exact Hy.
Qed.

Lemma is_label_chars (l : list ascii) :
  is_label l = true -> forallb (icase alnumHyphen) l = true.
Proof.
  intros (x & Hx & [-> | (mid & y & -> & Hmid & Hy)])%is_label_inv; simpl.
  - by rewrite (alnum_alnumHyphen x Hx).
  - rewrite (alnum_alnumHyphen x Hx), forallb_app, Hmid. simpl.
    by rewrite (alnum_alnumHyphen y Hy).
Qed.

Lemma is_label_head (l v : list ascii) :
  is_label l = true ->
  exists c t, l ++ v = c :: t /\ icase alnum c = true.
Proof.
  destruct l as [|x t]; [discriminate|]. simpl.
  intros [Hx _]%andb_true_iff. by exists x, (t ++ v).
Qed.

Lemma reaches_label (l bef v : list ascii) :
  is_label l = true -> stops (icase alnumHyphen) v ->
  exists g, reaches label bef l v g.
Proof.
  intros (x & Hx & Hl)%is_label_inv Hv. unfold label, I, Opt.
  destruct Hl as [-> | (mid & y & -> & Hmid & Hy)].
  - eexists.
    apply (reaches_Seq _ _ bef [x] [] v); [by apply reaches_Cls|].
    apply reaches_Alt_r; [|apply reaches_Eps].
    intros cs. cbn [app]. rewrite m_Seq.
    rewrite (m_Star_Cls_stop _ _ v cs Hv). cbn [flat_map].
    rewrite app_nil_r. apply fails_Cls. revert Hv. apply stops_weaken.
    intros c Hc. destruct (icase alnum c) eqn:Ha; [|done].
    apply alnum_alnumHyphen in Ha. congruence.
  - eexists.
    apply (reaches_Seq _ _ bef [x] (mid ++ [y]) v); [by apply reaches_Cls|].
    apply reaches_Alt_l.
    apply reaches_run_then_last; auto using alnum_alnumHyphen.
Qed.

(** *** Literals and separators *)

Lemma reaches_ext (r : re) (bef u v : list ascii)
  (g g' : list (nat * list ascii) -> list (nat * list ascii)) :
  (forall cs, g cs = g' cs) -> reaches r bef u v g -> reaches r bef u v g'.
Proof. intros Hg Hr cs. rewrite <- Hg. apply Hr. Qed.

Lemma icase_chr_self (c : ascii) : icase (chr c) c = true.
Proof. by_cases c. Qed.

Lemma reaches_ILit (word : list ascii) :
  forall bef v,
    reaches (fold_right (fun c r => Seq (I (chr c)) r) Eps word) bef word v id.
Proof.
  induction word as [|c word IH]; intros bef v; [apply reaches_Eps|].
  cbn [fold_right]. unfold I at 1.
  apply (reaches_ext _ _ _ _ (fun cs => id (id cs))); [done|].
  apply (reaches_Seq _ _ bef [c] word v id id).
  - apply reaches_Cls, icase_chr_self.
  - apply IH.
Qed.

Lemma reaches_Lit (word : list ascii) :
  forall bef v, reaches (Lit word) bef word v id.
Proof.
  induction word as [|c word IH]; intros bef v; [apply reaches_Eps|].
  cbn [Lit].
  apply (reaches_ext _ _ _ _ (fun cs => id (id cs))); [done|].
  apply (reaches_Seq _ _ bef [c] word v id id).
  - apply reaches_Cls. unfold chr. apply Ascii.eqb_refl.
  - apply IH.
Qed.

(** Spaces, a word, spaces: the separator of an obfuscated address. *)
Lemma reaches_separator (word : string) (w1 w2 bef v : list ascii) :
  spaces w1 = true -> spaces w2 = true ->
  stops is_space (chars word ++ w2 ++ v) -> stops is_space v ->
  reaches (Seq (Plus ws) (Seq (ILit word) (Plus ws))) bef
    (w1 ++ chars word ++ w2) v id.
Proof.
  intros H1 H2 Hword Hv. unfold ws, ILit.
  apply (reaches_ext _ _ _ _ (fun cs => (fun cs' => id (id cs')) (id cs)));
    [done|].
  apply (reaches_Seq _ _ bef w1 (chars word ++ w2) v).
  - apply reaches_Plus_run; [exact H1|]. by rewrite <- List.app_assoc.
  - apply (reaches_Seq _ _ _ (chars word) w2 v).
    + apply reaches_ILit.
    + apply reaches_Plus_run; assumption.
Qed.

(** *** The local part *)

Lemma stops_after_atom (more : list (list ascii)) (c0 : ascii)
  (t0 : list ascii) :
  is_space c0 = true ->
  stops (icase atomChar) (flat_map (fun x => "."%char :: x) more ++ c0 :: t0).
Proof.
  intros Hc. destruct more as [|x more]; cbn [flat_map app stops].
  - by apply space_not_atomChar.
  - reflexivity.
Qed.

Lemma reaches_dotted_atoms (more : list (list ascii)) (c0 : ascii)
  (t0 : list ascii) :
  is_space c0 = true ->
  forallb atom more = true ->
  forall bef,
    exists g,
      reaches (Star (Seq (I (chr ".")) (Plus (I atomChar)))) bef
        (flat_map (fun x => "."%char :: x) more) (c0 :: t0) g.
Proof.
  intros Hc0. induction more as [|x more IH]; intros Hmore bef.
  - eexists. apply reaches_Star_stop, fails_Seq, fails_Cls. simpl.
    by apply space_not_dot.
  - simpl in Hmore. apply andb_true_iff in Hmore as [Hx Hmore].
    destruct (IH Hmore (rev ("."%char :: x) ++ bef)) as [g Hg].
    eexists. cbn [flat_map].
    apply (reaches_Star_step _ bef ("."%char :: x) _ (c0 :: t0)); [done| |].
    + apply (reaches_Seq _ _ bef ["."%char] x).
      * apply reaches_Cls. reflexivity.
      * unfold I. apply reaches_Plus_run; [exact Hx|].
        by apply stops_after_atom.
    + exact Hg.
Qed.

Lemma reaches_localPart (first : list ascii) (more : list (list ascii))
  (c0 : ascii) (t0 bef : list ascii) :
  atom first = true -> forallb atom more = true -> is_space c0 = true ->
  exists g, reaches localPart bef (local_part first more) (c0 :: t0) g.
Proof.
  intros Hfirst Hmore Hc0.
  destruct (reaches_dotted_atoms more c0 t0 Hc0 Hmore (rev first ++ bef))
    as [g Hg].
  eexists. unfold localPart, local_part.
  apply (reaches_Seq _ _ bef first _ (c0 :: t0)); [|exact Hg].
  unfold I. apply reaches_Plus_run; [exact Hfirst|].
  by apply stops_after_atom.
Qed.

(** *** The domain *)

Lemma flat_map_nil {A B : Type} (f : A -> list B) (l : list A) :
  (forall x, In x l -> f x = []) -> flat_map f l = [].
Proof.
  induction l as [|x l IH]; intros Hf; [reflexivity|]. simpl.
  rewrite (Hf x) by (by left). apply IH. intros y Hy. apply Hf. by right.
Qed.

Lemma fails_dot_group (bef v : list ascii) :
  stops (icase (chr ".")) v -> stops is_space v ->
  fails (Group 3 (Alt (I (chr "."))
                   (Seq (Plus ws) (Seq (ILit "dot") (Plus ws))))) bef v.
Proof.
  intros Hdot Hsp cs. rewrite m_Group, m_Alt.
  unfold I. rewrite (fails_Cls _ bef v Hdot cs).
  unfold Plus, ws.
  rewrite (fails_Seq _ _ bef v (fails_Seq _ _ bef v (fails_Cls _ bef v Hsp)) cs).
  reflexivity.
Qed.

(** Inside a label no further "label and dot" can start. *)
Lemma fails_label_dot (l bef : list ascii) :
  forallb (icase alnumHyphen) l = true ->
  fails (Seq label
           (Group 3 (Alt (I (chr "."))
                      (Seq (Plus ws) (Seq (ILit "dot") (Plus ws)))))) bef l.
Proof.
  intros Hl cs. rewrite m_Seq. apply flat_map_nil. intros e He.
  apply m_extends in He as (u & Hu & _). simpl in Hu.
  rewrite Hu, forallb_app in Hl. apply andb_true_iff in Hl as [_ Hrest].
  destruct e as [be re ce]. simpl in Hrest. apply fails_dot_group.
  - destruct re as [|c t]; [done|]. simpl in *.
    apply andb_true_iff in Hrest as [Hc _]. by apply alnumHyphen_not_dot.
  - destruct re as [|c t]; [done|]. simpl in *.
    apply andb_true_iff in Hrest as [Hc _]. by apply alnumHyphen_not_space.
Qed.

Lemma stops_label (p : ascii -> bool) (l v : list ascii) :
  (forall c, icase alnum c = true -> p c = false) ->
  is_label l = true -> stops p (l ++ v).
Proof.
  intros Hp Hl. destruct (is_label_head l v Hl) as (c & t & -> & Hc).
  simpl. by apply Hp.
Qed.

Lemma alnum_not_space (c : ascii) : icase alnum c = true -> is_space c = false.
Proof. by_cases c. Qed.

Lemma reaches_Plus_once (r : re) (bef u v : list ascii)
  (g : list (nat * list ascii) -> list (nat * list ascii)) :
  reaches r bef u v g -> fails r (rev u ++ bef) v ->
  reaches (Plus r) bef u v g.
Proof.
  intros Hr Hf. unfold Plus.
  pose proof (reaches_Seq r (Star r) bef u [] v g id Hr
                (reaches_Star_stop r _ v Hf)) as H.
  rewrite app_nil_r in H. exact H.
Qed.

(** The whole pattern on "a at b dot c". *)
Lemma reaches_emailRegex (first : list ascii) (more : list (list ascii))
  (w1 w2 b w3 w4 c bef : list ascii) :
  atom first = true -> forallb atom more = true ->
  spaces w1 = true -> spaces w2 = true ->
  spaces w3 = true -> spaces w4 = true ->
  is_label b = true -> is_label c = true ->
  exists g,
    reaches emailRegex bef
      (local_part first more ++
       (w1 ++ chars "at" ++ w2) ++ (b ++ w3 ++ chars "dot" ++ w4) ++ c) [] g.
Proof.
  intros Hfirst Hmore H1 H2 H3 H4 Hb Hc.
  destruct (spaces_head w1 H1) as (c0 & t0 & Hw1 & Hc0 & _).
  destruct (reaches_localPart first more c0
              (t0 ++ chars "at" ++ w2 ++
               (b ++ w3 ++ chars "dot" ++ w4) ++ c ++ [])
              bef Hfirst Hmore Hc0) as [g1 Hg1].
  set (a := local_part first more) in *.
  set (sep1 := w1 ++ chars "at" ++ w2).
  set (dom := b ++ w3 ++ chars "dot" ++ w4).
  destruct (reaches_label b (rev sep1 ++ rev a ++ bef)
              ((w3 ++ chars "dot" ++ w4) ++ c ++ []) Hb) as [g3 Hg3].
  { rewrite <- List.app_assoc. apply stops_spaces; [|exact H3].
    apply space_not_alnumHyphen. }
  destruct (reaches_label c (rev dom ++ rev sep1 ++ rev a ++ bef) [] Hc)
    as [g5 Hg5]; [done|].
  eexists. unfold emailRegex. apply reaches_Group.
  apply (reaches_Seq _ _ bef a (sep1 ++ dom ++ c) []).
  { replace ((sep1 ++ dom ++ c) ++ [])
      with (c0 :: t0 ++ chars "at" ++ w2 ++ dom ++ c ++ []).
    - exact Hg1.
    - subst sep1. rewrite Hw1. cbn [app]. by rewrite <- !List.app_assoc. }
  apply (reaches_Seq _ _ _ sep1 (dom ++ c) []).
  { apply reaches_Group, reaches_Alt_r.
    - unfold I. apply fails_Cls. subst sep1. rewrite <- !List.app_assoc.
      apply stops_spaces; [apply space_not_at_sign|exact H1].
    - subst sep1. apply reaches_separator; [exact H1|exact H2|done|].
      rewrite <- List.app_assoc. subst dom. rewrite <- List.app_assoc.
      apply stops_label; [apply alnum_not_space|exact Hb]. }
  apply (reaches_Seq _ _ _ dom c []); [|exact Hg5].
  apply reaches_Plus_once.
  - subst dom. apply (reaches_Seq _ _ _ b (w3 ++ chars "dot" ++ w4)).
    + exact Hg3.
    + apply reaches_Group, reaches_Alt_r.
      * unfold I. apply fails_Cls. rewrite <- !List.app_assoc.
        apply stops_spaces; [apply space_not_dot|exact H3].
      * apply reaches_separator; [exact H3|exact H4|done|].
        apply stops_label; [apply alnum_not_space|exact Hc].
  - rewrite app_nil_r. apply fails_label_dot, is_label_chars, Hc.
Qed.

(** *** The scan finds the address once *)

Lemma emailRegex_not_at_end (bef : list ascii) :
  match_at emailRegex bef [] = None.
Proof.
  destruct (match_at emailRegex bef []) as [e|] eqn:He; [|reflexivity].
  apply match_at_In, emailRegex_match_shape in He as (c & t & u & Hr & _).
  discriminate Hr.
Qed.

Lemma exec_all_whole (r : re) (l : list ascii)
  (g : list (nat * list ascii) -> list (nat * list ascii)) :
  l <> [] -> reaches r [] l [] g ->
  (forall bef, match_at r bef [] = None) ->
  exec_all r l = [l].
Proof.
  intros Hne Hr Hend. apply reaches_match_at in Hr.
  rewrite !app_nil_r in Hr. unfold exec_all. cbn [exec_loop]. rewrite Hr.
  rewrite (span_extends_by l) by (split; simpl; by rewrite app_nil_r).
  assert (Hs : shorter (Cursor (rev l) [] (g [])) (at_start [] l) = true).
  { unfold shorter. simpl. apply Nat.ltb_lt. destruct l; [done|simpl; lia]. }
  rewrite Hs. cbn [before rest]. destruct (length l); [reflexivity|].
  cbn [exec_loop]. by rewrite Hend.
Qed.

(** *** Fuel of the replacement loop *)

Lemma replace_loop_fuel (r : re) (f : list ascii -> cursor -> list ascii) :
  forall fuel1 fuel2 bef l,
    length l < fuel1 -> length l < fuel2 ->
    replace_loop r f fuel1 bef l = replace_loop r f fuel2 bef l.
Proof.
  induction fuel1 as [|f1 IH]; intros fuel2 bef l H1 H2; [lia|].
  destruct fuel2 as [|f2]; [lia|]. rewrite !replace_loop_S. cbv zeta.
  assert (Hcopy : match l with
                  | [] => []
                  | c :: t => c :: replace_loop r f f1 (c :: bef) t
                  end =
                  match l with
                  | [] => []
                  | c :: t => c :: replace_loop r f f2 (c :: bef) t
                  end).
  { destruct l as [|c t]; [reflexivity|]. simpl in H1, H2.
    f_equal. apply IH; lia. }
  destruct (match_at r bef l) as [e|] eqn:He; [|exact Hcopy].
  f_equal. destruct (shorter e (at_start bef l)) eqn:Hs; [|exact Hcopy].
  unfold shorter in Hs. simpl in Hs. apply Nat.ltb_lt in Hs.
  apply IH; lia.
Qed.

Lemma replace_loop_end (r : re) (f : list ascii -> cursor -> list ascii)
  (fuel : nat) (bef : list ascii) :
  match_at r bef [] = None -> replace_loop r f fuel bef [] = [].
Proof.
  intros Hend. destruct fuel; [reflexivity|].
  rewrite replace_loop_S. cbv zeta. by rewrite Hend.
Qed.

(** *** Comment lines *)

Lemma m_Bol (s : cursor) : m Bol s = if at_line_start s then [s] else [].
Proof. reflexivity. Qed.

Lemma comment_needs_line_start (x : ascii) (bef l : list ascii) :
  is_newline x = false -> match_at commentRegex (x :: bef) l = None.
Proof.
  intros Hx. unfold match_at, commentRegex. rewrite m_Seq, m_Bol.
  unfold at_line_start, at_start. cbn [before]. by rewrite Hx.
Qed.

Lemma comment_needs_slash (bef l : list ascii) :
  stops (chr "/") l -> match_at commentRegex bef l = None.
Proof.
  intros Hl. unfold match_at, commentRegex. rewrite m_Seq, m_Bol.
  destruct (at_line_start _); [|reflexivity].
  cbn [flat_map Lit]. unfold at_start.
  by rewrite (fails_Seq _ _ bef l (fails_Seq _ _ bef l (fails_Cls _ bef l Hl))).
Qed.

Lemma comment_needs_two_slashes (bef l : list ascii) :
  startsWith ["/"; "/"]%char l = false -> match_at commentRegex bef l = None.
Proof.
  intros Hl. destruct l as [|x [|y t]].
  - by apply comment_needs_slash.
  - unfold match_at, commentRegex. rewrite m_Seq, m_Bol.
    destruct (at_line_start _); [|reflexivity].
    cbn [flat_map Lit]. unfold at_start. rewrite app_nil_r, !m_Seq, m_Cls.
    cbn [rest before caps]. destruct (chr "/" x); [|reflexivity].
    cbn [flat_map]. rewrite app_nil_r, m_Seq, m_Cls. reflexivity.
  - cbn [startsWith] in Hl. rewrite andb_true_r in Hl.
    change (chr "/" x && chr "/" y = false) in Hl.
    destruct (chr "/" x) eqn:Hx; [|by apply comment_needs_slash].
    unfold match_at, commentRegex. rewrite m_Seq, m_Bol.
    destruct (at_line_start _); [|reflexivity].
    cbn [flat_map Lit]. unfold at_start. rewrite app_nil_r, !m_Seq, m_Cls.
    cbn [rest before caps]. rewrite Hx.
    cbn [flat_map]. rewrite app_nil_r, m_Seq, m_Cls.
    cbn [rest before caps]. simpl in Hl. rewrite Hl. reflexivity.
Qed.

(** A text without slash holds no comment line. *)
Lemma comment_free_tail (f : list ascii -> cursor -> list ascii)
  (l : list ascii) :
  Forall (fun c => chr "/" c = false) l ->
  forall fuel bef, replace_loop commentRegex f fuel bef l = l.
Proof.
  induction 1 as [|c t Hc Ht IH]; intros fuel bef.
  - by apply replace_loop_end, comment_needs_slash.
  - destruct fuel; [reflexivity|]. rewrite replace_loop_S. cbv zeta.
    rewrite comment_needs_slash by exact Hc. by rewrite IH.
Qed.

(** A comment does not start inside a line. *)
Lemma comment_free_line (f : list ascii -> cursor -> list ascii)
  (l tail : list ascii) :
  Forall (fun c => is_newline c = false) l ->
  Forall (fun c => chr "/" c = false) tail ->
  forall fuel x bef, is_newline x = false ->
    replace_loop commentRegex f fuel (x :: bef) (l ++ tail) = l ++ tail.
Proof.
  intros Hl Htail. induction Hl as [|c t Hc Ht IH]; intros fuel x bef Hx.
  - by apply comment_free_tail.
  - destruct fuel; [reflexivity|]. rewrite replace_loop_S. cbv zeta.
    rewrite comment_needs_line_start by exact Hx. cbn [app].
    by rewrite IH.
Qed.

Lemma comment_free_text (f : list ascii -> cursor -> list ascii)
  (l tail : list ascii) :
  startsWith ["/"; "/"]%char (l ++ tail) = false ->
  Forall (fun c => is_newline c = false) l ->
  Forall (fun c => chr "/" c = false) tail ->
  replace_all commentRegex f (l ++ tail) = l ++ tail.
Proof.
  intros Hstart Hl Htail. unfold replace_all. rewrite replace_loop_S. cbv zeta.
  rewrite comment_needs_two_slashes by exact Hstart.
  destruct Hl as [|c t Hc Ht]; cbn [app].
  - destruct tail as [|c t]; [reflexivity|].
    inversion Htail; subst. by rewrite comment_free_tail.
  - by rewrite comment_free_line.
Qed.

(** *** Undoing the obfuscation *)

Lemma obfuscation_copy (f : list ascii -> cursor -> list ascii)
  (u : list ascii) :
  Forall (fun c => is_space c = false) u ->
  forall bef v,
    replace_loop obfuscationRegex f (S (length (u ++ v))) bef (u ++ v) =
    u ++ replace_loop obfuscationRegex f (S (length v)) (rev u ++ bef) v.
Proof.
  induction 1 as [|c u Hc Hu IH]; intros bef v; [reflexivity|].
  cbn [app length]. rewrite replace_loop_S. cbv zeta.
  rewrite obfuscationRegex_needs_space by exact Hc.
  rewrite IH. cbn [rev]. by rewrite <- List.app_assoc.
Qed.

Lemma obfuscation_end (f : list ascii -> cursor -> list ascii)
  (fuel : nat) (bef : list ascii) :
  replace_loop obfuscationRegex f fuel bef [] = [].
Proof. by apply replace_loop_end. Qed.

Lemma reaches_obfuscation (word : string) (w w' bef v : list ascii) :
  word = "at"%string \/ word = "dot"%string ->
  spaces w = true -> spaces w' = true -> stops is_space v ->
  reaches obfuscationRegex bef (w ++ chars word ++ w') v
    (fun cs => (1, chars word) :: cs).
Proof.
  intros Hword Hw Hw' Hv. unfold obfuscationRegex, ws.
  apply (reaches_Seq _ _ bef w (chars word ++ w') v id
           (fun cs => (1, chars word) :: cs)).
  { apply reaches_Plus_run; [exact Hw|]. by destruct Hword as [-> | ->]. }
  apply (reaches_Seq _ _ _ (chars word) w' v
           (fun cs => (1, chars word) :: id cs) id).
  - apply (reaches_Group 1 _ _ (chars word) (w' ++ v) id).
    destruct Hword as [-> | ->].
    + apply reaches_Alt_l, reaches_Lit.
    + apply reaches_Alt_r; [|apply reaches_Lit].
      apply fails_Seq, fails_Cls. reflexivity.
  - apply reaches_Plus_run; assumption.
Qed.

Lemma obfuscation_separator (word : string) (w w' bef v : list ascii) :
  word = "at"%string \/ word = "dot"%string ->
  spaces w = true -> spaces w' = true -> stops is_space v ->
  replace_loop obfuscationRegex deobfuscate
    (S (length ((w ++ chars word ++ w') ++ v))) bef
    ((w ++ chars word ++ w') ++ v) =
  (if String.eqb word "at" then ["@"%char] else ["."%char]) ++
  replace_loop obfuscationRegex deobfuscate (S (length v))
    (rev (w ++ chars word ++ w') ++ bef) v.
Proof.
  intros Hword Hw Hw' Hv. rewrite replace_loop_S. cbv zeta.
  rewrite (reaches_match_at _ _ _ _ _
             (reaches_obfuscation word w w' bef v Hword Hw Hw' Hv)).
  assert (Hs : shorter
                 (Cursor (rev (w ++ chars word ++ w') ++ bef) v
                    [(1, chars word)])
                 (at_start bef ((w ++ chars word ++ w') ++ v)) = true).
  { unfold shorter. simpl. apply Nat.ltb_lt. rewrite !length_app.
    destruct (spaces_head w Hw) as (c & t & -> & _). simpl. lia. }
  rewrite Hs. cbn [before rest].
  f_equal.
  - unfold deobfuscate, capture. cbn [caps List.find fst snd Nat.eqb].
    by rewrite str_chars.
  - apply replace_loop_fuel; [|lia]. rewrite !length_app.
    destruct (spaces_head w Hw) as (c & t & -> & _). simpl. lia.
Qed.

(** *** What the pieces are made of *)

Lemma forallb_Forall_imp (p : ascii -> bool) (Q : ascii -> Prop)
  (l : list ascii) :
  (forall c, p c = true -> Q c) -> forallb p l = true -> Forall Q l.
Proof.
  intros Hpq. induction l as [|c t IH]; simpl; [constructor|].
  intros [Hc Ht]%andb_true_iff. constructor; auto.
Qed.

Lemma atom_chars (Q : ascii -> Prop) (l : list ascii) :
  (forall c, icase atomChar c = true -> Q c) -> atom l = true -> Forall Q l.
Proof.
  intros HQ [_ Hl]%andb_true_iff. by apply (forallb_Forall_imp _ _ _ HQ).
Qed.

Lemma local_part_chars (Q : ascii -> Prop) (first : list ascii)
  (more : list (list ascii)) :
  (forall c, icase atomChar c = true -> Q c) -> Q "."%char ->
  atom first = true -> forallb atom more = true ->
  Forall Q (local_part first more).
Proof.
  intros HQ Hdot Hfirst Hmore. unfold local_part. apply Forall_app. split.
  - by apply atom_chars.
  - induction more as [|x more IH]; [constructor|].
    simpl in Hmore. apply andb_true_iff in Hmore as [Hx Hmore].
    cbn [flat_map app]. constructor; [exact Hdot|].
    apply Forall_app. split; [by apply atom_chars|by apply IH].
Qed.

Lemma label_chars (Q : ascii -> Prop) (l : list ascii) :
  (forall c, icase alnumHyphen c = true -> Q c) ->
  is_label l = true -> Forall Q l.
Proof.
  intros HQ Hl. apply (forallb_Forall_imp _ _ _ HQ), is_label_chars, Hl.
Qed.

Lemma spaces_chars (Q : ascii -> Prop) (l : list ascii) :
  (forall c, is_space c = true -> Q c) -> spaces l = true -> Forall Q l.
Proof.
  intros HQ [_ Hl]%andb_true_iff. by apply (forallb_Forall_imp _ _ _ HQ).
Qed.

Lemma spells_toLowerCase (word : string) (l : list ascii) :
  spells word l = true -> toLowerCase l = chars word.
Proof.
  unfold spells. intros H%String.eqb_eq. by rewrite <- H, chars_str.
Qed.

Lemma spells_no_slash (word : string) (l : list ascii) :
  word = "at"%string \/ word = "dot"%string ->
  spells word l = true -> Forall (fun c => chr "/" c = false) l.
Proof.
  intros Hword Hl%spells_toLowerCase.
  assert (Hlow : Forall (fun c => chr "/" c = false) (toLowerCase l)).
  { rewrite Hl. destruct Hword as [-> | ->]; repeat constructor. }
  unfold toLowerCase in Hlow. apply Forall_map in Hlow.
  eapply Forall_impl; [exact Hlow|]. intros c Hc. cbv beta in Hc.
  unfold chr in *. by rewrite slash_to_lower in Hc.
Qed.

(** *** Lowercasing keeps the shape *)

Lemma forallb_toLowerCase (p : ascii -> bool) (l : list ascii) :
  (forall c, p (to_lower c) = p c) ->
  forallb p (toLowerCase l) = forallb p l.
Proof.
  intros Hp. induction l as [|c t IH]; [reflexivity|].
  simpl. by rewrite Hp, IH.
Qed.

Lemma atom_toLowerCase (l : list ascii) : atom (toLowerCase l) = atom l.
Proof.
  unfold atom, toLowerCase. rewrite length_map. f_equal.
  apply forallb_toLowerCase, icase_to_lower.
Qed.

Lemma atoms_toLowerCase (more : list (list ascii)) :
  forallb atom (map toLowerCase more) = forallb atom more.
Proof.
  induction more as [|x more IH]; [reflexivity|].
  simpl. by rewrite atom_toLowerCase, IH.
Qed.

Lemma spaces_toLowerCase (l : list ascii) : spaces (toLowerCase l) = spaces l.
Proof.
  unfold spaces, toLowerCase. rewrite length_map. f_equal.
  apply forallb_toLowerCase, is_space_to_lower.
Qed.

Lemma is_label_toLowerCase (l : list ascii) :
  is_label (toLowerCase l) = is_label l.
Proof.
  destruct l as [|x t]; [reflexivity|]. unfold toLowerCase. cbn [map is_label].
  rewrite icase_to_lower, <- map_rev. f_equal.
  destruct (rev t) as [|y mid]; [reflexivity|]. cbn [map].
  rewrite icase_to_lower. f_equal.
  apply forallb_toLowerCase, icase_to_lower.
Qed.

Lemma local_part_toLowerCase (first : list ascii) (more : list (list ascii)) :
  toLowerCase (local_part first more) =
  local_part (toLowerCase first) (map toLowerCase more).
Proof.
  unfold local_part, toLowerCase. rewrite map_app. f_equal.
  induction more as [|x more IH]; [reflexivity|].
  cbn [flat_map map app]. rewrite map_app, IH. reflexivity.
Qed.

Lemma startsWith_toLowerCase (l : list ascii) :
  startsWith ["/"; "/"]%char (toLowerCase l) = startsWith ["/"; "/"]%char l.
Proof.
  destruct l as [|x [|y t]]; cbn [toLowerCase map startsWith];
    by rewrite ?slash_to_lower.
Qed.

Lemma startsWith_slashes_app (l v : list ascii) :
  l <> [] -> stops (chr "/") v ->
  startsWith ["/"; "/"]%char l = false ->
  startsWith ["/"; "/"]%char (l ++ v) = false.
Proof.
  intros Hne Hv Hl. destruct l as [|x [|y t]]; [done| |exact Hl].
  cbn [app startsWith]. destruct v as [|c v]; [by rewrite andb_false_r|].
  simpl in Hv. unfold chr in Hv. rewrite Hv. by rewrite andb_false_r.
Qed.

Lemma atom_nonempty (l : list ascii) : atom l = true -> l <> [].
Proof. by destruct l. Qed.

(** What follows the first atom does not start with a slash. *)
Lemma stops_slash_after_atom (more : list (list ascii)) (w v : list ascii) :
  spaces w = true ->
  stops (chr "/") (flat_map (fun x => "."%char :: x) more ++ w ++ v).
Proof.
  intros Hw. destruct more as [|x more]; cbn [flat_map app stops].
  - apply stops_spaces; [|exact Hw]. apply space_not_slash.
  - reflexivity.
Qed.

(** *** An obfuscated address in lower case *)

Lemma lowercase_address (first : list ascii) (more : list (list ascii))
  (w1 w2 b w3 w4 c : list ascii) :
  atom first = true -> forallb atom more = true ->
  spaces w1 = true -> spaces w2 = true ->
  spaces w3 = true -> spaces w4 = true ->
  is_label b = true -> is_label c = true ->
  startsWith ["/"; "/"]%char first = false ->
  let l := local_part first more ++
           (w1 ++ chars "at" ++ w2) ++ (b ++ w3 ++ chars "dot" ++ w4) ++ c in
  exec_all emailRegex l = [l] /\
  startsWith ["/"; "/"]%char l = false /\
  replace_all obfuscationRegex deobfuscate l =
  local_part first more ++ "@"%char :: b ++ "."%char :: c.
Proof.
  intros Hfirst Hmore H1 H2 H3 H4 Hb Hc Hstart l. split; [|split].
  - destruct (reaches_emailRegex first more w1 w2 b w3 w4 c []
                Hfirst Hmore H1 H2 H3 H4 Hb Hc) as [g Hg].
    apply (exec_all_whole _ _ g); [|exact Hg|apply emailRegex_not_at_end].
    subst l. unfold local_part. destruct first; [discriminate|discriminate].
  - subst l. unfold local_part. rewrite <- !List.app_assoc.
    apply startsWith_slashes_app; [by apply atom_nonempty| |exact Hstart].
    by apply stops_slash_after_atom.
  - subst l. unfold replace_all.
    rewrite obfuscation_copy
      by (apply local_part_chars; auto using atomChar_not_space).
    rewrite obfuscation_separator; [|by left|assumption|assumption|].
    2:{ rewrite <- List.app_assoc.
        apply stops_label; [apply alnum_not_space|exact Hb]. }
    change (if String.eqb "at" "at" then ["@"%char] else ["."%char])
      with ["@"%char].
    rewrite <- (List.app_assoc b).
    rewrite obfuscation_copy
      by (apply (label_chars _ _ alnumHyphen_not_space), Hb).
    rewrite obfuscation_separator; [|by right|assumption|assumption|].
    2:{ rewrite <- (app_nil_r c).
        apply stops_label; [apply alnum_not_space|exact Hc]. }
    change (if String.eqb "dot" "at" then ["@"%char] else ["."%char])
      with ["."%char].
    rewrite <- (app_nil_r c) at 1 2.
    rewrite obfuscation_copy
      by (apply (label_chars _ _ alnumHyphen_not_space), Hc).
    rewrite obfuscation_end, app_nil_r. reflexivity.
Qed.

(** *** Every address found is in lower case *)

Lemma toLowerCase_fixed (l : list ascii) :
  Forall (fun ch => to_lower ch = ch) (toLowerCase l).
Proof.
  induction l as [|c t IH]; [constructor|].
  constructor; [apply to_lower_idem|exact IH].
Qed.

Lemma parseEmailAddresses_lowercase (input addr : string) :
  addr ∈ parseEmailAddresses input -> toLowerCase (chars addr) = chars addr.
Proof.
  unfold parseEmailAddresses. destruct (negb (truthy input)).
  { intros Ha. by apply elem_of_nil in Ha. }
  intros Ha. apply list_elem_of_In, in_flat_map in Ha as (m0 & Hm0 & Ha).
  destruct (negb (startsWith _ m0)); [|destruct Ha]. destruct Ha as [<-|[]].
  rewrite chars_str.
  assert (Hlow : Forall (fun ch => to_lower ch = ch)
                   (replace_all obfuscationRegex deobfuscate m0)).
  { apply replace_loop_Forall.
    - intros m1 e. unfold deobfuscate.
      destruct (String.eqb _ _); by repeat constructor.
    - unfold exec_all in Hm0.
      match type of Hm0 with
      | In _ (exec_loop _ ?fuel _ (toLowerCase ?x)) =>
          pose proof (exec_loop_Forall (fun ch => to_lower ch = ch)
                        emailRegex fuel [] _ (toLowerCase_fixed x)) as Hall
      end.
      rewrite List.Forall_forall in Hall. apply Hall, Hm0. }
  induction Hlow as [|ch t Hch Ht IH]; [reflexivity|].
  cbn [toLowerCase map]. rewrite Hch. f_equal. exact IH.
Qed.

(** C5 (as amended). For every text of the form "a at b dot c", in which
    a is a local part (atoms separated by dots) that does not begin with
    the comment marker, b and c are domain labels, "at" and "dot" are
    spelled in any case and are surrounded by any white space,
    [parseEmailAddresses] yields exactly the address a@b.c in lower case;
    and every address it yields, for any input, is equal to its own
    lowercasing. *)
Theorem parseEmailAddresses_obfuscated
  (first : list ascii) (more : list (list ascii))
  (w1 AT w2 b w3 DOT w4 c : list ascii)
  (Hfirst : atom first = true) (Hmore : forallb atom more = true)
  (H1 : spaces w1 = true) (HAT : spells "at" AT = true)
  (H2 : spaces w2 = true) (Hb : is_label b = true)
  (H3 : spaces w3 = true) (HDOT : spells "dot" DOT = true)
  (H4 : spaces w4 = true) (Hc : is_label c = true)
  (Hstart : startsWith ["/"; "/"]%char first = false) :
  parseEmailAddresses
    (str (Obfuscated.text (local_part first more) w1 AT w2 b w3 DOT w4 c)) =
  [str (toLowerCase (local_part first more) ++
        "@"%char :: toLowerCase b ++ "."%char :: toLowerCase c)] /\
  forall input addr,
    addr ∈ parseEmailAddresses input ->
    str (toLowerCase (chars addr)) = addr.
Proof.
  split.
  2:{ intros input addr Ha.
      by rewrite (parseEmailAddresses_lowercase input addr Ha), str_chars. }
  unfold parseEmailAddresses, Obfuscated.text.
  rewrite str_truthy, chars_str.
  assert (Hlen : Nat.eqb
                   (length (local_part first more ++ w1 ++ AT ++ w2 ++ b ++
                            w3 ++ DOT ++ w4 ++ c)) 0 = false).
  { unfold local_part. destruct first; [discriminate|reflexivity]. }
  rewrite Hlen. cbn [negb]. cbv zeta.
  rewrite comment_free_text.
  - unfold toLowerCase at 1. rewrite !map_app.
    fold (toLowerCase (local_part first more)).
    fold (toLowerCase w1) (toLowerCase AT) (toLowerCase w2) (toLowerCase b)
         (toLowerCase w3) (toLowerCase DOT) (toLowerCase w4) (toLowerCase c).
    rewrite (spells_toLowerCase _ _ HAT), (spells_toLowerCase _ _ HDOT).
    rewrite local_part_toLowerCase.
    destruct (lowercase_address (toLowerCase first) (map toLowerCase more)
                (toLowerCase w1) (toLowerCase w2) (toLowerCase b)
                (toLowerCase w3) (toLowerCase w4) (toLowerCase c))
      as (Hexec & Hnot & Hrep);
      rewrite ?atom_toLowerCase, ?atoms_toLowerCase, ?spaces_toLowerCase,
        ?is_label_toLowerCase, ?startsWith_toLowerCase; try assumption.
    rewrite <- !List.app_assoc in Hexec, Hnot, Hrep.
    rewrite Hexec. cbn [flat_map]. rewrite Hnot. cbn [negb app].
    by rewrite Hrep.
  - unfold local_part. rewrite <- List.app_assoc.
    apply startsWith_slashes_app; [by apply atom_nonempty| |exact Hstart].
    by apply stops_slash_after_atom.
  - apply local_part_chars; auto using atomChar_not_newline.
  - repeat (apply Forall_app; split).
    + apply (spaces_chars _ _ space_not_slash H1).
    + apply (spells_no_slash "at"); [by left|exact HAT].
    + apply (spaces_chars _ _ space_not_slash H2).
    + apply (label_chars _ _ alnumHyphen_not_slash Hb).
    + apply (spaces_chars _ _ space_not_slash H3).
    + apply (spells_no_slash "dot"); [by right|exact HDOT].
    + apply (spaces_chars _ _ space_not_slash H4).
    + apply (label_chars _ _ alnumHyphen_not_slash Hc).
Qed.

End ObfuscatedAddress.

Lemma parseEmailAddresses_obfuscated_witness :
  Code.EmailUtils.parseEmailAddresses "John.Doe  AT Example Dot   COM" =
  ["john.doe@example.com"%string].
Proof.
  apply (proj1 (parseEmailAddresses_obfuscated
                  (chars "John") [chars "Doe"]
                  (chars "  ") (chars "AT") (chars " ")
                  (chars "Example")
                  (chars " ") (chars "Dot") (chars "   ")
                  (chars "COM")
                  eq_refl eq_refl eq_refl eq_refl eq_refl eq_refl
                  eq_refl eq_refl eq_refl eq_refl eq_refl)).
Defined.

(** A text of the same form whose local part begins with the comment
    marker: the line is removed before the scan and no address is found. *)
Lemma parseEmailAddresses_comment_marker_counterexample :
  Obfuscated.atom (chars "//x") = true /\
  Code.EmailUtils.parseEmailAddresses "//x at b dot c" = [] /\
  Code.EmailUtils.parseEmailAddresses "//x at b dot c" <>
  ["//x@b.c"%string].
Proof. split; [|split]; [vm_compute; reflexivity ..|vm_compute; discriminate]. Qed.

(* ================================================================== *)
(** * Further properties of the code *)
(* ================================================================== *)

(** ** Plain objects *)

Section PlainObjects.
Context {V : Type}.

Lemma own_put (key key' : string) (v : V) (o : Js.obj V) :
  Js.own (Js.put key v o) key' =
  if decide (key = key') then Some v else Js.own o key'.
Proof.
  induction o as [|[k v'] t IH]; simpl.
  - destruct (decide (key = key')) as [->|Hne].
    + by rewrite String.eqb_refl.
    + by apply String.eqb_neq in Hne as ->.
  - destruct (String.eqb k key) eqn:Hk; simpl.
    + apply String.eqb_eq in Hk as ->.
      destruct (decide (key = key')) as [->|Hne].
      * by rewrite String.eqb_refl.
      * by apply String.eqb_neq in Hne as ->.
    + rewrite IH. destruct (decide (key = key')) as [->|Hne]; [|done].
      by rewrite Hk.
Qed.

Lemma own_store (key key' : string) (v : V) (o : Js.obj V) :
  Js.own (Js.store key v o) key' =
  if decide (key = key' /\ key <> "__proto__"%string) then Some v
  else Js.own o key'.
Proof.
  unfold Js.store. destruct (String.eqb key "__proto__") eqn:Hp.
  - apply String.eqb_eq in Hp as ->. rewrite decide_False; [done|].
    by intros [_ ?].
  - apply String.eqb_neq in Hp. rewrite own_put.
    destruct (decide (key = key')) as [->|Hne].
    + by rewrite decide_True.
    + rewrite decide_False; [done|]. by intros [? _].
Qed.

Lemma own_names (o : Js.obj V) (key : string) :
  is_Some (Js.own o key) <-> key ∈ map fst o.
Proof.
  induction o as [|[k v] t IH]; simpl.
  - split; [by intros [? ?]|by intros ?%elem_of_nil].
  - rewrite elem_of_cons. destruct (String.eqb k key) eqn:Hk.
    + apply String.eqb_eq in Hk as ->. split; [by left|by eexists].
    + apply String.eqb_neq in Hk. rewrite IH. split; [by right|].
      by intros [?|?].
Qed.

Lemma insertIndex_names (n : N) (key : string) (l : list (N * string))
  (x : string) :
  x ∈ map snd (Js.insertIndex n key l) <-> x = key \/ x ∈ map snd l.
Proof.
  induction l as [|[m k] t IH]; simpl.
  - rewrite list_elem_of_singleton, elem_of_nil. tauto.
  - destruct (n <? m)%N; simpl; rewrite !elem_of_cons; [tauto|].
    rewrite IH. tauto.
Qed.

Lemma sorted_indices_names (names : list string) (x : string) :
  forall acc,
    x ∈ map snd
          (fold_left
             (fun acc key =>
                match Js.arrayIndex key with
                | Some n => Js.insertIndex n key acc
                | None => acc
                end) names acc) <->
    x ∈ map snd acc \/ x ∈ names /\ is_Some (Js.arrayIndex x).
Proof.
  induction names as [|k names IH]; intros acc; simpl.
  - rewrite elem_of_nil. tauto.
  - rewrite IH, elem_of_cons. destruct (Js.arrayIndex k) as [n|] eqn:Hk.
    + rewrite insertIndex_names. split.
      * intros [[->|?]|[? ?]]; [right|by left|right]; [|tauto].
        split; [by left|by eexists].
      * intros [?|[[->|?] ?]]; [tauto|tauto|tauto].
    + split.
      * intros [?|[? ?]]; tauto.
      * intros [?|[[->|?] Hx]]; [tauto| |tauto].
        rewrite Hk in Hx. by destruct Hx.
Qed.

Lemma keys_names (o : Js.obj V) (key : string) :
  key ∈ Js.keys o <-> key ∈ map fst o.
Proof.
  unfold Js.keys. rewrite elem_of_app, sorted_indices_names.
  rewrite (list_elem_of_In (List.filter _ _) key), filter_In,
    <- list_elem_of_In.
  simpl. rewrite elem_of_nil.
  destruct (Js.arrayIndex key) as [n|].
  - split; [intros [[[]|[? _]]|[_ ?]]; done|]. intros ?. left. right.
    split; [done|by eexists].
  - split; [intros [[[]|[? _]]|[? _]]; done|]. intros ?. by right.
Qed.

Lemma keys_own (o : Js.obj V) (key : string) :
  key ∈ Js.keys o <-> is_Some (Js.own o key).
Proof. by rewrite keys_names, own_names. Qed.

End PlainObjects.

(** ** Headers and row objects *)

Section SheetMapping.
Context {V : Type} `{Js.Any V}.
Import Code Code.SpreadsheetUtils.

Lemma mapHeadersToIndices_snoc (headerRow : list V) (h : V) :
  mapHeadersToIndices (headerRow ++ [h]) =
  Js.store (Js.ToString h) (length headerRow) (mapHeadersToIndices headerRow).
Proof.
  unfold mapHeadersToIndices. rewrite imap_app, fold_left_app. simpl.
  by rewrite Nat.add_0_r.
Qed.

Lemma mapHeadersToIndices_own (headerRow : list V) (h : string) (i : nat) :
  Js.own (mapHeadersToIndices headerRow) h = Some i <->
  h <> "__proto__"%string /\
  map Js.ToString headerRow !! i = Some h /\
  forall j, i < j -> map Js.ToString headerRow !! j <> Some h.
Proof.
  revert i. induction headerRow as [|x headerRow IH] using rev_ind; intros i.
  - unfold mapHeadersToIndices. simpl. split; [done|].
    intros (_ & Hi & _). by rewrite lookup_nil in Hi.
  - rewrite mapHeadersToIndices_snoc, own_store, map_app. cbn [map].
    assert (Hlen : length (map Js.ToString headerRow) = length headerRow)
      by apply length_map.
    destruct (decide (Js.ToString x = h /\ Js.ToString x <> "__proto__"%string))
      as [[<- Hproto]|Hne].
    + split.
      * intros [= <-]. split; [done|]. split.
        -- by rewrite lookup_app_r, Hlen, Nat.sub_diag by lia.
        -- intros j Hj. rewrite lookup_ge_None_2; [done|].
           rewrite length_app, Hlen. simpl. lia.
      * intros (_ & Hi & Hlast). f_equal.
        destruct (decide (i = length headerRow)) as [->|Hi']; [done|].
        exfalso. apply (Hlast (length headerRow)).
        -- apply lookup_lt_Some in Hi. rewrite length_app, Hlen in Hi.
           simpl in Hi. lia.
        -- by rewrite lookup_app_r, Hlen, Nat.sub_diag by lia.
    + rewrite IH. split.
      * intros (Hp & Hi & Hlast). split; [done|]. split.
        -- rewrite lookup_app_l; [done|]. by apply lookup_lt_Some in Hi.
        -- intros j Hj Hjh.
           destruct (decide (j < length headerRow)) as [Hlt|Hge].
           ++ rewrite lookup_app_l in Hjh by lia. by apply (Hlast j).
           ++ rewrite lookup_app_r, Hlen in Hjh by lia.
              destruct (j - length headerRow) as [|n]; simpl in Hjh.
              ** injection Hjh as Hx. apply Hne. split; [done|congruence].
              ** by rewrite lookup_nil in Hjh.
      * intros (Hp & Hi & Hlast).
        assert (i < length headerRow) as Hlt.
        { destruct (decide (i < length headerRow)) as [|Hge]; [done|].
          rewrite lookup_app_r, Hlen in Hi by lia.
          destruct (i - length headerRow) as [|n]; simpl in Hi.
          - injection Hi as Hx. exfalso. apply Hne. split; [done|congruence].
          - by rewrite lookup_nil in Hi. }
        rewrite lookup_app_l in Hi by lia. split; [done|]. split; [done|].
        intros j Hj Hjh. apply (Hlast j Hj).
        rewrite lookup_app_l; [done|]. apply lookup_lt_Some in Hjh. lia.
Qed.

Lemma mapHeadersToIndices_is_Some (headerRow : list V) (h : string) :
  h ∈ map Js.ToString headerRow -> h <> "__proto__"%string ->
  is_Some (Js.own (mapHeadersToIndices headerRow) h).
Proof.
  intros Hh Hp. induction headerRow as [|x headerRow IH] using rev_ind.
  - by apply elem_of_nil in Hh.
  - rewrite mapHeadersToIndices_snoc, own_store.
    destruct (decide (Js.ToString x = h /\ _)) as [_|Hne]; [by eexists|].
    apply IH. rewrite map_app in Hh.
    apply elem_of_app in Hh as [Hh|Hh]; [done|].
    apply list_elem_of_singleton in Hh. exfalso. apply Hne.
    split; congruence.
Qed.

(** X1. In the map built by [mapHeadersToIndices] a header, taken as a
    text, stands for the column where it occurs last in the header row:
    the column found holds that header and no column to its right does.
    Every header of the row is an own key of the map, except a header
    [__proto__], which never is: read through the map it answers the
    inherited object, as the names of the other inherited properties do
    when no column has them. *)
Theorem mapHeadersToIndices_last_column (headerRow : list V) :
  let names := map Js.ToString headerRow in
  (forall h i,
     Js.own (mapHeadersToIndices headerRow) h = Some i <->
     h <> "__proto__"%string /\ names !! i = Some h /\
     forall j, i < j -> names !! j <> Some h) /\
  (forall h, h ∈ names -> h <> "__proto__"%string ->
     is_Some (Js.own (mapHeadersToIndices headerRow) h)) /\
  Js.get (mapHeadersToIndices headerRow) "__proto__" = Js.Inherited /\
  (forall h, Js.inherited h = true -> h ∉ names ->
     Js.get (mapHeadersToIndices headerRow) h = Js.Inherited).
Proof.
  intros names. split; [apply mapHeadersToIndices_own|].
  split; [apply mapHeadersToIndices_is_Some|].
  assert (Hnone : forall h, h = "__proto__"%string \/ h ∉ names ->
            Js.own (mapHeadersToIndices headerRow) h = None).
  { intros h Hh.
    destruct (Js.own (mapHeadersToIndices headerRow) h) as [i|] eqn:Hi;
      [|done].
    apply mapHeadersToIndices_own in Hi as (Hp & Hi & _).
    destruct Hh as [->|Hh]; [done|]. exfalso. apply Hh.
    by eapply list_elem_of_lookup_2. }
  split.
  - unfold Js.get. by rewrite Hnone by (by left).
  - intros h Hh Hnot. unfold Js.get. rewrite Hnone by (by right).
    by rewrite Hh.
Qed.

Lemma lookup_assign (key key' : string) (v : V) (o : gmap string V) :
  Js.assign key v o !! key' =
  if decide (key = key' /\ key <> "__proto__"%string) then Some v
  else o !! key'.
Proof.
  unfold Js.assign. destruct (String.eqb key "__proto__") eqn:Hp.
  - apply String.eqb_eq in Hp as ->. rewrite decide_False; [done|].
    by intros [_ ?].
  - apply String.eqb_neq in Hp. destruct (decide (key = key')) as [->|Hne].
    + by rewrite lookup_insert_eq, decide_True.
    + rewrite lookup_insert_ne by done. rewrite decide_False; [done|].
      by intros [? _].
Qed.

Lemma cellUnder_own (row : list V) (headers : Js.obj nat) (key : string) :
  cellUnder row headers key =
  match Js.own headers key with
  | Some i => cell row i
  | None => Js.ofString EmptyString
  end.
Proof.
  unfold cellUnder, Js.get. destruct (Js.own headers key); [done|].
  by destruct (Js.inherited key).
Qed.

Lemma required_lookup (row : list V) (headers : Js.obj nat)
  (requiredFields : list string) (key : string) :
  forall acc : gmap string V,
    fold_left
      (fun res f =>
         Js.assign f
           (match Js.get headers f with
            | Js.Undefined => Js.ofString EmptyString
            | _ => cellUnder row headers f
            end) res)
      requiredFields acc !! key =
    if decide (key ∈ requiredFields /\ key <> "__proto__"%string)
    then Some (cellUnder row headers key)
    else acc !! key.
Proof.
  induction requiredFields as [|f fields IH]; intros acc; cbn [fold_left].
  - rewrite decide_False; [done|]. intros [Hin _]. by apply elem_of_nil in Hin.
  - rewrite IH, lookup_assign.
    destruct (decide (key ∈ fields /\ key <> "__proto__"%string))
      as [[Hin Hp]|Hnot].
    + rewrite decide_True; [done|]. split; [by apply elem_of_cons; right|done].
    + destruct (decide (f = key /\ f <> "__proto__"%string)) as [[-> Hp]|Hne].
      * rewrite decide_True by (split; [by apply elem_of_cons; left|done]).
        f_equal. rewrite cellUnder_own. unfold Js.get.
        destruct (Js.own headers key); [done|].
        by destruct (Js.inherited key).
      * rewrite decide_False; [done|].
        intros [[Heq|Hin]%elem_of_cons Hp]; [|tauto].
        apply Hne. by subst.
Qed.

Lemma headers_lookup (row : list V) (headers : Js.obj nat)
  (names : list string) (key : string) :
  forall res : gmap string V,
    fold_left
      (fun res header =>
         match res !! header with
         | Some _ => res
         | None => Js.assign header (cellUnder row headers header) res
         end)
      names res !! key =
    match res !! key with
    | Some v => Some v
    | None =>
        if decide (key ∈ names /\ key <> "__proto__"%string)
        then Some (cellUnder row headers key) else None
    end.
Proof.
  induction names as [|h names IH]; intros res; cbn [fold_left].
  - destruct (res !! key); [done|]. rewrite decide_False; [done|].
    intros [Hin _]. by apply elem_of_nil in Hin.
  - rewrite IH. destruct (res !! h) as [v|] eqn:Hh.
    + destruct (res !! key) as [v'|] eqn:Hk; [done|].
      assert (h <> key) as Hne by congruence.
      destruct (decide (key ∈ names /\ _)) as [[Hin Hp]|Hnot].
      * rewrite decide_True; [done|]. split; [by apply elem_of_cons; right|done].
      * rewrite decide_False; [done|].
        intros [[Heq|Hin]%elem_of_cons Hp]; [congruence|tauto].
    + rewrite lookup_assign.
      destruct (decide (h = key /\ h <> "__proto__"%string)) as [[-> Hp]|Hne].
      * rewrite Hh. rewrite decide_True; [done|].
        split; [by apply elem_of_cons; left|done].
      * destruct (res !! key) as [v'|]; [done|].
        destruct (decide (key ∈ names /\ _)) as [[Hin Hp]|Hnot].
        -- rewrite decide_True; [done|].
           split; [by apply elem_of_cons; right|done].
        -- rewrite decide_False; [done|].
           intros [[Heq|Hin]%elem_of_cons Hp]; [|tauto].
           apply Hne. by subst.
Qed.

Lemma mapRowToObject_lookup (row : list V) (headers : Js.obj nat)
  (requiredFields : list string) (key : string) :
  mapRowToObject row headers requiredFields !! key =
  if decide (key = "__proto__"%string) then None
  else match Js.own headers key with
       | Some i => Some (cell row i)
       | None =>
           if decide (key ∈ requiredFields) then Some (Js.ofString EmptyString)
           else None
       end.
Proof.
  unfold mapRowToObject. rewrite headers_lookup, required_lookup.
  rewrite lookup_empty, cellUnder_own.
  destruct (decide (key = "__proto__"%string)) as [->|Hp].
  - rewrite !decide_False by (by intros [_ ?]). done.
  - destruct (decide (key ∈ requiredFields /\ _)) as [[Hin _]|Hnot].
    + destruct (Js.own headers key); [done|]. by rewrite decide_True.
    + destruct (Js.own headers key) as [i|] eqn:Hown.
      * rewrite decide_True; [done|]. split; [|done].
        apply keys_own. by eexists.
      * rewrite decide_False.
        -- rewrite decide_False; [done|]. tauto.
        -- intros [Hin _]. apply keys_own in Hin. rewrite Hown in Hin.
           by destruct Hin.
Qed.

(** X2. The object built by [mapRowToObject] has exactly the header names
    and the required fields as own keys, [__proto__] excepted, which is
    never one. A header name holds the cell of its column when that cell
    is truthy, and the empty string when it is falsy (an empty cell, the
    number 0, [false]) or when the row is too short; a required field that
    is no header holds the empty string. *)
Theorem mapRowToObject_fields (row : list V) (headers : Js.obj nat)
  (requiredFields : list string) (key : string) :
  mapRowToObject row headers requiredFields !! key =
  if decide (key = "__proto__"%string) then None
  else match Js.own headers key with
       | Some i =>
           Some (match row !! i with
                 | Some v =>
                     if Js.ToBoolean v then v else Js.ofString EmptyString
                 | None => Js.ofString EmptyString
                 end)
       | None =>
           if decide (key ∈ requiredFields) then Some (Js.ofString EmptyString)
           else None
       end.
Proof. apply mapRowToObject_lookup. Qed.

(** X12. [getStringValue] reads a cell as [mapRowToObject] does: for every
    header name but [__proto__], known or not, and every row, long enough
    or not, its answer is the text of the field of that name in the object
    built from the row with the name among the required fields. *)
Theorem getStringValue_is_the_field (row : list V)
  (headerMap : Js.obj nat) (requiredFields : list string)
  (headerName : string)
  (Hname : headerName <> "__proto__"%string)
  (Hrequired : headerName ∈ requiredFields) :
  exists v,
    mapRowToObject row headerMap requiredFields !! headerName = Some v /\
    Rest.TextUtils.getStringValue row headerMap headerName = Js.ToString v.
Proof.
  rewrite mapRowToObject_lookup, decide_False by done.
  unfold Rest.TextUtils.getStringValue, Js.get, cell.
  destruct (Js.own headerMap headerName) as [i|].
  - eexists. split; [reflexivity|].
    destruct (row !! i) as [v|]; [done|]. by rewrite Js.ToString_ofString.
  - rewrite decide_True by done. eexists. split; [reflexivity|].
    rewrite Js.ToString_ofString. by destruct (Js.inherited headerName).
Qed.

End SheetMapping.

Lemma getStringValue_is_the_field_witness :
  exists v : Demo.Cell,
    Code.SpreadsheetUtils.mapRowToObject
      [Demo.Number 0 eq_refl; Demo.Text "x"]
      (Code.SpreadsheetUtils.mapHeadersToIndices
         [Demo.Text "count"; Demo.Text "name"])
      ["count"%string] !! "count"%string = Some v /\
    Rest.TextUtils.getStringValue
      [Demo.Number 0 eq_refl; Demo.Text "x"]
      (Code.SpreadsheetUtils.mapHeadersToIndices
         [Demo.Text "count"; Demo.Text "name"])
      "count" = Js.ToString v.
Proof.
  apply (getStringValue_is_the_field
           [Demo.Number 0 eq_refl; Demo.Text "x"]
           (Code.SpreadsheetUtils.mapHeadersToIndices
              [Demo.Text "count"; Demo.Text "name"])
           ["count"%string] "count").
  - discriminate.
  - apply list_elem_of_here.
Defined.

(** ** File identifiers *)

Section FileIds.
Import Regex Chars Code Code.FileUtils DriveUrl.
#[local] Arguments Ascii.eqb : simpl never.
#[local] Arguments firstn : simpl nomatch.

Lemma m_Times_Cls (p : ascii -> bool) (n : nat) :
  forall bef l cs,
    m (Times n (Cls p)) (Cursor bef l cs) =
    if Nat.leb n (length l) && forallb p (firstn n l)
    then [Cursor (rev (firstn n l) ++ bef) (skipn n l) cs]
    else [].
Proof.
  induction n as [|n IH]; intros bef l cs; [reflexivity|].
  cbn [Times]. rewrite m_Seq, m_Cls. cbn [rest before caps].
  destruct l as [|c t]; [reflexivity|].
  cbn [length firstn skipn forallb Nat.leb].
  destruct (p c); [|by rewrite andb_false_r].
  cbn [flat_map]. rewrite app_nil_r, IH, andb_true_l.
  destruct (Nat.leb n (length t) && forallb p (firstn n t)); [|reflexivity].
  cbn [rev]. by rewrite <- List.app_assoc.
Qed.

Lemma run_split (p : ascii -> bool) (l : list ascii) :
  exists u v, l = u ++ v /\ forallb p u = true /\ stops p v.
Proof.
  induction l as [|c t (u & v & -> & Hu & Hv)]; [by exists [], []|].
  destruct (p c) eqn:Hc.
  - exists (c :: u), v. simpl. by rewrite Hc, Hu.
  - by exists [], (c :: u ++ v).
Qed.

Lemma run_unique (p : ascii -> bool) (u u' v v' : list ascii) :
  u ++ v = u' ++ v' ->
  forallb p u = true -> forallb p u' = true -> stops p v -> stops p v' ->
  u = u' /\ v = v'.
Proof.
  revert u'. induction u as [|c u IH]; intros u' Heq Hu Hu' Hv Hv'.
  - destruct u' as [|c' u']; [done|]. simpl in *. subst v.
    apply andb_true_iff in Hu' as [Hc' _]. simpl in Hv. congruence.
  - destruct u' as [|c' u'].
    + simpl in *. subst v'. apply andb_true_iff in Hu as [Hc _].
      simpl in Hv'. congruence.
    + simpl in *. injection Heq as -> Heq.
      apply andb_true_iff in Hu as [_ Hu].
      apply andb_true_iff in Hu' as [_ Hu'].
      destruct (IH u' Heq Hu Hu' Hv Hv') as [-> ->]. done.
Qed.

(** Where the pattern of file identifiers matches, and what it takes. *)
Lemma match_at_fileIdRegex_None (bef l : list ascii) :
  Nat.leb 25 (length l) && forallb fileIdChar (firstn 25 l) = false ->
  match_at fileIdRegex bef l = None.
Proof.
  intros Hno. unfold match_at, fileIdRegex, at_start.
  by rewrite m_Seq, m_Times_Cls, Hno.
Qed.

Lemma match_at_fileIdRegex_Some (bef u v : list ascii) :
  is_id u = true -> stops fileIdChar v ->
  match_at fileIdRegex bef (u ++ v) = Some (Cursor (rev u ++ bef) v []).
Proof.
  intros [Hlen Hu]%andb_true_iff Hv. apply Nat.leb_le in Hlen.
  unfold match_at, fileIdRegex, at_start. rewrite m_Seq, m_Times_Cls.
  assert (Hfirst : firstn 25 (u ++ v) = firstn 25 u).
  { rewrite firstn_app.
    replace (25 - length u) with 0 by lia. by rewrite firstn_O, app_nil_r. }
  assert (Hskip : skipn 25 (u ++ v) = skipn 25 u ++ v).
  { rewrite skipn_app.
    replace (25 - length u) with 0 by lia. reflexivity. }
  rewrite Hfirst, Hskip.
  assert (Hsplit : forallb fileIdChar (firstn 25 u) = true /\
                   forallb fileIdChar (skipn 25 u) = true).
  { rewrite <- (firstn_skipn 25 u), forallb_app in Hu.
    by apply andb_true_iff in Hu. }
  destruct Hsplit as [H1 H2]. rewrite H1, andb_true_r.
  assert (Nat.leb 25 (length (u ++ v)) = true) as ->.
  { apply Nat.leb_le. rewrite length_app. lia. }
  cbn [flat_map]. rewrite app_nil_r.
  destruct (reaches_Star_run fileIdChar (skipn 25 u)
              (rev (firstn 25 u) ++ bef) v H2 Hv []) as (tl & ->).
  cbn [head id]. rewrite List.app_assoc, <- rev_app_distr, firstn_skipn.
  reflexivity.
Qed.

Lemma search_found (r : re) (bef l : list ascii) (e : cursor) :
  match_at r bef l = Some e -> search r bef l = Some (at_start bef l, e).
Proof. intros He. destruct l; simpl; by rewrite He. Qed.

Lemma search_step (r : re) (bef t : list ascii) (c : ascii) :
  match_at r bef (c :: t) = None ->
  search r bef (c :: t) = search r (c :: bef) t.
Proof. intros He. simpl. by rewrite He. Qed.

(** A prefix without identifier is passed over by the search. *)
Lemma search_clear_prefix (prefix : list ascii) :
  forall bef l,
    clear_of_ids prefix = true ->
    (match l with [] => True | c :: _ => fileIdChar c = true end) ->
    search fileIdRegex bef (prefix ++ l) =
    search fileIdRegex (rev prefix ++ bef) l.
Proof.
  induction prefix as [|c t IH]; intros bef l Hclear Hl; [reflexivity|].
  cbn [clear_of_ids] in Hclear.
  apply andb_true_iff in Hclear as [Hhere Hclear].
  apply negb_true_iff in Hhere.
  cbn [app]. rewrite search_step.
  - rewrite IH by assumption. cbn [rev]. by rewrite <- List.app_assoc.
  - apply match_at_fileIdRegex_None. apply andb_false_iff. right.
    change (c :: t ++ l) with ((c :: t) ++ l).
    rewrite firstn_app. rewrite forallb_app. by rewrite Hhere.
Qed.

Lemma firstn_id_prefix (u v : list ascii) (n : nat) :
  n <= length u -> firstn n (u ++ v) = firstn n u.
Proof.
  intros Hn. rewrite firstn_app.
  replace (n - length u) with 0 by lia. by rewrite firstn_O, app_nil_r.
Qed.

(** What the search passes over holds no identifier. *)
Lemma search_inv (l : list ascii) :
  forall bef s e,
    search fileIdRegex bef l = Some (s, e) ->
    exists prefix u v,
      l = prefix ++ u ++ v /\ clear_of_ids prefix = true /\
      is_id u = true /\ stops fileIdChar v /\
      s = at_start (rev prefix ++ bef) (u ++ v) /\
      e = Cursor (rev u ++ rev prefix ++ bef) v [].
Proof.
  induction l as [|c t IH]; intros bef s e Hs.
  - change (search fileIdRegex bef [])
      with (match match_at fileIdRegex bef [] with
            | Some e => Some (at_start bef [], e)
            | None => None
            end) in Hs.
    rewrite match_at_fileIdRegex_None in Hs by reflexivity.
    discriminate.
  - destruct (Nat.leb 25 (length (c :: t)) &&
              forallb fileIdChar (firstn 25 (c :: t))) eqn:Hhere.
    + apply andb_true_iff in Hhere as [Hlen Hfirst].
      destruct (run_split fileIdChar (skipn 25 (c :: t)))
        as (u' & v & Hsplit & Hu' & Hv).
      assert (Hl : c :: t = (firstn 25 (c :: t) ++ u') ++ v).
      { rewrite <- List.app_assoc, <- Hsplit. by rewrite firstn_skipn. }
      assert (Hid : is_id (firstn 25 (c :: t) ++ u') = true).
      { unfold is_id. rewrite forallb_app, Hfirst, Hu', andb_true_r.
        apply Nat.leb_le. rewrite length_app, length_firstn.
        apply Nat.leb_le in Hlen. lia. }
      rewrite Hl in Hs.
      rewrite (search_found _ _ _ _
                 (match_at_fileIdRegex_Some bef _ v Hid Hv)) in Hs.
      injection Hs as <- <-.
      exists [], (firstn 25 (c :: t) ++ u'), v.
      rewrite <- Hl. repeat split; try done. by rewrite Hl.
    + rewrite search_step in Hs by (by apply match_at_fileIdRegex_None).
      destruct (IH _ _ _ Hs)
        as (prefix & u & v & -> & Hclear & Hid & Hv & -> & ->).
      exists (c :: prefix), u, v. cbn [rev]. rewrite <- !List.app_assoc.
      repeat split; try done.
      cbn [clear_of_ids]. rewrite Hclear, andb_true_r.
      apply negb_true_iff.
      apply andb_true_iff in Hid as [Hlen Hu]. apply Nat.leb_le in Hlen.
      apply andb_false_iff in Hhere as [Hshort|Hnot].
      * apply Nat.leb_gt in Hshort. simpl in Hshort.
        rewrite !length_app in Hshort. lia.
      * destruct (forallb fileIdChar (firstn 25 (c :: prefix))) eqn:Hp;
          [|reflexivity].
        rewrite <- Hnot. clear Hnot. symmetry.
        change (c :: prefix ++ u ++ v) with ((c :: prefix) ++ u ++ v).
        rewrite firstn_app, forallb_app, Hp. cbn [andb].
        rewrite firstn_app, forallb_app.
        rewrite <- (firstn_skipn (25 - length (c :: prefix)) u), forallb_app
          in Hu.
        apply andb_true_iff in Hu as [Hu _]. rewrite Hu. cbn [andb].
        replace (25 - length (c :: prefix) - length u) with 0 by (simpl; lia).
        by rewrite firstn_O.
Qed.

Lemma is_id_head (u v : list ascii) :
  is_id u = true ->
  match u ++ v with [] => True | c :: _ => fileIdChar c = true end.
Proof.
  intros [Hlen Hu]%andb_true_iff. destruct u as [|c u]; [discriminate|].
  simpl in *. by apply andb_true_iff in Hu as [Hc _].
Qed.

Lemma matchedFileId_spec (url id : string) :
  matchedFileId url = Some id <->
  exists prefix suffix,
    chars url = prefix ++ chars id ++ suffix /\
    clear_of_ids prefix = true /\ is_id (chars id) = true /\
    stops fileIdChar suffix.
Proof.
  unfold matchedFileId, match_first. split.
  - destruct (search fileIdRegex [] (chars url)) as [[s e]|] eqn:Hs; [|done].
    apply search_inv in Hs
      as (prefix & u & v & Hl & Hclear & Hid & Hv & -> & ->).
    cbn [map seq].
    assert (Hspan : span (at_start (rev prefix ++ []) (u ++ v))
                      (Cursor (rev u ++ rev prefix ++ []) v []) = u).
    { by apply span_extends_by. }
    rewrite Hspan, str_truthy.
    assert (Nat.eqb (length u) 0 = false) as ->.
    { apply andb_true_iff in Hid as [Hlen _]. apply Nat.leb_le in Hlen.
      apply Nat.eqb_neq. lia. }
    intros [= <-]. exists prefix, v. by rewrite chars_str.
  - intros (prefix & suffix & Hl & Hclear & Hid & Hv). rewrite Hl.
    rewrite search_clear_prefix
      by (try done; by apply is_id_head).
    rewrite (search_found _ _ _ _
               (match_at_fileIdRegex_Some _ _ suffix Hid Hv)).
    cbn [map seq]. rewrite (span_extends_by (chars id)) by done.
    rewrite str_chars.
    assert (truthy id = true) as ->; [|done].
    destruct id; [discriminate Hid|done].
Qed.

(** X3. [extractFileId] returns the leftmost run of at least 25 characters
    among letters, digits, underscore and hyphen, taken to its end: it
    answers [id] exactly when the URL reads prefix, [id], suffix, where no
    such run starts inside the prefix, [id] is such a run and the suffix
    does not go on with one of these characters. Otherwise it throws
    "Invalid Google Drive URL"; it never changes anything. *)
Theorem extractFileId_leftmost_run (url : string) (w : World) :
  (forall id,
     extractFileId url w = (Returned id, w) <->
     exists prefix suffix,
       chars url = prefix ++ chars id ++ suffix /\
       clear_of_ids prefix = true /\ is_id (chars id) = true /\
       stops fileIdChar suffix) /\
  ((exists id, extractFileId url w = (Returned id, w)) \/
   extractFileId url w = (Thrown (InvalidDriveUrl url), w)).
Proof.
  split.
  - intros id. rewrite <- matchedFileId_spec. unfold extractFileId.
    destruct (matchedFileId url) as [id'|]; unfold ret, throw.
    + split; [by intros [= ->]|by intros [= ->]].
    + split; discriminate.
  - unfold extractFileId. destruct (matchedFileId url) as [id|].
    + left. by exists id.
    + by right.
Qed.

Example extractFileId_of_a_file_link :
  fst (extractFileId
         ("https://drive.google.com/file/d/" +:+ Demo.bodyFileId +:+
          "/view?usp=sharing")
         (Demo.world ∅))
  = Returned Demo.bodyFileId.
Proof. vm_compute. reflexivity. Qed.

(** X4. An identifier returned by [extractFileId] is accepted as a URL of
    its own and stands for itself: extracting twice is extracting once. *)
Theorem extractFileId_idempotent (url id : string) (w w' : World)
  (Hid : extractFileId url w = (Returned id, w')) :
  extractFileId id w = (Returned id, w).
Proof.
  unfold extractFileId in *.
  destruct (matchedFileId url) as [id'|] eqn:Hm; [|discriminate].
  injection Hid as -> _.
  apply matchedFileId_spec in Hm as (prefix & suffix & _ & _ & Hisid & _).
  assert (matchedFileId id = Some id) as ->; [|reflexivity].
  apply matchedFileId_spec. exists [], []. by rewrite app_nil_r.
Qed.

(** X5. A URL of fewer than 25 characters holds no file identifier:
    [extractFileId] throws "Invalid Google Drive URL" for it. *)
Theorem extractFileId_rejects_short (url : string) (w : World)
  (Hshort : length (chars url) < 25) :
  extractFileId url w = (Thrown (InvalidDriveUrl url), w).
Proof.
  unfold extractFileId.
  destruct (matchedFileId url) as [id|] eqn:Hm; [|reflexivity].
  apply matchedFileId_spec in Hm as (prefix & suffix & Hurl & _ & Hisid & _).
  apply andb_true_iff in Hisid as [Hlen _]. apply Nat.leb_le in Hlen.
  rewrite Hurl, !length_app in Hshort. lia.
Qed.

End FileIds.

Lemma extractFileId_idempotent_witness :
  Code.FileUtils.extractFileId Demo.bodyFileId (Demo.world ∅)
  = (Returned Demo.bodyFileId, Demo.world ∅).
Proof.
  apply (extractFileId_idempotent Demo.bodyUrl Demo.bodyFileId
           (Demo.world ∅) (Demo.world ∅)).
  vm_compute. reflexivity.
Defined.

Lemma extractFileId_rejects_short_witness :
  Code.FileUtils.extractFileId "drive.google.com/x" (Demo.world ∅)
  = (Thrown (InvalidDriveUrl "drive.google.com/x"), Demo.world ∅).
Proof.
  apply (extractFileId_rejects_short "drive.google.com/x" (Demo.world ∅)).
  vm_compute. lia.
Defined.

(** ** Sending a record: what is handed over and what is touched *)

Section Delivery.
Context `{Runtime}.
Import Code Frames.

Ltac split_all := repeat match goal with |- _ /\ _ => split end.

Lemma sheets_kept_refl (w : World) : sheets_kept w w.
Proof. by repeat split. Qed.

Lemma sheets_kept_trans (w1 w2 w3 : World) :
  sheets_kept w1 w2 -> sheets_kept w2 w3 -> sheets_kept w1 w3.
Proof.
  intros (? & ? & ? & ? & ?) (? & ? & ? & ? & ?). repeat split; congruence.
Qed.

Lemma quiet_sheets_kept (w w' : World) : quiet w w' -> sheets_kept w w'.
Proof. intros (? & ? & ? & ? & ? & ? & ?). by repeat split. Qed.

Lemma trashed_version_refl (f : DriveFile) : trashed_version f f.
Proof. by repeat split. Qed.

Lemma files_kept_refl (d : gmap string DriveFile) : files_kept d d.
Proof.
  intros id. destruct (d !! id) as [f|]; [|done].
  exists f. split; [done|apply trashed_version_refl].
Qed.

Lemma files_kept_trans (d1 d2 d3 : gmap string DriveFile) :
  files_kept d1 d2 -> files_kept d2 d3 -> files_kept d1 d3.
Proof.
  intros H12 H23 id. specialize (H12 id). specialize (H23 id).
  destruct (d1 !! id) as [f1|].
  - destruct H12 as (f2 & Hf2 & ? & ? & ?). rewrite Hf2 in H23.
    destruct H23 as (f3 & Hf3 & ? & ? & ?). exists f3. split; [done|].
    repeat split; [congruence|congruence|auto].
  - by rewrite H12 in H23.
Qed.

Lemma files_kept_eq (d d' : gmap string DriveFile) :
  d' = d -> files_kept d d'.
Proof. intros ->. apply files_kept_refl. Qed.

(** *** Moving a file to the trash *)

Lemma trashFile_found (fileId : string) (f : DriveFile) (w : World) :
  drive w !! fileId = Some f ->
  FileUtils.trashFile fileId w =
  (Returned true,
   set_drive (<[fileId := {| fileSize := fileSize f;
                             fileContent := fileContent f;
                             trashed := true |}]> (drive w)) w).
Proof.
  intros Hf. unfold FileUtils.trashFile, try_catch, bind,
    DriveApp_getFileById, DriveFile_setTrashed, ret.
  by rewrite Hf.
Qed.

Lemma trashFile_missing (fileId : string) (w : World) :
  drive w !! fileId = None ->
  FileUtils.trashFile fileId w =
  (Returned false,
   set_logs (logs w ++ [(ERROR, "Error trashing file: " +:+ fileId)]) w).
Proof.
  intros Hf. unfold FileUtils.trashFile, try_catch, bind,
    DriveApp_getFileById, CustomLogger.error, Logger_log, ret.
  by rewrite Hf.
Qed.

(** X6. [trashFile] never throws. It answers [true] exactly when Drive
    holds the file; the file is then in the trash with its size and content
    as before. It answers [false] and logs an error when the file is not
    there, and Drive is then as before. No other file, no sheet and no
    mail is touched. *)
Theorem trashFile_marks_one_file (fileId : string) (w : World) :
  exists (b : bool) (w' : World),
    FileUtils.trashFile fileId w = (Returned b, w') /\
    (b = true <-> is_Some (drive w !! fileId)) /\
    (forall f, drive w !! fileId = Some f ->
       drive w' !! fileId = Some {| fileSize := fileSize f;
                                    fileContent := fileContent f;
                                    trashed := true |}) /\
    (b = false ->
       drive w' = drive w /\
       logs w' = logs w ++ [(ERROR, "Error trashing file: " +:+ fileId)]) /\
    (forall other, other <> fileId -> drive w' !! other = drive w !! other) /\
    outbox w' = outbox w /\ sheets_kept w w'.
Proof.
  destruct (drive w !! fileId) as [f|] eqn:Hf.
  - eexists _, _. split; [by apply trashFile_found|].
    split; [by split; eauto|]. split.
    + intros f' [= <-]. simpl. by rewrite lookup_insert_eq.
    + split; [discriminate|]. split; [|by repeat split].
      intros other Hne. simpl. by rewrite lookup_insert_ne.
  - eexists _, _. split; [by apply trashFile_missing|].
    split; [split; [discriminate|by intros [? ?]]|].
    split; [discriminate|]. by repeat split.
Qed.

(** One round of the loop of [trashAttachments]. *)
Lemma trash_round (url : string) (w : World) :
  exists w',
    try_catch
      (fileId <- FileUtils.extractFileId url ;;
       CustomLogger.debug ("Trashing file with fileId: " +:+ fileId) ;;
       _ <- FileUtils.trashFile fileId ;;
       ret tt)%M
      (fun _ =>
         CustomLogger.error ("Error trashing file from URL " +:+ url)) w
    = (Returned tt, w') /\
    sheets_kept w w' /\ outbox w' = outbox w /\
    files_kept (drive w) (drive w') /\
    (forall id, FileUtils.matchedFileId url <> Some id ->
       drive w' !! id = drive w !! id) /\
    (forall id f, FileUtils.matchedFileId url = Some id ->
       drive w !! id = Some f ->
       exists f', drive w' !! id = Some f' /\ trashed f' = true).
Proof.
  unfold FileUtils.extractFileId, try_catch, bind.
  destruct (FileUtils.matchedFileId url) as [fileId|] eqn:Hid.
  - cbn -[FileUtils.trashFile].
    destruct (drive w !! fileId) as [f|] eqn:Hf.
    + rewrite (trashFile_found fileId f) by (simpl; exact Hf).
      eexists. split; [reflexivity|]. cbn.
      split; [by repeat split|]. split; [done|]. split; [|split].
      * intros id. destruct (decide (id = fileId)) as [->|Hne].
        -- rewrite Hf, lookup_insert_eq. eexists. split; [done|].
           by repeat split.
        -- rewrite lookup_insert_ne by done.
           destruct (drive w !! id) as [g|]; [|done].
           exists g. split; [done|apply trashed_version_refl].
      * intros id Hne. rewrite lookup_insert_ne; [done|congruence].
      * intros id f' [= <-] _. rewrite lookup_insert_eq. by eexists.
    + rewrite trashFile_missing by (simpl; exact Hf).
      eexists. split; [reflexivity|]. cbn.
      split; [by repeat split|]. split; [done|].
      split; [apply files_kept_refl|]. split; [done|].
      intros id f' [= <-] Hf'. congruence.
  - eexists. split; [reflexivity|]. cbn.
    split; [by repeat split|]. split; [done|].
    split; [apply files_kept_refl|]. split; [done|]. discriminate.
Qed.

Lemma trash_loop (urls : list string) :
  forall w,
    exists w',
      for_each urls
        (fun url =>
           try_catch
             (fileId <- FileUtils.extractFileId url ;;
              CustomLogger.debug ("Trashing file with fileId: " +:+ fileId) ;;
              _ <- FileUtils.trashFile fileId ;;
              ret tt)%M
             (fun _ =>
                CustomLogger.error ("Error trashing file from URL " +:+ url)))
        w
      = (Returned tt, w') /\
      sheets_kept w w' /\ outbox w' = outbox w /\
      files_kept (drive w) (drive w') /\
      (forall id,
         (forall url, url ∈ urls -> FileUtils.matchedFileId url <> Some id) ->
         drive w' !! id = drive w !! id) /\
      (forall url id f, url ∈ urls ->
         FileUtils.matchedFileId url = Some id ->
         drive w !! id = Some f ->
         exists f', drive w' !! id = Some f' /\ trashed f' = true).
Proof.
  induction urls as [|url urls IH]; intros w.
  - exists w. split; [reflexivity|].
    split; [apply sheets_kept_refl|]. split; [done|].
    split; [apply files_kept_refl|]. split; [done|].
    intros url id f Hin. by apply elem_of_nil in Hin.
  - destruct (trash_round url w)
      as (w1 & Hround & Hs1 & Ho1 & Hk1 & Hframe1 & Hdone1).
    destruct (IH w1) as (w' & Hrest & Hs & Ho & Hk & Hframe & Hdone).
    exists w'. split.
    { cbn [for_each]. unfold bind at 1. by rewrite Hround. }
    split; [by eapply sheets_kept_trans|]. split; [congruence|].
    split; [by eapply files_kept_trans|]. split.
    + intros id Hnot. rewrite Hframe, Hframe1; [done| |].
      * apply Hnot. by left.
      * intros u Hu. apply Hnot. by right.
    + intros u id f [->|Hin]%elem_of_cons Hid Hf.
      * destruct (Hdone1 id f Hid Hf) as (f1 & Hf1 & Ht1).
        specialize (Hk id). rewrite Hf1 in Hk.
        destruct Hk as (f' & Hf' & _ & _ & Ht). exists f'. auto.
      * specialize (Hk1 id). rewrite Hf in Hk1.
        destruct Hk1 as (f1 & Hf1 & _). by eapply Hdone.
Qed.

(** X7. [trashAttachments] never throws. When it returns, every file that
    the record names and Drive holds is in the trash; each file of Drive
    is still there with its size and content; a file that no URL of the
    record names is exactly as before; the sheets and the outbox are
    untouched. *)
Theorem trashAttachments_only_named_files (row : EmailRow) (w : World) :
  exists w',
    EmailBuilder.trashAttachments row w = (Returned tt, w') /\
    sheets_kept w w' /\ outbox w' = outbox w /\
    files_kept (drive w) (drive w') /\
    (forall id,
       (forall url, url ∈ EmailBuilder.fileUrls row ->
                    FileUtils.matchedFileId url <> Some id) ->
       drive w' !! id = drive w !! id) /\
    (truthy (field row "attachments_urls") = true ->
     forall url id f, url ∈ EmailBuilder.fileUrls row ->
       FileUtils.matchedFileId url = Some id ->
       drive w !! id = Some f ->
       exists f', drive w' !! id = Some f' /\ trashed f' = true).
Proof.
  unfold EmailBuilder.trashAttachments.
  destruct (truthy (field row "attachments_urls")); cbn [negb].
  - destruct (trash_loop (EmailBuilder.fileUrls row) w)
      as (w' & Hrun & Hs & Ho & Hk & Hframe & Hdone).
    exists w'. split; [exact Hrun|]. split; [exact Hs|].
    split; [exact Ho|]. split; [exact Hk|]. split; [exact Hframe|].
    intros _. exact Hdone.
  - exists w. split; [reflexivity|].
    split; [apply sheets_kept_refl|]. split; [done|].
    split; [apply files_kept_refl|]. split; [done|discriminate].
Qed.

(** *** Subject and body *)

Lemma evaluateSubject_truthy (row : EmailRow) (w w' : World) (s : string) :
  EmailBuilder.evaluateSubject row w = (Returned s, w') -> truthy s = true.
Proof.
  unfold EmailBuilder.evaluateSubject, bind.
  destruct (createTemplate _ w) as [[t|e] w1]; [|discriminate].
  destruct (EmailBuilder.getTemplateValues row w1) as [[v|e] w2];
    [|discriminate].
  destruct (evaluate t v w2) as [[c|e] w3]; [|discriminate].
  unfold ret. intros [= <- _].
  by destruct (truthy (TextUtils.decodeHtmlEntities _)) eqn:Hd.
Qed.

Lemma getFinalSubject_returns (row : EmailRow) (w : World) :
  exists s w',
    EmailBuilder.getFinalSubject row w = (Returned s, w') /\
    truthy s = true /\ quiet w w' /\
    (truthy (field row "email_subject_template") = false ->
     s = CONFIG.DEFAULT_SUBJECT /\ w' = w).
Proof.
  destruct (EmailBuilder.getFinalSubject row w) as [r w'] eqn:Hrun.
  pose proof (Quiet_getFinalSubject _ _ _ _ Hrun) as Hquiet.
  unfold EmailBuilder.getFinalSubject in Hrun.
  destruct (truthy (field row "email_subject_template")).
  - unfold try_catch in Hrun.
    destruct (EmailBuilder.evaluateSubject row w) as [[s|e] w1] eqn:Hev.
    + injection Hrun as <- <-. exists s, w1.
      split; [done|]. split; [by eapply evaluateSubject_truthy|].
      split; [done|discriminate].
    + unfold bind, CustomLogger.error, Logger_log, ret in Hrun.
      injection Hrun as <- <-. eexists _, _.
      split; [done|]. split; [done|]. split; [done|discriminate].
  - injection Hrun as <- <-. exists CONFIG.DEFAULT_SUBJECT, w.
    by repeat split.
Qed.

(** X8. [getFinalSubject] never throws and never answers an empty subject:
    whatever the template, the values and the template service do, the
    result is a text that is not empty; with no subject template it is the
    default subject and nothing is logged. Drive, the sheets and the outbox
    are untouched. *)
Theorem getFinalSubject_never_empty (row : EmailRow) (w : World) :
  exists s w',
    EmailBuilder.getFinalSubject row w = (Returned s, w') /\
    truthy s = true /\ quiet w w' /\
    (truthy (field row "email_subject_template") = false ->
     s = CONFIG.DEFAULT_SUBJECT /\ w' = w).
Proof. apply getFinalSubject_returns. Qed.

Lemma buildEmailBody_returns (row : EmailRow) (w : World) :
  exists body w',
    EmailBuilder.buildEmailBody row w = (Returned body, w') /\ quiet w w'.
Proof.
  destruct (EmailBuilder.buildEmailBody row w) as [r w'] eqn:Hrun.
  pose proof (Quiet_buildEmailBody _ _ _ _ Hrun) as Hquiet.
  unfold EmailBuilder.buildEmailBody, try_catch in Hrun.
  match type of Hrun with
  | (let (_, _) := ?c in _) = _ => destruct c as [[b|e] w1]
  end.
  - injection Hrun as <- <-. by eexists _, _.
  - unfold bind, CustomLogger.error, Logger_log, ret in Hrun.
    injection Hrun as <- <-. by eexists _, _.
Qed.




(** *** One record *)

Lemma EmailUtils_sendEmail_frame (to subj body : string)
  (blobs : list string) (w : World) :
  let mail := {| recipients := to; subject := subj; htmlBody := body;
                 attachments := blobs; fromEmail := CONFIG.FROM_EMAIL |} in
  exists w', EmailUtils.sendEmail to subj body blobs w
             = (Returned (GmailApp_sendEmail mail), w') /\
             outbox w' = outbox w ++ [mail] /\
             sheets_kept w w' /\ drive w' = drive w.
Proof.
  intros mail. unfold EmailUtils.sendEmail, CustomLogger.debug,
    CustomLogger.error, Logger_log, bind, ret. simpl. fold mail.
  destruct (GmailApp_sendEmail mail); eexists; by repeat split.
Qed.

Lemma trashAttachments_effect (row : EmailRow) (w : World) :
  exists w',
    EmailBuilder.trashAttachments row w = (Returned tt, w') /\
    sheets_kept w w' /\ outbox w' = outbox w /\
    files_kept (drive w) (drive w').
Proof.
  unfold EmailBuilder.trashAttachments.
  destruct (negb (truthy (field row "attachments_urls"))).
  - exists w. split; [reflexivity|].
    split; [apply sheets_kept_refl|]. split; [done|apply files_kept_refl].
  - destruct (trash_loop (EmailBuilder.fileUrls row) w)
      as (w' & Hrun & Hs & Ho & Hk & _). by exists w'.
Qed.

Lemma builder_sendEmail_effect (row : EmailRow) (w : World) :
  exists r w',
    EmailBuilder.sendEmail row w = (r, w') /\
    sheets_kept w w' /\ files_kept (drive w) (drive w') /\
    ((outbox w' = outbox w /\ drive w' = drive w /\ r <> Returned true) \/
     exists mail,
       outbox w' = outbox w ++ [mail] /\
       r = Returned (GmailApp_sendEmail mail) /\
       (GmailApp_sendEmail mail = false -> drive w' = drive w) /\
       fromEmail mail = CONFIG.FROM_EMAIL /\
       EmailUtils.combineEmailAddresses
         [field row "distribution_emails"; field row "additional_emails"]
         = Some (recipients mail) /\
       truthy (recipients mail) = true /\
       truthy (subject mail) = true /\
       truthy (htmlBody mail) = true).
Proof.
  unfold EmailBuilder.sendEmail.
  destruct (EmailUtils.combineEmailAddresses _) as [to|] eqn:Hto.
  2:{ eexists _, _. split; [reflexivity|]. split; [by repeat split|].
      split; [apply files_kept_refl|]. left. by repeat split. }
  destruct (truthy to) eqn:Htruthy.
  2:{ eexists _, _. split; [reflexivity|]. split; [by repeat split|].
      split; [apply files_kept_refl|]. left. by repeat split. }
  destruct (buildEmailBody_returns row w) as (body & w1 & Hb & Hq1).
  rewrite (bind_Returned _ _ _ _ _ Hb).
  pose proof (quiet_sheets_kept _ _ Hq1) as Hs1.
  destruct Hq1 as (Hd1 & Ho1 & _).
  assert (Hskip : forall msg,
            exists r w',
              (CustomLogger.debug msg ;; ret false)%M w1 = (r, w') /\
              sheets_kept w w' /\ files_kept (drive w) (drive w') /\
              outbox w' = outbox w /\ drive w' = drive w /\
              r <> Returned true).
  { intros msg. eexists _, _. split; [reflexivity|]. cbn.
    split; [exact Hs1|]. split; [by apply files_kept_eq|]. by repeat split. }
  destruct body as [b|].
  2:{ destruct (Hskip "Email body could not be generated.")
        as (r & w' & Hrun & ? & ? & ? & ? & ?).
      exists r, w'. split; [exact Hrun|]. split; [done|]. split; [done|].
      by left. }
  destruct (truthy b) eqn:Hbody.
  2:{ destruct (Hskip "Email body could not be generated.")
        as (r & w' & Hrun & ? & ? & ? & ? & ?).
      exists r, w'. split; [exact Hrun|]. split; [done|]. split; [done|].
      by left. }
  clear Hskip.
  destruct (EmailBuilder.getAttachments row w1) as [[blobs|e] w2] eqn:Ha.
  2:{ rewrite (bind_Thrown _ _ _ _ _ Ha).
      pose proof (Quiet_getAttachments _ _ _ _ Ha) as Hq2.
      pose proof (quiet_sheets_kept _ _ Hq2) as Hs2.
      destruct Hq2 as (Hd2 & Ho2 & _).
      eexists _, _. split; [reflexivity|].
      split; [by eapply sheets_kept_trans|].
      split; [apply files_kept_eq; congruence|].
      left. split; [congruence|]. split; [congruence|discriminate]. }
  rewrite (bind_Returned _ _ _ _ _ Ha).
  pose proof (Quiet_getAttachments _ _ _ _ Ha) as Hq2.
  pose proof (quiet_sheets_kept _ _ Hq2) as Hs2.
  destruct Hq2 as (Hd2 & Ho2 & _).
  destruct (getFinalSubject_returns row w2) as (subj & w3 & Hsub & Hst & Hq3 & _).
  rewrite (bind_Returned _ _ _ _ _ Hsub).
  pose proof (quiet_sheets_kept _ _ Hq3) as Hs3.
  destruct Hq3 as (Hd3 & Ho3 & _).
  destruct (EmailUtils_sendEmail_frame to subj b blobs w3)
    as (w4 & Hsend & Ho4 & Hs4 & Hd4).
  rewrite (bind_Returned _ _ _ _ _ Hsend).
  set (mail := {| recipients := to; subject := subj; htmlBody := b;
                  attachments := blobs; fromEmail := CONFIG.FROM_EMAIL |}) in *.
  assert (Hsheets : sheets_kept w w4).
  { eapply sheets_kept_trans; [exact Hs1|].
    eapply sheets_kept_trans; [exact Hs2|].
    eapply sheets_kept_trans; [exact Hs3|exact Hs4]. }
  assert (Hdrive : drive w4 = drive w) by congruence.
  assert (Hout : outbox w4 = outbox w ++ [mail]) by congruence.
  destruct (GmailApp_sendEmail mail) eqn:Hacc.
  - destruct (trashAttachments_effect row w4) as (w5 & Ht & Hs5 & Ho5 & Hk5).
    rewrite (bind_Returned _ _ _ _ _ Ht). unfold ret.
    eexists _, _. split; [reflexivity|].
    split; [by eapply sheets_kept_trans|].
    split; [by rewrite <- Hdrive|].
    right. exists mail. rewrite Hacc.
    split; [congruence|]. split; [done|]. split; [discriminate|].
    by repeat split.
  - unfold bind, ret. eexists _, _. split; [reflexivity|].
    split; [exact Hsheets|]. split; [by apply files_kept_eq|].
    right. exists mail. rewrite Hacc. by repeat split.
Qed.

(** X10. [EmailBuilder.sendEmail] hands at most one message to the mail
    service, and a message it hands over is complete: recipients (the
    addresses combined from the two address fields), subject and body are
    not empty and the sender is the configured one. Its answer is [true]
    exactly when the service accepted the message. Files are moved to the
    trash only after that: when nothing is handed over or the message is
    refused, Drive is as before. In every case the sheets are untouched and
    no file is lost or altered otherwise than by going to the trash. *)
Theorem sendEmail_hands_over_complete_mail (row : EmailRow) (w : World) :
  exists r w',
    EmailBuilder.sendEmail row w = (r, w') /\
    sheets_kept w w' /\ files_kept (drive w) (drive w') /\
    ((outbox w' = outbox w /\ drive w' = drive w /\ r <> Returned true) \/
     exists mail,
       outbox w' = outbox w ++ [mail] /\
       r = Returned (GmailApp_sendEmail mail) /\
       (GmailApp_sendEmail mail = false -> drive w' = drive w) /\
       fromEmail mail = CONFIG.FROM_EMAIL /\
       EmailUtils.combineEmailAddresses
         [field row "distribution_emails"; field row "additional_emails"]
         = Some (recipients mail) /\
       truthy (recipients mail) = true /\
       truthy (subject mail) = true /\
       truthy (htmlBody mail) = true).
Proof. apply builder_sendEmail_effect. Qed.

(** *** The loop over the pending sheet *)

Lemma processRow_effect (row : EmailRow) (w : World) :
  exists r w',
    EmailProcessor.processRow row w = (r, w') /\
    sheets_kept w w' /\ files_kept (drive w) (drive w') /\
    ((outbox w' = outbox w /\ r <> Returned true) \/
     exists mail, outbox w' = outbox w ++ [mail] /\
                  r = Returned (GmailApp_sendEmail mail)).
Proof.
  unfold EmailProcessor.processRow.
  destruct (EmailProcessor.validateRow row w) as [[valid|e] w1] eqn:Hv.
  - rewrite (bind_Returned _ _ _ _ _ Hv).
    pose proof (Quiet_validateRow _ _ _ _ Hv) as Hq.
    pose proof (quiet_sheets_kept _ _ Hq) as Hs1.
    destruct Hq as (Hd1 & Ho1 & _).
    destruct valid.
    + destruct (builder_sendEmail_effect row w1)
        as (r & w' & Hrun & Hs & Hk & Hcases).
      exists r, w'. split; [exact Hrun|].
      split; [by eapply sheets_kept_trans|].
      split; [by rewrite <- Hd1|].
      destruct Hcases as [(Ho & _ & Hr)|(mail & Ho & Hr & _)].
      * left. split; [congruence|done].
      * right. exists mail. split; [congruence|done].
    + eexists _, _. split; [reflexivity|]. split; [exact Hs1|].
      split; [by apply files_kept_eq|]. left. split; [done|discriminate].
  - rewrite (bind_Thrown _ _ _ _ _ Hv).
    pose proof (Quiet_validateRow _ _ _ _ Hv) as Hq.
    pose proof (quiet_sheets_kept _ _ Hq) as Hs1.
    destruct Hq as (Hd1 & Ho1 & _).
    eexists _, _. split; [reflexivity|]. split; [exact Hs1|].
    split; [by apply files_kept_eq|]. left. split; [done|discriminate].
Qed.

Lemma applyTemplateIfNeeded_pure (tm : TemplateManager.t) (row : EmailRow)
  (w : World) :
  exists r, EmailProcessor.applyTemplateIfNeeded tm row w = (r, w).
Proof.
  unfold EmailProcessor.applyTemplateIfNeeded.
  destruct (negb (truthy (field row "template_label"))); [by eexists|].
  destruct (TemplateManager.getTemplateByLabel tm _) as [[t|]|e]; by eexists.
Qed.

(** Moving a row: both calls succeed, or the first one throws and nothing
    has changed, or the second one throws and the row is in History and
    still pending. *)
Lemma moveRowToHistory_effect (i : nat) (row : list string) (w : World) :
  exists r w',
    EmailProcessor.moveRowToHistory (i + 1) row w = (r, w') /\
    outbox w' = outbox w /\ drive w' = drive w /\ clock w' = clock w /\
    templates w' = templates w /\ alerts w' = alerts w /\
    logs w' = logs w /\
    ((r = Thrown SheetServiceError /\ history w' = history w /\
      toSend w' = toSend w) \/
     (r = Thrown SheetServiceError /\
      history w' = history w ++ [row ++ [clock w]] /\
      toSend w' = toSend w) \/
     (r = Returned tt /\
      history w' = history w ++ [row ++ [clock w]] /\
      toSend w' = delete i (toSend w))) /\
    (no_faults -> i < length (toSend w) -> r = Returned tt).
Proof.
  unfold EmailProcessor.moveRowToHistory, historySheet_appendRow,
    sourceSheet_deleteRow, bind.
  destruct (Sheet_appendRow w (row ++ [clock w])) eqn:Happend.
  - cbn [toSend set_history].
    destruct (Nat.leb 1 (i + 1) && Nat.leb (i + 1) (length (toSend w)) &&
              Sheet_deleteRow (set_history (history w ++ [row ++ [clock w]]) w)
                (i + 1)) eqn:Hdelete.
    + eexists _, _. split; [reflexivity|]. cbn.
      repeat (split; [done|]). split.
      * right; right. by rewrite Nat.add_sub.
      * done.
    + eexists _, _. split; [reflexivity|]. cbn.
      repeat (split; [done|]). split.
      * right; left. done.
      * intros [_ Hd] Hi. rewrite Hd, andb_true_r in Hdelete.
        apply andb_false_iff in Hdelete as [Hlo|Hhi].
        -- apply Nat.leb_gt in Hlo. lia.
        -- apply Nat.leb_gt in Hhi. lia.
  - eexists _, _. split; [reflexivity|]. repeat (split; [done|]). split.
    + left. done.
    + intros [Ha _] _. by rewrite Ha in Happend.
Qed.

(** One round of the loop: the row stays where it is, or it is appended to
    History after its message was accepted and then removed. *)
Lemma sendRow_effect (tm : TemplateManager.t) (headers : Js.obj nat)
  (i : nat) (row : list string) (w : World) :
  exists w' mails archived deleted,
    EmailProcessor.sendRow tm headers i row w = (Returned tt, w') /\
    outbox w' = outbox w ++ mails /\
    history w' = history w ++ map (fun r => r ++ [clock w]) archived /\
    length archived <= length (List.filter GmailApp_sendEmail mails) /\
    length mails <= 1 /\
    clock w' = clock w /\ templates w' = templates w /\
    files_kept (drive w) (drive w') /\
    ((archived = [] /\ deleted = [] /\ toSend w' = toSend w) \/
     (archived = [row] /\ deleted = [] /\ toSend w' = toSend w) \/
     (archived = [row] /\ deleted = [row] /\
      toSend w' = delete i (toSend w))) /\
    (no_faults -> i < length (toSend w) ->
     deleted = archived /\
     length archived = length (List.filter GmailApp_sendEmail mails)).
Proof.
  unfold EmailProcessor.sendRow.
  assert (Hnothing : forall w0 : World,
            outbox w0 = outbox w -> history w0 = history w ->
            clock w0 = clock w -> templates w0 = templates w ->
            drive w0 = drive w -> toSend w0 = toSend w ->
            exists w' mails archived deleted,
              (Returned tt, w0) = (Returned tt, w') /\
              outbox w' = outbox w ++ mails /\
              history w' = history w ++ map (fun r => r ++ [clock w]) archived /\
              length archived <= length (List.filter GmailApp_sendEmail mails) /\
              length mails <= 1 /\
              clock w' = clock w /\ templates w' = templates w /\
              files_kept (drive w) (drive w') /\
              ((archived = [] /\ deleted = [] /\ toSend w' = toSend w) \/
               (archived = [row] /\ deleted = [] /\ toSend w' = toSend w) \/
               (archived = [row] /\ deleted = [row] /\
                toSend w' = delete i (toSend w))) /\
              (no_faults -> i < length (toSend w) ->
               deleted = archived /\
               length archived =
               length (List.filter GmailApp_sendEmail mails))).
  { intros w0 Ho Hh Hc Ht Hd Hts. exists w0, [], [], [].
    split; [done|]. cbn. rewrite !app_nil_r.
    split_all; try lia; try done; [by apply files_kept_eq|by left]. }
  destruct (forallb (fun cell => negb (truthy cell)) row).
  { apply Hnothing; done. }
  destruct (applyTemplateIfNeeded_pure tm
              (SpreadsheetUtils.mapRowToObject row headers []) w)
    as [resolved Hresolved].
  unfold try_catch at 1. unfold bind at 1. unfold try_catch at 1.
  unfold bind at 1. rewrite Hresolved.
  destruct resolved as [emailRow|e].
  2:{ apply Hnothing; done. }
  cbn [ret].
  destruct (processRow_effect emailRow w)
    as (r & w1 & Hrun & Hs & Hk & Hcases).
  unfold bind at 1. rewrite Hrun.
  destruct Hs as (Hts & Hh & Htp & Hal & Hcl).
  destruct r as [[|]|e].
  - destruct Hcases as [(_ & Hr)|(mail & Ho & Hr)]; [done|].
    injection Hr as Hacc.
    unfold bind at 1. cbn [CustomLogger.debug CONFIG.DEBUG_MODE Logger_log].
    match goal with
    | |- context [EmailProcessor.moveRowToHistory (i + 1) row ?w2] =>
        destruct (moveRowToHistory_effect i row w2)
          as (r & w3 & Hmove & Ho3 & Hd3 & Hc3 & Ht3 & _ & _ & Hmoved & Hok)
    end.
    rewrite Hmove. cbn in Ho3, Hd3, Hc3, Ht3, Hmoved, Hok.
    rewrite Hts in Hok.
    assert (Hfiles : files_kept (drive w) (drive w3)).
    { rewrite Hd3. exact Hk. }
    destruct Hmoved as [(-> & Hh3 & Hts3)|[(-> & Hh3 & Hts3)|(-> & Hh3 & Hts3)]].
    + exists (set_logs (logs w3 ++ [(ERROR, "Error processing row " +:+
                                            pretty (i + 1))]) w3),
        [mail], [], [].
      split; [reflexivity|]. cbn. rewrite <- Hacc. cbn. rewrite app_nil_r.
      split_all; try lia; try congruence; try done.
      * left. split_all; congruence.
      * intros Hnf Hi. by specialize (Hok Hnf Hi).
    + exists (set_logs (logs w3 ++ [(ERROR, "Error processing row " +:+
                                            pretty (i + 1))]) w3),
        [mail], [row], [].
      split; [reflexivity|]. cbn. rewrite <- Hacc. cbn.
      split_all; try lia; try congruence; try done.
      * right; left. split_all; congruence.
      * intros Hnf Hi. by specialize (Hok Hnf Hi).
    + exists w3, [mail], [row], [row].
      split; [reflexivity|]. cbn. rewrite <- Hacc. cbn.
      split_all; try lia; try congruence; try done.
      right; right. split_all; congruence.
  - destruct Hcases as [(Ho & _)|(mail & Ho & Hr)].
    + eexists _, [], [], []. split; [reflexivity|]. cbn.
      rewrite !app_nil_r.
      split_all; try lia; try congruence; try done. by left.
    + injection Hr as Hacc.
      eexists _, [mail], [], []. split; [reflexivity|]. cbn.
      rewrite <- Hacc. cbn. rewrite app_nil_r.
      split_all; try lia; try congruence; try done. by left.
  - destruct Hcases as [(Ho & _)|(mail & _ & Hr)]; [|discriminate].
    eexists _, [], [], []. split; [reflexivity|]. cbn.
    rewrite !app_nil_r.
    split_all; try lia; try congruence; try done. by left.
Qed.

Lemma rev_seq_S (k : nat) : rev (seq 1 (S k)) = S k :: rev (seq 1 k).
Proof. by rewrite seq_S, rev_app_distr. Qed.

(** The rows above index [k] are done, the rows up to [k] are as read at
    the start: running the rest of the loop keeps the header row, keeps or
    deletes each of the rows 1 to [k], and leaves the rows below alone.
    [archived] are the rows appended to History, [deleted] those deleted
    from the pending sheet, both in the order of the run. *)
Lemma sendEmails_loop (tm : TemplateManager.t) (headers : Js.obj nat)
  (data : list (list string)) :
  forall k w kept,
    toSend w = take (S k) data ++ kept -> k < length data ->
    exists w' kept' archived deleted mails,
      for_each (rev (seq 1 k))
        (fun i => EmailProcessor.sendRow tm headers i (default [] (data !! i)))
        w = (Returned tt, w') /\
      toSend w' = take 1 data ++ kept' ++ kept /\
      history w' = history w ++ map (fun r => r ++ [clock w]) archived /\
      take k (drop 1 data) ≡ₚ kept' ++ deleted /\
      sublist kept' (take k (drop 1 data)) /\
      sublist deleted archived /\
      outbox w' = outbox w ++ mails /\
      length archived <= length (List.filter GmailApp_sendEmail mails) /\
      length mails <= k /\
      clock w' = clock w /\ templates w' = templates w /\
      files_kept (drive w) (drive w') /\
      (no_faults ->
       deleted = archived /\
       length archived = length (List.filter GmailApp_sendEmail mails)).
Proof.
  induction k as [|k IH]; intros w kept Hsheet Hlt.
  { exists w, [], [], [], []. split; [reflexivity|]. cbn. rewrite !app_nil_r.
    split_all; try done; try constructor. apply files_kept_refl. }
  destruct (lookup_lt_is_Some_2 data (S k) Hlt) as [row Hrow].
  assert (Htake : take (S (S k)) data = take (S k) data ++ [row])
    by (by apply take_S_r).
  assert (Hrows : take (S k) (drop 1 data) = take k (drop 1 data) ++ [row]).
  { apply take_S_r. by rewrite lookup_drop. }
  assert (Hindex : S k < length (toSend w)).
  { rewrite Hsheet, length_app, length_take. lia. }
  rewrite rev_seq_S. cbn [for_each]. rewrite Hrow. cbn [default].
  destruct (sendRow_effect tm headers (S k) row w)
    as (w1 & mails1 & archived1 & deleted1 & Hrun & Ho1 & Hh1 & Hcount1 &
        Hlen1 & Hcl1 & Htp1 & Hk1 & Hcases & Hsound1).
  rewrite (bind_Returned _ _ _ _ _ Hrun).
  assert (Hkeep : toSend w1 = toSend w ->
                  toSend w1 = take (S k) data ++ row :: kept).
  { intros ->. rewrite Hsheet, Htake. by rewrite <- List.app_assoc. }
  destruct Hcases as [(-> & -> & Hts)|[(-> & -> & Hts)|(-> & -> & Hts)]].
  - destruct (IH w1 (row :: kept) (Hkeep Hts))
      as (w' & kept' & archived & deleted & mails & Hloop & Hts' & Hh &
          Hperm & Hsub & Hsubd & Ho & Hcount & Hlen & Hcl & Htp & Hk &
          Hsound); [lia|].
    exists w', (kept' ++ [row]), archived, deleted, (mails1 ++ mails).
    split; [exact Hloop|].
    split; [by rewrite Hts', <- !List.app_assoc|].
    split; [by rewrite Hh, Hh1, Hcl1, app_nil_r|].
    split.
    { rewrite Hrows. etrans; [apply Permutation_app_tail, Hperm|].
      rewrite <- !List.app_assoc. apply Permutation_app_head.
      apply Permutation_app_comm. }
    split; [rewrite Hrows; by apply sublist_app|].
    split; [exact Hsubd|].
    split; [by rewrite Ho, Ho1, <- List.app_assoc|].
    split; [rewrite List.filter_app, length_app; lia|].
    split; [rewrite length_app; lia|].
    split; [congruence|]. split; [congruence|].
    split; [by eapply files_kept_trans|].
    intros Hnf. destruct (Hsound Hnf) as [-> Hexact].
    destruct (Hsound1 Hnf Hindex) as [_ Hexact1]. cbn in Hexact1.
    split; [done|]. rewrite List.filter_app, length_app. lia.
  - destruct (IH w1 (row :: kept) (Hkeep Hts))
      as (w' & kept' & archived & deleted & mails & Hloop & Hts' & Hh &
          Hperm & Hsub & Hsubd & Ho & Hcount & Hlen & Hcl & Htp & Hk &
          Hsound); [lia|].
    exists w', (kept' ++ [row]), (row :: archived), deleted, (mails1 ++ mails).
    split; [exact Hloop|].
    split; [by rewrite Hts', <- !List.app_assoc|].
    split.
    { rewrite Hh, Hh1, Hcl1. cbn [map]. by rewrite <- List.app_assoc. }
    split.
    { rewrite Hrows. etrans; [apply Permutation_app_tail, Hperm|].
      rewrite <- !List.app_assoc. apply Permutation_app_head.
      apply Permutation_app_comm. }
    split; [rewrite Hrows; by apply sublist_app|].
    split; [by apply sublist_cons|].
    split; [by rewrite Ho, Ho1, <- List.app_assoc|].
    split.
    { rewrite List.filter_app, length_app. cbn [length] in *. lia. }
    split; [rewrite length_app; lia|].
    split; [congruence|]. split; [congruence|].
    split; [by eapply files_kept_trans|].
    intros Hnf. by destruct (Hsound1 Hnf Hindex) as [? _].
  - destruct (IH w1 kept)
      as (w' & kept' & archived & deleted & mails & Hloop & Hts' & Hh &
          Hperm & Hsub & Hsubd & Ho & Hcount & Hlen & Hcl & Htp & Hk &
          Hsound); [|lia|].
    { rewrite Hts, Hsheet, Htake, <- List.app_assoc.
      cbn [app].
      assert (S k = length (take (S k) data)) as Hk'.
      { rewrite length_take. lia. }
      rewrite Hk' at 1. apply delete_middle. }
    exists w', kept', (row :: archived), (row :: deleted), (mails1 ++ mails).
    split; [exact Hloop|]. split; [exact Hts'|].
    split.
    { rewrite Hh, Hh1, Hcl1. cbn [map]. by rewrite <- List.app_assoc. }
    split.
    { rewrite Hrows. etrans; [apply Permutation_app_tail, Hperm|].
      rewrite <- List.app_assoc. apply Permutation_app_head.
      symmetry. apply Permutation_cons_append. }
    split; [rewrite Hrows; by apply sublist_inserts_r|].
    split; [by apply sublist_skip|].
    split; [by rewrite Ho, Ho1, <- List.app_assoc|].
    split.
    { rewrite List.filter_app, length_app. cbn [length] in *. lia. }
    split; [rewrite length_app; lia|].
    split; [congruence|]. split; [congruence|].
    split; [by eapply files_kept_trans|].
    intros Hnf. destruct (Hsound Hnf) as [-> Hexact].
    destruct (Hsound1 Hnf Hindex) as [_ Hexact1].
    split; [done|].
    rewrite List.filter_app, length_app. cbn [length] in *. lia.
Qed.

(** X11. A run of [sendEmails] never throws and loses no record, whether or
    not the sheet service fails on the way. The rows appended to History,
    each with the time stamp added, are [archived]; the rows deleted from
    the pending sheet are [deleted]. The rows deleted together with the rows
    left are the rows that were pending, the rows left are in their order
    with the header row in its place, and a row is deleted only after it was
    appended to History. Over the run, no more rows are appended to History
    than messages were accepted by the mail service, and no more messages
    are handed over than there are rows below the header. The templates
    sheet is untouched and no file is lost or altered otherwise than by
    going to the trash. When the sheet service never fails, the rows
    appended are exactly the rows deleted, and there are as many of them as
    messages accepted. *)
Theorem sendEmails_keeps_every_record (w : World) :
  exists w' archived deleted mails,
    EmailProcessor.sendEmails w = (Returned tt, w') /\
    history w' = history w ++ map (fun row => row ++ [clock w]) archived /\
    toSend w ≡ₚ toSend w' ++ deleted /\
    sublist (toSend w') (toSend w) /\
    head (toSend w') = head (toSend w) /\
    sublist deleted archived /\
    outbox w' = outbox w ++ mails /\
    length archived <= length (List.filter GmailApp_sendEmail mails) /\
    length mails <= length (toSend w) - 1 /\
    templates w' = templates w /\
    files_kept (drive w) (drive w') /\
    (no_faults ->
     deleted = archived /\
     length archived = length (List.filter GmailApp_sendEmail mails)).
Proof.
  unfold EmailProcessor.sendEmails. cbv zeta.
  destruct (toSend w) as [|header rows] eqn:Hdata.
  { exists w, [], [], []. split; [reflexivity|]. cbn.
    rewrite !app_nil_r, Hdata.
    split_all; try done; try constructor. apply files_kept_refl. }
  replace (length (header :: rows) - 1) with (length rows) by (simpl; lia).
  destruct (sendEmails_loop
              (TemplateManager.loadTemplateData (templates w))
              (SpreadsheetUtils.mapHeadersToIndices
                 (default [] ((header :: rows) !! 0)))
              (header :: rows) (length rows) w [])
    as (w' & kept & archived & deleted & mails & Hloop & Hts & Hh & Hperm &
        Hsub & Hsubd & Ho & Hcount & Hlen & _ & Htp & Hk & Hsound).
  { rewrite app_nil_r, Hdata. symmetry. apply take_ge. simpl. lia. }
  { simpl. lia. }
  exists w', archived, deleted, mails. split; [exact Hloop|].
  cbn [drop] in Hperm, Hsub.
  rewrite firstn_all in Hperm, Hsub.
  rewrite app_nil_r in Hts. cbn [take app] in Hts.
  split; [exact Hh|].
  split.
  { rewrite Hts. cbn [app]. by apply Permutation_cons. }
  split; [rewrite Hts; by apply sublist_skip|].
  split; [by rewrite Hts|].
  split; [exact Hsubd|].
  split; [exact Ho|]. split; [exact Hcount|].
  split; [simpl; lia|]. split; [exact Htp|]. split; [exact Hk|exact Hsound].
Qed.

(** X26. The two writes of [moveRowToHistory] are not one: when the row
    has been appended to History and the sheet service then fails to
    delete it from the pending sheet, the call throws with the row in
    History and still pending; the outbox is as before. *)
Theorem moveRowToHistory_failure_between_the_writes (rowIndex : nat)
  (rowData : list string) (w : World)
  (Happend : Sheet_appendRow w (rowData ++ [clock w]) = true)
  (Hdelete : Sheet_deleteRow
               (set_history (history w ++ [rowData ++ [clock w]]) w)
               rowIndex = false) :
  exists w',
    EmailProcessor.moveRowToHistory rowIndex rowData w
      = (Thrown SheetServiceError, w') /\
    history w' = history w ++ [rowData ++ [clock w]] /\
    toSend w' = toSend w /\
    outbox w' = outbox w.
Proof.
  unfold EmailProcessor.moveRowToHistory, bind, historySheet_appendRow,
    sourceSheet_deleteRow.
  rewrite Happend. cbn. rewrite Hdelete, andb_false_r.
  eexists. split; [reflexivity|]. by repeat split.
Qed.

End Delivery.

Lemma moveRowToHistory_failure_between_the_writes_witness :
  exists w' : World,
    Code.EmailProcessor.moveRowToHistory (H := Demo.deleteFails) 2
      Demo.rowLeftToTemplate Demo.pendingWorld
      = (Thrown SheetServiceError, w') /\
    history w' = [Demo.rowLeftToTemplate ++ ["2025-01-01T00:00:00Z"%string]] /\
    toSend w' = [Demo.headerRow; Demo.rowLeftToTemplate].
Proof.
  destruct (moveRowToHistory_failure_between_the_writes (H := Demo.deleteFails)
              2 Demo.rowLeftToTemplate Demo.pendingWorld eq_refl eq_refl)
    as (w' & Hrun & Hhistory & Hpending & _).
  exists w'. split; [exact Hrun|]. split; [exact Hhistory|exact Hpending].
Defined.

(** Two runs of [sendEmails] with a sheet service that refuses to delete:
    each run sends the message and appends the row to History, and the row
    is still pending. *)
Example sendEmails_twice_when_delete_fails :
  let run := Code.EmailProcessor.sendEmails (H := Demo.deleteFails) in
  let w1 := snd (run Demo.pendingWorld) in
  let w2 := snd (run w1) in
  fst (run Demo.pendingWorld) = Returned tt /\
  fst (run w1) = Returned tt /\
  map recipients (outbox w2) = ["u@x.com"; "u@x.com"]%string /\
  length (history w2) = 2 /\
  toSend w2 = toSend Demo.pendingWorld.
Proof. vm_compute. by repeat split. Qed.

(** The runtime of the examples has a sheet service that never fails. *)
Lemma Demo_no_faults : Frames.no_faults (H := Demo.runtime).
Proof. by split. Qed.

(** A run of [sendEmails] with that runtime: the row that its template
    completes is sent, appended to History and deleted. *)
Example sendEmails_moves_the_row :
  let w' := snd (Code.EmailProcessor.sendEmails (H := Demo.runtime)
                   Demo.pendingWorld) in
  map recipients (outbox w') = ["u@x.com"%string] /\
  history w' = [Demo.rowLeftToTemplate ++ ["2025-01-01T00:00:00Z"%string]] /\
  toSend w' = [Demo.headerRow].
Proof. vm_compute. by repeat split. Qed.

(** ** Templates *)

Section Templates.
Context `{Runtime}.
Import Code Frames.

(** [row[i] || ''] on a row of texts is the text, or the empty text. *)
Lemma cell_text (row : list string) (i : nat) :
  SpreadsheetUtils.cell row i = default EmptyString (row !! i).
Proof.
  unfold SpreadsheetUtils.cell. destruct (row !! i) as [v|]; [|done].
  cbn. by destruct v.
Qed.

(** The index of labels after the rows 1 to [len]. *)
Lemma indexLabels_fold (data : list (list string)) (labelColumn len : nat)
  (label : string) (i : nat) :
  Js.own
    (fold_left
       (fun index i =>
          match default [] (data !! i) !! labelColumn with
          | Some label => if truthy label then Js.store label i index else index
          | None => index
          end)
       (seq 1 len) []) label = Some i <->
  1 <= i <= len /\ truthy label = true /\ label <> "__proto__"%string /\
  default [] (data !! i) !! labelColumn = Some label /\
  forall j, i < j <= len ->
    default [] (data !! j) !! labelColumn <> Some label.
Proof.
  revert i. induction len as [|len IH]; intros i.
  - simpl. split; [done|]. intros [? _]. lia.
  - rewrite seq_S, fold_left_app. cbn [fold_left].
    change (1 + len) with (S len).
    destruct (default [] (data !! S len) !! labelColumn) as [here|] eqn:Hcell.
    + destruct (truthy here) eqn:Hhere.
      * rewrite own_store.
        destruct (decide (here = label /\ here <> "__proto__"%string))
          as [[Heq Hproto]|Hne].
        -- subst here. split.
           ++ intros [= <-]. split; [lia|]. split; [done|]. split; [done|].
              split; [done|]. intros j Hj. lia.
           ++ intros (Hi & _ & _ & _ & Hlast). f_equal.
              destruct (decide (i = S len)) as [->|Hi']; [done|].
              exfalso. apply (Hlast (S len)); [lia|done].
        -- rewrite IH. split.
           ++ intros (Hi & Ht & Hp & Hc & Hlast). split; [lia|].
              split; [done|]. split; [done|]. split; [done|]. intros j Hj.
              destruct (decide (j = S len)) as [->|Hj'].
              ** rewrite Hcell. intros [= ->]. by apply Hne.
              ** apply Hlast. lia.
           ++ intros (Hi & Ht & Hp & Hc & Hlast).
              assert (i <> S len).
              { intros ->. rewrite Hcell in Hc. injection Hc as ->.
                by apply Hne. }
              split; [lia|]. split; [done|]. split; [done|]. split; [done|].
              intros j Hj. apply Hlast. lia.
      * rewrite IH. split.
        -- intros (Hi & Ht & Hp & Hc & Hlast). split; [lia|]. split; [done|].
           split; [done|]. split; [done|]. intros j Hj.
           destruct (decide (j = S len)) as [->|Hj'].
           ++ rewrite Hcell. intros [= ->]. congruence.
           ++ apply Hlast. lia.
        -- intros (Hi & Ht & Hp & Hc & Hlast).
           assert (i <> S len).
           { intros ->. rewrite Hcell in Hc. injection Hc as ->. congruence. }
           split; [lia|]. split; [done|]. split; [done|]. split; [done|].
           intros j Hj. apply Hlast. lia.
    + rewrite IH. split.
      * intros (Hi & Ht & Hp & Hc & Hlast). split; [lia|]. split; [done|].
        split; [done|]. split; [done|]. intros j Hj.
        destruct (decide (j = S len)) as [->|Hj'].
        -- by rewrite Hcell.
        -- apply Hlast. lia.
      * intros (Hi & Ht & Hp & Hc & Hlast).
        assert (i <> S len).
        { intros ->. by rewrite Hcell in Hc. }
        split; [lia|]. split; [done|]. split; [done|]. split; [done|].
        intros j Hj. apply Hlast. lia.
Qed.

(** The index of labels has no own property [__proto__]. *)
Lemma indexLabels_proto (data : list (list string)) (labelColumn : nat) :
  Js.own (TemplateManager.indexLabels data labelColumn) "__proto__" = None.
Proof.
  unfold TemplateManager.indexLabels.
  destruct (Js.own _ _) as [i|] eqn:Hown; [|done].
  apply indexLabels_fold in Hown. by destruct Hown as (_ & _ & ? & _).
Qed.

(** X13. A template is the last row of the templates sheet that carries
    its label. On a templates sheet of texts whose header row has a column
    [template_label], when row [i] (below the header) has the label in that
    column, no row below it has the same, and the label is not [__proto__],
    [getTemplateByLabel] answers an object whose [template_label] is the
    label and whose field under every other header is the cell of row [i]
    in the last column of that header; a required field that is no header
    is empty, and the object has no field [__proto__]. *)
Theorem getTemplateByLabel_last_row (data : list (list string))
  (header row : list string) (labelColumn i : nat) (label : string)
  (Hheader : data !! 0 = Some header)
  (Hcolumn : Js.own (SpreadsheetUtils.mapHeadersToIndices header)
               "template_label" = Some labelColumn)
  (Hrow : data !! i = Some row) (Hbelow : 1 <= i)
  (Hlabel : row !! labelColumn = Some label)
  (Htruthy : truthy label = true)
  (Hname : label <> "__proto__"%string)
  (Hlast : forall j row', i < j -> data !! j = Some row' ->
             row' !! labelColumn <> Some label) :
  exists template,
    TemplateManager.getTemplateByLabel
      (TemplateManager.loadTemplateData data) label
    = Returned (Some template) /\
    forall key,
      template !! key =
      if decide (key = "template_label"%string) then Some label
      else if decide (key = "__proto__"%string) then None
      else match Js.own (SpreadsheetUtils.mapHeadersToIndices header) key with
           | Some column => Some (default EmptyString (row !! column))
           | None =>
               if decide (key ∈ TemplateManager.requiredFields)
               then Some EmptyString else None
           end.
Proof.
  assert (Hlen : i < length data) by (by eapply lookup_lt_Some).
  unfold TemplateManager.loadTemplateData.
  assert (Nat.leb (length data) 1 = false) as ->
    by (apply Nat.leb_gt; lia).
  cbv zeta. rewrite Hheader. cbn [default from_option id]. rewrite Hcolumn.
  unfold TemplateManager.getTemplateByLabel.
  cbn [TemplateManager.templateLabelIndex TemplateManager.templateData
       TemplateManager.headerMap].
  assert (Hindex : Js.own (TemplateManager.indexLabels data labelColumn) label
                   = Some i).
  { unfold TemplateManager.indexLabels. apply indexLabels_fold.
    rewrite Hrow. cbn [default from_option id]. split; [lia|]. split; [done|].
    split; [done|]. split; [done|]. intros j Hj.
    destruct (data !! j) as [row'|] eqn:Hj'.
    - change (default [] (Some row')) with row'. apply (Hlast j); [lia|done].
    - apply lookup_ge_None in Hj'. lia. }
  unfold Js.get. rewrite Hindex, Htruthy. cbn [negb].
  destruct i as [|i]; [lia|].
  cbn [TemplateManager.templateRow TemplateManager.templateData].
  rewrite Hrow. eexists. split; [reflexivity|].
  intros key. destruct (decide (key = "template_label"%string)) as [->|Hne].
  - by rewrite lookup_insert_eq.
  - rewrite lookup_insert_ne by done. rewrite mapRowToObject_lookup.
    destruct (decide (key = "__proto__"%string)); [done|].
    destruct (Js.own _ key); [|done]. by rewrite cell_text.
Qed.

(** X14. A row whose template is not found is reported and left pending:
    the round of the loop returns normally, logs the error, shows one
    alert, which gives the row number, the label and the labels that are
    available, and touches neither the outbox, nor the sheets, nor
    Drive. *)
Theorem sendRow_template_not_found (tm : TemplateManager.t)
  (headers : Js.obj nat) (i : nat) (cells : list string) (w : World)
  (Hlabel : truthy (field (SpreadsheetUtils.mapRowToObject cells headers [])
                      "template_label") = true)
  (Hnone : TemplateManager.getTemplateByLabel tm
             (field (SpreadsheetUtils.mapRowToObject cells headers [])
                "template_label") = Returned None) :
  exists w',
    EmailProcessor.sendRow tm headers i cells w = (Returned tt, w') /\
    alerts w' =
      alerts w ++
      ["Error with template in row " +:+ pretty (i + 1) +:+ ": " +:+
       "Template " +:+
       String "034"
         (field (SpreadsheetUtils.mapRowToObject cells headers [])
            "template_label" +:+
          String "034"
            (" not found in the distribution_templates sheet. " +:+
             "Available templates: " +:+
             (if truthy (join ", " (TemplateManager.getAvailableTemplates tm))
              then join ", " (TemplateManager.getAvailableTemplates tm)
              else "None")))] /\
    logs w' = logs w ++ [(ERROR, "Template error in row " +:+ pretty (i + 1))] /\
    outbox w' = outbox w /\ toSend w' = toSend w /\ history w' = history w /\
    drive w' = drive w.
Proof.
  unfold EmailProcessor.sendRow.
  assert (forallb (fun cell => negb (truthy cell)) cells = false) as ->.
  { unfold field in Hlabel. rewrite mapRowToObject_lookup in Hlabel.
    destruct (decide _); [done|].
    destruct (Js.own headers "template_label") as [col|];
      [|by destruct (decide _)].
    unfold SpreadsheetUtils.cell in Hlabel.
    destruct (cells !! col) as [v|] eqn:Hv; [|discriminate].
    cbn in Hlabel.
    destruct (truthy v) eqn:Hvt; [|discriminate].
    apply not_true_iff_false. intros Hall.
    rewrite forallb_forall in Hall.
    assert (In v cells) as Hin.
    { apply list_elem_of_In. by eapply list_elem_of_lookup_2. }
    specialize (Hall v Hin). by rewrite Hvt in Hall. }
  unfold EmailProcessor.applyTemplateIfNeeded. rewrite Hlabel, Hnone.
  cbn [negb]. eexists. split; [reflexivity|]. by repeat split.
Qed.

(** X25. A label that names a property of [Object.prototype] and that no
    row of the templates sheet carries is found all the same, the index of
    labels being a plain object; so is [__proto__] always, which the index
    cannot hold. There is no row for it: when the header map is empty the
    template answered has every required field empty but its label, and
    otherwise reading the first column throws a [TypeError]. *)
Theorem getTemplateByLabel_inherited_name (data : list (list string))
  (label : string)
  (Hinherited : Js.inherited label = true)
  (Hfree : Js.own (TemplateManager.templateLabelIndex
                     (TemplateManager.loadTemplateData data)) label = None) :
  Js.own (TemplateManager.templateLabelIndex
            (TemplateManager.loadTemplateData data)) "__proto__" = None /\
  TemplateManager.getTemplateByLabel
    (TemplateManager.loadTemplateData data) label =
  match TemplateManager.firstColumnRead
          (TemplateManager.headerMap (TemplateManager.loadTemplateData data))
  with
  | Some column => Thrown (TypeError (pretty column))
  | None =>
      Returned
        (Some (<["template_label"%string := label]>
                 (list_to_map
                    (map (fun f => (f, EmptyString))
                       TemplateManager.requiredFields))))
  end.
Proof.
  split.
  { unfold TemplateManager.loadTemplateData.
    destruct (Nat.leb _ _); [done|]. cbv zeta.
    destruct (Js.own _ "template_label"); [|done].
    apply indexLabels_proto. }
  unfold TemplateManager.getTemplateByLabel.
  assert (truthy label = true) as ->.
  { destruct label; [discriminate|done]. }
  cbn [negb]. unfold Js.get. rewrite Hfree, Hinherited.
  cbn [TemplateManager.templateRow].
  unfold TemplateManager.mapUndefinedToObject.
  destruct (TemplateManager.firstColumnRead _); [done|].
  do 2 f_equal. 
Qed.

End Templates.

Lemma getTemplateByLabel_last_row_witness :
  exists template : EmailRow,
    Code.TemplateManager.getTemplateByLabel
      (Code.TemplateManager.loadTemplateData
         [["template_label"; "a"]; ["T"; "old"]; ["T"; "new"]]%string)
      "T" = Returned (Some template) /\
    template !! "a"%string = Some "new"%string.
Proof.
  destruct (getTemplateByLabel_last_row
              [["template_label"; "a"]; ["T"; "old"]; ["T"; "new"]]%string
              ["template_label"; "a"]%string ["T"; "new"]%string 0 2 "T"
              eq_refl eq_refl eq_refl)
    as (template & Hfound & Hfields).
  - lia.
  - reflexivity.
  - reflexivity.
  - discriminate.
  - intros j row' Hj Hrow'. apply lookup_lt_Some in Hrow'. simpl in Hrow'. lia.
  - exists template. split; [exact Hfound|]. by rewrite Hfields.
Defined.

Lemma sendRow_template_not_found_witness :
  exists w' : World,
    Code.EmailProcessor.sendRow (H := Demo.runtime) Demo.noTemplates
      Demo.headers 1
      ["T"; "u@x.com"; ""; ""; ""; Demo.bodyUrl; ""; "Hi"; ""]%string
      (Demo.world Demo.files) = (Returned tt, w') /\
    alerts w' =
      ["Error with template in row 2: Template " +:+
       String "034" ("T" +:+ String "034"
         " not found in the distribution_templates sheet. Available templates: None")] /\
    outbox w' = [].
Proof.
  destruct (sendRow_template_not_found (H := Demo.runtime) Demo.noTemplates
              Demo.headers 1
              ["T"; "u@x.com"; ""; ""; ""; Demo.bodyUrl; ""; "Hi"; ""]%string
              (Demo.world Demo.files) eq_refl eq_refl)
    as (w' & Hrun & Halerts & _ & Hout & _).
  exists w'. split; [exact Hrun|]. split; [exact Halerts|exact Hout].
Defined.

Lemma getTemplateByLabel_inherited_name_witness :
  (exists template : EmailRow,
     Code.TemplateManager.getTemplateByLabel
       (Code.TemplateManager.loadTemplateData []) "constructor"
     = Returned (Some template) /\
     template !! "template_label"%string = Some "constructor"%string /\
     template !! "distribution_emails"%string = Some EmptyString) /\
  Code.TemplateManager.getTemplateByLabel
    (Code.TemplateManager.loadTemplateData Demo.templateSheet) "__proto__"
  = Thrown (TypeError "0").
Proof.
  split.
  - eexists. split.
    + apply (getTemplateByLabel_inherited_name [] "constructor" eq_refl eq_refl).
    + by split.
  - apply (getTemplateByLabel_inherited_name Demo.templateSheet "__proto__"
             eq_refl eq_refl).
Defined.

(** ** Attachments *)

Section Attachments.
Context `{Runtime}.
Import Regex Chars Code Frames.
#[local] Arguments Ascii.eqb : simpl never.

Lemma attachAll_within_limit (urls ids : list string) :
  forall w,
    Forall2
      (fun url id =>
         FileUtils.matchedFileId url = Some id /\
         exists f, drive w !! id = Some f /\
                   (fileSize f <= MAX_ATTACHMENT_SIZE)%Z)
      urls ids ->
    exists w', EmailBuilder.attachAll urls w = (Returned ids, w') /\
               quiet w w'.
Proof.
  intros w Hall. revert w Hall.
  induction urls as [|url urls IH] in ids |- *; intros w Hall.
  - apply Forall2_nil_inv_l in Hall as ->. exists w.
    split; [reflexivity|apply quiet_refl].
  - apply Forall2_cons_inv_l in Hall
      as (id & ids' & (Hid & f & Hf & Hsize) & Hrest & ->).
    destruct (attach_within_limit url id f w Hid Hf Hsize) as [w1 Hattach].
    pose proof (Quiet_attach _ _ _ _ Hattach) as Hq1.
    destruct (IH ids' w1) as (w' & Hrun & Hq).
    { destruct Hq1 as (Hd & _). eapply Forall2_impl; [exact Hrest|].
      intros u i (? & g & ? & ?). split; [done|]. exists g. by rewrite Hd. }
    exists w'. split; [|by eapply quiet_trans].
    cbn [EmailBuilder.attachAll].
    rewrite (bind_Returned _ _ _ _ _ Hattach).
    by rewrite (bind_Returned _ _ _ _ _ Hrun).
Qed.

(** X15. When every reference of [attachments_urls] names a file that
    Drive holds and that has at most 21 MiB (the ceiling included),
    [getAttachments] answers the files in the order of the references.
    The ceiling is per file: neither the number of files nor their total
    size is checked. Drive, the sheets and the outbox are untouched. *)
Theorem getAttachments_in_order (row : EmailRow) (ids : list string)
  (w : World)
  (Hrefs : truthy (field row "attachments_urls") = true)
  (Hall : Forall2
            (fun url id =>
               FileUtils.matchedFileId url = Some id /\
               exists f, drive w !! id = Some f /\
                         (fileSize f <= 21 * 1024 * 1024)%Z)
            (EmailBuilder.fileUrls row) ids) :
  exists w', EmailBuilder.getAttachments row w = (Returned ids, w') /\
             quiet w w'.
Proof.
  unfold EmailBuilder.getAttachments. rewrite Hrefs. cbn [negb]. cbv zeta.
  set (start := CustomLogger.debug _).
  destruct (start w) as [r0 w0] eqn:Hstart.
  assert (r0 = Returned tt /\ quiet w w0) as [-> Hq0].
  { subst start. unfold CustomLogger.debug, Logger_log in Hstart. simpl in Hstart.
    injection Hstart as <- <-. split; [done|apply quiet_set_logs]. }
  rewrite (bind_Returned _ _ _ _ _ Hstart).
  destruct (attachAll_within_limit (EmailBuilder.fileUrls row) ids w0)
    as (w1 & Hrun & Hq1).
  { destruct Hq0 as (Hd & _). eapply Forall2_impl; [exact Hall|].
    intros u i (? & g & ? & ?). split; [done|]. exists g. by rewrite Hd. }
  rewrite (bind_Returned _ _ _ _ _ Hrun).
  eexists. split; [reflexivity|].
  eapply quiet_trans; [exact Hq0|].
  eapply quiet_trans; [exact Hq1|apply quiet_set_logs].
Qed.

(** *** A list of references that ends with a separator *)

Lemma match_at_separator_None (p : ascii -> bool) (bef l : list ascii) :
  stops p l -> match_at (Plus (Cls p)) bef l = None.
Proof.
  intros Hl. unfold match_at, Plus, at_start.
  by rewrite (fails_Seq _ _ bef l (fails_Cls p bef l Hl)).
Qed.

Lemma match_at_separator_Some (p : ascii -> bool) (bef u v : list ascii)
  (x : ascii) :
  p x = true -> forallb p u = true -> stops p v ->
  match_at (Plus (Cls p)) bef ((x :: u) ++ v) =
  Some (Cursor (rev (x :: u) ++ bef) v []).
Proof.
  intros Hx Hu Hv.
  apply (reaches_match_at _ bef (x :: u) v id).
  apply reaches_Plus_run; [|exact Hv]. simpl. by rewrite Hx, Hu.
Qed.

(** After a closing separator [split] answers one more piece, which is
    empty. *)
Lemma split_loop_closing_separator (p : ascii -> bool) (c : ascii) :
  p c = true ->
  forall fuel l piece bef,
    length (l ++ [c]) <= fuel ->
    last (split_loop (Plus (Cls p)) fuel piece bef (l ++ [c])) = Some [].
Proof.
  intros Hc. induction fuel as [|f IH]; intros l piece bef Hfuel.
  { rewrite length_app in Hfuel. simpl in Hfuel. lia. }
  destruct (l ++ [c]) as [|x t] eqn:Hl; [by destruct l|].
  cbn [split_loop].
  destruct (p x) eqn:Hx.
  - destruct (run_split p t) as (u & v & -> & Hu & Hv).
    change (x :: u ++ v) with ((x :: u) ++ v).
    rewrite (match_at_separator_Some p bef u v x Hx Hu Hv).
    change ((x :: u) ++ v) with (x :: u ++ v).
    assert (shorter (Cursor (rev (x :: u) ++ bef) v [])
              (at_start bef (x :: u ++ v)) = true) as ->.
    { unfold shorter. simpl. rewrite length_app. apply Nat.ltb_lt. lia. }
    cbn [orb before rest]. rewrite last_cons.
    destruct v as [|y v'] using rev_ind.
    + by destruct f.
    + clear IHv'.
      assert (y = c /\ l = (x :: u) ++ v') as [-> ->].
      { change (x :: u ++ v' ++ [y]) with ((x :: u) ++ v' ++ [y]) in Hl.
        rewrite List.app_assoc in Hl. by apply app_inj_tail in Hl as [-> ->]. }
      rewrite IH; [done|].
      simpl in Hfuel. rewrite ?length_app in Hfuel. rewrite length_app.
      simpl in *. lia.
  - assert (match_at (Plus (Cls p)) bef (x :: t) = None) as ->.
    { apply match_at_separator_None. exact Hx. }
    destruct l as [|x' l'].
    + simpl in Hl. injection Hl as <- <-. congruence.
    + simpl in Hl. injection Hl as <- <-. apply IH.
      simpl in Hfuel. lia.
Qed.

Lemma fileUrls_closing_separator (row : EmailRow) (refs : list ascii)
  (c : ascii) :
  field row "attachments_urls" = str (refs ++ [c]) ->
  one_of ",;" c = true ->
  EmptyString ∈ EmailBuilder.fileUrls row.
Proof.
  intros Hfield Hc. unfold EmailBuilder.fileUrls, split.
  rewrite Hfield, chars_str.
  set (pieces := split_loop _ _ _ _ _) in *.
  assert (Hlast : last pieces = Some []).
  { subst pieces. apply split_loop_closing_separator; [exact Hc|lia]. }
  apply last_Some in Hlast as [front ->].
  rewrite map_app. apply elem_of_app. right. by left.
Qed.

Lemma attachAll_invalid (url : string) (urls : list string) :
  FileUtils.matchedFileId url = None -> url ∈ urls ->
  forall w, exists e w', EmailBuilder.attachAll urls w = (Thrown e, w').
Proof.
  intros Hid. induction urls as [|u urls IH]; intros Hin w.
  { by apply elem_of_nil in Hin. }
  cbn [EmailBuilder.attachAll]. unfold bind at 1.
  destruct (EmailBuilder.attach u w) as [[blob|e] w1] eqn:Hu; [|eauto].
  apply elem_of_cons in Hin as [<-|Hin].
  - exfalso. revert Hu.
    unfold EmailBuilder.attach, FileUtils.extractFileId, try_catch, bind.
    rewrite Hid. discriminate.
  - destruct (IH Hin w1) as (e & w' & Hrest).
    unfold bind. rewrite Hrest. eauto.
Qed.

(** X16. A list of references that ends with a comma or a semicolon is not
    accepted: [split] answers an empty last reference, for which
    [extractFileId] throws, so that [getAttachments] throws and
    [EmailBuilder.sendEmail] hands nothing to the mail service and moves no
    file to the trash. *)
Theorem closing_separator_blocks_the_record (row : EmailRow)
  (refs : list ascii) (c : ascii) (w : World)
  (Hfield : field row "attachments_urls" = str (refs ++ [c]))
  (Hc : c = ","%char \/ c = ";"%char) :
  (exists e w', EmailBuilder.getAttachments row w = (Thrown e, w') /\
                quiet w w') /\
  (exists r w', EmailBuilder.sendEmail row w = (r, w') /\
                r <> Returned true /\ quiet w w').
Proof.
  assert (Hsep : one_of ",;" c = true) by (by destruct Hc as [-> | ->]).
  pose proof (fileUrls_closing_separator row refs c Hfield Hsep) as Hin.
  assert (Htruthy : truthy (field row "attachments_urls") = true).
  { rewrite Hfield, str_truthy, length_app. simpl.
    by rewrite Nat.add_1_r. }
  assert (Hthrows : forall w0, exists e w',
            EmailBuilder.getAttachments row w0 = (Thrown e, w')).
  { intros w0. unfold EmailBuilder.getAttachments. rewrite Htruthy.
    cbn [negb]. cbv zeta.
    set (start := CustomLogger.debug _).
    destruct (start w0) as [r0 w1] eqn:Hstart.
    assert (r0 = Returned tt) as ->.
    { subst start. unfold CustomLogger.debug, Logger_log in Hstart.
      simpl in Hstart. by injection Hstart as <- _. }
    rewrite (bind_Returned _ _ _ _ _ Hstart).
    destruct (attachAll_invalid EmptyString (EmailBuilder.fileUrls row)
                eq_refl Hin w1) as (e & w' & Hrun).
    rewrite (bind_Thrown _ _ _ _ _ Hrun). eauto. }
  split.
  - destruct (Hthrows w) as (e & w' & Hrun). exists e, w'.
    split; [exact Hrun|]. eapply Quiet_getAttachments, Hrun.
  - unfold EmailBuilder.sendEmail.
    assert (Hskip : forall msg w0, quiet w w0 ->
              exists r w', (CustomLogger.debug msg ;; ret false)%M w0
                           = (r, w') /\
                           r <> Returned true /\ quiet w w').
    { intros msg w0 Hq. eexists _, _. split; [reflexivity|]. split; [done|].
      eapply quiet_trans; [exact Hq|apply quiet_set_logs]. }
    destruct (EmailUtils.combineEmailAddresses _) as [to|];
      [|apply Hskip, quiet_refl].
    destruct (truthy to); [|apply Hskip, quiet_refl].
    unfold bind at 1.
    destruct (EmailBuilder.buildEmailBody row w) as [[body|e] w1] eqn:Hbody.
    2:{ eexists _, _. split; [reflexivity|]. split; [done|].
        eapply Quiet_buildEmailBody, Hbody. }
    pose proof (Quiet_buildEmailBody _ _ _ _ Hbody) as Hq1.
    destruct body as [body|]; [|apply Hskip, Hq1].
    destruct (truthy body); [|apply Hskip, Hq1].
    destruct (Hthrows w1) as (e & w2 & Hthrow).
    unfold bind. rewrite Hthrow. eexists _, _. split; [reflexivity|].
    split; [done|].
    eapply quiet_trans; [exact Hq1|eapply Quiet_getAttachments, Hthrow].
Qed.

End Attachments.

Lemma getAttachments_in_order_witness :
  exists w' : World,
    Code.EmailBuilder.getAttachments
      (<["attachments_urls"%string := Demo.bodyUrl]> ∅)
      (Demo.world Demo.files)
    = (Returned [Demo.bodyFileId], w') /\
    quiet (Demo.world Demo.files) w'.
Proof.
  apply (getAttachments_in_order
           (<["attachments_urls"%string := Demo.bodyUrl]> ∅)
           [Demo.bodyFileId] (Demo.world Demo.files)).
  - vm_compute. reflexivity.
  - assert (Code.EmailBuilder.fileUrls
              (<["attachments_urls"%string := Demo.bodyUrl]> ∅)
            = [Demo.bodyUrl]) as -> by (vm_compute; reflexivity).
    constructor; [|constructor]. split; [vm_compute; reflexivity|].
    eexists. split; [vm_compute; reflexivity|]. vm_compute. discriminate.
Defined.

Lemma closing_separator_blocks_the_record_witness :
  exists (e : Exn) (w' : World),
    Code.EmailBuilder.getAttachments
      (<["attachments_urls"%string := Demo.bodyUrl +:+ ","]> ∅)
      (Demo.world Demo.files)
    = (Thrown e, w').
Proof.
  assert (Hfield : field (<["attachments_urls"%string :=
                             Demo.bodyUrl +:+ ","]> ∅) "attachments_urls"
                   = str (chars Demo.bodyUrl ++ [","%char]))
    by (vm_compute; reflexivity).
  destruct (proj1 (closing_separator_blocks_the_record (H := Demo.runtime)
                     _ _ _ (Demo.world Demo.files) Hfield
                     (or_introl eq_refl)))
    as (e & w' & Hrun & _).
  by exists e, w'.
Defined.

(** ** Session identifiers *)

Section SessionIds.
Import Regex Chars Code.
#[local] Arguments Ascii.eqb : simpl never.
#[local] Arguments firstn : simpl nomatch.
#[local] Arguments skipn : simpl nomatch.

Lemma search_eq (r : re) (bef l : list ascii) :
  search r bef l =
  match match_at r bef l with
  | Some e => Some (at_start bef l, e)
  | None => match l with
            | [] => None
            | c :: t => search r (c :: bef) t
            end
  end.
Proof. by destruct l. Qed.

Lemma search_Some_inv (r : re) (l : list ascii) :
  forall bef s e,
    search r bef l = Some (s, e) ->
    exists pre rest,
      l = pre ++ rest /\ s = at_start (rev pre ++ bef) rest /\
      match_at r (rev pre ++ bef) rest = Some e.
Proof.
  induction l as [|c t IH]; intros bef s e; rewrite search_eq;
    destruct (match_at r bef _) as [e'|] eqn:He.
  - intros [= <- <-]. by exists [], [].
  - discriminate.
  - intros [= <- <-]. by exists [], (c :: t).
  - intros Hs. apply IH in Hs as (pre & rest & -> & -> & Hm).
    exists (c :: pre), rest. cbn [rev app]. rewrite <- !List.app_assoc.
    by repeat split.
Qed.

Lemma m_WordB (s : cursor) :
  m WordB s = if at_word_boundary s then [s] else [].
Proof. reflexivity. Qed.

Lemma is_digit_is_word (c : ascii) : is_digit c = true -> is_word c = true.
Proof. unfold is_word. intros ->. by rewrite orb_true_r. Qed.

Lemma three_digits (l : list ascii) :
  Nat.leb 3 (length l) && forallb is_digit (firstn 3 l) = true ->
  exists d1 d2 d3,
    firstn 3 l = [d1; d2; d3] /\
    is_digit d1 = true /\ is_digit d2 = true /\ is_digit d3 = true.
Proof.
  intros [Hlen Hd]%andb_true_iff.
  destruct l as [|d1 [|d2 [|d3 t]]]; try discriminate Hlen.
  cbn in Hd. apply andb_true_iff in Hd as [H1 Hd].
  apply andb_true_iff in Hd as [H2 Hd]. apply andb_true_iff in Hd as [H3 _].
  by exists d1, d2, d3.
Qed.

(** What the pattern of session identifiers matches: three digits, a
    hyphen, three digits, a hyphen, three digits, with no letter, digit or
    underscore next to them. *)
Lemma match_at_sessionIdRegex (bef l : list ascii) (e : cursor) :
  match_at EmailUtils.sessionIdRegex bef l = Some e ->
  exists a b c post,
    l = (a ++ "-"%char :: b ++ "-"%char :: c) ++ post /\
    length a = 3 /\ length b = 3 /\ length c = 3 /\
    forallb is_digit (a ++ b ++ c) = true /\
    stops is_word bef /\ stops is_word post /\
    e = Cursor (rev (a ++ "-"%char :: b ++ "-"%char :: c) ++ bef) post [].
Proof.
  unfold match_at, at_start, EmailUtils.sessionIdRegex.
  rewrite m_Seq, m_WordB.
  destruct (at_word_boundary _) eqn:Hb1; [|discriminate].
  cbn [flat_map]. rewrite app_nil_r, m_Seq, m_Times_Cls.
  destruct (Nat.leb 3 (length l) && _) eqn:H1; [|discriminate].
  destruct (three_digits l H1) as (d1 & d2 & d3 & Ha & Hd1 & Hd2 & Hd3).
  cbn [flat_map]. rewrite app_nil_r, m_Seq, m_Cls. cbn [rest before caps].
  destruct (skipn 3 l) as [|x1 l1] eqn:Hl1; [discriminate|].
  destruct (chr "-" x1) eqn:Hx1; [|discriminate].
  cbn [flat_map]. rewrite app_nil_r, m_Seq, m_Times_Cls.
  destruct (Nat.leb 3 (length l1) && _) eqn:H2; [|discriminate].
  destruct (three_digits l1 H2) as (d4 & d5 & d6 & Hb & Hd4 & Hd5 & Hd6).
  cbn [flat_map]. rewrite app_nil_r, m_Seq, m_Cls. cbn [rest before caps].
  destruct (skipn 3 l1) as [|x2 l2] eqn:Hl2; [discriminate|].
  destruct (chr "-" x2) eqn:Hx2; [|discriminate].
  cbn [flat_map]. rewrite app_nil_r, m_Seq, m_Times_Cls.
  destruct (Nat.leb 3 (length l2) && _) eqn:H3; [|discriminate].
  destruct (three_digits l2 H3) as (d7 & d8 & d9 & Hc & Hd7 & Hd8 & Hd9).
  cbn [flat_map]. rewrite app_nil_r, m_WordB.
  match goal with
  | |- head (if ?b then _ else _) = _ -> _ => destruct b eqn:Hb2
  end; [|discriminate].
  intros [= <-].
  apply Ascii.eqb_eq in Hx1, Hx2. subst x1 x2.
  exists [d1; d2; d3], [d4; d5; d6], [d7; d8; d9], (skipn 3 l2).
  assert (Hl : l = ([d1; d2; d3] ++ "-"%char :: [d4; d5; d6] ++
                    "-"%char :: [d7; d8; d9]) ++ skipn 3 l2).
  { rewrite <- (firstn_skipn 3 l), Ha, Hl1.
    rewrite <- (firstn_skipn 3 l1), Hb, Hl2.
    rewrite <- (firstn_skipn 3 l2) at 1. rewrite Hc. reflexivity. }
  split; [exact Hl|]. split; [done|]. split; [done|]. split; [done|].
  split; [cbn; by rewrite Hd1, Hd2, Hd3, Hd4, Hd5, Hd6, Hd7, Hd8, Hd9|].
  split.
  { unfold at_word_boundary in Hb1. cbn [before rest] in Hb1.
    rewrite Hl in Hb1. cbn in Hb1.
    rewrite (is_digit_is_word d1 Hd1) in Hb1.
    destruct bef as [|x bef']; [done|]. simpl.
    by destruct (is_word x). }
  split.
  { unfold at_word_boundary in Hb2. cbn [before rest] in Hb2.
    rewrite Hc in Hb2. cbn in Hb2.
    rewrite (is_digit_is_word d9 Hd9) in Hb2.
    destruct (skipn 3 l2) as [|y post']; [done|]. simpl.
    by destruct (is_word y). }
  rewrite Hc, Hb, Ha. reflexivity.
Qed.

Lemma match_first_sessionId (l : list ascii) (matches : list (list ascii)) :
  match_first EmailUtils.sessionIdRegex 0 l = Some matches ->
  exists pre a b c post,
    matches = [a ++ "-"%char :: b ++ "-"%char :: c] /\
    l = pre ++ (a ++ "-"%char :: b ++ "-"%char :: c) ++ post /\
    length a = 3 /\ length b = 3 /\ length c = 3 /\
    forallb is_digit (a ++ b ++ c) = true /\
    stops is_word (rev pre) /\ stops is_word post.
Proof.
  unfold match_first.
  destruct (search EmailUtils.sessionIdRegex [] l) as [[s e]|] eqn:Hs;
    [|discriminate].
  apply search_Some_inv in Hs as (pre & rest & -> & -> & Hm).
  apply match_at_sessionIdRegex in Hm
    as (a & b & c & post & -> & Ha & Hb & Hc & Hd & Hpre & Hpost & ->).
  intros [= <-]. exists pre, a, b, c, post. cbn [map seq].
  rewrite (span_extends_by (a ++ "-"%char :: b ++ "-"%char :: c))
    by (by split).
  rewrite app_nil_r in Hpre. by repeat split.
Qed.

(** X17. [parseSessionId] never throws and touches nothing but the log.
    On the empty text it answers [null] and logs nothing. An identifier it
    answers stands in the text and has the form of three digits, a hyphen,
    three digits, a hyphen, three digits, with no letter, digit or
    underscore directly before or after it. *)
Theorem parseSessionId_shape (text : string) (w : World) :
  exists r w',
    EmailUtils.parseSessionId text w = (Returned r, w') /\
    quiet w w' /\
    (text = EmptyString -> r = None /\ w' = w) /\
    forall id, r = Some id ->
      exists pre a b c post,
        chars id = a ++ "-"%char :: b ++ "-"%char :: c /\
        chars text = pre ++ chars id ++ post /\
        length a = 3 /\ length b = 3 /\ length c = 3 /\
        forallb is_digit (a ++ b ++ c) = true /\
        stops is_word (rev pre) /\ stops is_word post.
Proof.
  destruct (EmailUtils.parseSessionId text w) as [r w'] eqn:Hrun.
  pose proof (Quiet_parseSessionId _ _ _ _ Hrun) as Hquiet.
  unfold EmailUtils.parseSessionId in Hrun.
  destruct text as [|x text'].
  { injection Hrun as <- <-. exists None, w. by repeat split. }
  cbn [truthy negb] in Hrun. set (text := String x text') in *.
  destruct (match_first EmailUtils.sessionIdRegex 0 (chars text))
    as [matches|] eqn:Hm.
  - apply match_first_sessionId in Hm
      as (pre & a & b & c & post & -> & Htext & Ha & Hb & Hc & Hd & Hpre &
          Hpost).
    assert (Nat.eqb (length (a ++ "-"%char :: b ++ "-"%char :: c)) 0 = false)
      as Hne by (by destruct a).
    cbn [map List.filter] in Hrun. rewrite str_truthy, Hne in Hrun.
    cbn [negb] in Hrun.
    unfold bind, CustomLogger.debug, Logger_log, ret in Hrun.
    cbn in Hrun. rewrite str_truthy, Hne in Hrun. cbn in Hrun.
    injection Hrun as <- <-. eexists _, _. split; [reflexivity|].
    split; [exact Hquiet|]. split; [discriminate|].
    intros id [= <-]. exists pre, a, b, c, post. rewrite chars_str.
    by repeat split.
  - unfold bind, CustomLogger.debug, Logger_log, ret in Hrun. cbn in Hrun.
    injection Hrun as <- <-. eexists _, _. split; [reflexivity|].
    split; [exact Hquiet|]. split; [discriminate|]. discriminate.
Qed.

(** X18. The two versions of [parseSessionId] answer the same identifier
    for every text: version 1.2.1 only leaves the logging out. *)
Theorem parseSessionId_versions_agree (text : string) (w : World) :
  fst (EmailUtils.parseSessionId text w) =
  Returned (SrcCode.EmailUtils.parseSessionId text).
Proof.
  unfold EmailUtils.parseSessionId, SrcCode.EmailUtils.parseSessionId.
  destruct (negb (truthy text)); [reflexivity|].
  destruct (match_first EmailUtils.sessionIdRegex 0 (chars text))
    as [matches|] eqn:Hm; [|reflexivity].
  apply match_first_sessionId in Hm
    as (pre & a & b & c & post & -> & _ & Ha & _).
  assert (Nat.eqb (length (a ++ "-"%char :: b ++ "-"%char :: c)) 0 = false)
    as Hne by (by destruct a).
  cbn [map List.filter]. rewrite str_truthy, Hne. cbn [negb].
  unfold bind, CustomLogger.debug, Logger_log, ret. cbn.
  by rewrite str_truthy, Hne.
Qed.

End SessionIds.

(** ** What the cleaning of a JSON text guarantees *)

Section JsonCleaning.
Import Regex Chars Code.
#[local] Arguments Ascii.eqb : simpl never.

Lemma line_breaks_to_spaces_no_line_feed (l : list ascii) :
  Forall (fun c => c <> "010"%char) (Passes.line_breaks_to_spaces l).
Proof.
  assert (Hall : forall n l, length l <= n ->
            Forall (fun c => c <> "010"%char) (Passes.line_breaks_to_spaces l)).
  { clear l. induction n as [|n IH]; intros l Hlen.
    { destruct l; [constructor|simpl in Hlen; lia]. }
    destruct l as [|x t]; [constructor|]. simpl in Hlen.
    cbn [Passes.line_breaks_to_spaces].
    destruct (Ascii.eqb "010" x) eqn:Hx.
    - constructor; [discriminate|]. apply IH. lia.
    - apply Ascii.eqb_neq in Hx. destruct t as [|y t'].
      + constructor; [congruence|constructor].
      + destruct (Ascii.eqb "013" x && Ascii.eqb "010" y).
        * constructor; [discriminate|]. apply IH. simpl in Hlen. lia.
        * constructor; [congruence|]. apply IH. lia. }
  by apply (Hall (length l)).
Qed.

Lemma trimStart_In (c : ascii) (l : list ascii) :
  In c (trimStart l) -> In c l.
Proof.
  induction l as [|x t IH]; [done|]. simpl.
  destruct (is_space x); [by right; apply IH|done].
Qed.

Lemma trim_In (c : ascii) (l : list ascii) : In c (trim l) -> In c l.
Proof.
  unfold trim. intros Hc. apply in_rev, trimStart_In, in_rev in Hc.
  by apply trimStart_In.
Qed.

(** X19. Whatever the text, the cleaning that [sanitizeJsonText] does
    before parsing gives a text that begins with an opening brace, ends
    with a closing brace, has at least these two characters and holds no
    line feed. *)
Theorem cleanJsonText_is_wrapped (text : list ascii) :
  startsWith ["{"%char] (TextUtils.cleanJsonText text) = true /\
  endsWith ["}"%char] (TextUtils.cleanJsonText text) = true /\
  2 <= length (TextUtils.cleanJsonText text) /\
  Forall (fun c => c <> "010"%char) (TextUtils.cleanJsonText text).
Proof.
  unfold TextUtils.cleanJsonText.
  set (cleaned := trim _).
  assert (Hclean : Forall (fun c => c <> "010"%char) cleaned).
  { apply List.Forall_forall. intros c Hc. subst cleaned.
    apply trim_In in Hc. unfold replace_all in Hc.
    rewrite replace_loop_line_breaks in Hc by lia.
    pose proof (line_breaks_to_spaces_no_line_feed
                  (TextUtils.replaceLiteral ["\"; "\"]%char ["\"%char]
                     (TextUtils.replaceLiteral ["\"; "034"]%char ["034"%char]
                        text))) as Hall.
    rewrite List.Forall_forall in Hall. by apply Hall. }
  clearbody cleaned. cbv zeta.
  set (opened := if negb (startsWith ["{"%char] cleaned)
                 then "{"%char :: cleaned else cleaned).
  assert (Hopened : exists t, opened = "{"%char :: t /\
                              Forall (fun c => c <> "010"%char) t).
  { subst opened. destruct cleaned as [|x t]; [by exists []|].
    cbn [startsWith]. rewrite andb_true_r.
    destruct (Ascii.eqb "{" x) eqn:Hx; cbn [negb].
    - apply Ascii.eqb_eq in Hx as <-. exists t. split; [done|].
      by inversion Hclean.
    - by exists (x :: t). }
  destruct Hopened as (t & -> & Ht). unfold endsWith.
  destruct (startsWith (rev ["}"%char]) (rev ("{"%char :: t))) eqn:Hend;
    cbn [negb].
  - split; [cbn [startsWith]; by rewrite Ascii.eqb_refl|].
    split; [done|]. split.
    + destruct t as [|y t']; [vm_compute in Hend; discriminate|simpl; lia].
    + constructor; [discriminate|exact Ht].
  - split; [cbn [app startsWith]; by rewrite Ascii.eqb_refl|]. split.
    + rewrite rev_app_distr. cbn [rev app startsWith].
      by rewrite Ascii.eqb_refl.
    + split; [rewrite length_app; simpl; lia|].
      change (("{"%char :: t) ++ ["}"%char])
        with ("{"%char :: t ++ ["}"%char]).
      constructor; [discriminate|]. apply Forall_app. split; [exact Ht|].
      constructor; [discriminate|constructor].
Qed.

End JsonCleaning.

(** ** Character references *)

Section Entities.
Import Regex Chars Code.
#[local] Arguments Ascii.eqb : simpl never.
#[local] Arguments Chars.chr : simpl never.

Lemma match_at_Lit_other_head (c0 : ascii) (p bef l : list ascii) :
  stops (chr c0) l -> match_at (Lit (c0 :: p)) bef l = None.
Proof.
  intros Hl. unfold match_at, at_start. cbn [Lit].
  by rewrite (fails_Seq _ _ bef l (fails_Cls _ bef l Hl)).
Qed.

Lemma match_at_Lit_other_second (c0 p1 : ascii) (p bef r : list ascii) :
  stops (chr p1) r -> match_at (Lit (c0 :: p1 :: p)) bef (c0 :: r) = None.
Proof.
  intros Hr. unfold match_at, at_start. cbn [Lit].
  rewrite m_Seq, m_Cls. cbn [rest before caps].
  unfold chr at 1. rewrite Ascii.eqb_refl. cbn [flat_map].
  by rewrite (fails_Seq _ _ (c0 :: bef) r (fails_Cls _ _ r Hr)).
Qed.

Lemma replace_loop_absent (c0 : ascii) (p : list ascii)
  (f : list ascii -> cursor -> list ascii) (l : list ascii) :
  Forall (fun c => chr c0 c = false) l ->
  forall fuel bef, replace_loop (Lit (c0 :: p)) f fuel bef l = l.
Proof.
  induction 1 as [|c t Hc Ht IH]; intros fuel bef.
  - by apply replace_loop_end, match_at_Lit_other_head.
  - destruct fuel; [reflexivity|]. rewrite replace_loop_S. cbv zeta.
    rewrite match_at_Lit_other_head by exact Hc. by rewrite IH.
Qed.

Lemma replace_loop_copy (c0 : ascii) (p : list ascii)
  (f : list ascii -> cursor -> list ascii) (a : list ascii) :
  Forall (fun c => chr c0 c = false) a ->
  forall bef v,
    replace_loop (Lit (c0 :: p)) f (S (length (a ++ v))) bef (a ++ v) =
    a ++ replace_loop (Lit (c0 :: p)) f (S (length v)) (rev a ++ bef) v.
Proof.
  induction 1 as [|c a Hc Ha IH]; intros bef v; [reflexivity|].
  cbn [app length]. rewrite replace_loop_S. cbv zeta.
  rewrite match_at_Lit_other_head by exact Hc.
  rewrite IH. cbn [rev]. by rewrite <- List.app_assoc.
Qed.

(** The pattern where it stands, between texts without its first
    character. *)
Lemma replaceLiteral_here (c0 : ascii) (p rep a b : list ascii) :
  Forall (fun c => chr c0 c = false) a ->
  Forall (fun c => chr c0 c = false) b ->
  TextUtils.replaceLiteral (c0 :: p) rep (a ++ (c0 :: p) ++ b) =
  a ++ rep ++ b.
Proof.
  intros Ha Hb. unfold TextUtils.replaceLiteral, replace_all.
  rewrite replace_loop_copy by exact Ha. f_equal.
  rewrite replace_loop_S. cbv zeta.
  rewrite (reaches_match_at _ _ _ _ _ (reaches_Lit (c0 :: p) _ b)).
  assert (shorter (Cursor (rev (c0 :: p) ++ rev a ++ []) b (id []))
            (at_start (rev a ++ []) ((c0 :: p) ++ b)) = true) as ->.
  { unfold shorter. simpl. rewrite length_app. apply Nat.ltb_lt. lia. }
  cbn [before rest]. f_equal. by apply replace_loop_absent.
Qed.

(** Another pattern with the same first character: nothing is replaced. *)
Lemma replaceLiteral_other (c0 p1 : ascii) (p rep a r : list ascii) :
  Forall (fun c => chr c0 c = false) a ->
  Forall (fun c => chr c0 c = false) r ->
  stops (chr p1) r ->
  TextUtils.replaceLiteral (c0 :: p1 :: p) rep (a ++ c0 :: r) = a ++ c0 :: r.
Proof.
  intros Ha Hr Hstop. unfold TextUtils.replaceLiteral, replace_all.
  rewrite replace_loop_copy by exact Ha. f_equal.
  rewrite replace_loop_S. cbv zeta.
  rewrite match_at_Lit_other_second by exact Hstop.
  f_equal. by apply replace_loop_absent.
Qed.

Lemma replaceLiteral_absent (c0 : ascii) (p rep l : list ascii) :
  Forall (fun c => chr c0 c = false) l ->
  TextUtils.replaceLiteral (c0 :: p) rep l = l.
Proof.
  intros Hl. unfold TextUtils.replaceLiteral, replace_all.
  by apply replace_loop_absent.
Qed.

Lemma chars_String (c : ascii) (s : string) :
  chars (String c s) = c :: chars s.
Proof. reflexivity. Qed.

Lemma no_ampersand_chr (l : list ascii) :
  Forall (fun c => c <> "&"%char) l ->
  Forall (fun c => chr "&" c = false) l.
Proof.
  intros Hl. eapply Forall_impl; [exact Hl|].
  intros c Hc. unfold chr. apply Ascii.eqb_neq. congruence.
Qed.

(** X20. A text without ampersand holds no character reference:
    [decodeHtmlEntities] answers it unchanged, in both versions. *)
Theorem decodeHtmlEntities_plain_text (text : string)
  (Hplain : Forall (fun c => c <> "&"%char) (chars text)) :
  TextUtils.decodeHtmlEntities text = text /\
  SrcCode.TextUtils.decodeHtmlEntities text = text.
Proof.
  apply no_ampersand_chr in Hplain.
  assert (Hsame : SrcCode.TextUtils.decodeHtmlEntities text = text).
  { unfold SrcCode.TextUtils.decodeHtmlEntities. rewrite !chars_String.
    do 5 rewrite (replaceLiteral_absent "&" _ _ (chars text) Hplain).
    apply str_chars. }
  split; [|exact Hsame].
  unfold TextUtils.decodeHtmlEntities. destruct (negb (truthy text)); [done|].
  exact Hsame.
Qed.

Ltac no_amp :=
  repeat first
    [ assumption
    | apply Forall_nil_2
    | apply Forall_app_2
    | apply Forall_cons_2; [reflexivity|] ].

Lemma decode_truthy (a rest : list ascii) (c : ascii) :
  negb (truthy (str (a ++ c :: rest))) = false.
Proof. rewrite str_truthy, length_app. cbn. by rewrite Nat.add_succ_r. Qed.

(** The passes on a text with one reference. *)
Lemma decode_one_reference (a b : list ascii) (entity : string) (c : ascii) :
  (entity, c) ∈ [("&amp;"%string, "&"%char); ("&lt;"%string, "<"%char);
                 ("&gt;"%string, ">"%char); ("&quot;"%string, "034"%char);
                 ("&#39;"%string, "'"%char)] ->
  Forall (fun x => chr "&" x = false) a ->
  Forall (fun x => chr "&" x = false) b ->
  (entity = "&amp;"%string -> stops (one_of "lgq#") b) ->
  SrcCode.TextUtils.decodeHtmlEntities (str (a ++ chars entity ++ b)) =
  str (a ++ c :: b).
Proof.
  intros Hentity Ha Hb Hamp.
  unfold SrcCode.TextUtils.decodeHtmlEntities.
  rewrite chars_str, !chars_String. change (chars "") with (@nil ascii).
  repeat (apply elem_of_cons in Hentity as [[= -> ->]|Hentity]);
    [| | | | |by apply elem_of_nil in Hentity];
    rewrite !chars_String; change (chars "") with (@nil ascii).
  - assert (Hstops : forall p1, one_of "lgq#" p1 = true -> stops (chr p1) b).
    { intros p1 Hp1. specialize (Hamp eq_refl).
      destruct b as [|y b']; [done|]. simpl in *. unfold chr.
      apply Ascii.eqb_neq. intros ->. congruence. }
    cbn [app].
    pose proof (replaceLiteral_here "&" ["a"; "m"; "p"; ";"]%char ["&"%char]
                  a b Ha Hb) as Hhere.
    cbn [app] in Hhere. rewrite Hhere. clear Hhere.
    rewrite (replaceLiteral_other "&" "l" _ _ a b Ha Hb
               (Hstops "l"%char eq_refl)).
    rewrite (replaceLiteral_other "&" "g" _ _ a b Ha Hb
               (Hstops "g"%char eq_refl)).
    rewrite (replaceLiteral_other "&" "q" _ _ a b Ha Hb
               (Hstops "q"%char eq_refl)).
    rewrite (replaceLiteral_other "&" "#" _ _ a b Ha Hb
               (Hstops "#"%char eq_refl)).
    reflexivity.
  - cbn [app].
    rewrite (replaceLiteral_other "&" "a" _ _ a ("l" :: "t" :: ";" :: b)%char
               Ha ltac:(no_amp) eq_refl).
    pose proof (replaceLiteral_here "&" ["l"; "t"; ";"]%char ["<"%char] a b Ha Hb) as Hhere.
    cbn [app] in Hhere. rewrite Hhere. clear Hhere.
    do 3 rewrite (replaceLiteral_absent "&" _ _ (a ++ "<"%char :: b)
                    ltac:(no_amp)).
    reflexivity.
  - cbn [app].
    rewrite (replaceLiteral_other "&" "a" _ _ a ("g" :: "t" :: ";" :: b)%char
               Ha ltac:(no_amp) eq_refl).
    rewrite (replaceLiteral_other "&" "l" _ _ a ("g" :: "t" :: ";" :: b)%char
               Ha ltac:(no_amp) eq_refl).
    pose proof (replaceLiteral_here "&" ["g"; "t"; ";"]%char [">"%char] a b Ha Hb) as Hhere.
    cbn [app] in Hhere. rewrite Hhere. clear Hhere.
    do 2 rewrite (replaceLiteral_absent "&" _ _ (a ++ ">"%char :: b)
                    ltac:(no_amp)).
    reflexivity.
  - cbn [app].
    rewrite (replaceLiteral_other "&" "a" _ _ a
               ("q" :: "u" :: "o" :: "t" :: ";" :: b)%char
               Ha ltac:(no_amp) eq_refl).
    rewrite (replaceLiteral_other "&" "l" _ _ a
               ("q" :: "u" :: "o" :: "t" :: ";" :: b)%char
               Ha ltac:(no_amp) eq_refl).
    rewrite (replaceLiteral_other "&" "g" _ _ a
               ("q" :: "u" :: "o" :: "t" :: ";" :: b)%char
               Ha ltac:(no_amp) eq_refl).
    pose proof (replaceLiteral_here "&" ["q"; "u"; "o"; "t"; ";"]%char
               ["034"%char] a b Ha Hb) as Hhere.
    cbn [app] in Hhere. rewrite Hhere. clear Hhere.
    rewrite (replaceLiteral_absent "&" _ _ (a ++ "034"%char :: b)
               ltac:(no_amp)).
    reflexivity.
  - cbn [app].
    rewrite (replaceLiteral_other "&" "a" _ _ a
               ("#" :: "3" :: "9" :: ";" :: b)%char
               Ha ltac:(no_amp) eq_refl).
    rewrite (replaceLiteral_other "&" "l" _ _ a
               ("#" :: "3" :: "9" :: ";" :: b)%char
               Ha ltac:(no_amp) eq_refl).
    rewrite (replaceLiteral_other "&" "g" _ _ a
               ("#" :: "3" :: "9" :: ";" :: b)%char
               Ha ltac:(no_amp) eq_refl).
    rewrite (replaceLiteral_other "&" "q" _ _ a
               ("#" :: "3" :: "9" :: ";" :: b)%char
               Ha ltac:(no_amp) eq_refl).
    pose proof (replaceLiteral_here "&" ["#"; "3"; "9"; ";"]%char
               ["'"%char] a b Ha Hb) as Hhere.
    cbn [app] in Hhere. rewrite Hhere. clear Hhere.
    reflexivity.
Qed.

(** X21. Each of the five character references, standing between texts
    without ampersand, is replaced by its character, in both versions of
    [decodeHtmlEntities]. For the reference of the ampersand itself this
    holds when the text after it does not begin with l, g, q or the number
    sign. *)
Theorem decodeHtmlEntities_one_reference (a b : list ascii)
  (entity : string) (c : ascii)
  (Hentity : (entity, c) ∈
             [("&amp;"%string, "&"%char); ("&lt;"%string, "<"%char);
              ("&gt;"%string, ">"%char); ("&quot;"%string, "034"%char);
              ("&#39;"%string, "'"%char)])
  (Ha : Forall (fun x => x <> "&"%char) a)
  (Hb : Forall (fun x => x <> "&"%char) b)
  (Hamp : entity = "&amp;"%string -> stops (one_of "lgq#") b) :
  TextUtils.decodeHtmlEntities (str (a ++ chars entity ++ b)) =
  str (a ++ c :: b) /\
  SrcCode.TextUtils.decodeHtmlEntities (str (a ++ chars entity ++ b)) =
  str (a ++ c :: b).
Proof.
  pose proof (decode_one_reference a b entity c Hentity
                (no_ampersand_chr a Ha) (no_ampersand_chr b Hb) Hamp) as Hsrc.
  split; [|exact Hsrc].
  unfold TextUtils.decodeHtmlEntities.
  destruct (negb (truthy (str (a ++ chars entity ++ b)))) eqn:Hempty;
    [|exact Hsrc].
  exfalso. rewrite str_truthy, negb_involutive in Hempty.
  apply Nat.eqb_eq in Hempty. rewrite !length_app in Hempty.
  repeat (apply elem_of_cons in Hentity as [[= -> ->]|Hentity]);
    [| | | | |by apply elem_of_nil in Hentity]; simpl in Hempty; lia.
Qed.

(** X22. The reference of the ampersand is decoded first and the result is
    read again by the later passes: the reference of the ampersand followed
    by the rest of another reference gives the character of that other
    reference, not its text. *)
Theorem decodeHtmlEntities_decodes_twice (a b : list ascii)
  (tail : string) (c : ascii)
  (Htail : (tail, c) ∈
           [("lt;"%string, "<"%char); ("gt;"%string, ">"%char);
            ("quot;"%string, "034"%char); ("#39;"%string, "'"%char)])
  (Ha : Forall (fun x => x <> "&"%char) a)
  (Hb : Forall (fun x => x <> "&"%char) b) :
  SrcCode.TextUtils.decodeHtmlEntities
    (str (a ++ chars "&amp;" ++ chars tail ++ b)) = str (a ++ c :: b) /\
  TextUtils.decodeHtmlEntities
    (str (a ++ chars "&amp;" ++ chars tail ++ b)) = str (a ++ c :: b).
Proof.
  apply no_ampersand_chr in Ha, Hb.
  assert (Hsrc : SrcCode.TextUtils.decodeHtmlEntities
                   (str (a ++ chars "&amp;" ++ chars tail ++ b))
                 = str (a ++ c :: b)).
  { assert (Hfree : Forall (fun x => chr "&" x = false) (chars tail ++ b)).
    { repeat (apply elem_of_cons in Htail as [[= -> ->]|Htail]);
        [| | | |by apply elem_of_nil in Htail];
        rewrite !chars_String; change (chars "") with (@nil ascii); no_amp. }
    assert (Hentity : (String "&" tail, c) ∈
              [("&amp;"%string, "&"%char); ("&lt;"%string, "<"%char);
               ("&gt;"%string, ">"%char); ("&quot;"%string, "034"%char);
               ("&#39;"%string, "'"%char)]).
    { repeat (apply elem_of_cons in Htail as [[= -> ->]|Htail]);
        [| | | |by apply elem_of_nil in Htail].
      - by do 1 right; left.
      - by do 2 right; left.
      - by do 3 right; left.
      - by do 4 right; left. }
    assert (Hnot : String "&" tail = "&amp;"%string ->
                   stops (one_of "lgq#") b).
    { intros [= ->]. exfalso.
      repeat (apply elem_of_cons in Htail as [[= ?]|Htail]);
        by apply elem_of_nil in Htail. }
    rewrite <- (decode_one_reference a b (String "&" tail) c Hentity Ha Hb
                  Hnot).
    unfold SrcCode.TextUtils.decodeHtmlEntities.
    rewrite !chars_str. do 4 f_equal.
    rewrite !chars_String. change (chars "") with (@nil ascii).
    cbn [app].
    pose proof (replaceLiteral_here "&" ["a"; "m"; "p"; ";"]%char ["&"%char]
                  a (chars tail ++ b) Ha Hfree) as Hhere.
    cbn [app] in Hhere. rewrite Hhere. clear Hhere.
    assert (Hstop : stops (chr "a") (chars tail ++ b)).
    { repeat (apply elem_of_cons in Htail as [[= -> ->]|Htail]);
        [| | | |by apply elem_of_nil in Htail]; reflexivity. }
    by rewrite (replaceLiteral_other "&" "a" _ _ a (chars tail ++ b)
                  Ha Hfree Hstop). }
  split; [exact Hsrc|].
  unfold TextUtils.decodeHtmlEntities.
  rewrite chars_String at 1.
  change (a ++ ("&"%char :: chars "amp;") ++ chars tail ++ b)
    with (a ++ "&"%char :: (chars "amp;" ++ chars tail ++ b)).
  rewrite decode_truthy.
  change (a ++ "&"%char :: (chars "amp;" ++ chars tail ++ b))
    with (a ++ chars "&amp;" ++ chars tail ++ b).
  exact Hsrc.
Qed.

End Entities.

Lemma decodeHtmlEntities_plain_text_witness :
  Code.TextUtils.decodeHtmlEntities "Plans and specs" = "Plans and specs"%string.
Proof.
  apply (proj1 (decodeHtmlEntities_plain_text "Plans and specs"
                  ltac:(repeat constructor; discriminate))).
Defined.

Lemma decodeHtmlEntities_one_reference_witness :
  Code.TextUtils.decodeHtmlEntities "a &lt; b" = "a < b"%string.
Proof.
  refine (proj1 (decodeHtmlEntities_one_reference (chars "a ") (chars " b")
                   "&lt;" "<" _ _ _ _)).
  - apply elem_of_cons. right. apply elem_of_cons. by left.
  - repeat constructor; discriminate.
  - repeat constructor; discriminate.
  - discriminate.
Defined.

Lemma decodeHtmlEntities_decodes_twice_witness :
  Code.TextUtils.decodeHtmlEntities "x&amp;lt;y" = "x<y"%string.
Proof.
  refine (proj2 (decodeHtmlEntities_decodes_twice (chars "x") (chars "y")
                   "lt;" "<" _ _ _)).
  - apply elem_of_cons. by left.
  - repeat constructor; discriminate.
  - repeat constructor; discriminate.
Defined.

(** ** Lists of addresses *)

Section AddressLists.
Import Regex Chars Text Code.EmailUtils Obfuscated Plain.
#[local] Arguments Ascii.eqb : simpl never.

Ltac by_cases c :=
  destruct c as [[] [] [] [] [] [] [] []]; vm_compute; congruence.

Lemma not_atomChar_not_alnumHyphen (c : ascii) :
  icase atomChar c = false -> icase alnumHyphen c = false.
Proof. by_cases c. Qed.

Lemma not_atomChar_not_slash (c : ascii) :
  icase atomChar c = false -> chr "/" c = false.
Proof. by_cases c. Qed.

Lemma at_sign_not_atomChar : icase atomChar "@" = false.
Proof. reflexivity. Qed.

Lemma alnumHyphen_not_newline (c : ascii) :
  icase alnumHyphen c = true -> is_newline c = false.
Proof. by_cases c. Qed.

Lemma dot_to_lower (c : ascii) :
  icase (chr ".") (to_lower c) = icase (chr ".") c.
Proof. apply icase_to_lower. Qed.

(** *** What a label takes *)

Lemma star_Cls_In (p : ascii -> bool) :
  forall fuel s e,
    In e (star (m (Cls p)) fuel s) ->
    exists u, extends_by u s e /\ forallb p u = true.
Proof.
  induction fuel as [|f IH]; intros s e He.
  - destruct He as [<-|[]]. by exists [].
  - rewrite star_S in He. apply in_app_iff in He as [He|[<-|[]]].
    + apply in_flat_map in He as (s1 & Hs1 & He).
      destruct (shorter s1 s); [|destruct He].
      rewrite m_Cls in Hs1. destruct (rest s) as [|c t] eqn:Hrest;
        [destruct Hs1|].
      destruct (p c) eqn:Hc; [|destruct Hs1]. destruct Hs1 as [<-|[]].
      apply IH in He as (u & [Hu1 Hu2] & Hp). exists (c :: u).
      split; [split|].
      * rewrite Hrest. simpl in Hu1. by rewrite Hu1.
      * rewrite Hu2. simpl. by rewrite <- List.app_assoc.
      * simpl. by rewrite Hc, Hp.
    + by exists [].
Qed.

Lemma label_In (s e : cursor) :
  In e (m label s) ->
  exists u, extends_by u s e /\ forallb (icase alnumHyphen) u = true.
Proof.
  unfold label, I, Opt. rewrite m_Seq. intros He.
  apply in_flat_map in He as (s1 & Hs1 & He).
  rewrite m_Cls in Hs1. destruct (rest s) as [|c t] eqn:Hrest; [destruct Hs1|].
  destruct (icase alnum c) eqn:Hc; [|destruct Hs1]. destruct Hs1 as [<-|[]].
  apply alnum_alnumHyphen in Hc.
  rewrite m_Alt in He. apply in_app_iff in He as [He|[<-|[]]].
  - rewrite m_Seq in He. apply in_flat_map in He as (s2 & Hs2 & He).
    change (m (Star (Cls (icase alnumHyphen))) ?x)
      with (star (m (Cls (icase alnumHyphen))) (S (length (rest x))) x) in Hs2.
    apply star_Cls_In in Hs2 as (u & [Hu1 Hu2] & Hu).
    rewrite m_Cls in He. destruct (rest s2) as [|y t2] eqn:Hrest2;
      [destruct He|].
    destruct (icase alnum y) eqn:Hy; [|destruct He]. destruct He as [<-|[]].
    apply alnum_alnumHyphen in Hy.
    exists (c :: u ++ [y]). split; [split|].
    + rewrite Hrest. simpl in *. rewrite Hu1. by rewrite <- List.app_assoc.
    + simpl in *. rewrite Hu2, rev_app_distr. simpl.
      by rewrite <- List.app_assoc.
    + simpl. rewrite Hc, forallb_app, Hu. simpl. by rewrite Hy.
  - exists [c]. split; [split|].
    + by rewrite Hrest.
    + reflexivity.
    + simpl. by rewrite Hc.
Qed.

Lemma run_prefix (p : ascii -> bool) (u w l v : list ascii) :
  u ++ w = l ++ v -> forallb p u = true -> stops p v ->
  exists l2, w = l2 ++ v.
Proof.
  revert l. induction u as [|c u IH]; intros l Heq Hu Hv.
  - exists l. exact Heq.
  - simpl in Hu. apply andb_true_iff in Hu as [Hc Hu].
    destruct l as [|x l].
    + simpl in Heq. subst v. simpl in Hv. congruence.
    + simpl in Heq. injection Heq as <- Heq. by apply (IH l).
Qed.

(** After the last label of a domain no further "label, dot" is found. *)
Lemma fails_label_dot_before (l v bef : list ascii) :
  forallb (icase alnumHyphen) l = true ->
  stops (icase atomChar) v -> stops is_space v -> stops (icase (chr ".")) v ->
  fails (Seq label
           (Group 3 (Alt (I (chr "."))
                      (Seq (Plus ws) (Seq (ILit "dot") (Plus ws))))))
    bef (l ++ v).
Proof.
  intros Hl Hatom Hspace Hdot cs. rewrite m_Seq. apply flat_map_nil.
  intros e He.
  apply label_In in He as (u & [Hu _] & Hchars). simpl in Hu.
  destruct e as [be re ce]. simpl in Hu.
  assert (Hv : stops (icase alnumHyphen) v).
  { destruct v as [|y v']; [done|]. simpl in *.
    by apply not_atomChar_not_alnumHyphen. }
  symmetry in Hu.
  destruct (run_prefix _ _ _ _ _ Hu Hchars Hv) as [l2 ->].
  assert (Hl2 : forallb (icase alnumHyphen) l2 = true).
  { rewrite List.app_assoc in Hu. apply app_inv_tail in Hu.
    rewrite <- Hu, forallb_app in Hl. by apply andb_true_iff in Hl as [_ ?]. }
  apply fails_dot_group.
  - destruct l2 as [|c t]; [exact Hdot|]. simpl in *.
    apply andb_true_iff in Hl2 as [Hc _]. by apply alnumHyphen_not_dot.
  - destruct l2 as [|c t]; [exact Hspace|]. simpl in *.
    apply andb_true_iff in Hl2 as [Hc _]. by apply alnumHyphen_not_space.
Qed.

(** *** One address *)

Lemma stops_after_atom_before (more : list (list ascii)) (v : list ascii) :
  stops (icase atomChar) v ->
  stops (icase atomChar) (flat_map (fun x => "."%char :: x) more ++ v).
Proof. intros Hv. destruct more as [|x more]; [exact Hv|reflexivity]. Qed.

Lemma reaches_dotted_atoms_before (more : list (list ascii))
  (v : list ascii) :
  stops (icase atomChar) v -> stops (icase (chr ".")) v ->
  forallb atom more = true ->
  forall bef,
    exists g,
      reaches (Star (Seq (I (chr ".")) (Plus (I atomChar)))) bef
        (flat_map (fun x => "."%char :: x) more) v g.
Proof.
  intros Hatom Hdot. induction more as [|x more IH]; intros Hmore bef.
  - eexists. by apply reaches_Star_stop, fails_Seq, fails_Cls.
  - simpl in Hmore. apply andb_true_iff in Hmore as [Hx Hmore].
    destruct (IH Hmore (rev ("."%char :: x) ++ bef)) as [g Hg].
    eexists. cbn [flat_map].
    apply (reaches_Star_step _ bef ("."%char :: x) _ v); [done| |].
    + apply (reaches_Seq _ _ bef ["."%char] x).
      * apply reaches_Cls. reflexivity.
      * unfold I. apply reaches_Plus_run; [exact Hx|].
        by apply stops_after_atom_before.
    + exact Hg.
Qed.

Lemma reaches_localPart_before (first : list ascii)
  (more : list (list ascii)) (bef v : list ascii) :
  atom first = true -> forallb atom more = true ->
  stops (icase atomChar) v -> stops (icase (chr ".")) v ->
  exists g, reaches localPart bef (local_part first more) v g.
Proof.
  intros Hfirst Hmore Hatom Hdot.
  destruct (reaches_dotted_atoms_before more v Hatom Hdot Hmore
              (rev first ++ bef)) as [g Hg].
  eexists. unfold localPart, local_part.
  apply (reaches_Seq _ _ bef first _ v); [|exact Hg].
  unfold I. apply reaches_Plus_run; [exact Hfirst|].
  by apply stops_after_atom_before.
Qed.

Local Abbreviation dotGroup :=
  (Group 3 (Alt (I (chr "."))
              (Seq (Plus ws) (Seq (ILit "dot") (Plus ws))))).

Lemma reaches_label_dot (l bef v : list ascii) :
  is_label l = true ->
  exists g, reaches (Seq label dotGroup) bef (l ++ ["."%char]) v g.
Proof.
  intros Hl.
  destruct (reaches_label l bef ("."%char :: v) Hl) as [g Hg]; [reflexivity|].
  eexists. apply (reaches_Seq _ _ bef l ["."%char] v); [exact Hg|].
  apply reaches_Group, reaches_Alt_l, reaches_Cls. reflexivity.
Qed.

Lemma is_label_nonempty (l : list ascii) : is_label l = true -> l <> [].
Proof. by destruct l. Qed.

Lemma reaches_labels (init : list (list ascii)) (tail : list ascii) :
  forallb is_label init = true ->
  (forall bef, fails (Seq label dotGroup) bef tail) ->
  forall bef,
    exists g,
      reaches (Star (Seq label dotGroup)) bef
        (flat_map (fun l => l ++ ["."%char]) init) tail g.
Proof.
  intros Hinit Htail. induction init as [|l init IH]; intros bef.
  - eexists. apply reaches_Star_stop, Htail.
  - simpl in Hinit. apply andb_true_iff in Hinit as [Hl Hinit].
    destruct (IH Hinit (rev (l ++ ["."%char]) ++ bef)) as [g Hg].
    destruct (reaches_label_dot l bef
                (flat_map (fun l => l ++ ["."%char]) init ++ tail) Hl)
      as [g1 Hg1].
    eexists. cbn [flat_map].
    apply (reaches_Star_step _ bef (l ++ ["."%char]) _ tail);
      [|exact Hg1|exact Hg].
    intros Hnil. by apply app_eq_nil in Hnil as [_ ?].
Qed.

(** The whole pattern on an address in its usual writing, followed by
    something that no address continues into. *)
Lemma reaches_emailRegex_written (x : address) (bef v : list ascii) :
  well_formed x = true ->
  stops (icase atomChar) v -> stops is_space v -> stops (icase (chr ".")) v ->
  exists g, reaches emailRegex bef (written x) v g.
Proof.
  unfold well_formed. intros Hx Hatom Hspace Hdot.
  apply andb_true_iff in Hx as [Hx _].
  apply andb_true_iff in Hx as [Hx Hlast].
  apply andb_true_iff in Hx as [Hx Hinit].
  apply andb_true_iff in Hx as [Hx Hlen].
  apply andb_true_iff in Hx as [Hfirst Hmore].
  destruct x as [first more init last].
  cbn [local_first local_more domain_init domain_last] in *.
  destruct init as [|l0 init]; [discriminate|]. clear Hlen.
  simpl in Hinit. apply andb_true_iff in Hinit as [Hl0 Hinit].
  set (dom := flat_map (fun l => l ++ ["."%char]) (l0 :: init)).
  set (a := local_part first more).
  set (bef' := rev ["@"%char] ++ rev a ++ bef).
  destruct (reaches_localPart_before first more bef
              (("@"%char :: dom ++ last) ++ v)) as [g1 Hg1]; try done.
  assert (Hv : stops (icase alnumHyphen) v).
  { destruct v as [|y v']; [done|]. simpl in *.
    by apply not_atomChar_not_alnumHyphen. }
  destruct (reaches_label last (rev dom ++ bef') v) as [g5 Hg5];
    [done|done|].
  destruct (reaches_label_dot l0 bef'
              (flat_map (fun l => l ++ ["."%char]) init ++ last ++ v) Hl0)
    as [g3 Hg3].
  destruct (reaches_labels init (last ++ v) Hinit) with
    (bef := rev (l0 ++ ["."%char]) ++ bef') as [g4 Hg4].
  { intros bef''. apply fails_label_dot_before; try done.
    by apply is_label_chars. }
  eexists. unfold emailRegex, written. cbn [local_first local_more
    domain_init domain_last]. fold a. fold dom.
  apply reaches_Group.
  apply (reaches_Seq _ _ bef a ("@"%char :: dom ++ last) v); [exact Hg1|].
  apply (reaches_Seq _ _ _ ["@"%char] (dom ++ last) v).
  { apply reaches_Group, reaches_Alt_l, reaches_Cls. reflexivity. }
  apply (reaches_Seq _ _ _ dom last v); [|exact Hg5].
  unfold Plus. subst dom. cbn [flat_map].
  apply (reaches_Seq _ _ _ (l0 ++ ["."%char]) _ (last ++ v));
    [exact Hg3|exact Hg4].
Qed.

(** *** The scan over a list *)

Lemma exec_loop_S (r : re) (f : nat) (bef l : list ascii) :
  exec_loop r (S f) bef l =
  match match_at r bef l with
  | Some e =>
      span (at_start bef l) e ::
      (if shorter e (at_start bef l)
       then exec_loop r f (before e) (rest e)
       else [])
  | None =>
      match l with
      | [] => []
      | c :: t => exec_loop r f (c :: bef) t
      end
  end.
Proof. reflexivity. Qed.

Lemma exec_loop_fuel (r : re) :
  forall fuel1 fuel2 bef l,
    length l < fuel1 -> length l < fuel2 ->
    exec_loop r fuel1 bef l = exec_loop r fuel2 bef l.
Proof.
  induction fuel1 as [|f1 IH]; intros fuel2 bef l H1 H2; [lia|].
  destruct fuel2 as [|f2]; [lia|]. rewrite !exec_loop_S.
  destruct (match_at r bef l) as [e|] eqn:He.
  - f_equal. destruct (shorter e (at_start bef l)) eqn:Hs; [|done].
    unfold shorter in Hs. simpl in Hs. apply Nat.ltb_lt in Hs.
    apply IH; lia.
  - destruct l as [|c t]; [done|]. simpl in H1, H2. apply IH; lia.
Qed.

Lemma emailRegex_needs_atomChar (bef : list ascii) (c : ascii)
  (t : list ascii) :
  icase atomChar c = false -> match_at emailRegex bef (c :: t) = None.
Proof.
  intros Hc. destruct (match_at emailRegex bef (c :: t)) as [e|] eqn:He;
    [|reflexivity].
  apply match_at_In, emailRegex_match_shape in He
    as (c' & t' & u & Hr & Hc' & _).
  simpl in Hr. injection Hr as <- <-. congruence.
Qed.

Lemma exec_skip (s : list ascii) :
  Forall (fun c => icase atomChar c = false) s ->
  forall bef T,
    exec_loop emailRegex (S (length (s ++ T))) bef (s ++ T) =
    exec_loop emailRegex (S (length T)) (rev s ++ bef) T.
Proof.
  induction 1 as [|c s Hc Hs IH]; intros bef T; [reflexivity|].
  cbn [app length]. rewrite exec_loop_S.
  rewrite emailRegex_needs_atomChar by exact Hc.
  rewrite IH. cbn [rev]. by rewrite <- List.app_assoc.
Qed.

Lemma written_length (x : address) : 0 < length (written x).
Proof. unfold written. rewrite length_app. simpl. lia. Qed.

Lemma exec_written (x : address) (bef v : list ascii) :
  well_formed x = true ->
  stops (icase atomChar) v -> stops is_space v -> stops (icase (chr ".")) v ->
  exec_loop emailRegex (S (length (written x ++ v))) bef (written x ++ v) =
  written x ::
  exec_loop emailRegex (S (length v)) (rev (written x) ++ bef) v.
Proof.
  intros Hx Hatom Hspace Hdot.
  destruct (reaches_emailRegex_written x bef v Hx Hatom Hspace Hdot)
    as [g Hg].
  pose proof (written_length x) as Hlen.
  rewrite exec_loop_S, (reaches_match_at _ _ _ _ _ Hg).
  rewrite (span_extends_by (written x)) by (split; reflexivity).
  assert (Hs : shorter (Cursor (rev (written x) ++ bef) v (g []))
                 (at_start bef (written x ++ v)) = true).
  { unfold shorter. simpl. apply Nat.ltb_lt. rewrite length_app. lia. }
  rewrite Hs. cbn [before rest]. f_equal.
  apply exec_loop_fuel; rewrite ?length_app; lia.
Qed.

Lemma is_separator_inv (s T : list ascii) :
  is_separator s = true ->
  Forall (fun c => icase atomChar c = false) s /\
  stops (icase atomChar) (s ++ T) /\ stops is_space (s ++ T) /\
  stops (icase (chr ".")) (s ++ T).
Proof.
  destruct s as [|c t]; [discriminate|]. cbn [is_separator app stops].
  intros H. apply andb_true_iff in H as [H Ht].
  apply andb_true_iff in H as [H Hdot].
  apply andb_true_iff in H as [Hatom Hspace].
  apply negb_true_iff in Hatom, Hspace, Hdot.
  split; [|done]. constructor; [exact Hatom|].
  apply List.Forall_forall. intros y Hy.
  rewrite forallb_forall in Ht. by apply negb_true_iff, Ht.
Qed.

Lemma is_trailer_inv (s : list ascii) :
  s = [] \/ is_separator s = true ->
  Forall (fun c => icase atomChar c = false) s /\
  stops (icase atomChar) s /\ stops is_space s /\ stops (icase (chr ".")) s.
Proof.
  intros [-> | Hs]; [by repeat split|].
  pose proof (is_separator_inv s [] Hs) as H. by rewrite app_nil_r in H.
Qed.

Lemma well_formed_item_inv (item : address * list ascii) :
  well_formed_item item = true ->
  well_formed (fst item) = true /\ is_separator (snd item) = true.
Proof. unfold well_formed_item. by intros ?%andb_true_iff. Qed.

Lemma exec_listing (items : list (address * list ascii)) :
  forallb well_formed_item items = true ->
  forall bef T,
    exists bef',
      exec_loop emailRegex (S (length (listing items ++ T))) bef
        (listing items ++ T) =
      map written (map fst items) ++
      exec_loop emailRegex (S (length T)) bef' T.
Proof.
  induction items as [|[x s] items IH]; intros Hitems bef T.
  - by exists bef.
  - simpl in Hitems. apply andb_true_iff in Hitems as [Hitem Hitems].
    apply well_formed_item_inv in Hitem as [Hx Hs]. cbn [fst snd] in Hx, Hs.
    destruct (is_separator_inv s (listing items ++ T) Hs)
      as (Hskip & Hatom & Hspace & Hdot).
    destruct (IH Hitems (rev s ++ rev (written x) ++ bef) T) as [bef' IH'].
    exists bef'. unfold listing. cbn [flat_map map fst snd]. fold (listing items).
    rewrite <- !List.app_assoc.
    rewrite exec_written by assumption.
    rewrite exec_skip by assumption. rewrite IH'. reflexivity.
Qed.

Lemma exec_all_listing (items : list (address * list ascii)) (z : address)
  (trailer : list ascii) :
  forallb well_formed_item items = true -> well_formed z = true ->
  trailer = [] \/ is_separator trailer = true ->
  exec_all emailRegex (listing items ++ written z ++ trailer) =
  map written (map fst items ++ [z]).
Proof.
  intros Hitems Hz Htrailer.
  destruct (is_trailer_inv trailer Htrailer) as (Hskip & Hatom & Hspace & Hdot).
  unfold exec_all.
  destruct (exec_listing items Hitems [] (written z ++ trailer))
    as [bef' ->].
  rewrite map_app. f_equal. rewrite exec_written by assumption.
  cbn [map]. f_equal.
  rewrite <- (app_nil_r trailer) at 1 2. rewrite exec_skip by assumption.
  rewrite exec_loop_S. by rewrite emailRegex_not_at_end.
Qed.

(** *** No comment line in a list of addresses *)


Lemma comment_free_nil : comment_free [].
Proof. intros fuel bef. by apply replace_loop_end, comment_needs_slash. Qed.

Lemma comment_free_separator (s T : list ascii) :
  Forall (fun c => chr "/" c = false) s ->
  comment_free T -> comment_free (s ++ T).
Proof.
  intros Hs HT. induction Hs as [|c s Hc Hs IH]; [exact HT|].
  intros fuel bef. destruct fuel; [reflexivity|].
  rewrite replace_loop_S. cbv zeta. cbn [app].
  rewrite comment_needs_slash by exact Hc. by rewrite IH.
Qed.

Lemma comment_free_inline (l T : list ascii) :
  Forall (fun c => is_newline c = false) l -> comment_free T ->
  forall fuel x bef, is_newline x = false ->
    replace_loop commentRegex (fun _ _ => []) fuel (x :: bef) (l ++ T) =
    l ++ T.
Proof.
  intros Hl HT. induction Hl as [|c l Hc Hl IH]; intros fuel x bef Hx.
  - apply HT.
  - destruct fuel; [reflexivity|]. rewrite replace_loop_S. cbv zeta.
    rewrite comment_needs_line_start by exact Hx. cbn [app]. by rewrite IH.
Qed.

Lemma comment_free_words (l T : list ascii) :
  Forall (fun c => is_newline c = false) l ->
  startsWith ["/"; "/"]%char (l ++ T) = false ->
  comment_free T -> comment_free (l ++ T).
Proof.
  intros Hl Hstart HT. destruct Hl as [|c l Hc Hl]; [exact HT|].
  intros fuel bef. destruct fuel; [reflexivity|].
  rewrite replace_loop_S. cbv zeta.
  rewrite comment_needs_two_slashes by exact Hstart. cbn [app].
  by rewrite comment_free_inline.
Qed.

(** *** What an address is made of *)

Lemma alnumHyphen_atomChar (c : ascii) :
  icase alnumHyphen c = true -> icase atomChar c = true.
Proof. by_cases c. Qed.

Lemma written_chars (Q : ascii -> Prop) (x : address) :
  (forall c, icase atomChar c = true -> Q c) -> Q "."%char -> Q "@"%char ->
  well_formed x = true -> Forall Q (written x).
Proof.
  intros HQ Hdot Hat Hx. unfold well_formed in Hx.
  apply andb_true_iff in Hx as [Hx _].
  apply andb_true_iff in Hx as [Hx Hlast].
  apply andb_true_iff in Hx as [Hx Hinit].
  apply andb_true_iff in Hx as [Hx _].
  apply andb_true_iff in Hx as [Hfirst Hmore].
  assert (HQ' : forall c, icase alnumHyphen c = true -> Q c)
    by auto using alnumHyphen_atomChar.
  unfold written. apply Forall_app. split; [by apply local_part_chars|].
  constructor; [exact Hat|]. apply Forall_app. split.
  - induction (domain_init x) as [|l init IH]; [constructor|].
    simpl in Hinit. apply andb_true_iff in Hinit as [Hl Hinit].
    cbn [flat_map]. apply Forall_app. split; [|by apply IH].
    apply Forall_app. split; [by apply label_chars|by constructor].
  - by apply label_chars.
Qed.

Lemma startsWith_written (x : address) (T : list ascii) :
  well_formed x = true ->
  startsWith ["/"; "/"]%char (written x ++ T) = false.
Proof.
  intros Hx. unfold well_formed in Hx.
  apply andb_true_iff in Hx as [Hx Hstart].
  apply negb_true_iff in Hstart.
  do 4 apply andb_true_iff in Hx as [Hx _].
  unfold written, local_part. rewrite <- !List.app_assoc.
  apply startsWith_slashes_app; [by apply atom_nonempty| |exact Hstart].
  by destruct (local_more x).
Qed.

(** *** Lowercasing keeps the list *)

Lemma toLowerCase_app (a b : list ascii) :
  toLowerCase (a ++ b) = toLowerCase a ++ toLowerCase b.
Proof. apply map_app. Qed.

Lemma labels_toLowerCase (init : list (list ascii)) :
  forallb is_label (map toLowerCase init) = forallb is_label init.
Proof.
  induction init as [|l init IH]; [reflexivity|].
  simpl. by rewrite is_label_toLowerCase, IH.
Qed.

Lemma well_formed_lower (x : address) : well_formed (lower x) = well_formed x.
Proof.
  unfold well_formed, lower. cbn [local_first local_more domain_init
    domain_last].
  by rewrite atom_toLowerCase, atoms_toLowerCase, length_map,
    labels_toLowerCase, is_label_toLowerCase, startsWith_toLowerCase.
Qed.

Lemma written_toLowerCase (x : address) :
  toLowerCase (written x) = written (lower x).
Proof.
  unfold written, lower. cbn [local_first local_more domain_init domain_last].
  unfold toLowerCase at 1. rewrite map_app. cbn [map]. rewrite map_app.
  fold (toLowerCase (local_part (local_first x) (local_more x))).
  fold (toLowerCase (domain_last x)).
  rewrite local_part_toLowerCase. do 3 f_equal.
  induction (domain_init x) as [|l init IH]; [reflexivity|].
  cbn [flat_map map]. rewrite !map_app, IH. reflexivity.
Qed.

Lemma is_separator_toLowerCase (s : list ascii) :
  is_separator (toLowerCase s) = is_separator s.
Proof.
  destruct s as [|c t]; [reflexivity|]. cbn [toLowerCase map is_separator].
  rewrite !icase_to_lower, is_space_to_lower. f_equal.
  apply forallb_toLowerCase. intros y. by rewrite icase_to_lower.
Qed.

Lemma well_formed_items_lower (items : list (address * list ascii)) :
  forallb well_formed_item (map lower_item items) =
  forallb well_formed_item items.
Proof.
  induction items as [|[x s] items IH]; [reflexivity|].
  cbn [map forallb]. rewrite IH. f_equal. unfold well_formed_item, lower_item.
  cbn [fst snd]. by rewrite well_formed_lower, is_separator_toLowerCase.
Qed.

Lemma listing_toLowerCase (items : list (address * list ascii)) :
  toLowerCase (listing items) = listing (map lower_item items).
Proof.
  induction items as [|[x s] items IH]; [reflexivity|].
  unfold listing, toLowerCase in *. cbn [flat_map map fst snd lower_item].
  rewrite !map_app, IH. fold (toLowerCase (written x)).
  by rewrite written_toLowerCase.
Qed.

(** *** The list holds no comment line *)

Lemma comment_free_written (x : address) (T : list ascii) :
  well_formed x = true -> comment_free T -> comment_free (written x ++ T).
Proof.
  intros Hx HT. apply comment_free_words; [| |exact HT].
  - by apply written_chars; auto using atomChar_not_newline.
  - by apply startsWith_written.
Qed.

Lemma comment_free_listing (items : list (address * list ascii))
  (T : list ascii) :
  forallb well_formed_item items = true ->
  comment_free T -> comment_free (listing items ++ T).
Proof.
  intros Hitems HT. induction items as [|[x s] items IH]; [exact HT|].
  simpl in Hitems. apply andb_true_iff in Hitems as [Hitem Hitems].
  apply well_formed_item_inv in Hitem as [Hx Hs]. cbn [fst snd] in Hx, Hs.
  destruct (is_separator_inv s [] Hs) as (Hskip & _).
  unfold listing. cbn [flat_map fst snd]. fold (listing items).
  rewrite <- !List.app_assoc.
  apply comment_free_written; [exact Hx|].
  apply comment_free_separator; [|by apply IH].
  eapply Forall_impl; [exact Hskip|]. apply not_atomChar_not_slash.
Qed.

(** *** An address in its usual writing is kept as it is *)

Lemma obfuscation_written (x : address) :
  well_formed x = true ->
  replace_all obfuscationRegex deobfuscate (written x) = written x.
Proof.
  intros Hx. unfold replace_all.
  assert (Hchars : Forall (fun c => is_space c = false) (written x))
    by (by apply written_chars; auto using atomChar_not_space).
  pose proof (obfuscation_copy deobfuscate (written x) Hchars [] []) as E.
  rewrite obfuscation_end, !app_nil_r in E. exact E.
Qed.

Lemma matches_kept (xs : list address) :
  Forall (fun x => well_formed x = true) xs ->
  flat_map
    (fun m0 =>
       if negb (startsWith ["/"; "/"]%char m0)
       then [str (replace_all obfuscationRegex deobfuscate m0)]
       else [])
    (map written (map lower xs)) =
  map (fun x => str (toLowerCase (written x))) xs.
Proof.
  induction 1 as [|x xs Hx Hxs IH]; [reflexivity|].
  cbn [map flat_map]. rewrite IH.
  pose proof (startsWith_written (lower x) []) as Hstart.
  rewrite app_nil_r, well_formed_lower in Hstart. rewrite (Hstart Hx).
  cbn [negb app]. rewrite obfuscation_written by (by rewrite well_formed_lower).
  by rewrite written_toLowerCase.
Qed.

Lemma parseEmailAddresses_of_listing (items : list (address * list ascii))
  (z : address) (trailer : list ascii) :
  forallb well_formed_item items = true -> well_formed z = true ->
  trailer = [] \/ is_separator trailer = true ->
  parseEmailAddresses (str (listing items ++ written z ++ trailer)) =
  map (fun x => str (toLowerCase (written x))) (map fst items ++ [z]).
Proof.
  intros Hitems Hz Htrailer. unfold parseEmailAddresses.
  rewrite str_truthy, chars_str.
  assert (Hlen : Nat.eqb (length (listing items ++ written z ++ trailer)) 0
                 = false).
  { apply Nat.eqb_neq. rewrite !length_app.
    pose proof (written_length z). lia. }
  rewrite Hlen. cbn [negb]. cbv zeta.
  assert (Hfree : comment_free (listing items ++ written z ++ trailer)).
  { apply comment_free_listing; [exact Hitems|].
    apply comment_free_written; [exact Hz|].
    rewrite <- (app_nil_r trailer).
    apply comment_free_separator; [|apply comment_free_nil].
    destruct (is_trailer_inv trailer Htrailer) as (Hskip & _).
    eapply Forall_impl; [exact Hskip|]. apply not_atomChar_not_slash. }
  rewrite (Hfree _ [] : replace_all commentRegex _ _ = _).
  rewrite !toLowerCase_app, listing_toLowerCase, written_toLowerCase.
  rewrite exec_all_listing.
  - replace (map fst (map lower_item items) ++ [lower z])
      with (map lower (map fst items ++ [z])).
    + apply matches_kept. apply Forall_app. split; [|by constructor].
      apply List.Forall_forall. intros x Hin.
      apply in_map_iff in Hin as (item & <- & Hin).
      rewrite forallb_forall in Hitems.
      by apply well_formed_item_inv, Hitems.
    + rewrite map_app, !map_map. reflexivity.
  - by rewrite well_formed_items_lower.
  - by rewrite well_formed_lower.
  - destruct Htrailer as [-> | Hs]; [by left|right].
    by rewrite is_separator_toLowerCase.
Qed.

(** X23. A list of addresses in their usual writing (atoms separated by
    dots, the at sign, two labels or more separated by dots), none of which
    begins with the comment marker, each followed by a separator (a comma,
    a semicolon or another code unit that no address holds and that is
    neither white space nor a dot, then any code units that start no
    address, white space included), the last one with or without such a
    separator, is parsed into exactly these addresses, in lower case and
    in the order of the text. *)
Theorem parseEmailAddresses_address_list
  (items : list (address * list ascii)) (z : address) (trailer : list ascii)
  (Hitems : forallb well_formed_item items = true)
  (Hz : well_formed z = true)
  (Htrailer : trailer = [] \/ is_separator trailer = true) :
  parseEmailAddresses (str (listing items ++ written z ++ trailer)) =
  map (fun x => str (toLowerCase (written x))) (map fst items ++ [z]).
Proof. by apply parseEmailAddresses_of_listing. Qed.

(** *** Joining and parsing again *)

Lemma str_app (a b : list ascii) : str (a ++ b) = (str a +:+ str b)%string.
Proof. induction a as [|c a IH]; [reflexivity|]. simpl. by rewrite IH. Qed.

Lemma join_written (ys : list address) (z : address) :
  join "," (map (fun x => str (written x)) (ys ++ [z])) =
  str (listing (map (fun x => (x, [","%char])) ys) ++ written z ++ []).
Proof.
  induction ys as [|y ys IH].
  - simpl. by rewrite app_nil_r.
  - cbn [app map]. cbn [map] in IH.
    destruct (map (fun x => str (written x)) (ys ++ [z])) as [|s0 rest0] eqn:Hm.
    { by destruct ys. }
    change (join "," (str (written y) :: s0 :: rest0))
      with (str (written y) +:+ "," +:+ join "," (s0 :: rest0))%string.
    rewrite IH. unfold listing. cbn [flat_map fst snd]. fold (listing
      (map (fun x => (x, [","%char])) ys)).
    rewrite <- !List.app_assoc, (str_app (written y)). reflexivity.
Qed.

Lemma comma_items (ys : list address) :
  forallb well_formed ys = true ->
  forallb well_formed_item (map (fun x => (x, [","%char])) ys) = true.
Proof.
  induction ys as [|y ys IH]; [reflexivity|]. simpl.
  intros [Hy Hys]%andb_true_iff. apply andb_true_iff. split; [|by apply IH].
  unfold well_formed_item. cbn [fst snd]. by rewrite Hy.
Qed.

Lemma parse_join (xs : list address) :
  forallb well_formed xs = true ->
  parseEmailAddresses (join "," (map (fun x => str (written x)) xs)) =
  map (fun x => str (toLowerCase (written x))) xs.
Proof.
  intros Hxs. destruct xs as [|z ys _] using rev_ind.
  - reflexivity.
  - rewrite forallb_app in Hxs. apply andb_true_iff in Hxs as [Hys Hz].
    simpl in Hz. rewrite andb_true_r in Hz.
    rewrite join_written.
    rewrite parseEmailAddresses_of_listing;
      [|by apply comma_items|exact Hz|by left].
    rewrite (map_map _ fst). cbn [fst]. by rewrite List.map_id.
Qed.

(** X24. Joining and parsing again. The writings of addresses that are
    well formed, joined by commas as [combineEmailAddresses] joins the
    recipients, are parsed back into the same addresses, in the same
    order, in lower case; joining no address gives the empty text, in
    which no address is found. *)
Theorem parseEmailAddresses_of_joined (xs : list address)
  (Hxs : forallb well_formed xs = true) :
  parseEmailAddresses (join "," (map (fun x => str (written x)) xs)) =
  map (fun x => str (toLowerCase (written x))) xs.
Proof. by apply parse_join. Qed.

End AddressLists.

Lemma parseEmailAddresses_address_list_witness :
  Code.EmailUtils.parseEmailAddresses
    "Ann.Lee@Example.org, bob@mail.example.com;" =
  ["ann.lee@example.org"%string; "bob@mail.example.com"%string].
Proof.
  apply (parseEmailAddresses_address_list
           [(Plain.Address (Text.chars "Ann") [Text.chars "Lee"]
               [Text.chars "Example"] (Text.chars "org"),
             Text.chars ", ")]
           (Plain.Address (Text.chars "bob") []
              [Text.chars "mail"; Text.chars "example"] (Text.chars "com"))
           (Text.chars ";")
           eq_refl eq_refl (or_intror eq_refl)).
Defined.

Lemma parseEmailAddresses_of_joined_witness :
  Code.EmailUtils.parseEmailAddresses
    (Text.join "," ["ann@example.org"; "bob.ray@mail.example.com"]%string) =
  ["ann@example.org"%string; "bob.ray@mail.example.com"%string].
Proof.
  apply (parseEmailAddresses_of_joined
           [Plain.Address (Text.chars "ann") [] [Text.chars "example"]
              (Text.chars "org");
            Plain.Address (Text.chars "bob") [Text.chars "ray"]
              [Text.chars "mail"; Text.chars "example"] (Text.chars "com")]
           eq_refl).
Defined.
